(** * Tank battle engine: a shallow embedding and its verified properties

    The development follows the C++ sources: [Position.h], [Direction.h],
    [Tank.h], [Shell.h], [Wall.h], [Mine.h], [GameState.h],
    [GameManager.cpp] and [ChasingAlgorithm.h/.cpp].

    C++ [int] values are modelled as [Z].  Signed overflow is undefined
    behaviour in C++, and every quantity of the engine (coordinates below the
    board size, ammunition, cooldown, wall health) stays far from the 32-bit
    limits, so no wrap-around is written for plain [int] arithmetic.  The
    operator [%] on [int] truncates toward zero and is modelled by [Z.rem];
    arithmetic that the source performs on [size_t] is reduced modulo
    [2^64] explicitly. *)

From stdpp Require Import gmap strings list.
From Stdlib Require Import ZArith Lia Ascii.

Open Scope Z_scope.

(** ** Position.h *)

Record Position := mkPos { px : Z; py : Z }.

#[global] Instance Position_eq_dec : EqDecision Position.
Proof. solve_decision. Defined.

#[global] Instance Position_countable : Countable Position :=
  inj_countable' (fun p => (px p, py p)) (fun q => mkPos (fst q) (snd q))
                 (fun p => match p with mkPos _ _ => eq_refl end).

(** [Position::operator==] *)
Definition pos_eqb (a b : Position) : bool :=
  (px a =? px b) && (py a =? py b).

(** [Position::operator+] *)
Definition pos_add (a b : Position) : Position :=
  mkPos (px a + px b) (py a + py b).

(** ** Direction.h *)

Inductive Direction :=
| UP | UP_RIGHT | RIGHT | DOWN_RIGHT | DOWN | DOWN_LEFT | LEFT | UP_LEFT.

#[global] Instance Direction_eq_dec : EqDecision Direction.
Proof. solve_decision. Defined.

(** [static_cast<int>(dir)] *)
Definition dir_index (d : Direction) : Z :=
  match d with
  | UP => 0 | UP_RIGHT => 1 | RIGHT => 2 | DOWN_RIGHT => 3
  | DOWN => 4 | DOWN_LEFT => 5 | LEFT => 6 | UP_LEFT => 7
  end.

(** [static_cast<Direction>(i)] for an index in [0, 8). *)
Definition dir_of_index (i : Z) : Direction :=
  match i with
  | 0 => UP | 1 => UP_RIGHT | 2 => RIGHT | 3 => DOWN_RIGHT
  | 4 => DOWN | 5 => DOWN_LEFT | 6 => LEFT | _ => UP_LEFT
  end.

Definition dir_eqb (a b : Direction) : bool := dir_index a =? dir_index b.

Module DirectionUtils.

(** [DirectionUtils::getMovementOffset] *)
Definition getMovementOffset (dir : Direction) (multiplier : Z) : Position :=
  match dir with
  | UP => mkPos 0 (- multiplier)
  | UP_RIGHT => mkPos multiplier (- multiplier)
  | RIGHT => mkPos multiplier 0
  | DOWN_RIGHT => mkPos multiplier multiplier
  | DOWN => mkPos 0 multiplier
  | DOWN_LEFT => mkPos (- multiplier) multiplier
  | LEFT => mkPos (- multiplier) 0
  | UP_LEFT => mkPos (- multiplier) (- multiplier)
  end.

(** [DirectionUtils::rotate]: the index of an enumerator is always in
    range, so the safety branch of the source is never taken. *)
Definition rotate (dir : Direction) (steps : Z) : Direction :=
  let num_directions := 8 in
  let dir_idx := dir_index dir in
  let final_index :=
    Z.rem (Z.rem (dir_idx + steps) num_directions + num_directions)
          num_directions in
  dir_of_index final_index.

(** [DirectionUtils::opposite] *)
Definition opposite (dir : Direction) : Direction := rotate dir 4.

End DirectionUtils.

(** ** ActionRequest.h, ActionOutcome.h *)

Inductive ActionRequest :=
| MoveForward | MoveBackward | RotateRight45 | RotateLeft45
| RotateRight90 | RotateLeft90 | Shoot | DoNothing | GetBattleInfo.

#[global] Instance ActionRequest_eq_dec : EqDecision ActionRequest.
Proof. solve_decision. Defined.

Inductive ActionOutcome :=
| NONE | SHOT_INITIATED | MOVE_PENDING | ROTATED | STATE_CHANGED
| INVALID_ACTION | RETURNING_BATTLE_INFO.

#[global] Instance ActionOutcome_eq_dec : EqDecision ActionOutcome.
Proof. solve_decision. Defined.

(** ** Shell.h, Wall.h, Mine.h *)

Record Shell := mkShell {
  shell_position : Position;
  shell_is_destroyed : bool;
  shell_movement_progress : Z;
  shell_direction : Direction
}.

Definition Shell_speed : Z := 2.

(** [Shell::Shell(pos, dir)] *)
Definition new_Shell (pos : Position) (dir : Direction) : Shell :=
  mkShell pos false 0 dir.

Record Wall := mkWall {
  wall_position : Position;
  wall_is_destroyed : bool;
  health : Z
}.

(** [Wall::Wall(pos)] *)
Definition new_Wall (pos : Position) : Wall := mkWall pos false 2.

(** [Wall::takeDamage]: returns the updated wall and the boolean result. *)
Definition takeDamage (w : Wall) : Wall * bool :=
  let h := health w - 1 in
  if h <=? 0 then (mkWall (wall_position w) true h, true)
  else (mkWall (wall_position w) (wall_is_destroyed w) h, false).

Record Mine := mkMine {
  mine_position : Position;
  mine_is_destroyed : bool
}.

(** [Mine::Mine(pos)] *)
Definition new_Mine (pos : Position) : Mine := mkMine pos false.

(** ** Tank.h *)

Inductive TankMovementState := INITIAL | BWD_1 | BWD_2 | MOVING_BWD.

#[global] Instance TankMovementState_eq_dec : EqDecision TankMovementState.
Proof. solve_decision. Defined.

Record Tank := mkTank {
  position : Position;
  is_destroyed : bool;
  movementState : TankMovementState;
  player_id : Z;
  tank_id : Z;
  movement_progress : Z;
  cannonDirection : Direction;
  shells_remaining : Z;
  cooldown_remaining : Z;
  multiplier : Z;
  move_intent_this_step : bool
}.

Definition Tank_speed : Z := 1.

(** [Tank::Tank(pos, id, initialDirection)].  The constructor reads two
    static variables, [next_tank_id] and [initial_shells], and leaves
    [multiplier] uninitialised; the three are arguments here. *)
Definition new_Tank (next_tank_id initial_shells indeterminate : Z)
    (pos : Position) (id : Z) (initialDirection : Direction) : Tank :=
  mkTank pos false INITIAL id next_tank_id 0 initialDirection
         initial_shells 0 indeterminate false.

(** [GameObject::symbol] of a tank: ['1'] for player 1, ['2'] otherwise. *)
Definition tank_symbol (t : Tank) : ascii :=
  if player_id t =? 1 then "1"%char else "2"%char.

Definition set_position (p : Position) (t : Tank) : Tank :=
  mkTank p (is_destroyed t) (movementState t) (player_id t) (tank_id t)
         (movement_progress t) (cannonDirection t) (shells_remaining t)
         (cooldown_remaining t) (multiplier t) (move_intent_this_step t).

Definition set_is_destroyed (b : bool) (t : Tank) : Tank :=
  mkTank (position t) b (movementState t) (player_id t) (tank_id t)
         (movement_progress t) (cannonDirection t) (shells_remaining t)
         (cooldown_remaining t) (multiplier t) (move_intent_this_step t).

Definition set_movementState (s : TankMovementState) (t : Tank) : Tank :=
  mkTank (position t) (is_destroyed t) s (player_id t) (tank_id t)
         (movement_progress t) (cannonDirection t) (shells_remaining t)
         (cooldown_remaining t) (multiplier t) (move_intent_this_step t).

Definition set_movement_progress (v : Z) (t : Tank) : Tank :=
  mkTank (position t) (is_destroyed t) (movementState t) (player_id t)
         (tank_id t) v (cannonDirection t) (shells_remaining t)
         (cooldown_remaining t) (multiplier t) (move_intent_this_step t).

Definition set_cannonDirection (d : Direction) (t : Tank) : Tank :=
  mkTank (position t) (is_destroyed t) (movementState t) (player_id t)
         (tank_id t) (movement_progress t) d (shells_remaining t)
         (cooldown_remaining t) (multiplier t) (move_intent_this_step t).

Definition set_shells_remaining (v : Z) (t : Tank) : Tank :=
  mkTank (position t) (is_destroyed t) (movementState t) (player_id t)
         (tank_id t) (movement_progress t) (cannonDirection t) v
         (cooldown_remaining t) (multiplier t) (move_intent_this_step t).

Definition set_cooldown_remaining (v : Z) (t : Tank) : Tank :=
  mkTank (position t) (is_destroyed t) (movementState t) (player_id t)
         (tank_id t) (movement_progress t) (cannonDirection t)
         (shells_remaining t) v (multiplier t) (move_intent_this_step t).

Definition set_multiplier (v : Z) (t : Tank) : Tank :=
  mkTank (position t) (is_destroyed t) (movementState t) (player_id t)
         (tank_id t) (movement_progress t) (cannonDirection t)
         (shells_remaining t) (cooldown_remaining t) v
         (move_intent_this_step t).

Definition set_move_intent (b : bool) (t : Tank) : Tank :=
  mkTank (position t) (is_destroyed t) (movementState t) (player_id t)
         (tank_id t) (movement_progress t) (cannonDirection t)
         (shells_remaining t) (cooldown_remaining t) (multiplier t) b.

(** [Tank::rotate] *)
Definition Tank_rotate (steps : Z) (t : Tank) : Tank :=
  set_cannonDirection (DirectionUtils.rotate (cannonDirection t) steps) t.

(** The test [shells_remaining > 0 && cooldown_remaining == 0]. *)
Definition can_shoot (t : Tank) : bool :=
  (0 <? shells_remaining t) && (cooldown_remaining t =? 0).

(** [Tank::transitionMovementState] *)
Definition transitionMovementState (action : ActionRequest) (t0 : Tank)
  : Tank * ActionOutcome :=
  let t := set_move_intent false t0 in
  match action with
  | GetBattleInfo => (t, RETURNING_BATTLE_INFO)
  | _ =>
    match movementState t with
    | INITIAL =>
      match action with
      | MoveForward => (set_move_intent true (set_multiplier 1 t), MOVE_PENDING)
      | MoveBackward => (set_movementState BWD_1 t, STATE_CHANGED)
      | RotateLeft45 => (Tank_rotate (-1) t, ROTATED)
      | RotateLeft90 => (Tank_rotate (-2) t, ROTATED)
      | RotateRight45 => (Tank_rotate 1 t, ROTATED)
      | RotateRight90 => (Tank_rotate 2 t, ROTATED)
      | Shoot => if can_shoot t then (t, SHOT_INITIATED)
                 else (t, INVALID_ACTION)
      | _ => (t, NONE)
      end
    | BWD_1 =>
      match action with
      | MoveForward => (set_movementState INITIAL t, STATE_CHANGED)
      | RotateLeft45 | RotateLeft90 | RotateRight45 | RotateRight90
      | Shoot | MoveBackward => (set_movementState BWD_2 t, STATE_CHANGED)
      | _ => (t, NONE)
      end
    | BWD_2 =>
      match action with
      | MoveForward => (set_movementState INITIAL t, STATE_CHANGED)
      | RotateLeft45 | RotateLeft90 | RotateRight45 | RotateRight90
      | Shoot | MoveBackward =>
          (set_move_intent true
             (set_multiplier (-1) (set_movementState MOVING_BWD t)),
           MOVE_PENDING)
      | _ => (t, NONE)
      end
    | MOVING_BWD =>
      match action with
      | MoveForward =>
          (set_move_intent true
             (set_multiplier 1 (set_movementState INITIAL t)),
           MOVE_PENDING)
      | RotateLeft45 => (Tank_rotate (-1) (set_movementState INITIAL t), ROTATED)
      | RotateLeft90 => (Tank_rotate (-2) (set_movementState INITIAL t), ROTATED)
      | RotateRight45 => (Tank_rotate 1 (set_movementState INITIAL t), ROTATED)
      | RotateRight90 => (Tank_rotate 2 (set_movementState INITIAL t), ROTATED)
      | Shoot =>
          let t1 := set_movementState INITIAL t in
          if can_shoot t1 then (t1, SHOT_INITIATED) else (t1, INVALID_ACTION)
      | MoveBackward =>
          (set_move_intent true (set_multiplier (-1) t), MOVE_PENDING)
      | _ => (t, NONE)
      end
    end
  end.

(** [Tank::updateMovementProgress]: returns the updated tank and the
    intended position. *)
Definition updateMovementProgress (max_speed board_width board_height : Z)
    (t : Tank) : Tank * Position :=
  if negb (move_intent_this_step t) then
    (set_movement_progress 0 t, position t)
  else
    let t1 := set_movement_progress (movement_progress t + Tank_speed) t in
    if max_speed <=? movement_progress t1 then
      let offset :=
        DirectionUtils.getMovementOffset (cannonDirection t1) (multiplier t1) in
      let intendedPositionX :=
        Z.rem (px (position t1) + px offset + board_width) board_width in
      let intendedPositionY :=
        Z.rem (py (position t1) + py offset + board_height) board_height in
      (set_movement_progress (movement_progress t1 - max_speed) t1,
       mkPos intendedPositionX intendedPositionY)
    else (t1, position t1).

(** [Tank::shoot]: the updated tank and the new shell, if any. *)
Definition shoot (t : Tank) : Tank * option Shell :=
  if can_shoot t then
    let t1 := set_shells_remaining (shells_remaining t - 1) t in
    let t2 := set_cooldown_remaining 4 t1 in
    let shellPos := position t2 in
    (t2, Some (new_Shell shellPos (cannonDirection t2)))
  else (t, None).

(** [Tank::decrementCooldown] *)
Definition decrementCooldown (t : Tank) : Tank :=
  if 0 <? cooldown_remaining t
  then set_cooldown_remaining (cooldown_remaining t - 1) t
  else t.

(** ** GameObject.h, GameState.h

    [GameState::objects] is a vector of shared pointers.  The type of a
    tank entry is a parameter [T]: [GameState Tank] holds its tanks by value
    (all that [clone] needs), while the engine, whose tank objects are shared
    between [state->objects], the manager's [tanks] map and the per-step
    [tank_data], uses [GameState Z]: a tank in [objects] is the id under
    which the tank itself is stored, and [view] dereferences it. *)

Inductive GameObject (T : Type) :=
| TankObj (t : T)
| ShellObj (s : Shell)
| WallObj (w : Wall)
| MineObj (m : Mine).
Arguments TankObj {T} t.
Arguments ShellObj {T} s.
Arguments WallObj {T} w.
Arguments MineObj {T} m.

Record GameState (T : Type) := mkGameState {
  board_width : Z;
  board_height : Z;
  objects : list (GameObject T)
}.
Arguments mkGameState {T} _ _ _.
Arguments board_width {T} _.
Arguments board_height {T} _.
Arguments objects {T} _.

Definition set_objects {T} (objs : list (GameObject T)) (gs : GameState T)
  : GameState T :=
  mkGameState (board_width gs) (board_height gs) objs.

(** [GameState::clone].  [fresh o] stands for what the [Tank] constructor
    takes from outside for the copy of [o]: the static id counter, the static
    [initial_shells] and the indeterminate initial [multiplier]. *)
Definition clone_object (fresh : Tank -> Z * Z * Z) (obj : GameObject Tank)
  : GameObject Tank :=
  match obj with
  | TankObj tank =>
      let '(next_id, initial_shells, indet) := fresh tank in
      let newTank :=
        new_Tank next_id initial_shells indet
                 (position tank) (player_id tank) (cannonDirection tank) in
      let newTank := set_shells_remaining (shells_remaining tank) newTank in
      let newTank := set_cooldown_remaining (cooldown_remaining tank) newTank in
      TankObj newTank
  | ShellObj shell =>
      ShellObj (new_Shell (shell_position shell) (shell_direction shell))
  | WallObj wall => WallObj (new_Wall (wall_position wall))
  | MineObj mine => MineObj (new_Mine (mine_position mine))
  end.

Definition value_is_destroyed (obj : GameObject Tank) : bool :=
  match obj with
  | TankObj t => is_destroyed t
  | ShellObj s => shell_is_destroyed s
  | WallObj w => wall_is_destroyed w
  | MineObj m => mine_is_destroyed m
  end.

Definition clone (fresh : Tank -> Z * Z * Z) (gs : GameState Tank)
  : GameState Tank :=
  mkGameState (board_width gs) (board_height gs)
    (List.map (clone_object fresh)
       (List.filter (fun obj => negb (value_is_destroyed obj)) (objects gs))).

Section GameStateQueries.
Context {T : Type} (view : T -> option Tank).

(** [obj->is_destroyed]; a tank reference that [view] cannot resolve does
    not occur in the engine and is skipped like a destroyed object. *)
Definition obj_is_destroyed (obj : GameObject T) : bool :=
  match obj with
  | TankObj r => match view r with Some t => is_destroyed t | None => true end
  | ShellObj s => shell_is_destroyed s
  | WallObj w => wall_is_destroyed w
  | MineObj m => mine_is_destroyed m
  end.

(** [obj->position] *)
Definition obj_position (obj : GameObject T) : Position :=
  match obj with
  | TankObj r => match view r with Some t => position t | None => mkPos 0 0 end
  | ShellObj s => shell_position s
  | WallObj w => wall_position w
  | MineObj m => mine_position m
  end.

(** [obj->symbol] *)
Definition obj_symbol (obj : GameObject T) : ascii :=
  match obj with
  | TankObj r => match view r with Some t => tank_symbol t | None => " " end
  | ShellObj _ => "*"
  | WallObj _ => "#"
  | MineObj _ => "@"
  end%char.

(** [GameObject::render] *)
Definition render (obj : GameObject T) : ascii :=
  if obj_is_destroyed obj then " "%char else obj_symbol obj.

Definition is_shell (obj : GameObject T) : bool :=
  match obj with ShellObj _ => true | _ => false end.

(** [GameState::getObjectAt]: the first live object at [pos], with its
    index in [objects] (the index plays the role of the pointer). *)
Fixpoint getObjectAt_from (i : nat) (objs : list (GameObject T))
    (pos : Position) : option (nat * GameObject T) :=
  match objs with
  | [] => None
  | obj :: rest =>
      if negb (obj_is_destroyed obj) && pos_eqb (obj_position obj) pos
      then Some (i, obj)
      else getObjectAt_from (S i) rest pos
  end.

Definition getObjectAt (gs : GameState T) (pos : Position)
  : option (nat * GameObject T) :=
  getObjectAt_from 0 (objects gs) pos.

(** [GameState::getWallAt] *)
Definition getWallAt (gs : GameState T) (pos : Position)
  : option (nat * Wall) :=
  match getObjectAt gs pos with
  | Some (i, WallObj w) => Some (i, w)
  | _ => None
  end.

(** [GameState::getMineAt] *)
Definition getMineAt (gs : GameState T) (pos : Position)
  : option (nat * Mine) :=
  match getObjectAt gs pos with
  | Some (i, MineObj m) => Some (i, m)
  | _ => None
  end.

(** [GameState::getShells]: the live shells, as indices into [objects]. *)
Fixpoint getShells_from (i : nat) (objs : list (GameObject T)) : list nat :=
  match objs with
  | [] => []
  | ShellObj s :: rest =>
      if shell_is_destroyed s then getShells_from (S i) rest
      else i :: getShells_from (S i) rest
  | _ :: rest => getShells_from (S i) rest
  end.

Definition getShells (gs : GameState T) : list nat :=
  getShells_from 0 (objects gs).

(** [GameState::getTank]: the first live tank of the player. *)
Fixpoint getTank_in (objs : list (GameObject T)) (player : Z) : option Tank :=
  match objs with
  | [] => None
  | TankObj r :: rest =>
      match view r with
      | Some t =>
          if negb (is_destroyed t) && (player_id t =? player) then Some t
          else getTank_in rest player
      | None => getTank_in rest player
      end
  | _ :: rest => getTank_in rest player
  end.

Definition getTank (gs : GameState T) (player : Z) : option Tank :=
  getTank_in (objects gs) player.

End GameStateQueries.

(** The shell stored at index [i], if any. *)
Definition shell_at {T} (objs : list (GameObject T)) (i : nat) : option Shell :=
  match objs !! i with
  | Some (ShellObj s) => Some s
  | _ => None
  end.

(** [shell->is_destroyed] through the pointer [i]. *)
Definition shell_live {T} (objs : list (GameObject T)) (i : nat) : bool :=
  match shell_at objs i with
  | Some s => negb (shell_is_destroyed s)
  | None => false
  end.

Definition on_shell {T} (f : Shell -> Shell) (obj : GameObject T)
  : GameObject T :=
  match obj with ShellObj s => ShellObj (f s) | _ => obj end.

Definition on_wall {T} (f : Wall -> Wall) (obj : GameObject T)
  : GameObject T :=
  match obj with WallObj w => WallObj (f w) | _ => obj end.

Definition on_mine {T} (f : Mine -> Mine) (obj : GameObject T)
  : GameObject T :=
  match obj with MineObj m => MineObj (f m) | _ => obj end.

Definition destroy_shell (s : Shell) : Shell :=
  mkShell (shell_position s) true (shell_movement_progress s)
          (shell_direction s).

Definition destroy_mine (m : Mine) : Mine := mkMine (mine_position m) true.

(** [shell->is_destroyed = true] through the pointer [i]. *)
Definition destroy_shell_at {T} (i : nat) (objs : list (GameObject T))
  : list (GameObject T) :=
  alter (on_shell destroy_shell) i objs.

(** ** MySatelliteView.h, MyBattleInfo.h, MyPlayer.h, TankAlgorithm.h *)

(** [std::vector<std::vector<char>>], indexed [m[x][y]]. *)
Abbreviation Matrix := (list (list ascii)) (only parsing).

Definition matrix_new (w h : Z) (c : ascii) : Matrix :=
  replicate (Z.to_nat w) (replicate (Z.to_nat h) c).

(** [m[x][y]] read where the source indexes without a check; an index out of
    range is undefined behaviour there and reads as a blank here. *)
Definition matrix_get (m : Matrix) (x y : Z) : ascii :=
  if (x <? 0) || (y <? 0) then " "%char
  else match m !! Z.to_nat x with
       | Some col => match col !! Z.to_nat y with
                     | Some c => c
                     | None => " "%char
                     end
       | None => " "%char
       end.

(** [m[pos.x][pos.y] = c]; an index out of range is undefined behaviour in
    the source and leaves the matrix unchanged here. *)
Definition matrix_set (m : Matrix) (pos : Position) (c : ascii) : Matrix :=
  if (px pos <? 0) || (py pos <? 0) then m
  else alter (fun col => <[Z.to_nat (py pos) := c]> col) (Z.to_nat (px pos)) m.

(** [MySatelliteView::getObjectAt] *)
Definition SatelliteView_getObjectAt (board_matrix : Matrix) (x y : nat)
  : ascii :=
  match board_matrix with
  | [] => "&"%char
  | col0 :: _ =>
      if (length board_matrix <=? x)%nat || (length col0 =? 0)%nat
         || (length col0 <=? y)%nat
      then "&"%char
      else matrix_get board_matrix (Z.of_nat x) (Z.of_nat y)
  end.

Record MyBattleInfo := mkBattleInfo {
  bi_satelliteView : Matrix;
  bi_board_width : nat;
  bi_board_height : nat;
  bi_player_id : Z
}.

(** [MyBattleInfo::getObjectAt] *)
Definition BattleInfo_getObjectAt (info : MyBattleInfo) (x y : nat) : ascii :=
  SatelliteView_getObjectAt (bi_satelliteView info) x y.

(** [TankAlgorithm]: the strategy interface, over the strategy's own
    state [Strat]. *)
Class TankAlgorithm (Strat : Type) := {
  getAction : Strat -> ActionRequest * Strat;
  updateBattleInfo : MyBattleInfo -> Strat -> Strat
}.

Record MyPlayer := mkPlayer {
  player_index : Z;
  player_x : nat;
  player_y : nat
}.

(** [MyPlayer::updateTankWithBattleInfo] *)
Definition updateTankWithBattleInfo {Strat} `{TankAlgorithm Strat}
    (p : MyPlayer) (algorithm : Strat) (satelliteView : Matrix) : Strat :=
  let board_matrix :=
    List.map (fun i =>
      List.map (fun j => SatelliteView_getObjectAt satelliteView i j)
               (seq 0 (player_y p)))
      (seq 0 (player_x p)) in
  updateBattleInfo
    (mkBattleInfo board_matrix (player_x p) (player_y p) (player_index p))
    algorithm.

(** ** GameManager: per-step data

    [GameManager.h] is not part of the sources; the two structs are read off
    their uses in [GameManager.cpp] (the aggregate initialisers fix the field
    order of [LoggedAction]). *)

Record LoggedAction := mkLoggedAction {
  la_player_id : Z;
  la_tank_id : Z;
  la_action : ActionRequest;
  la_is_bad : bool;
  la_was_tank_destroyed : bool;
  la_killed_this_step : bool;
  la_tank : option Z
}.

Record TankStepData := mkTankStepData {
  intended_position : Position;
  action : ActionRequest;
  outcome : ActionOutcome;
  blocked_this_sub_step : bool;
  logged_action : LoggedAction
}.

(** One entry of [tank_data]: the key, the tank behind [data.tank] and the
    step data.  During a step the tanks live in these entries. *)
Record TankEntry := mkTankEntry {
  te_id : Z;
  te_tank : Tank;
  te_data : TankStepData
}.

Definition set_intended (p : Position) (d : TankStepData) : TankStepData :=
  mkTankStepData p (action d) (outcome d) (blocked_this_sub_step d)
                 (logged_action d).

Definition set_action (a : ActionRequest) (d : TankStepData) : TankStepData :=
  mkTankStepData (intended_position d) a (outcome d) (blocked_this_sub_step d)
                 (logged_action d).

Definition set_outcome (o : ActionOutcome) (d : TankStepData) : TankStepData :=
  mkTankStepData (intended_position d) (action d) o (blocked_this_sub_step d)
                 (logged_action d).

Definition set_blocked (b : bool) (d : TankStepData) : TankStepData :=
  mkTankStepData (intended_position d) (action d) (outcome d) b
                 (logged_action d).

Definition set_logged (l : LoggedAction) (d : TankStepData) : TankStepData :=
  mkTankStepData (intended_position d) (action d) (outcome d)
                 (blocked_this_sub_step d) l.

Definition with_tank (f : Tank -> Tank) (e : TankEntry) : TankEntry :=
  mkTankEntry (te_id e) (f (te_tank e)) (te_data e).

Definition with_data (f : TankStepData -> TankStepData) (e : TankEntry)
  : TankEntry :=
  mkTankEntry (te_id e) (te_tank e) (f (te_data e)).

Definition find_entry (id : Z) (entries : list TankEntry) : option TankEntry :=
  List.find (fun e => te_id e =? id) entries.

(** [data.tank] reached from [state->objects]. *)
Definition tank_of (entries : list TankEntry) (id : Z) : option Tank :=
  match find_entry id entries with
  | Some e => Some (te_tank e)
  | None => None
  end.

(** [tank_data[id]] updated in place. *)
Definition update_entry (id : Z) (f : TankEntry -> TankEntry)
    (entries : list TankEntry) : list TankEntry :=
  List.map (fun e => if te_id e =? id then f e else e) entries.

(** The block repeated in the three lethal collisions:
    [if (!data.tank->is_destroyed) { is_destroyed = true;
     was_tank_destroyed = true; killed_this_step = true; }] *)
Definition mark_killed (e : TankEntry) : TankEntry :=
  if is_destroyed (te_tank e) then e
  else
    let la := logged_action (te_data e) in
    mkTankEntry (te_id e) (set_is_destroyed true (te_tank e))
      (set_logged
         (mkLoggedAction (la_player_id la) (la_tank_id la) (la_action la)
                         (la_is_bad la) true true (la_tank la))
         (te_data e)).

(** The effective position of a tank in a sub-step. *)
Definition effective_position (e : TankEntry) : Position :=
  if blocked_this_sub_step (te_data e) then position (te_tank e)
  else intended_position (te_data e).

Definition assoc_lookup {A} (k : Z) (l : list (Z * A)) : option A :=
  match List.find (fun kv => fst kv =? k) l with
  | Some kv => Some (snd kv)
  | None => None
  end.

(** The fields of [GameManager] that [processStep] reads or writes.  The
    output and debug streams and the diagnostic text [game_over_reason] are
    left out; [tanks] lists the entries of the [tanks] map. *)
Record GameManager (Strat : Type) := mkGameManager {
  state : GameState Z;
  tanks : list (Z * Tank);
  algorithms : gmap Z Strat;
  player1 : MyPlayer;
  player2 : MyPlayer;
  action_log : list LoggedAction;
  all_shells_used : bool;
  steps_after_no_shells : Z;
  game_over : bool;
  winner : string
}.
Arguments mkGameManager {Strat} _ _ _ _ _ _ _ _ _ _.
Arguments state {Strat} _.
Arguments tanks {Strat} _.
Arguments algorithms {Strat} _.
Arguments player1 {Strat} _.
Arguments player2 {Strat} _.
Arguments action_log {Strat} _.
Arguments all_shells_used {Strat} _.
Arguments steps_after_no_shells {Strat} _.
Arguments game_over {Strat} _.
Arguments winner {Strat} _.

(** ** GameManager.cpp: one step *)

Section Engine.
Context {Strat : Type} `{TankAlgorithm Strat}.

(** The iteration order of a [std::unordered_map<int, _>] is fixed by the
    library, not by the language: [umap_order ks] is the order in which a
    map filled by inserting the (distinct) keys [ks] in that order is
    traversed. *)
Variable umap_order : list Z -> list Z.

(** A default-constructed [TankStepData] ([GameManager.h] is absent). *)
Variable fresh_data : TankStepData.

(** The constant [MAX_STEPS_AFTER_NO_SHELLS] ([GameManager.h] is absent). *)
Variable MAX_STEPS_AFTER_NO_SHELLS : Z.

(** The traversal of an unordered map filled by inserting [inserted]. *)
Definition umap_iter {A} (inserted : list (Z * A)) : list (Z * A) :=
  omap (fun k => match assoc_lookup k inserted with
                 | Some v => Some (k, v)
                 | None => None
                 end)
       (umap_order (List.map fst inserted)).

(** The body of the second loop of [prepareStep]. *)
Definition init_step_data (id : Z) (tank : Tank) : TankStepData :=
  let la0 := logged_action fresh_data in
  let la1 :=
    mkLoggedAction (player_id tank) id (la_action la0) (la_is_bad la0)
      (la_was_tank_destroyed la0) (la_killed_this_step la0) (Some id) in
  let la2 :=
    if is_destroyed tank
    then mkLoggedAction (la_player_id la1) (la_tank_id la1) DoNothing
           (la_is_bad la1) true false (la_tank la1)
    else la1 in
  set_logged la2 (set_intended (position tank) fresh_data).

(** [GameManager::prepareStep]: the cooldowns are decremented and
    [tank_data] is filled; the result lists [tank_data] in its traversal
    order.  The printing for interactive strategies is not modelled. *)
Definition prepareStep (tks : list (Z * Tank)) : list TankEntry :=
  let tks1 := List.map (fun kt => (fst kt, decrementCooldown (snd kt))) tks in
  let inserted :=
    List.map (fun kt => (fst kt, (snd kt, init_step_data (fst kt) (snd kt))))
             tks1 in
  List.map (fun kv => mkTankEntry (fst kv) (fst (snd kv)) (snd (snd kv)))
           (umap_iter inserted).

(** [GameManager::getPlayerActions]: also returns the ids whose strategy
    was polled, in polling order. *)
Fixpoint getPlayerActions (entries : list TankEntry) (algos : gmap Z Strat)
  : list TankEntry * gmap Z Strat * list Z :=
  match entries with
  | [] => ([], algos, [])
  | e :: rest =>
      if negb (is_destroyed (te_tank e)) then
        match algos !! te_id e with
        | Some s =>
            let '(a, s') := getAction s in
            let '(rest', algos', polled) :=
              getPlayerActions rest (<[te_id e := s']> algos) in
            (with_data (set_action a) e :: rest', algos', te_id e :: polled)
        | None =>
            let '(rest', algos', polled) := getPlayerActions rest algos in
            (with_data (set_action DoNothing) e :: rest', algos', polled)
        end
      else
        let '(rest', algos', polled) := getPlayerActions rest algos in
        (with_data (set_action DoNothing) e :: rest', algos', polled)
  end.

(** The body of the loop of [processTankTransitions]. *)
Definition transition_entry (e : TankEntry) : TankEntry :=
  if negb (is_destroyed (te_tank e)) then
    let '(t', o) := transitionMovementState (action (te_data e)) (te_tank e) in
    mkTankEntry (te_id e) t' (set_outcome o (te_data e))
  else with_data (set_outcome NONE) e.

(** [GameManager::processTankTransitions] *)
Definition processTankTransitions (entries : list TankEntry)
  : list TankEntry :=
  List.map transition_entry entries.

(** The two drawing loops at the head of [executeImmediateActions]. *)
Definition draw_object (view : Z -> option Tank) (m : Matrix)
    (obj : GameObject Z) : Matrix :=
  if obj_is_destroyed view obj then m
  else matrix_set m (obj_position view obj) (render view obj).

Definition draw_shell (view : Z -> option Tank) (m : Matrix)
    (obj : GameObject Z) : Matrix :=
  if obj_is_destroyed view obj then m
  else if is_shell obj
       then matrix_set m (obj_position view obj) (render view obj)
       else m.

Definition build_board_matrix (view : Z -> option Tank) (gs : GameState Z)
  : Matrix :=
  let m0 := matrix_new (board_width gs) (board_height gs) " " in
  let m1 := fold_left (draw_object view) (objects gs) m0 in
  fold_left (draw_shell view) (objects gs) m1.

Definition logged (t : Tank) (id : Z) (a : ActionRequest) (is_bad : bool)
  : LoggedAction :=
  mkLoggedAction (player_id t) id a is_bad (is_destroyed t) false (Some id).

(** The body of the main loop of [executeImmediateActions], on the state
    it shares between iterations: the board matrix, [state->objects] and
    the strategies. *)
Definition execute_entry (p1 p2 : MyPlayer) (e : TankEntry)
    (st : Matrix * list (GameObject Z) * gmap Z Strat)
  : TankEntry * (Matrix * list (GameObject Z) * gmap Z Strat) :=
  let '(m, objs, algos) := st in
  let id := te_id e in
  let t := te_tank e in
  let d := te_data e in
  if bool_decide (outcome d = SHOT_INITIATED) then
    match shoot t with
    | (t', Some newShell) =>
        (mkTankEntry id t' (set_logged (logged t' id Shoot false) d),
         (m, objs ++ [ShellObj newShell], algos))
    | (t', None) =>
        (mkTankEntry id t' (set_logged (logged t' id Shoot true) d), st)
    end
  else if bool_decide (action d = Shoot)
          && bool_decide (outcome d = INVALID_ACTION) then
    (with_data (set_logged (logged t id Shoot true)) e, st)
  else if bool_decide (outcome d = ROTATED) then
    (with_data (set_logged (logged t id (action d) false)) e, st)
  else if bool_decide (outcome d = INVALID_ACTION) then
    (with_data (set_logged (logged t id (action d) true)) e, st)
  else if bool_decide (outcome d = MOVE_PENDING)
          || bool_decide (outcome d = STATE_CHANGED) then
    (with_data (set_logged (logged t id (action d) false)) e, st)
  else if bool_decide (outcome d = RETURNING_BATTLE_INFO) then
    let m1 := matrix_set m (position t) "%" in
    let satelliteView := m1 in
    let algos' :=
      match algos !! id with
      | Some algo =>
          let p := if player_id t =? 1 then p1 else p2 in
          <[id := updateTankWithBattleInfo p algo satelliteView]> algos
      | None => algos
      end in
    let m2 :=
      matrix_set m1 (position t)
                 (if is_destroyed t then " "%char else tank_symbol t) in
    (with_data (set_logged (logged t id GetBattleInfo false)) e,
     (m2, objs, algos'))
  else (e, st).

Fixpoint execute_entries (p1 p2 : MyPlayer) (entries : list TankEntry)
    (st : Matrix * list (GameObject Z) * gmap Z Strat)
  : list TankEntry * (Matrix * list (GameObject Z) * gmap Z Strat) :=
  match entries with
  | [] => ([], st)
  | e :: rest =>
      let '(e', st1) := execute_entry p1 p2 e st in
      let '(rest', st2) := execute_entries p1 p2 rest st1 in
      (e' :: rest', st2)
  end.

(** [GameManager::executeImmediateActions] *)
Definition executeImmediateActions (p1 p2 : MyPlayer) (gs : GameState Z)
    (algos : gmap Z Strat) (entries : list TankEntry)
  : GameState Z * gmap Z Strat * list TankEntry :=
  let board_matrix := build_board_matrix (tank_of entries) gs in
  let '(entries', (_, objs', algos')) :=
    execute_entries p1 p2 entries (board_matrix, objects gs, algos) in
  (set_objects objs' gs, algos', entries').

(** *** The sub-step: intended positions *)

(** The second loop of [calculateIntendedTankPositionsSubStep], after the
    first has reset the intended position to the current one. *)
Definition intend_entry (max_speed : Z) (gs : GameState Z) (e : TankEntry)
  : TankEntry :=
  let e1 := with_data (set_intended (position (te_tank e))) e in
  if move_intent_this_step (te_tank e1) then
    let '(t', p) :=
      updateMovementProgress max_speed (board_width gs) (board_height gs)
                             (te_tank e1) in
    mkTankEntry (te_id e1) t' (set_intended p (te_data e1))
  else e1.

(** [GameManager::calculateIntendedTankPositionsSubStep] *)
Definition calculateIntendedTankPositionsSubStep (max_speed : Z)
    (gs : GameState Z) (entries : list TankEntry) : list TankEntry :=
  List.map (intend_entry max_speed gs) entries.

(** The body of the loop of [calculateShellIntendedPositionsSubStep]. *)
Definition intend_shell (max_speed : Z) (gs : GameState Z) (shell : Shell)
  : Shell * Position :=
  let currentPos := shell_position shell in
  let progress := shell_movement_progress shell + Shell_speed in
  if max_speed <=? progress then
    let offset := DirectionUtils.getMovementOffset (shell_direction shell) 1 in
    let intendedPos :=
      mkPos (Z.rem (px currentPos + px offset + board_width gs)
                   (board_width gs))
            (Z.rem (py currentPos + py offset + board_height gs)
                   (board_height gs)) in
    (mkShell currentPos (shell_is_destroyed shell) (progress - max_speed)
             (shell_direction shell),
     intendedPos)
  else
    (mkShell currentPos (shell_is_destroyed shell) progress
             (shell_direction shell),
     currentPos).

Fixpoint intend_shells (max_speed : Z) (gs : GameState Z)
    (current_shells : list nat) (objs : list (GameObject Z))
  : list (GameObject Z) * list (nat * Position) :=
  match current_shells with
  | [] => (objs, [])
  | i :: rest =>
      match shell_at objs i with
      | Some shell =>
          let '(shell', intendedPos) := intend_shell max_speed gs shell in
          let '(objs', out) :=
            intend_shells max_speed gs rest (<[i := ShellObj shell']> objs) in
          (objs', (i, intendedPos) :: out)
      | None => intend_shells max_speed gs rest objs
      end
  end.

(** [GameManager::calculateShellIntendedPositionsSubStep]: a shell of
    [shells_intended_positions] is its index in [state->objects]. *)
Definition calculateShellIntendedPositionsSubStep (max_speed : Z)
    (gs : GameState Z) : GameState Z * list (nat * Position) :=
  let '(objs', out) :=
    intend_shells max_speed gs (getShells gs) (objects gs) in
  (set_objects objs' gs, out).

(** *** The sub-step: collisions *)

(** The body of the loop of [resolveShellWallCollisions]. *)
Definition shell_wall_hit (view : Z -> option Tank)
    (wall_positions : gset Position) (gs : GameState Z)
    (sp : nat * Position) : GameState Z :=
  let '(i, pos) := sp in
  if shell_live (objects gs) i && bool_decide (pos ∈ wall_positions) then
    match getWallAt view gs pos with
    | Some (wi, wall) =>
        if negb (wall_is_destroyed wall) then
          let objs1 :=
            alter (on_wall (fun w => fst (takeDamage w))) wi (objects gs) in
          set_objects (destroy_shell_at i objs1) gs
        else gs
    | None => gs
    end
  else gs.

(** [GameManager::resolveShellWallCollisions] *)
Definition resolveShellWallCollisions (view : Z -> option Tank)
    (shells_intended_positions : list (nat * Position))
    (wall_positions : gset Position) (gs : GameState Z) : GameState Z :=
  fold_left (shell_wall_hit view wall_positions) shells_intended_positions gs.

(** The body of the loop of [resolveTankWallCollisions]. *)
Definition tank_wall_block (wall_positions : gset Position) (e : TankEntry)
  : TankEntry :=
  let d := te_data e in
  let t := te_tank e in
  if move_intent_this_step t
     && negb (pos_eqb (intended_position d) (position t))
     && bool_decide (intended_position d ∈ wall_positions)
  then
    mkTankEntry (te_id e)
      (set_move_intent false (set_movement_progress 0 t))
      (set_intended (position t) (set_blocked true d))
  else e.

(** [GameManager::resolveTankWallCollisions] *)
Definition resolveTankWallCollisions (wall_positions : gset Position)
    (entries : list TankEntry) : list TankEntry :=
  List.map (tank_wall_block wall_positions) entries.

(** [shells_at_intended_pos], filled by the first loop of
    [resolveShellShellCollisions]. *)
Definition shells_at_intended_pos (objs : list (GameObject Z))
    (shells_intended_positions : list (nat * Position))
  : gmap Position (list nat) :=
  fold_left
    (fun acc sp =>
       if shell_live objs (fst sp)
       then <[snd sp := default [] (acc !! snd sp) ++ [fst sp]]> acc
       else acc)
    shells_intended_positions ∅.

Definition destroy_group (objs : list (GameObject Z))
    (group : Position * list nat) : list (GameObject Z) :=
  if (1 <? length (snd group))%nat
  then fold_left (fun o i => destroy_shell_at i o) (snd group) objs
  else objs.

(** The inner loop of the head-on check, for the shell at index [si]
    whose position [pos] was read before the loop. *)
Definition head_on_with (si : nat) (pos : Position) (dir : Direction)
    (objs : list (GameObject Z)) (sp : nat * Position)
  : list (GameObject Z) :=
  let '(oi, intendedPos) := sp in
  match shell_at objs oi with
  | Some otherShell =>
      if negb (shell_is_destroyed otherShell)
         && pos_eqb intendedPos pos
         && negb (oi =? si)%nat
         && (Z.abs (dir_index dir - dir_index (shell_direction otherShell))
             =? 4)
      then destroy_shell_at oi (destroy_shell_at si objs)
      else objs
  | None => objs
  end.

Definition head_on_shell
    (shells_intended_positions : list (nat * Position))
    (objs : list (GameObject Z)) (si : nat) : list (GameObject Z) :=
  match shell_at objs si with
  | Some shell =>
      if negb (shell_is_destroyed shell) then
        fold_left (head_on_with si (shell_position shell)
                                (shell_direction shell))
                  shells_intended_positions objs
      else objs
  | None => objs
  end.

(** The first two loops of [resolveShellShellCollisions]: the shells that
    share an intended position are destroyed.  The traversal order of
    [shells_at_intended_pos] is that of [map_to_list]; each group is
    destroyed as a whole, whatever the order. *)
Definition destroy_coinciding
    (shells_intended_positions : list (nat * Position))
    (objs : list (GameObject Z)) : list (GameObject Z) :=
  let groups := shells_at_intended_pos objs shells_intended_positions in
  fold_left destroy_group (map_to_list groups) objs.

(** [GameManager::resolveShellShellCollisions] *)
Definition resolveShellShellCollisions
    (shells_intended_positions : list (nat * Position)) (gs : GameState Z)
  : GameState Z :=
  let objs1 := destroy_coinciding shells_intended_positions (objects gs) in
  let objs2 :=
    fold_left (head_on_shell shells_intended_positions)
              (getShells (set_objects objs1 gs)) objs1 in
  set_objects objs2 gs.

Definition live_entries (entries : list TankEntry) : list TankEntry :=
  List.filter (fun e => negb (is_destroyed (te_tank e))) entries.

(** The test inside the inner loop of [resolveShellTankCollisions]. *)
Definition shell_hits (intended_pos current_shell_pos : Position)
    (effective_pos current_tank_pos : Position) : bool :=
  let direct_hit := pos_eqb intended_pos effective_pos in
  let pass_through :=
    pos_eqb intended_pos current_tank_pos
    && pos_eqb current_shell_pos effective_pos in
  direct_hit || pass_through.

(** The main loop of [resolveShellTankCollisions]: the entries and the
    shells that hit a tank. *)
Fixpoint shell_tank_loop (tank_effective_positions : list (Z * Position))
    (tank_current_positions : list (Z * Position))
    (objs : list (GameObject Z))
    (shells_intended_positions : list (nat * Position))
    (entries : list TankEntry) : list TankEntry * list nat :=
  match shells_intended_positions with
  | [] => (entries, [])
  | (i, intended_pos) :: rest =>
      match shell_at objs i with
      | Some shell =>
          if shell_is_destroyed shell then
            shell_tank_loop tank_effective_positions tank_current_positions
                            objs rest entries
          else
            match List.find
                    (fun kp =>
                       shell_hits intended_pos (shell_position shell)
                         (snd kp)
                         (default (mkPos 0 0)
                            (assoc_lookup (fst kp) tank_current_positions)))
                    tank_effective_positions with
            | Some (id, _) =>
                let '(entries', hitting) :=
                  shell_tank_loop tank_effective_positions
                    tank_current_positions objs rest
                    (update_entry id mark_killed entries) in
                (entries', i :: hitting)
            | None =>
                shell_tank_loop tank_effective_positions
                  tank_current_positions objs rest entries
            end
      | None =>
          shell_tank_loop tank_effective_positions tank_current_positions
                          objs rest entries
      end
  end.

(** [GameManager::resolveShellTankCollisions] *)
Definition resolveShellTankCollisions
    (shells_intended_positions : list (nat * Position))
    (gs : GameState Z) (entries : list TankEntry)
  : GameState Z * list TankEntry :=
  let alive := live_entries entries in
  let tank_effective_positions :=
    umap_iter (List.map (fun e => (te_id e, effective_position e)) alive) in
  let tank_current_positions :=
    List.map (fun e => (te_id e, position (te_tank e))) alive in
  let '(entries', shells_hitting_tanks) :=
    shell_tank_loop tank_effective_positions tank_current_positions
                    (objects gs) shells_intended_positions entries in
  (set_objects
     (fold_left (fun o i => destroy_shell_at i o) shells_hitting_tanks
                (objects gs)) gs,
   entries').

(** The body of the second loop of [resolveTankMineCollisions]. *)
Definition tank_mine_hit (mine_positions : gset Position)
    (st : GameState Z * list TankEntry) (kp : Z * Position)
  : GameState Z * list TankEntry :=
  let '(gs, entries) := st in
  let '(id, effective_pos) := kp in
  if bool_decide (effective_pos ∈ mine_positions) then
    match getMineAt (tank_of entries) gs effective_pos with
    | Some (mi, mine) =>
        if negb (mine_is_destroyed mine) then
          (set_objects (alter (on_mine destroy_mine) mi (objects gs)) gs,
           update_entry id mark_killed entries)
        else st
    | None => st
    end
  else st.

(** [GameManager::resolveTankMineCollisions] *)
Definition resolveTankMineCollisions (mine_positions : gset Position)
    (gs : GameState Z) (entries : list TankEntry)
  : GameState Z * list TankEntry :=
  let tank_effective_positions :=
    umap_iter (List.map (fun e => (te_id e, effective_position e))
                        (live_entries entries)) in
  fold_left (tank_mine_hit mine_positions) tank_effective_positions
            (gs, entries).

(** The pairs [(tank_ids[i], tank_ids[j])], [i < j], in loop order. *)
Fixpoint id_pairs (tank_ids : list Z) : list (Z * Z) :=
  match tank_ids with
  | [] => []
  | a :: rest => List.map (fun b => (a, b)) rest ++ id_pairs rest
  end.

(** The test of the nested loops of [resolveTankTankCollisions]. *)
Definition tanks_collide (entries : list TankEntry) (pr : Z * Z) : bool :=
  match find_entry (fst pr) entries, find_entry (snd pr) entries with
  | Some e1, Some e2 =>
      let d1 := te_data e1 in
      let d2 := te_data e2 in
      if pos_eqb (effective_position e1) (effective_position e2) then
        let tank1_moved :=
          negb (blocked_this_sub_step d1)
          && negb (pos_eqb (intended_position d1) (position (te_tank e1))) in
        let tank2_moved :=
          negb (blocked_this_sub_step d2)
          && negb (pos_eqb (intended_position d2) (position (te_tank e2))) in
        tank1_moved || tank2_moved
        || pos_eqb (position (te_tank e1)) (position (te_tank e2))
      else false
  | _, _ => false
  end.

(** [GameManager::resolveTankTankCollisions] *)
Definition resolveTankTankCollisions (entries : list TankEntry)
  : list TankEntry :=
  let tank_ids := List.map te_id (live_entries entries) in
  let colliding_tank_pairs :=
    List.filter (tanks_collide entries) (id_pairs tank_ids) in
  fold_left
    (fun es pr =>
       update_entry (snd pr) mark_killed
                    (update_entry (fst pr) mark_killed es))
    colliding_tank_pairs entries.

(** The live walls' and the live mines' positions, collected at the head
    of [resolveCollisionsSubStep]. *)
Definition wall_positions_of (objs : list (GameObject Z)) : gset Position :=
  list_to_set
    (omap (fun obj => match obj with
                      | WallObj w => if wall_is_destroyed w then None
                                     else Some (wall_position w)
                      | _ => None
                      end) objs).

Definition mine_positions_of (objs : list (GameObject Z)) : gset Position :=
  list_to_set
    (omap (fun obj => match obj with
                      | MineObj m => if mine_is_destroyed m then None
                                     else Some (mine_position m)
                      | _ => None
                      end) objs).

(** [GameManager::resolveCollisionsSubStep] *)
Definition resolveCollisionsSubStep
    (shells_intended_positions : list (nat * Position))
    (gs : GameState Z) (entries : list TankEntry)
  : GameState Z * list TankEntry :=
  let wall_positions := wall_positions_of (objects gs) in
  let mine_positions := mine_positions_of (objects gs) in
  let gs1 :=
    resolveShellWallCollisions (tank_of entries) shells_intended_positions
                               wall_positions gs in
  let entries2 := resolveTankWallCollisions wall_positions entries in
  let gs3 := resolveShellShellCollisions shells_intended_positions gs1 in
  let '(gs4, entries4) :=
    resolveShellTankCollisions shells_intended_positions gs3 entries2 in
  let '(gs5, entries5) :=
    resolveTankMineCollisions mine_positions gs4 entries4 in
  (gs5, resolveTankTankCollisions entries5).

(** *** The sub-step: position update and the loop *)

(** The body of the first loop of [updateObjectPositionsSubStep]. *)
Definition update_tank_position (e : TankEntry) : TankEntry :=
  let id := te_id e in
  let t := te_tank e in
  let d := te_data e in
  if negb (is_destroyed t) && negb (blocked_this_sub_step d) then
    let d' :=
      if negb (pos_eqb (position t) (intended_position d)) then
        set_logged
          (logged t id
             (if 0 <? multiplier t then MoveForward else MoveBackward) false)
          d
      else d in
    mkTankEntry id (set_position (intended_position d) t) d'
  else if blocked_this_sub_step d then
    if (la_player_id (logged_action d) =? 0)
       || negb (bool_decide (la_action (logged_action d) = action d))
    then with_data (set_logged (logged t id (action d) true)) e
    else e
  else e.

(** The body of the second loop of [updateObjectPositionsSubStep]. *)
Definition update_shell_position (objs : list (GameObject Z))
    (sp : nat * Position) : list (GameObject Z) :=
  if shell_live objs (fst sp) then
    alter (on_shell (fun s =>
             mkShell (snd sp) (shell_is_destroyed s)
                     (shell_movement_progress s) (shell_direction s)))
          (fst sp) objs
  else objs.

(** [GameManager::updateObjectPositionsSubStep] *)
Definition updateObjectPositionsSubStep
    (shells_intended_positions : list (nat * Position))
    (gs : GameState Z) (entries : list TankEntry)
  : GameState Z * list TankEntry :=
  (set_objects
     (fold_left update_shell_position shells_intended_positions (objects gs))
     gs,
   List.map update_tank_position entries).

(** One iteration of the loop of [runMovementAndCollisionSubSteps], up to
    the early-exit test. *)
Definition sub_step (max_speed : Z) (gs : GameState Z)
    (entries : list TankEntry) : GameState Z * list TankEntry :=
  let entries0 := List.map (with_data (set_blocked false)) entries in
  let entries1 := calculateIntendedTankPositionsSubStep max_speed gs entries0 in
  let '(gs1, shells_intended_positions) :=
    calculateShellIntendedPositionsSubStep max_speed gs in
  let '(gs2, entries2) :=
    resolveCollisionsSubStep shells_intended_positions gs1 entries1 in
  updateObjectPositionsSubStep shells_intended_positions gs2 entries2.

Definition any_tank_alive (entries : list TankEntry) : bool :=
  existsb (fun e => negb (is_destroyed (te_tank e))) entries.

Fixpoint sub_steps (remaining : nat) (max_speed : Z) (gs : GameState Z)
    (entries : list TankEntry) : GameState Z * list TankEntry :=
  match remaining with
  | O => (gs, entries)
  | S k =>
      let '(gs', entries') := sub_step max_speed gs entries in
      if any_tank_alive entries' then sub_steps k max_speed gs' entries'
      else (gs', entries')
  end.

(** The head of [runMovementAndCollisionSubSteps]. *)
Definition compute_max_speed (gs : GameState Z) (entries : list TankEntry)
  : Z :=
  let max_speed := fold_left (fun s _ => Z.max s Tank_speed) entries 0 in
  let shells_exist :=
    existsb (fun obj => match obj with
                        | ShellObj s => negb (shell_is_destroyed s)
                        | _ => false
                        end) (objects gs) in
  if shells_exist then Z.max max_speed Shell_speed else max_speed.

(** [GameManager::runMovementAndCollisionSubSteps] *)
Definition runMovementAndCollisionSubSteps (gs : GameState Z)
    (entries : list TankEntry) : GameState Z * list TankEntry :=
  let max_speed := compute_max_speed gs entries in
  if max_speed =? 0 then (gs, entries)
  else sub_steps (Z.to_nat max_speed) max_speed gs entries.

(** *** The end of the step *)

(** Step 6 of [processStep] with [logAction]: the record appended to
    [action_log] for one entry, if any. *)
Definition log_entry (e : TankEntry) : option LoggedAction :=
  let la := logged_action (te_data e) in
  let la' :=
    if is_destroyed (te_tank e)
    then mkLoggedAction (la_player_id la) (la_tank_id la) (la_action la)
           (la_is_bad la) true (la_killed_this_step la) (la_tank la)
    else la in
  if la_player_id la' =? 0 then None else Some la'.

(** [GameManager::checkShellDepletionStatus], on the three fields it
    writes: [all_shells_used], [steps_after_no_shells], [game_over] and
    [winner]. *)
Definition checkShellDepletionStatus (view : Z -> option Tank)
    (gs : GameState Z) (st : bool * Z * bool * string)
  : bool * Z * bool * string :=
  let '(all_used, steps_after, over, win) := st in
  if negb all_used then
    let has_shells player :=
      match getTank view gs player with
      | Some t => 0 <? shells_remaining t
      | None => false
      end in
    let shells_on_board := negb (bool_decide (getShells gs = [])) in
    if negb (has_shells 1) && negb (has_shells 2) && negb shells_on_board
    then (true, 0, over, win)
    else st
  else if negb over then
    let steps_after' := steps_after + 1 in
    if MAX_STEPS_AFTER_NO_SHELLS <=? steps_after'
    then (all_used, steps_after', true, "Tie"%string)
    else (all_used, steps_after', over, win)
  else st.

(** [GameManager::cleanupDestroyedObjects] *)
Definition cleanupDestroyedObjects (view : Z -> option Tank)
    (gs : GameState Z) : GameState Z :=
  set_objects
    (List.filter (fun obj => negb (obj_is_destroyed view obj)) (objects gs))
    gs.

(** [GameManager::checkGameOver], on [game_over] and [winner]. *)
Definition checkGameOver (tks : list (Z * Tank)) (st : bool * string)
  : bool * string :=
  let '(over, win) := st in
  if over then st
  else
    let alive player :=
      length (List.filter
                (fun kt => negb (is_destroyed (snd kt))
                           && (player_id (snd kt) =? player)) tks) in
    let tanks1_alive := alive 1 in
    let tanks2_alive := alive 2 in
    if (0 <? tanks1_alive)%nat && (tanks2_alive =? 0)%nat
    then (true, "Player 1"%string)
    else if (0 <? tanks2_alive)%nat && (tanks1_alive =? 0)%nat
    then (true, "Player 2"%string)
    else if (tanks1_alive =? 0)%nat && (tanks2_alive =? 0)%nat
    then (true, "Tie"%string)
    else st.

(** The tanks of the manager's [tanks] map after the step: the objects
    the entries of [tank_data] point to. *)
Definition store_tanks (entries : list TankEntry) (tks : list (Z * Tank))
  : list (Z * Tank) :=
  List.map (fun kt => match tank_of entries (fst kt) with
                      | Some t => (fst kt, t)
                      | None => (fst kt, decrementCooldown (snd kt))
                      end) tks.

(** [GameManager::processStep]: the manager after the step and the ids
    polled by [getPlayerActions], in order. *)
Definition processStep (gm : GameManager Strat) : GameManager Strat * list Z :=
  let entries0 := prepareStep (tanks gm) in
  let '(entries1, algos1, polled) :=
    getPlayerActions entries0 (algorithms gm) in
  let entries2 := processTankTransitions entries1 in
  let '(gs3, algos3, entries3) :=
    executeImmediateActions (player1 gm) (player2 gm) (state gm) algos1
                            entries2 in
  let '(gs4, entries4) := runMovementAndCollisionSubSteps gs3 entries3 in
  let log' := action_log gm ++ omap log_entry entries4 in
  let view := tank_of entries4 in
  let '(all_used, steps_after, over5, win5) :=
    checkShellDepletionStatus view gs4
      (all_shells_used gm, steps_after_no_shells gm, game_over gm,
       winner gm) in
  let gs6 := cleanupDestroyedObjects view gs4 in
  let tks := store_tanks entries4 (tanks gm) in
  let '(over6, win6) :=
    if negb over5 then checkGameOver tks (over5, win5) else (over5, win5) in
  (mkGameManager gs6 tks algos3 (player1 gm) (player2 gm) log' all_used
                 steps_after over6 win6,
   polled).

End Engine.

(** ** RotatingAlgorithm.h *)

(** [RotatingAlgorithm] has no state. *)
Inductive RotatingAlgorithm := mkRotatingAlgorithm.

#[global] Instance RotatingAlgorithm_TankAlgorithm
  : TankAlgorithm RotatingAlgorithm := {|
  getAction s := (RotateRight45, s);
  updateBattleInfo _ s := s
|}.

(** ** ChasingAlgorithm.cpp: the free helper functions *)

(** [calculateDirection].  The source compares an [int] with a half
    ([dy > dx / 2.0]); both sides are exact in double precision, so the
    comparison is the integer comparison [2 * dy > dx]. *)
Definition calculateDirection (from to : Position) : option Direction :=
  let dx := px to - px from in
  let dy := py to - py from in
  if (dx =? 0) && (dy =? 0) then None
  else if Z.abs dy <? Z.abs dx then
    if 0 <? dx then
      if dx <? 2 * dy then Some DOWN_RIGHT
      else if 2 * dy <? - dx then Some UP_RIGHT
      else Some RIGHT
    else
      if - dx <? 2 * dy then Some DOWN_LEFT
      else if 2 * dy <? dx then Some UP_LEFT
      else Some LEFT
  else
    if 0 <? dy then
      if dy <? 2 * dx then Some DOWN_RIGHT
      else if 2 * dx <? - dy then Some DOWN_LEFT
      else Some DOWN
    else
      if - dy <? 2 * dx then Some UP_RIGHT
      else if 2 * dx <? dy then Some UP_LEFT
      else Some UP.

(** [getShortestRotation] *)
Definition getShortestRotation (current target : Direction) : ActionRequest :=
  let diff := dir_index target - dir_index current in
  let diff := if 4 <? diff then diff - 8 else diff in
  let diff := if diff <=? -4 then diff + 8 else diff in
  if diff =? 0 then DoNothing
  else if (diff =? 1) || (diff =? -7) then RotateRight45
  else if (diff =? -1) || (diff =? 7) then RotateLeft45
  else if (diff =? 2) || (diff =? -6) then RotateRight90
  else if (diff =? -2) || (diff =? 6) then RotateLeft90
  else if (diff =? 3) || (diff =? -5) then RotateRight90
  else if (diff =? -3) || (diff =? 5) then RotateLeft90
  else if Z.abs diff =? 4 then RotateRight90
  else DoNothing.

(** [isBlocked] *)
Definition isBlocked (isPosOccupiedByWall isPosOccupiedByMine : bool) : bool :=
  isPosOccupiedByWall || isPosOccupiedByMine.

(** The loop of [reconstructPath]: [path] grows by [push_back]; [None]
    stands for a loop that has not ended within [fuel] iterations. *)
Fixpoint reconstruct_loop (fuel : nat) (start current : Position)
    (came_from : gmap Position Position) (path : list Position)
  : option (list Position) :=
  if pos_eqb current start then Some (rev path)
  else
    match fuel with
    | O => None
    | S fuel' =>
        match came_from !! current with
        | None => Some []
        | Some previous =>
            reconstruct_loop fuel' start previous came_from (path ++ [current])
        end
    end.

(** [reconstructPath] *)
Definition reconstructPath (fuel : nat) (start goal : Position)
    (came_from : gmap Position Position) : option (list Position) :=
  if bool_decide (came_from !! goal = None) && negb (pos_eqb start goal)
  then Some []
  else reconstruct_loop fuel start goal came_from [].

(** ** ChasingAlgorithm.h *)

Record ChasingAlgorithm := mkChasing {
  shouldAskForBattleInfo : bool;
  board_matrix : Matrix;
  currentCannonDirection : Direction;
  isDirectionInitialized : bool;
  ca_cooldown_remaining : Z;
  ca_shells_remaining : Z;
  ca_player_id : Z;
  ca_board_width : Z;
  ca_board_height : Z;
  previous_shell_positions : gmap Position Position;
  shell_directions : gmap Position Direction
}.

Definition SHOOT_COOLDOWN : Z := 4.

(** [ChasingAlgorithm::ChasingAlgorithm()]; [initial_shells] is the static
    [Tank::initial_shells]. *)
Definition new_ChasingAlgorithm (initial_shells : Z) : ChasingAlgorithm :=
  mkChasing true [] RIGHT false 0 initial_shells 0 0 0 ∅ ∅.

(** [(v + w) % w] where [w] is a [size_t] and [v] an [int]: the sum is
    formed modulo [2^64], then reduced. *)
Definition size_t_wrap (v w : Z) : Z := ((v + w) mod 2 ^ 64) mod w.

(** One step from [p] in direction [dir] on the wrap-around board. *)
Definition wrap_step (w h : Z) (p : Position) (dir : Direction) : Position :=
  let offset := DirectionUtils.getMovementOffset dir 1 in
  mkPos (size_t_wrap (px p + px offset) w) (size_t_wrap (py p + py offset) h).

(** The cells of the board in the order of the scanning loops
    [for x < board_width, for y < board_height]. *)
Definition scan_cells (w h : Z) : list Position :=
  flat_map (fun x => List.map (fun y => mkPos (Z.of_nat x) (Z.of_nat y))
                              (seq 0 (Z.to_nat h)))
           (seq 0 (Z.to_nat w)).

(** The neighbour enumeration of [findShortestPathBFS] and
    [findSafeDirection]. *)
Definition directions : list Direction :=
  [UP; DOWN; LEFT; RIGHT; UP_LEFT; UP_RIGHT; DOWN_LEFT; DOWN_RIGHT].

Definition cell (m : Matrix) (p : Position) : ascii :=
  matrix_get m (px p) (py p).

(** The body of the inner loop of [findShortestPathBFS], on
    [(frontier, visited, came_from)]. *)
Definition bfs_visit (m : Matrix) (w h : Z) (current : Position)
    (st : list Position * gset Position * gmap Position Position)
    (dir : Direction)
  : list Position * gset Position * gmap Position Position :=
  let '(frontier, visited, came_from) := st in
  let next := wrap_step w h current dir in
  let nextObject := cell m next in
  let isWall := bool_decide (nextObject = "#"%char) in
  let isMine := bool_decide (nextObject = "@"%char) in
  if bool_decide (next ∉ visited) && negb (isBlocked isWall isMine)
  then (frontier ++ [next], {[next]} ∪ visited, <[next := current]> came_from)
  else st.

(** The [while] loop of [findShortestPathBFS]: [found] and [came_from];
    [None] stands for a loop that has not ended within [fuel] expansions. *)
Fixpoint bfs_loop (fuel : nat) (m : Matrix) (w h : Z) (goal : Position)
    (frontier : list Position) (visited : gset Position)
    (came_from : gmap Position Position)
  : option (bool * gmap Position Position) :=
  match frontier with
  | [] => Some (false, came_from)
  | current :: rest =>
      if pos_eqb current goal then Some (true, came_from)
      else
        match fuel with
        | O => None
        | S fuel' =>
            let '(frontier', visited', came_from') :=
              fold_left (bfs_visit m w h current) directions
                        (rest, visited, came_from) in
            bfs_loop fuel' m w h goal frontier' visited' came_from'
        end
  end.

(** [ChasingAlgorithm::findShortestPathBFS] with an explicit bound on the
    number of loop iterations. *)
Definition findShortestPathBFS_fuel (fuel : nat) (m : Matrix) (w h : Z)
    (start goal : Position) : option (list Position) :=
  match bfs_loop fuel m w h goal [start] {[start]} ∅ with
  | Some (true, came_from) => reconstructPath fuel start goal came_from
  | Some (false, _) => Some []
  | None => None
  end.

(** [ChasingAlgorithm::findShortestPathBFS]: every cell is expanded at most
    once, so one more iteration than there are cells is enough (see
    [findShortestPathBFS_fuel_spec]). *)
Definition findShortestPathBFS (s : ChasingAlgorithm) (start goal : Position)
  : list Position :=
  default []
    (findShortestPathBFS_fuel
       (S (Z.to_nat (ca_board_width s * ca_board_height s)))
       (board_matrix s) (ca_board_width s) (ca_board_height s) start goal).

Section Chasing.

(** [isLineOfSightClear] rounds double-precision quotients; it is kept
    abstract.  Its arguments are [start], [end], the board sizes and the
    board matrix. *)
Variable isLineOfSightClear :
  Position -> Position -> Z -> Z -> Matrix -> bool.

(** [ChasingAlgorithm::findMyTankPosition] *)
Definition findMyTankPosition (s : ChasingAlgorithm) : Position :=
  match List.find (fun p => bool_decide (cell (board_matrix s) p = "%"%char))
                  (scan_cells (ca_board_width s) (ca_board_height s)) with
  | Some p => p
  | None => mkPos 0 0
  end.

(** [(obj == '1' || obj == '2') &&
     std::to_string(player_id) != std::string(1, obj)] *)
Definition is_opponent (s : ChasingAlgorithm) (obj : ascii) : bool :=
  (bool_decide (obj = "1"%char) && negb (ca_player_id s =? 1))
  || (bool_decide (obj = "2"%char) && negb (ca_player_id s =? 2)).

(** The loop of [findOpponentInLine]; the walk along one direction of the
    torus comes back to [myPos] within [width * height] steps. *)
Fixpoint opponent_in_line_loop (fuel : nat) (s : ChasingAlgorithm)
    (myPos checkPos : Position) : option Position :=
  match fuel with
  | O => None
  | S fuel' =>
      let checkPos' :=
        wrap_step (ca_board_width s) (ca_board_height s) checkPos
                  (currentCannonDirection s) in
      if pos_eqb checkPos' myPos then None
      else
        let obj := cell (board_matrix s) checkPos' in
        if bool_decide (obj = "#"%char) then None
        else if is_opponent s obj then Some checkPos'
        else opponent_in_line_loop fuel' s myPos checkPos'
  end.

(** [ChasingAlgorithm::findOpponentInLine] *)
Definition findOpponentInLine (s : ChasingAlgorithm) : option Position :=
  let myPos := findMyTankPosition s in
  opponent_in_line_loop
    (S (Z.to_nat (ca_board_width s * ca_board_height s))) s myPos myPos.

(** The wrap-around squared distance used by [findClosestOpponent] and
    [findSafeDirection]. *)
Definition wrapped_distance2 (w h : Z) (a b : Position) : Z :=
  let dx := Z.abs (px a - px b) in
  let dy := Z.abs (py a - py b) in
  let dx := Z.min dx (w - dx) in
  let dy := Z.min dy (h - dy) in
  dx * dx + dy * dy.

(** [ChasingAlgorithm::findClosestOpponent]; [None] as minimum stands for
    the initial [SIZE_MAX]. *)
Definition findClosestOpponent (s : ChasingAlgorithm) : option Position :=
  let myPos := findMyTankPosition s in
  fst
    (fold_left
       (fun (acc : option Position * option Z) tankPos =>
          if is_opponent s (cell (board_matrix s) tankPos) then
            let distance :=
              wrapped_distance2 (ca_board_width s) (ca_board_height s)
                                tankPos myPos in
            match snd acc with
            | Some minDistance =>
                if distance <? minDistance
                then (Some tankPos, Some distance) else acc
            | None => (Some tankPos, Some distance)
            end
          else acc)
       (scan_cells (ca_board_width s) (ca_board_height s))
       (None, None)).

(** [ChasingAlgorithm::findShellPositions] *)
Definition findShellPositions (s : ChasingAlgorithm) : list Position :=
  List.filter (fun p => bool_decide (cell (board_matrix s) p = "*"%char))
              (scan_cells (ca_board_width s) (ca_board_height s)).

Definition set_shell_maps (prev : gmap Position Position)
    (dirs : gmap Position Direction) (s : ChasingAlgorithm)
  : ChasingAlgorithm :=
  mkChasing (shouldAskForBattleInfo s) (board_matrix s)
    (currentCannonDirection s) (isDirectionInitialized s)
    (ca_cooldown_remaining s) (ca_shells_remaining s) (ca_player_id s)
    (ca_board_width s) (ca_board_height s) prev dirs.

(** [ChasingAlgorithm::inferShellDirections] *)
Definition inferShellDirections (s : ChasingAlgorithm)
  : ChasingAlgorithm * list (Position * Direction) :=
  let current_shells := findShellPositions s in
  let '(dirs', inferred_directions) :=
    fold_left
      (fun (acc : gmap Position Direction * list (Position * Direction))
           curr_pos =>
         let '(dirs, inferred) := acc in
         match previous_shell_positions s !! curr_pos with
         | Some prev_pos =>
             match calculateDirection prev_pos curr_pos with
             | Some d => (<[curr_pos := d]> dirs, inferred ++ [(curr_pos, d)])
             | None => acc
             end
         | None =>
             match dirs !! curr_pos with
             | Some d => (dirs, inferred ++ [(curr_pos, d)])
             | None => acc
             end
         end)
      current_shells (shell_directions s, []) in
  let prev' :=
    fold_left (fun (acc : gmap Position Position) pos => <[pos := pos]> acc)
              current_shells ∅ in
  (set_shell_maps prev' dirs' s, inferred_directions).

(** The look-ahead of [isPositionInDanger] for one shell: [n] more cells
    from [check_pos]. *)
Fixpoint shell_threatens (n : nat) (s : ChasingAlgorithm) (pos : Position)
    (check_pos : Position) (direction : Direction) : bool :=
  match n with
  | O => false
  | S n' =>
      let check_pos' :=
        wrap_step (ca_board_width s) (ca_board_height s) check_pos direction in
      if pos_eqb check_pos' pos then true
      else if bool_decide (cell (board_matrix s) check_pos' = "#"%char)
           then false
           else shell_threatens n' s pos check_pos' direction
  end.

(** [ChasingAlgorithm::isPositionInDanger] *)
Definition isPositionInDanger (s : ChasingAlgorithm) (pos : Position)
    (my_shell_directions : list (Position * Direction)) : bool :=
  existsb (fun sd => shell_threatens 4 s pos (fst sd) (snd sd))
          my_shell_directions.

(** [ChasingAlgorithm::findSafeDirection].  The source compares square
    roots of integers in double precision; the square root is strictly
    increasing on them, so the squares are compared here.  [None] as
    minimum stands for the initial [numeric_limits<double>::max()]. *)
Definition findSafeDirection (s : ChasingAlgorithm) (current_pos : Position)
    (my_shell_directions : list (Position * Direction))
  : option Direction :=
  let new_pos_of dir :=
    wrap_step (ca_board_width s) (ca_board_height s) current_pos dir in
  let safe_directions :=
    List.filter
      (fun dir =>
         let new_pos := new_pos_of dir in
         negb (isPositionInDanger s new_pos my_shell_directions)
         && negb (bool_decide (cell (board_matrix s) new_pos = "#"%char))
         && negb (bool_decide (cell (board_matrix s) new_pos = "@"%char)))
      directions in
  match safe_directions with
  | [] => None
  | first :: _ =>
      let min_distance2 dir : option Z :=
        fold_left
          (fun (acc : option Z) sd =>
             let d2 := wrapped_distance2 (ca_board_width s)
                         (ca_board_height s) (new_pos_of dir) (fst sd) in
             match acc with
             | Some a => Some (Z.min a d2)
             | None => Some d2
             end)
          my_shell_directions None in
      (* [best] carries [best_dir] and [max_min_distance] squared;
         [None] is a minimum still at the initial maximum. *)
      Some
        (fst
           (fold_left
              (fun (best : Direction * option Z) dir =>
                 match min_distance2 dir, snd best with
                 | Some d2, Some mx =>
                     if mx <? d2 then (dir, Some d2) else best
                 | None, Some _ => (dir, None)
                 | _, None => best
                 end)
              safe_directions (first, Some 0)))
  end.

(** [ChasingAlgorithm::isTargetInFiringLine] *)
Definition isTargetInFiringLine (from to : Position) (facing : Direction)
  : bool :=
  let offset := DirectionUtils.getMovementOffset facing 1 in
  match facing with
  | UP_RIGHT | UP_LEFT | DOWN_RIGHT | DOWN_LEFT =>
      let dx := px to - px from in
      let dy := py to - py from in
      dx * py offset =? dy * px offset
  | RIGHT | LEFT => py from =? py to
  | UP | DOWN => px from =? px to
  end.

Definition set_direction (d : Direction) (s : ChasingAlgorithm)
  : ChasingAlgorithm :=
  mkChasing (shouldAskForBattleInfo s) (board_matrix s) d
    (isDirectionInitialized s) (ca_cooldown_remaining s)
    (ca_shells_remaining s) (ca_player_id s) (ca_board_width s)
    (ca_board_height s) (previous_shell_positions s) (shell_directions s).

Definition set_ask (b : bool) (s : ChasingAlgorithm) : ChasingAlgorithm :=
  mkChasing b (board_matrix s) (currentCannonDirection s)
    (isDirectionInitialized s) (ca_cooldown_remaining s)
    (ca_shells_remaining s) (ca_player_id s) (ca_board_width s)
    (ca_board_height s) (previous_shell_positions s) (shell_directions s).

Definition set_cooldown_shells (c n : Z) (s : ChasingAlgorithm)
  : ChasingAlgorithm :=
  mkChasing (shouldAskForBattleInfo s) (board_matrix s)
    (currentCannonDirection s) (isDirectionInitialized s) c n
    (ca_player_id s) (ca_board_width s) (ca_board_height s)
    (previous_shell_positions s) (shell_directions s).

(** The [switch] that keeps the tracked direction in step with a
    rotation request. *)
Definition track_rotation (rotation : ActionRequest) (s : ChasingAlgorithm)
  : ChasingAlgorithm :=
  match rotation with
  | RotateLeft45 =>
      set_direction (DirectionUtils.rotate (currentCannonDirection s) (-1)) s
  | RotateRight45 =>
      set_direction (DirectionUtils.rotate (currentCannonDirection s) 1) s
  | RotateLeft90 =>
      set_direction (DirectionUtils.rotate (currentCannonDirection s) (-2)) s
  | RotateRight90 =>
      set_direction (DirectionUtils.rotate (currentCannonDirection s) 2) s
  | _ => s
  end.

(** The default action: rotate right by 45 degrees. *)
Definition rotate_to_search (s : ChasingAlgorithm)
  : ActionRequest * ChasingAlgorithm :=
  (RotateRight45,
   set_direction (DirectionUtils.rotate (currentCannonDirection s) 1) s).

(** [getAction] from "proceed with normal targeting behavior" on. *)
Definition target_and_move (s : ChasingAlgorithm) (myPosition : Position)
    (my_shell_directions : list (Position * Direction))
  : ActionRequest * ChasingAlgorithm :=
  let targetPos :=
    match findOpponentInLine s with
    | Some p => Some p
    | None => findClosestOpponent s
    end in
  match targetPos with
  | None => rotate_to_search s
  | Some target =>
      let los_clear :=
        isLineOfSightClear myPosition target (ca_board_width s)
                           (ca_board_height s) (board_matrix s) in
      let can_fire :=
        match calculateDirection myPosition target with
        | Some directDirection =>
            los_clear
            && dir_eqb (currentCannonDirection s) directDirection
            && isTargetInFiringLine myPosition target
                                    (currentCannonDirection s)
            && (ca_cooldown_remaining s =? 0)
            && (0 <? ca_shells_remaining s)
        | None => false
        end in
      if can_fire then
        (Shoot, set_cooldown_shells SHOOT_COOLDOWN (ca_shells_remaining s - 1) s)
      else
        match findShortestPathBFS s myPosition target with
        | [] => rotate_to_search s
        | nextPosition :: _ =>
            if negb (isPositionInDanger s nextPosition my_shell_directions)
            then
              match calculateDirection myPosition nextPosition with
              | None => rotate_to_search s
              | Some requiredDirection =>
                  let nextObject := cell (board_matrix s) nextPosition in
                  let blocked :=
                    bool_decide (nextObject = "#"%char)
                    || bool_decide (nextObject = "@"%char)
                    || bool_decide (nextObject = "1"%char)
                    || bool_decide (nextObject = "2"%char) in
                  if dir_eqb (currentCannonDirection s) requiredDirection
                     && negb blocked
                  then (MoveForward, s)
                  else
                    let rotationAction :=
                      getShortestRotation (currentCannonDirection s)
                                          requiredDirection in
                    if bool_decide (rotationAction = DoNothing)
                    then rotate_to_search s
                    else (rotationAction, track_rotation rotationAction s)
              end
            else rotate_to_search s
        end
  end.

(** [getAction] after the info-request alternation: the threat check,
    then targeting and pursuit. *)
Definition combat_action (s2 : ChasingAlgorithm)
  : ActionRequest * ChasingAlgorithm :=
  let myPosition := findMyTankPosition s2 in
  let '(s3, my_shell_directions) := inferShellDirections s2 in
  if isPositionInDanger s3 myPosition my_shell_directions then
    match findSafeDirection s3 myPosition my_shell_directions with
    | Some safe_dir =>
        let rotation :=
          getShortestRotation (currentCannonDirection s3) safe_dir in
        if negb (dir_eqb (currentCannonDirection s3) safe_dir)
           && negb (bool_decide (rotation = DoNothing))
        then (rotation, track_rotation rotation s3)
        else if dir_eqb (currentCannonDirection s3) safe_dir
        then (MoveForward, s3)
        else target_and_move s3 myPosition my_shell_directions
    | None => target_and_move s3 myPosition my_shell_directions
    end
  else target_and_move s3 myPosition my_shell_directions.

(** [ChasingAlgorithm::getAction] *)
Definition Chasing_getAction (s0 : ChasingAlgorithm)
  : ActionRequest * ChasingAlgorithm :=
  let s1 :=
    if 0 <? ca_cooldown_remaining s0
    then set_cooldown_shells (ca_cooldown_remaining s0 - 1)
                             (ca_shells_remaining s0) s0
    else s0 in
  if shouldAskForBattleInfo s1 then
    (GetBattleInfo, set_ask (negb (shouldAskForBattleInfo s1)) s1)
  else combat_action (set_ask (negb (shouldAskForBattleInfo s1)) s1).

(** [ChasingAlgorithm::updateBattleInfo] *)
Definition Chasing_updateBattleInfo (info : MyBattleInfo)
    (s : ChasingAlgorithm) : ChasingAlgorithm :=
  let w := bi_board_width info in
  let h := bi_board_height info in
  let m :=
    List.map (fun x => List.map (fun y => BattleInfo_getObjectAt info x y)
                                (seq 0 h))
             (seq 0 w) in
  let pid := if ca_player_id s =? 0 then bi_player_id info
             else ca_player_id s in
  let dir := if isDirectionInitialized s then currentCannonDirection s
             else if pid =? 1 then LEFT else RIGHT in
  mkChasing (shouldAskForBattleInfo s) m dir true (ca_cooldown_remaining s)
    (ca_shells_remaining s) pid (Z.of_nat w) (Z.of_nat h)
    (previous_shell_positions s) (shell_directions s).

#[local] Instance ChasingAlgorithm_TankAlgorithm
  : TankAlgorithm ChasingAlgorithm := {|
  getAction := Chasing_getAction;
  updateBattleInfo := Chasing_updateBattleInfo
|}.

End Chasing.

(** ** Concrete inputs used by the examples below *)

(** A player-1 tank at (2,2) facing RIGHT, in the given movement state,
    with the given ammunition and cooldown. *)
Definition sample_tank (st : TankMovementState) (ammo cooldown : Z) : Tank :=
  mkTank (mkPos 2 2) false st 1 0 0 RIGHT ammo cooldown 1 false.

(** A pursuit strategy about to ask for battle info, with tracked
    cooldown 3. *)
Definition asking_strategy : ChasingAlgorithm :=
  mkChasing true [] RIGHT false 3 5 0 0 0 ∅ ∅.

(** A board state with a damaged wall, a destroyed mine, a moving tank and a
    shell in flight. *)
Definition sample_state : GameState Tank :=
  mkGameState 5 4
    [ WallObj (mkWall (mkPos 0 0) false 1);
      MineObj (mkMine (mkPos 1 1) true);
      TankObj (mkTank (mkPos 2 2) false MOVING_BWD 2 7 1 UP 3 2 (-1) true);
      ShellObj (mkShell (mkPos 3 3) false 1 LEFT) ].

(** ** Vocabulary of the statements about a sub-step *)

(** The fields of an entry that no part of the sub-step loop writes. *)
Definition frame (e e' : TankEntry) : Prop :=
  te_id e' = te_id e
  /\ player_id (te_tank e') = player_id (te_tank e)
  /\ movementState (te_tank e') = movementState (te_tank e)
  /\ cannonDirection (te_tank e') = cannonDirection (te_tank e)
  /\ shells_remaining (te_tank e') = shells_remaining (te_tank e)
  /\ cooldown_remaining (te_tank e') = cooldown_remaining (te_tank e)
  /\ action (te_data e') = action (te_data e)
  /\ outcome (te_data e') = outcome (te_data e).

(** A unit without movement intent whose intended position is its
    position. *)
Definition parked (e : TankEntry) : Prop :=
  move_intent_this_step (te_tank e) = false
  /\ intended_position (te_data e) = position (te_tank e).

(** [e'] is [e] after collision resolution or position update: a parked
    unit stays parked where it is. *)
Definition keeps (e e' : TankEntry) : Prop :=
  frame e e'
  /\ (parked e ->
      parked e'
      /\ position (te_tank e') = position (te_tank e)
      /\ movement_progress (te_tank e') = movement_progress (te_tank e)).

(** [e'] is [e] after one or more sub-steps: a unit without movement intent
    has not moved. *)
Definition stays (e e' : TankEntry) : Prop :=
  frame e e'
  /\ (move_intent_this_step (te_tank e) = false ->
      move_intent_this_step (te_tank e') = false
      /\ position (te_tank e') = position (te_tank e)
      /\ movement_progress (te_tank e') = movement_progress (te_tank e)).

(** What [executeImmediateActions] leaves alone in an entry: it spends
    ammunition and sets the cooldown and the log record, nothing else. *)
Definition acted (e e' : TankEntry) : Prop :=
  te_id e' = te_id e
  /\ position (te_tank e') = position (te_tank e)
  /\ is_destroyed (te_tank e') = is_destroyed (te_tank e)
  /\ movementState (te_tank e') = movementState (te_tank e)
  /\ cannonDirection (te_tank e') = cannonDirection (te_tank e)
  /\ multiplier (te_tank e') = multiplier (te_tank e)
  /\ movement_progress (te_tank e') = movement_progress (te_tank e)
  /\ move_intent_this_step (te_tank e') = move_intent_this_step (te_tank e)
  /\ action (te_data e') = action (te_data e)
  /\ outcome (te_data e') = outcome (te_data e).

(** The requests that confirm a pending reversal. *)
Definition confirms_reversal (a : ActionRequest) : Prop :=
  a = MoveBackward \/ a = RotateLeft45 \/ a = RotateLeft90
  \/ a = RotateRight45 \/ a = RotateRight90 \/ a = Shoot.

(** What [GameState::clone] promises about a copy [c] of a live object
    [o]. *)
Definition is_clone_of (o c : GameObject Tank) : Prop :=
  match o, c with
  | TankObj t, TankObj t' =>
      position t' = position t
      /\ player_id t' = player_id t
      /\ cannonDirection t' = cannonDirection t
      /\ shells_remaining t' = shells_remaining t
      /\ cooldown_remaining t' = cooldown_remaining t
      /\ tank_symbol t' = tank_symbol t
      /\ movementState t' = INITIAL
      /\ movement_progress t' = 0
      /\ move_intent_this_step t' = false
      /\ is_destroyed t' = false
  | ShellObj s, ShellObj s' =>
      shell_position s' = shell_position s
      /\ shell_direction s' = shell_direction s
      /\ shell_movement_progress s' = 0
      /\ shell_is_destroyed s' = false
  | WallObj w, WallObj w' =>
      wall_position w' = wall_position w
      /\ health w' = 2
      /\ wall_is_destroyed w' = false
  | MineObj m, MineObj m' =>
      mine_position m' = mine_position m
      /\ mine_is_destroyed m' = false
  | _, _ => False
  end.

(** The cooldown of the strategy after the decrement at the head of
    [getAction]. *)
Definition decremented (c : Z) : Z := if 0 <? c then c - 1 else c.

(** ** Vocabulary of the statements about the board matrix *)

(** [m] has [w] columns of [h] cells each. *)
Definition rect (w h : nat) (m : Matrix) : Prop :=
  length m = w /\ Forall (fun col => length col = h) m.

Definition on_board (w h : nat) (p : Position) : Prop :=
  0 <= px p < Z.of_nat w /\ 0 <= py p < Z.of_nat h.

(** What the observation interface reports for the cell [p]. *)
Definition seen_at (m : Matrix) (p : Position) : ascii :=
  SatelliteView_getObjectAt m (Z.to_nat (px p)) (Z.to_nat (py p)).

(** ** Vocabulary of the statements about walls *)

(** A wall is live with health 1 or 2, or destroyed with health 0. *)
Definition wall_ok (w : Wall) : Prop :=
  (wall_is_destroyed w = false /\ (health w = 1 \/ health w = 2))
  \/ (wall_is_destroyed w = true /\ health w = 0).

Definition obj_ok (o : GameObject Z) : Prop :=
  match o with
  | WallObj w => wall_ok w
  | _ => True
  end.

Definition walls_ok (objs : list (GameObject Z)) : Prop := Forall obj_ok objs.

(** The managers reachable from [gm0] by whole steps. *)
Inductive reachable {Strat : Type} `{TankAlgorithm Strat}
    (umap_order : list Z -> list Z) (fresh_data : TankStepData)
    (max_after : Z) (gm0 : GameManager Strat) : GameManager Strat -> Prop :=
| reachable_start : reachable umap_order fresh_data max_after gm0 gm0
| reachable_step gm :
    reachable umap_order fresh_data max_after gm0 gm ->
    reachable umap_order fresh_data max_after gm0
              (fst (processStep umap_order fresh_data max_after gm)).

(** The values the [Tank] constructor draws from its static variables in
    the [clone] example. *)
Definition sample_fresh : Tank -> Z * Z * Z := fun _ => (9, 5, 0).

(** A board with a mine and a live shell on the same cell. *)
Definition shell_mine_board : GameState Z :=
  mkGameState 3 3
    [ ShellObj (mkShell (mkPos 1 2) false 0 UP);
      MineObj (mkMine (mkPos 1 2) false) ].

(** A board with a wall of health 2 at (1,0) and a live shell at (0,0)
    heading RIGHT. *)
Definition wall_shell_board : GameState Z :=
  mkGameState 4 4
    [ WallObj (mkWall (mkPos 1 0) false 2);
      ShellObj (mkShell (mkPos 0 0) false 0 RIGHT) ].

(** A unit at (0,0) facing RIGHT that has just been granted a forward move,
    and a board with a wall on the cell to its right. *)
Definition sample_data : TankStepData :=
  mkTankStepData (mkPos 0 0) DoNothing NONE false
                 (mkLoggedAction 0 0 DoNothing false false false None).

Definition moving_entry : TankEntry :=
  mkTankEntry 0
    (mkTank (mkPos 0 0) false INITIAL 1 0 0 RIGHT 3 0 1 true)
    (mkTankStepData (mkPos 0 0) MoveForward MOVE_PENDING false
                    (mkLoggedAction 1 0 MoveForward false false false
                                    (Some 0))).

Definition walled_board : GameState Z :=
  mkGameState 4 4 [ TankObj 0; WallObj (mkWall (mkPos 1 0) false 2) ].

(** ** Vocabulary of the statements about a whole step *)

(** Everything of a manager but its strategies. *)
Definition board_of {Strat : Type} (gm : GameManager Strat) :=
  (state gm, tanks gm, player1 gm, player2 gm, action_log gm,
   all_shells_used gm, steps_after_no_shells gm, game_over gm, winner gm).

(** The action a strategy would answer if polled. *)
Definition would_answer {Strat : Type} `{TankAlgorithm Strat}
    (algos : gmap Z Strat) (id : Z) : option ActionRequest :=
  match algos !! id with
  | Some s => Some (fst (getAction s))
  | None => None
  end.

(** The entries whose strategy [getPlayerActions] polls. *)
Definition is_polled {Strat : Type} (algos : gmap Z Strat) (e : TankEntry)
  : bool :=
  negb (is_destroyed (te_tank e))
  && match algos !! te_id e with Some _ => true | None => false end.

(** [o'] is the strategy [o] after at most one battle-info update. *)
Definition informed {Strat : Type} `{TankAlgorithm Strat}
    (o o' : option Strat) : Prop :=
  o' = o
  \/ exists s p m, o = Some s /\ o' = Some (updateTankWithBattleInfo p s m).

(** Whether the unit [id] of the manager is live and has a strategy. *)
Definition polled_id {Strat : Type} (gm : GameManager Strat) (id : Z) : bool :=
  match assoc_lookup id (tanks gm) with
  | Some t =>
      negb (is_destroyed t)
      && match algorithms gm !! id with Some _ => true | None => false end
  | None => false
  end.

(** [processStep] from step 5 on, given the board and the entries that
    steps 1 to 4 produce. *)
Definition step_finish {Strat : Type} (umap_order : list Z -> list Z)
    (max_after : Z) (gm : GameManager Strat) (gs3 : GameState Z)
    (algos3 : gmap Z Strat) (entries3 : list TankEntry)
  : GameManager Strat :=
  let '(gs4, entries4) :=
    runMovementAndCollisionSubSteps umap_order gs3 entries3 in
  let log' := action_log gm ++ omap log_entry entries4 in
  let view := tank_of entries4 in
  let '(all_used, steps_after, over5, win5) :=
    checkShellDepletionStatus max_after view gs4
      (all_shells_used gm, steps_after_no_shells gm, game_over gm,
       winner gm) in
  let gs6 := cleanupDestroyedObjects view gs4 in
  let tks := store_tanks entries4 (tanks gm) in
  let '(over6, win6) :=
    if negb over5 then checkGameOver tks (over5, win5) else (over5, win5) in
  mkGameManager gs6 tks algos3 (player1 gm) (player2 gm) log' all_used
                steps_after over6 win6.

(** A scripted strategy plays a fixed list of actions and ignores the
    battle info. *)
#[global] Instance Scripted_TankAlgorithm
  : TankAlgorithm (list ActionRequest) := {|
  getAction s := match s with
                 | [] => (DoNothing, [])
                 | a :: rest => (a, rest)
                 end;
  updateBattleInfo _ s := s
|}.

(** The 5x5 scenario: unit 0 of player 1 at (0,2) facing RIGHT, unit 1 of
    player 2 at (4,2) facing LEFT, both about to shoot; the two managers
    differ in what the scripts hold after the first action. *)
Definition duel_tanks : list (Z * Tank) :=
  [ (0, mkTank (mkPos 0 2) false INITIAL 1 0 0 RIGHT 3 0 0 false);
    (1, mkTank (mkPos 4 2) false INITIAL 2 1 0 LEFT 3 0 0 false) ].

Definition duel (script0 script1 : list ActionRequest)
  : GameManager (list ActionRequest) :=
  mkGameManager (mkGameState 5 5 [TankObj 0; TankObj 1]) duel_tanks
    (<[0 := script0]> (<[1 := script1]> ∅))
    (mkPlayer 1 5 5) (mkPlayer 2 5 5) [] false 0 false "".

Definition duel1 := duel [Shoot; MoveForward] [Shoot].
Definition duel2 := duel [Shoot; RotateLeft45] [Shoot; Shoot].

(** ** Vocabulary of the statements about the path search *)

(** The place of a direction in the neighbour enumeration [directions]. *)
Definition dir_rank (d : Direction) : Z :=
  match d with
  | UP => 0 | DOWN => 1 | LEFT => 2 | RIGHT => 3
  | UP_LEFT => 4 | UP_RIGHT => 5 | DOWN_LEFT => 6 | DOWN_RIGHT => 7
  end.

(** A route is a sequence of directions.  [route_code] reads it as a
    numeral in base 8 with a leading 1, the digits being the ranks: a
    shorter route has a smaller code, and among routes of one length the
    codes are ordered as the routes are lexicographically. *)
Definition route_code (r : list Direction) : Z :=
  fold_left (fun acc d => 8 * acc + dir_rank d) r 1.

(** [lex_before r1 r2]: [r1] comes strictly before [r2] in the
    lexicographic order induced by the neighbour enumeration. *)
Fixpoint lex_before (r1 r2 : list Direction) : Prop :=
  match r1, r2 with
  | d1 :: t1, d2 :: t2 =>
      dir_rank d1 < dir_rank d2 \/ (d1 = d2 /\ lex_before t1 t2)
  | _, _ => False
  end.

(** The strict order of a queue whose cells carry the key [f]. *)
Fixpoint ascending {A} (f : A -> Z) (l : list A) : Prop :=
  match l with
  | [] => True
  | x :: rest => Forall (fun y => f x < f y) rest /\ ascending f rest
  end.

Section PathVocabulary.
Variable m : list (list ascii).
Variables w h : Z.

Definition in_range (p : Position) : Prop :=
  0 <= px p < w /\ 0 <= py p < h.

(** A cell that is neither an obstacle nor a trap. *)
Definition free (p : Position) : Prop :=
  cell m p <> "#"%char /\ cell m p <> "@"%char.

(** [route_to p r q]: following [r] from [p] on the 8-connected
    wrap-around grid enters free cells only and ends in [q]. *)
Fixpoint route_to (p : Position) (r : list Direction) (q : Position) : Prop :=
  match r with
  | [] => p = q
  | d :: rest => free (wrap_step w h p d) /\ route_to (wrap_step w h p d) rest q
  end.

(** The cells entered when [r] is followed from [p] ([p] itself is not
    listed). *)
Fixpoint cells_along (p : Position) (r : list Direction) : list Position :=
  match r with
  | [] => []
  | d :: rest => wrap_step w h p d :: cells_along (wrap_step w h p d) rest
  end.

(** The invariant of the [while] loop of [findShortestPathBFS].
    [done] is the set of cells already expanded, [route v] the route by
    which the visited cell [v] was discovered, [k] the code of the route
    of the cell expanded last, and [pend p d] holds for the neighbours
    of the cell in expansion that are still to be looked at. *)
Record bfs_inv (start goal : Position) (done : gset Position)
    (route : Position -> list Direction) (k : Z)
    (pend : Position -> Direction -> Prop)
    (frontier : list Position) (visited : gset Position)
    (came_from : gmap Position Position) : Prop := {
  bi_cover : visited = done ∪ list_to_set frontier;
  bi_range : forall v, v ∈ visited -> in_range v;
  bi_start : start ∈ visited;
  bi_start_route : route start = [];
  bi_route : forall v, v ∈ visited -> route_to start (route v) v;
  bi_parent :
    forall v, v ∈ visited -> v <> start ->
      exists p d, came_from !! v = Some p /\ p ∈ done
                  /\ route v = route p ++ [d] /\ v = wrap_step w h p d;
  bi_sorted : ascending (fun x => route_code (route x)) frontier;
  bi_done : forall p, p ∈ done -> route_code (route p) <= k;
  bi_ahead : forall x, x ∈ frontier -> k < route_code (route x);
  bi_pend :
    forall x p d, x ∈ frontier -> pend p d ->
      route_code (route x) < route_code (route p ++ [d]);
  bi_closed :
    forall p d, p ∈ done -> ~ pend p d ->
      free (wrap_step w h p d) ->
      wrap_step w h p d ∈ visited
      /\ route_code (route (wrap_step w h p d))
         <= route_code (route p ++ [d]);
  bi_goal : goal ∉ done;
  bi_depth_done : forall p, p ∈ done -> (length (route p) < size done)%nat;
  bi_depth : forall v, v ∈ visited -> (length (route v) <= size done)%nat
}.

(** What the loop leaves behind: the invariant, with the goal at the head
    of the queue when it was found and an empty queue when it was not. *)
Definition bfs_done (start goal : Position) (found : bool)
    (cf : gmap Position Position) : Prop :=
  exists done route k pend fr V,
    bfs_inv start goal done route k pend fr V cf
    /\ (forall p d, ~ pend p d)
    /\ if found then exists rest, fr = goal :: rest else fr = [].

End PathVocabulary.

(** An empty 3x3 board as a strategy sees it, and the 5x5 one. *)
Definition open_board (n : nat) : ChasingAlgorithm :=
  mkChasing false (replicate n (replicate n " "%char)) RIGHT true 0 3 1
            (Z.of_nat n) (Z.of_nat n) ∅ ∅.

(** ** Vocabulary of the statements about colliding shells *)

(** [fades objs objs']: [objs'] is [objs] with some shells destroyed. *)
Definition fades (objs objs' : list (GameObject Z)) : Prop :=
  forall i,
    shell_at objs' i = shell_at objs i
    \/ exists s, shell_at objs i = Some s
                 /\ shell_at objs' i = Some (destroy_shell s).

(** [head_on objs sip a b]: the shell [b] intends to land on the cell the
    shell [a] is on, and the two fly in exactly opposite directions. *)
Definition head_on (objs : list (GameObject Z)) (sip : list (nat * Position))
    (a b : nat) : Prop :=
  a <> b
  /\ exists sa sb ip,
       shell_at objs a = Some sa /\ shell_at objs b = Some sb
       /\ (b, ip) ∈ sip /\ ip = shell_position sa
       /\ Z.abs (dir_index (shell_direction sa)
                 - dir_index (shell_direction sb)) = 4.

(** No third live shell is head-on with [i] or with [j]. *)
Definition undisturbed (objs : list (GameObject Z))
    (sip : list (nat * Position)) (i j : nat) : Prop :=
  forall k, k <> i -> k <> j -> shell_live objs k = true ->
    ~ head_on objs sip i k /\ ~ head_on objs sip j k
    /\ ~ head_on objs sip k i /\ ~ head_on objs sip k j.

(** Two shells next to each other on the top row of a 5x5 board, flying
    toward each other, and the same with a third shell below that flies
    up into the cell of the left one. *)
Definition two_shells : GameState Z :=
  mkGameState 5 5
    [ ShellObj (new_Shell (mkPos 1 0) RIGHT);
      ShellObj (new_Shell (mkPos 2 0) LEFT) ].

Definition three_shells : GameState Z :=
  mkGameState 5 5
    [ ShellObj (new_Shell (mkPos 1 0) RIGHT);
      ShellObj (new_Shell (mkPos 2 0) LEFT);
      ShellObj (new_Shell (mkPos 1 1) UP) ].

(** The cell a shell enters when it advances: one step in its direction,
    wrapped around the board as [calculateShellIntendedPositionsSubStep]
    does. *)
Definition shell_target (gs : GameState Z) (s : Shell) : Position :=
  let offset := DirectionUtils.getMovementOffset (shell_direction s) 1 in
  mkPos (Z.rem (px (shell_position s) + px offset + board_width gs)
               (board_width gs))
        (Z.rem (py (shell_position s) + py offset + board_height gs)
               (board_height gs)).

(** Every live shell is on the board and completes a move in a sub-step of
    granularity [max_speed]. *)
Definition shells_advance (max_speed : Z) (gs : GameState Z) : Prop :=
  forall i s,
    shell_at (objects gs) i = Some s -> shell_is_destroyed s = false ->
    in_range (board_width gs) (board_height gs) (shell_position s)
    /\ max_speed <= shell_movement_progress s + Shell_speed.

(** No other live shell has the intended position of the shell [i]. *)
Definition sole_at_intended (sip : list (nat * Position))
    (objs : list (GameObject Z)) (i : nat) : Prop :=
  forall k p, k <> i -> (i, p) ∈ sip -> (k, p) ∈ sip -> shell_live objs k = false.

(** ** The states a chasing strategy can be in

    A [ChasingAlgorithm] object is built by its constructor and then only
    touched through [getAction] and [updateBattleInfo]. *)
Inductive chasing_reachable
    (isLineOfSightClear :
       Position -> Position -> Z -> Z -> list (list ascii) -> bool)
  : ChasingAlgorithm -> Prop :=
| reach_new initial_shells :
    chasing_reachable isLineOfSightClear (new_ChasingAlgorithm initial_shells)
| reach_getAction s :
    chasing_reachable isLineOfSightClear s ->
    chasing_reachable isLineOfSightClear
      (snd (Chasing_getAction isLineOfSightClear s))
| reach_updateBattleInfo info s :
    chasing_reachable isLineOfSightClear s ->
    chasing_reachable isLineOfSightClear (Chasing_updateBattleInfo info s).

(** What the shell book-keeping of a strategy amounts to: every recorded
    "previous" position is the key itself, and no direction is cached. *)
Definition shell_books_idle (s : ChasingAlgorithm) : Prop :=
  (forall p q, previous_shell_positions s !! p = Some q -> q = p)
  /\ shell_directions s = ∅.

(** A sample: lines of sight all clear, and a strategy object after its
    first request for information, a snapshot with a shell in it, and
    the next call. *)
Definition clear_sight (_ _ : Position) (_ _ : Z) (_ : list (list ascii))
  : bool := true.

Definition briefed_chaser : ChasingAlgorithm :=
  snd (Chasing_getAction clear_sight
         (Chasing_updateBattleInfo
            (mkBattleInfo
               [["%"; " "; " "]; [" "; "*"; " "]; [" "; " "; "2"]]%char
               3%nat 3%nat 1)
            (snd (Chasing_getAction clear_sight (new_ChasingAlgorithm 16))))).

(** ** Vocabulary of the statements about lines of fire *)

(** The cell [k] steps from [p] in direction [d] on the wrap-around
    board. *)
Definition ray_cell (w h : Z) (p : Position) (d : Direction) (k : nat)
  : Position :=
  Nat.iter k (fun q => wrap_step w h q d) p.

Ltac split_comparisons :=
  repeat match goal with
         | |- context [Z.eqb ?a ?b] => destruct (Z.eqb_spec a b); cbn; try lia
         | |- context [Z.ltb ?a ?b] => destruct (Z.ltb_spec a b); cbn; try lia
         end.

(** ** GameManager: the game loop *)

(** The assignments to [game_over] and [winner]. *)
Definition set_verdict {Strat : Type} (over : bool) (win : string)
    (gm : GameManager Strat) : GameManager Strat :=
  mkGameManager (state gm) (tanks gm) (algorithms gm) (player1 gm)
    (player2 gm) (action_log gm) (all_shells_used gm)
    (steps_after_no_shells gm) over win.

Section GameLoop.
Context {Strat : Type} `{TankAlgorithm Strat}.
Variable umap_order : list Z -> list Z.
Variable fresh_data : TankStepData.
Variable MAX_STEPS_AFTER_NO_SHELLS : Z.

(** One turn of the [while (!game_over)] loop of
    [GameManager::startGameLoop], on [steps_count] and the manager; the
    writing to the debug file is not modelled. *)
Definition game_loop_body (max_game_steps : Z) (st : Z * GameManager Strat)
  : Z * GameManager Strat :=
  let steps_count := fst st + 1 in
  let gm1 :=
    fst (processStep umap_order fresh_data MAX_STEPS_AFTER_NO_SHELLS
                     (snd st)) in
  let '(over2, win2) :=
    checkGameOver (tanks gm1) (game_over gm1, winner gm1) in
  let gm2 := set_verdict over2 win2 gm1 in
  let gm3 :=
    if max_game_steps <=? steps_count then set_verdict true "Tie" gm2
    else gm2 in
  (steps_count, gm3).

(** [GameManager::startGameLoop]: [None] stands for a loop that has not
    ended within [fuel] turns. *)
Fixpoint startGameLoop (fuel : nat) (max_game_steps : Z)
    (st : Z * GameManager Strat) : option (Z * GameManager Strat) :=
  if game_over (snd st) then Some st
  else
    match fuel with
    | O => None
    | S fuel' =>
        startGameLoop fuel' max_game_steps (game_loop_body max_game_steps st)
    end.

End GameLoop.

(** The duel after both units have spent their shells, [k] steps after
    that was noticed. *)
Definition spent_duel (k : Z) : GameManager (list ActionRequest) :=
  mkGameManager (mkGameState 5 5 [TankObj 0; TankObj 1])
    [ (0, mkTank (mkPos 0 2) false INITIAL 1 0 0 RIGHT 0 0 0 false);
      (1, mkTank (mkPos 4 2) false INITIAL 2 1 0 LEFT 0 0 0 false) ]
    (<[0 := [MoveForward]]> (<[1 := []]> ∅))
    (mkPlayer 1 5 5) (mkPlayer 2 5 5) [] true k false "".

(** ** GameManager::parseInputFile: the board

    The part of [parseInputFile] after the four parameters: the lines
    that [std::getline] delivers are a list of lines, a line a list of
    characters.  Opening the file, the parameter lines and the warnings
    are not modelled. *)

(** The characters of [" \t\r\n"]. *)
Definition is_blank (c : ascii) : bool :=
  Ascii.eqb c " " || Ascii.eqb c "009" || Ascii.eqb c "013"
  || Ascii.eqb c "010".

(** [line.erase(0, line.find_first_not_of(" \t\r\n"))]; a line of blanks
    only is erased as a whole. *)
Fixpoint drop_blanks (line : list ascii) : list ascii :=
  match line with
  | [] => []
  | c :: rest => if is_blank c then drop_blanks rest else line
  end.

(** The two [erase] calls: blanks at the start, then blanks at the
    end. *)
Definition trim_line (line : list ascii) : list ascii :=
  rev (drop_blanks (rev (drop_blanks line))).

(** "Handle line length": cut to [num_cols] characters or fill up with
    spaces. *)
Definition fit_line (num_cols : Z) (line : list ascii) : list ascii :=
  if num_cols <? Z.of_nat (length line) then take (Z.to_nat num_cols) line
  else if Z.of_nat (length line) <? num_cols
       then line ++ replicate (Z.to_nat num_cols - length line) " "%char
       else line.

(** The loop [while (std::getline(input_file, line) &&
    actual_height_read < num_rows)], on [board_lines] and
    [actual_height_read]. *)
Fixpoint read_board_lines (num_rows num_cols : Z) (lines : list (list ascii))
    (board_lines : list (list ascii)) (actual_height_read : Z)
  : list (list ascii) * Z :=
  match lines with
  | [] => (board_lines, actual_height_read)
  | line :: rest =>
      if actual_height_read <? num_rows then
        read_board_lines num_rows num_cols rest
          (board_lines ++ [fit_line num_cols (trim_line line)])
          (actual_height_read + 1)
      else (board_lines, actual_height_read)
  end.

(** The reading loop followed by "Pad with empty lines if needed". *)
Definition board_lines_of (num_rows num_cols : Z) (lines : list (list ascii))
  : list (list ascii) :=
  let '(board_lines, actual_height_read) :=
    read_board_lines num_rows num_cols lines [] 0 in
  board_lines
  ++ replicate (Z.to_nat (num_rows - actual_height_read))
               (replicate (Z.to_nat num_cols) " "%char).

(** [board_lines[y][x]]; an index out of range is undefined behaviour in
    the source and reads as a space here. *)
Definition board_char (board_lines : list (list ascii)) (x y : nat) : ascii :=
  match board_lines !! y with
  | Some line => match line !! x with
                 | Some c => c
                 | None => " "%char
                 end
  | None => " "%char
  end.

(** What "Populate game state objects" builds up: [state->objects], the
    [tanks] map in insertion order, the static [Tank::next_tank_id] and
    the two counters. *)
Record Populated := mkPopulated {
  pop_objects : list (GameObject Z);
  pop_tanks : list (Z * Tank);
  pop_next_tank_id : Z;
  player1_tanks : Z;
  player2_tanks : Z
}.

(** [tanks[id] = tank] on the entries of the map. *)
Definition tanks_insert (id : Z) (t : Tank) (tks : list (Z * Tank))
  : list (Z * Tank) :=
  if existsb (fun kt => fst kt =? id) tks
  then List.map (fun kt => if fst kt =? id then (id, t) else kt) tks
  else tks ++ [(id, t)].

(** The body of the two loops, for the cell [(x, y)].  [num_shells] is
    the static [Tank::initial_shells]; [indeterminate] stands for the
    [multiplier] that the [Tank] constructor leaves unset. *)
Definition populate_cell (num_shells indeterminate : Z)
    (board_lines : list (list ascii)) (st : Populated) (xy : nat * nat)
  : Populated :=
  let pos := mkPos (Z.of_nat (fst xy)) (Z.of_nat (snd xy)) in
  let c := board_char board_lines (fst xy) (snd xy) in
  let add_tank player dir :=
    let tank :=
      new_Tank (pop_next_tank_id st) num_shells indeterminate pos player dir in
    (pop_objects st ++ [TankObj (tank_id tank)],
     tanks_insert (tank_id tank) tank (pop_tanks st),
     pop_next_tank_id st + 1) in
  if Ascii.eqb c "1" then
    let '(objs, tks, next) := add_tank 1 LEFT in
    mkPopulated objs tks next (player1_tanks st + 1) (player2_tanks st)
  else if Ascii.eqb c "2" then
    let '(objs, tks, next) := add_tank 2 RIGHT in
    mkPopulated objs tks next (player1_tanks st) (player2_tanks st + 1)
  else if Ascii.eqb c "#" then
    mkPopulated (pop_objects st ++ [WallObj (new_Wall pos)]) (pop_tanks st)
                (pop_next_tank_id st) (player1_tanks st) (player2_tanks st)
  else if Ascii.eqb c "@" then
    mkPopulated (pop_objects st ++ [MineObj (new_Mine pos)]) (pop_tanks st)
                (pop_next_tank_id st) (player1_tanks st) (player2_tanks st)
  else st.

(** The cells in the order of the loops [for y < num_rows, for x <
    num_cols], as pairs [(x, y)]. *)
Definition board_cells (num_rows num_cols : Z) : list (nat * nat) :=
  flat_map (fun y => List.map (fun x => (x, y)) (seq 0 (Z.to_nat num_cols)))
           (seq 0 (Z.to_nat num_rows)).

Definition populate (num_rows num_cols num_shells indeterminate : Z)
    (next_tank_id : Z) (board_lines : list (list ascii)) : Populated :=
  fold_left (populate_cell num_shells indeterminate board_lines)
            (board_cells num_rows num_cols)
            (mkPopulated [] [] next_tank_id 0 0).

(** "Check for immediate win conditions based on initial tank counts",
    on [game_over] and [winner]. *)
Definition initial_verdict (st : Populated) (verdict : bool * string)
  : bool * string :=
  if (player1_tanks st =? 0) && (player2_tanks st =? 0)
  then (true, "Tie"%string)
  else if player1_tanks st =? 0 then (true, "Player 2"%string)
  else if player2_tanks st =? 0 then (true, "Player 1"%string)
  else verdict.

(** The position of the cell [(x, y)]. *)
Definition cell_pos (xy : nat * nat) : Position :=
  mkPos (Z.of_nat (fst xy)) (Z.of_nat (snd xy)).

(** What the populating loops have built after the cells [done]. *)
Definition populated_ok (num_shells indeterminate next_tank_id : Z)
    (board_lines : list (list ascii)) (done : list (nat * nat))
    (st : Populated) : Prop :=
  pop_next_tank_id st = next_tank_id + Z.of_nat (length (pop_tanks st))
  /\ List.map fst (pop_tanks st)
     = List.map (fun i => next_tank_id + Z.of_nat i)
                (seq 0 (length (pop_tanks st)))
  /\ sublist (List.map (fun kt => position (snd kt)) (pop_tanks st))
             (List.map cell_pos done)
  /\ (forall id t,
         (id, t) ∈ pop_tanks st ->
         TankObj id ∈ pop_objects st
         /\ exists xy,
              xy ∈ done
              /\ ((board_char board_lines (fst xy) (snd xy) = "1"%char
                   /\ t = new_Tank id num_shells indeterminate (cell_pos xy)
                                   1 LEFT)
                  \/ (board_char board_lines (fst xy) (snd xy) = "2"%char
                      /\ t = new_Tank id num_shells indeterminate
                                      (cell_pos xy) 2 RIGHT)))
  /\ (forall xy,
         xy ∈ done ->
         board_char board_lines (fst xy) (snd xy) = "1"%char
         \/ board_char board_lines (fst xy) (snd xy) = "2"%char ->
         exists id t, (id, t) ∈ pop_tanks st /\ position t = cell_pos xy)
  /\ (forall o,
         o ∈ pop_objects st ->
         (exists id, o = TankObj id /\ id ∈ List.map fst (pop_tanks st))
         \/ (exists xy, xy ∈ done
               /\ board_char board_lines (fst xy) (snd xy) = "#"%char
               /\ o = WallObj (new_Wall (cell_pos xy)))
         \/ (exists xy, xy ∈ done
               /\ board_char board_lines (fst xy) (snd xy) = "@"%char
               /\ o = MineObj (new_Mine (cell_pos xy))))
  /\ (forall xy,
         xy ∈ done ->
         (board_char board_lines (fst xy) (snd xy) = "#"%char ->
          WallObj (new_Wall (cell_pos xy)) ∈ pop_objects st)
         /\ (board_char board_lines (fst xy) (snd xy) = "@"%char ->
             MineObj (new_Mine (cell_pos xy)) ∈ pop_objects st))
  /\ player1_tanks st
     = Z.of_nat (length (List.filter (fun kt => player_id (snd kt) =? 1)
                                     (pop_tanks st)))
  /\ player2_tanks st
     = Z.of_nat (length (List.filter (fun kt => player_id (snd kt) =? 2)
                                     (pop_tanks st))).

(** Two neighbours about to exchange their cells. *)
Definition swap_left : TankEntry :=
  mkTankEntry 0
    (mkTank (mkPos 0 0) false INITIAL 1 0 0 RIGHT 3 0 1 true)
    (mkTankStepData (mkPos 1 0) MoveForward MOVE_PENDING false
       (mkLoggedAction 1 0 MoveForward false false false (Some 0))).

Definition swap_right : TankEntry :=
  mkTankEntry 1
    (mkTank (mkPos 1 0) false INITIAL 2 1 0 LEFT 3 0 1 true)
    (mkTankStepData (mkPos 0 0) MoveForward MOVE_PENDING false
       (mkLoggedAction 2 1 MoveForward false false false (Some 1))).

Definition swapping_entries : list TankEntry := [swap_left; swap_right].

(** ** Vocabulary of the statements about a whole step *)

(** The log record of an entry names the entry's tank. *)
Definition log_ok (e : TankEntry) : Prop :=
  la_player_id (logged_action (te_data e)) = player_id (te_tank e)
  /\ la_tank_id (logged_action (te_data e)) = te_id e.

(** What no phase of a step changes in an entry of [tank_data]: the
    identity of the tank, that ammunition is only spent, that a
    destroyed tank stays destroyed where it is, and whom the log record
    names. *)
Definition step_frame (e e' : TankEntry) : Prop :=
  te_id e' = te_id e
  /\ player_id (te_tank e') = player_id (te_tank e)
  /\ tank_id (te_tank e') = tank_id (te_tank e)
  /\ shells_remaining (te_tank e') <= shells_remaining (te_tank e)
  /\ (is_destroyed (te_tank e) = true ->
      is_destroyed (te_tank e') = true
      /\ position (te_tank e') = position (te_tank e)
      /\ cannonDirection (te_tank e') = cannonDirection (te_tank e))
  /\ (log_ok e -> log_ok e').

(** The same for a tank of the [tanks] map before and after a step. *)
Definition tank_frame (t t' : Tank) : Prop :=
  player_id t' = player_id t
  /\ tank_id t' = tank_id t
  /\ shells_remaining t' <= shells_remaining t
  /\ (is_destroyed t = true ->
      is_destroyed t' = true
      /\ position t' = position t
      /\ cannonDirection t' = cannonDirection t).

(** The board and [tank_data] when [processStep] reaches its step 6. *)
Definition step_end {Strat : Type} `{TankAlgorithm Strat}
    (umap_order : list Z -> list Z) (fresh_data : TankStepData)
    (gm : GameManager Strat) : GameState Z * list TankEntry :=
  let entries0 := prepareStep umap_order fresh_data (tanks gm) in
  let '(entries1, algos1, _) :=
    getPlayerActions entries0 (algorithms gm) in
  let entries2 := processTankTransitions entries1 in
  let '(gs3, _, entries3) :=
    executeImmediateActions (player1 gm) (player2 gm) (state gm) algos1
                            entries2 in
  runMovementAndCollisionSubSteps umap_order gs3 entries3.

(** ** GameManager::renderGameState *)

(** [GameState::isValidPosition] *)
Definition isValidPosition {T} (gs : GameState T) (pos : Position) : bool :=
  (0 <=? px pos) && (0 <=? py pos) && (px pos <? board_width gs)
  && (py pos <? board_height gs).

(** The body of the drawing loop of [renderGameState]; [board] is indexed
    [board[y][x]]. *)
Definition render_object (view : Z -> option Tank) (gs : GameState Z)
    (board : list (list ascii)) (obj : GameObject Z) : list (list ascii) :=
  let pos := obj_position view obj in
  if negb (obj_is_destroyed view obj) && isValidPosition gs pos then
    if (0 <=? py pos) && (py pos <? board_height gs) && (0 <=? px pos)
       && (px pos <? board_width gs)
    then matrix_set board (mkPos (py pos) (px pos)) (render view obj)
    else board
  else board.

(** The [board] that [renderGameState] draws, ['.'] for an empty cell. *)
Definition render_board (view : Z -> option Tank) (gs : GameState Z)
  : list (list ascii) :=
  fold_left (render_object view gs) (objects gs)
            (matrix_new (board_height gs) (board_width gs) ".").

(** [GameManager::renderGameState], for a [state] that is not null: the
    characters of the string. *)
Definition renderGameState (view : Z -> option Tank) (gs : GameState Z)
  : list ascii :=
  let border :=
    "+"%char :: replicate (Z.to_nat (board_width gs)) "-"%char
    ++ ["+"; "010"]%char in
  border
  ++ flat_map (fun row => "|"%char :: row ++ ["|"; "010"]%char)
              (render_board view gs)
  ++ border.

(** The test of the inner loop of [resolveShellTankCollisions] for the
    shell behind [fst ip], heading for [snd ip], and the tank of [e],
    with the two guards around it: the shell is live, and the tank was
    live when the function was entered. *)
Definition shell_strikes (objs : list (GameObject Z)) (ip : nat * Position)
    (e : TankEntry) : bool :=
  match shell_at objs (fst ip) with
  | Some shell =>
      negb (shell_is_destroyed shell)
      && negb (is_destroyed (te_tank e))
      && shell_hits (snd ip) (shell_position shell)
                    (effective_position e) (position (te_tank e))
  | None => false
  end.

(** The tank at which the inner loop of [resolveShellTankCollisions]
    breaks for one shell, if it does. *)
Definition shell_victim (tank_effective_positions : list (Z * Position))
    (tank_current_positions : list (Z * Position))
    (objs : list (GameObject Z)) (ip : nat * Position) : option Z :=
  match shell_at objs (fst ip) with
  | Some shell =>
      if shell_is_destroyed shell then None
      else
        fst <$> List.find
                  (fun kp =>
                     shell_hits (snd ip) (shell_position shell) (snd kp)
                       (default (mkPos 0 0)
                          (assoc_lookup (fst kp) tank_current_positions)))
                  tank_effective_positions
  | None => None
  end.
(** What the second loop of [resolveTankMineCollisions] has done to the
    objects [objs0] and the entries [es0] once it has visited the tanks
    [visited]: an entry is as it was or is that of a tank marked killed on
    a mine, and an object is as it was or is a mine destroyed under a
    tank. *)
Definition mines_sprung (mine_positions : gset Position)
    (objs0 : list (GameObject Z)) (es0 : list TankEntry)
    (visited : list (Z * Position))
    (st : GameState Z * list TankEntry) : Prop :=
  length (snd st) = length es0
  /\ (forall i e,
         es0 !! i = Some e ->
         snd st !! i = Some e
         \/ (snd st !! i = Some (mark_killed e)
             /\ is_destroyed (te_tank e) = false
             /\ (te_id e, effective_position e) ∈ visited
             /\ effective_position e ∈ mine_positions
             /\ exists mi mine,
                  objs0 !! mi = Some (MineObj mine)
                  /\ mine_is_destroyed mine = false
                  /\ mine_position mine = effective_position e
                  /\ objects (fst st) !! mi
                     = Some (MineObj (destroy_mine mine))))
  /\ length (objects (fst st)) = length objs0
  /\ (forall i o,
         objs0 !! i = Some o ->
         objects (fst st) !! i = Some o
         \/ exists mine e,
              o = MineObj mine
              /\ mine_is_destroyed mine = false
              /\ objects (fst st) !! i = Some (MineObj (destroy_mine mine))
              /\ mine_position mine ∈ mine_positions
              /\ e ∈ es0
              /\ is_destroyed (te_tank e) = false
              /\ (te_id e, effective_position e) ∈ visited
              /\ effective_position e = mine_position mine
              /\ mark_killed e ∈ snd st).
(** A shell on the cell [(2, 0)], flying to the left. *)
Definition incoming_shell : GameState Z :=
  mkGameState 3 1 [ShellObj (new_Shell (mkPos 2 0) LEFT)].

(** A tank on the cell [(2, 0)] that moves to the left, onto the cell
    that [swap_left] moves onto from the other side. *)
Definition meeting_right : TankEntry :=
  mkTankEntry 1
    (mkTank (mkPos 2 0) false INITIAL 2 1 0 LEFT 3 0 1 true)
    (mkTankStepData (mkPos 1 0) MoveForward MOVE_PENDING false
       (mkLoggedAction 2 1 MoveForward false false false (Some 1))).

Definition meeting_entries : list TankEntry := [swap_left; meeting_right].

(** The two tanks with a mine on the cell between them. *)
Definition mined_cell : GameState Z :=
  mkGameState 3 1 [TankObj 0; MineObj (mkMine (mkPos 1 0) false); TankObj 1].

(** The entries of [shells_intended_positions] whose shell is live in
    [objs] and heads for the cell [p]. *)
Definition shells_heading (objs : list (GameObject Z))
    (sip : list (nat * Position)) (p : Position) : list (nat * Position) :=
  List.filter (fun ip => shell_live objs (fst ip) && pos_eqb (snd ip) p) sip.

(** A new wall with three shells around it that all head for it. *)
Definition wall_three_shells : GameState Z :=
  mkGameState 4 4
    [ WallObj (new_Wall (mkPos 1 0));
      ShellObj (new_Shell (mkPos 0 0) RIGHT);
      ShellObj (new_Shell (mkPos 2 0) LEFT);
      ShellObj (new_Shell (mkPos 1 1) UP) ].

(** [o] is a live shell on the cell [q]: what the second drawing loop of
    [executeImmediateActions] draws there. *)
Definition shell_on (view : Z -> option Tank) (q : Position)
    (o : GameObject Z) : bool :=
  is_shell o && negb (obj_is_destroyed view o)
  && pos_eqb (obj_position view o) q.

(** What the two drawing loops leave on the cell [q] of the board: a
    star when a live shell is on it, else the symbol of the last live
    object on it, else a blank. *)
Definition drawn_at (view : Z -> option Tank) (gs : GameState Z)
    (q : Position) : ascii :=
  if existsb (shell_on view q) (objects gs) then "*"%char
  else match getObjectAt view (set_objects (rev (objects gs)) gs) q with
       | Some (_, o) => obj_symbol view o
       | None => " "%char
       end.

(** The unit of the entry [e] is live, on the board, in [state->objects],
    and the only live object on its cell. *)
Definition alone_on_cell (es : list TankEntry) (gs : GameState Z)
    (e : TankEntry) : Prop :=
  is_destroyed (te_tank e) = false
  /\ on_board (Z.to_nat (board_width gs)) (Z.to_nat (board_height gs))
              (position (te_tank e))
  /\ TankObj (te_id e) ∈ objects gs
  /\ forall o, o ∈ objects gs ->
               obj_is_destroyed (tank_of es) o = false ->
               obj_position (tank_of es) o = position (te_tank e) ->
               o = TankObj (te_id e).

(** A 3 x 3 board with a unit of each player in a corner and a mine
    under a shell in flight, and the entries of the two units once they
    have asked for the battle info. *)
Definition snapshot_board : GameState Z :=
  mkGameState 3 3
    [ TankObj 0;
      TankObj 1;
      ShellObj (new_Shell (mkPos 1 2) UP);
      MineObj (new_Mine (mkPos 1 2)) ].

Definition asking_entry : TankEntry :=
  mkTankEntry 0
    (mkTank (mkPos 0 0) false INITIAL 1 0 0 RIGHT 3 0 1 false)
    (mkTankStepData (mkPos 0 0) GetBattleInfo RETURNING_BATTLE_INFO false
       (mkLoggedAction 1 0 GetBattleInfo false false false (Some 0))).

Definition asking_second : TankEntry :=
  mkTankEntry 1
    (mkTank (mkPos 2 0) false INITIAL 2 1 0 LEFT 3 0 1 false)
    (mkTankStepData (mkPos 2 0) GetBattleInfo RETURNING_BATTLE_INFO false
       (mkLoggedAction 2 1 GetBattleInfo false false false (Some 1))).

Definition asking_entries : list TankEntry := [asking_entry; asking_second].

(** ** Proof automation *)

(** Membership goals that need no search. *)
Ltac sets := set_unfold; intuition (subst; eauto; congruence).

(** * Properties *)

(** ** Tank state machine *)

Lemma transition_keeps_ammo_cooldown (a : ActionRequest) (t : Tank) :
  shells_remaining (fst (transitionMovementState a t)) = shells_remaining t
  /\ cooldown_remaining (fst (transitionMovementState a t))
     = cooldown_remaining t
  /\ position (fst (transitionMovementState a t)) = position t
  /\ is_destroyed (fst (transitionMovementState a t)) = is_destroyed t.
Proof.
  unfold transitionMovementState.
  destruct a, t as [p d st pid tid mp cd sh cool mul mi]; destruct st;
    cbn; try (destruct (can_shoot _)); cbn; auto.
Qed.

Lemma can_shoot_false (t : Tank) :
  shells_remaining t = 0 \/ 0 < cooldown_remaining t -> can_shoot t = false.
Proof.
  unfold can_shoot. intros [Hs | Hc].
  - rewrite Hs. reflexivity.
  - apply andb_false_iff. right. apply Z.eqb_neq. lia.
Qed.

(** C3 (as stated) fails: a unit in [BWD_1] without ammunition that asks to
    shoot is not answered [INVALID_ACTION]; the pending reversal advances
    with [STATE_CHANGED]. *)
Lemma C3_pending_shoot_not_rejected :
  shells_remaining (sample_tank BWD_1 0 0) = 0
  /\ snd (transitionMovementState Shoot (sample_tank BWD_1 0 0))
     = STATE_CHANGED
  /\ snd (transitionMovementState Shoot (sample_tank BWD_1 0 0))
     <> INVALID_ACTION.
Proof. repeat split. discriminate. Qed.

(** C3 (amended).  For a shoot request to any unit [t]:
    - if the state machine answers [SHOT_INITIATED], [Tank::shoot] spawns a
      shell at the unit's position in its cannon direction, the ammunition
      drops by exactly 1 and the cooldown becomes exactly 4;
    - if the ammunition is 0 or the cooldown is positive, the state machine
      leaves ammunition and cooldown unchanged and never answers
      [SHOT_INITIATED]; for a unit in [INITIAL] or [MOVING_BWD] the answer is
      [INVALID_ACTION]; and [Tank::shoot] itself returns no shell and leaves
      the unit unchanged. *)
Theorem C3_shoot_request (t : Tank) :
  (snd (transitionMovementState Shoot t) = SHOT_INITIATED ->
     let t1 := fst (transitionMovementState Shoot t) in
     exists sh,
       snd (shoot t1) = Some sh
       /\ shell_position sh = position t
       /\ shell_direction sh = cannonDirection t
       /\ shell_is_destroyed sh = false
       /\ shells_remaining (fst (shoot t1)) = shells_remaining t - 1
       /\ cooldown_remaining (fst (shoot t1)) = 4)
  /\ (shells_remaining t = 0 \/ 0 < cooldown_remaining t ->
        let t1 := fst (transitionMovementState Shoot t) in
        shells_remaining t1 = shells_remaining t
        /\ cooldown_remaining t1 = cooldown_remaining t
        /\ snd (transitionMovementState Shoot t) <> SHOT_INITIATED
        /\ (movementState t = INITIAL \/ movementState t = MOVING_BWD ->
              snd (transitionMovementState Shoot t) = INVALID_ACTION)
        /\ shoot t = (t, None)).
Proof.
  split.
  - intros Hout t1. subst t1. revert Hout.
    unfold transitionMovementState.
    destruct t as [p d st pid tid mp cd sh cool mul mi]; destruct st; cbn;
      try discriminate.
    + destruct (can_shoot _) eqn:Hc; cbn; try discriminate. intros _.
      unfold shoot. rewrite Hc. cbn. eexists. repeat split.
    + destruct (can_shoot _) eqn:Hc; cbn; try discriminate. intros _.
      unfold shoot. rewrite Hc. cbn. eexists. repeat split.
  - intros Hno t1. subst t1.
    pose proof (can_shoot_false t Hno) as Hc.
    destruct (transition_keeps_ammo_cooldown Shoot t) as (Hs & Hcd & _ & _).
    repeat split; auto.
    + unfold transitionMovementState.
      destruct t as [p d st pid tid mp cd sh cool mul mi]; destruct st; cbn;
        try discriminate; unfold can_shoot in *; cbn in *; rewrite Hc;
        discriminate.
    + intros [Hst | Hst]; unfold transitionMovementState;
        destruct t as [p d st pid tid mp cd sh cool mul mi]; cbn in Hst;
        subst st; cbn; unfold can_shoot in *; cbn in *; rewrite Hc;
        reflexivity.
    + unfold shoot. rewrite Hc. reflexivity.
Qed.

Lemma C3_shoot_request_witness :
  (exists sh,
      snd (shoot (fst (transitionMovementState Shoot (sample_tank INITIAL 3 0))))
      = Some sh
      /\ shell_position sh = mkPos 2 2
      /\ shell_direction sh = RIGHT
      /\ shell_is_destroyed sh = false
      /\ shells_remaining
           (fst (shoot (fst (transitionMovementState Shoot
                               (sample_tank INITIAL 3 0))))) = 3 - 1
      /\ cooldown_remaining
           (fst (shoot (fst (transitionMovementState Shoot
                               (sample_tank INITIAL 3 0))))) = 4)
  /\ snd (transitionMovementState Shoot (sample_tank MOVING_BWD 3 2))
     = INVALID_ACTION.
Proof.
  split.
  - apply (proj1 (C3_shoot_request (sample_tank INITIAL 3 0))). reflexivity.
  - apply (proj2 (C3_shoot_request (sample_tank MOVING_BWD 3 2))).
    + right. cbn. lia.
    + right. reflexivity.
Defined.

(** ** Sub-steps: what they leave alone *)

Lemma frame_refl e : frame e e.
Proof. unfold frame. tauto. Qed.

Lemma frame_trans e1 e2 e3 : frame e1 e2 -> frame e2 e3 -> frame e1 e3.
Proof. unfold frame. intuition congruence. Qed.

Lemma keeps_refl e : keeps e e.
Proof. split; [apply frame_refl | tauto]. Qed.

Lemma keeps_trans e1 e2 e3 : keeps e1 e2 -> keeps e2 e3 -> keeps e1 e3.
Proof.
  intros [F1 K1] [F2 K2]. split; [eapply frame_trans; eauto |].
  intros P1. destruct (K1 P1) as (P2 & Hp & Hm).
  destruct (K2 P2) as (P3 & Hp' & Hm'). repeat split; try apply P3; congruence.
Qed.

Lemma stays_refl e : stays e e.
Proof. split; [apply frame_refl | tauto]. Qed.

Lemma stays_trans e1 e2 e3 : stays e1 e2 -> stays e2 e3 -> stays e1 e3.
Proof.
  intros [F1 K1] [F2 K2]. split; [eapply frame_trans; eauto |].
  intros P1. destruct (K1 P1) as (P2 & Hp & Hm).
  destruct (K2 P2) as (P3 & Hp' & Hm'). repeat split; congruence.
Qed.

Lemma Forall2_map_same {A} (R : A -> A -> Prop) (f : A -> A) (l : list A) :
  (forall x, R x (f x)) -> Forall2 R l (List.map f l).
Proof. intros Hf. induction l; cbn; constructor; auto. Qed.

Lemma Forall2_keeps_refl l : Forall2 keeps l l.
Proof. induction l; constructor; auto using keeps_refl. Qed.

Lemma Forall2_keeps_trans l1 l2 l3 :
  Forall2 keeps l1 l2 -> Forall2 keeps l2 l3 -> Forall2 keeps l1 l3.
Proof. apply Forall2_trans. apply keeps_trans. Qed.

Lemma Forall2_stays_trans l1 l2 l3 :
  Forall2 stays l1 l2 -> Forall2 stays l2 l3 -> Forall2 stays l1 l3.
Proof. apply Forall2_trans. apply stays_trans. Qed.

Lemma keeps_mark_killed e : keeps e (mark_killed e).
Proof.
  unfold mark_killed. destruct (is_destroyed (te_tank e)).
  - apply keeps_refl.
  - split; [unfold frame; cbn; tauto |].
    unfold parked; cbn. tauto.
Qed.

Lemma keeps_update_entry id f es :
  (forall e, keeps e (f e)) -> Forall2 keeps es (update_entry id f es).
Proof.
  intros Hf. apply Forall2_map_same. intros e.
  destruct (te_id e =? id); auto using keeps_refl.
Qed.

Lemma keeps_tank_wall_block wps e : keeps e (tank_wall_block wps e).
Proof.
  unfold tank_wall_block.
  destruct (move_intent_this_step (te_tank e)) eqn:Hmi; cbn;
    [| apply keeps_refl].
  destruct (_ && _); [| apply keeps_refl].
  split; [unfold frame; cbn; tauto |].
  unfold parked. intros [Hp _]. congruence.
Qed.

Lemma keeps_update_tank_position e : keeps e (update_tank_position e).
Proof.
  unfold update_tank_position.
  destruct (negb (is_destroyed (te_tank e))
            && negb (blocked_this_sub_step (te_data e))).
  - split.
    + unfold frame; cbn.
      destruct (negb (pos_eqb _ _)); cbn; tauto.
    + unfold parked; cbn. intros [Hmi Hip].
      destruct (negb (pos_eqb _ _)); cbn; rewrite Hip; tauto.
  - destruct (blocked_this_sub_step (te_data e)); [| apply keeps_refl].
    destruct (_ || _); [| apply keeps_refl].
    split; [unfold frame; cbn; tauto | unfold parked; cbn; tauto].
Qed.

Section EngineFacts.
Context {Strat : Type} `{TankAlgorithm Strat}.
Variable umap_order : list Z -> list Z.

Lemma keeps_shell_tank_loop tep tcp objs sip es :
  Forall2 keeps es (fst (shell_tank_loop tep tcp objs sip es)).
Proof.
  revert es. induction sip as [| [i p] rest IH]; intros es; cbn.
  - apply Forall2_keeps_refl.
  - destruct (shell_at objs i) as [sh |]; [| apply IH].
    destruct (shell_is_destroyed sh); [apply IH |].
    destruct (List.find _ tep) as [[id q] |]; [| apply IH].
    specialize (IH (update_entry id mark_killed es)).
    destruct (shell_tank_loop tep tcp objs rest _) as [es' hit]; cbn in *.
    eapply Forall2_keeps_trans; [| exact IH].
    apply keeps_update_entry, keeps_mark_killed.
Qed.

Lemma keeps_resolveShellTankCollisions sip gs es :
  Forall2 keeps es (snd (resolveShellTankCollisions umap_order sip gs es)).
Proof.
  unfold resolveShellTankCollisions.
  match goal with
  | |- context [shell_tank_loop ?a ?b ?c ?d ?e] =>
      pose proof (keeps_shell_tank_loop a b c d e) as Hk;
      destruct (shell_tank_loop a b c d e) as [es' hit]
  end.
  exact Hk.
Qed.

Lemma keeps_tank_mine_fold mps tep gs es :
  Forall2 keeps es (snd (fold_left (tank_mine_hit mps) tep (gs, es))).
Proof.
  revert gs es. induction tep as [| [id p] rest IH]; intros gs es; cbn.
  - apply Forall2_keeps_refl.
  - destruct (bool_decide (p ∈ mps)); [| apply IH].
    destruct (getMineAt _ gs p) as [[mi mine] |]; [| apply IH].
    destruct (negb (mine_is_destroyed mine)); [| apply IH].
    eapply Forall2_keeps_trans; [| apply IH].
    apply keeps_update_entry, keeps_mark_killed.
Qed.

Lemma keeps_resolveTankMineCollisions mps gs es :
  Forall2 keeps es (snd (resolveTankMineCollisions umap_order mps gs es)).
Proof. apply keeps_tank_mine_fold. Qed.

Lemma keeps_resolveTankTankCollisions es :
  Forall2 keeps es (resolveTankTankCollisions es).
Proof.
  unfold resolveTankTankCollisions.
  generalize (List.filter (tanks_collide es)
                (id_pairs (List.map te_id (live_entries es)))).
  intros prs. revert es.
  induction prs as [| pr rest IH]; intros es; cbn.
  - apply Forall2_keeps_refl.
  - eapply Forall2_keeps_trans; [| apply IH].
    eapply Forall2_keeps_trans; apply keeps_update_entry, keeps_mark_killed.
Qed.

Lemma keeps_resolveCollisionsSubStep sip gs es :
  Forall2 keeps es (snd (resolveCollisionsSubStep umap_order sip gs es)).
Proof.
  unfold resolveCollisionsSubStep.
  match goal with
  | |- context [resolveShellTankCollisions _ ?a ?b ?c] =>
      pose proof (keeps_resolveShellTankCollisions a b c) as H4;
      destruct (resolveShellTankCollisions umap_order a b c) as [gs4 es4]
  end.
  match goal with
  | |- context [resolveTankMineCollisions _ ?a ?b ?c] =>
      pose proof (keeps_resolveTankMineCollisions a b c) as H5;
      destruct (resolveTankMineCollisions umap_order a b c) as [gs5 es5]
  end.
  cbn in *.
  eapply Forall2_keeps_trans; [| apply keeps_resolveTankTankCollisions].
  eapply Forall2_keeps_trans; [| exact H5].
  eapply Forall2_keeps_trans; [| exact H4].
  apply Forall2_map_same, keeps_tank_wall_block.
Qed.

End EngineFacts.

Lemma intend_entry_starts max_speed gs e :
  let e1 := intend_entry max_speed gs (with_data (set_blocked false) e) in
  frame e e1
  /\ (move_intent_this_step (te_tank e) = false ->
      parked e1
      /\ position (te_tank e1) = position (te_tank e)
      /\ movement_progress (te_tank e1) = movement_progress (te_tank e)).
Proof.
  unfold intend_entry; cbn.
  destruct (move_intent_this_step (te_tank e)) eqn:Hmi; cbn.
  - unfold updateMovementProgress. rewrite Hmi; cbn.
    destruct (max_speed <=? _); cbn; (split; [unfold frame; cbn; tauto |]);
      discriminate.
  - split; [unfold frame; cbn; tauto |]. unfold parked; cbn. tauto.
Qed.

Lemma acted_refl e : acted e e.
Proof. unfold acted. tauto. Qed.

Section SubStepFacts.
Context {Strat : Type} `{TankAlgorithm Strat}.
Variable umap_order : list Z -> list Z.

Lemma sub_step_stays max_speed gs es :
  Forall2 stays es (snd (sub_step umap_order max_speed gs es)).
Proof.
  unfold sub_step, calculateIntendedTankPositionsSubStep.
  destruct (calculateShellIntendedPositionsSubStep max_speed gs)
    as [gs1 sip].
  rewrite List.map_map.
  match goal with
  | |- context [resolveCollisionsSubStep _ ?a ?b ?c] =>
      pose proof (keeps_resolveCollisionsSubStep umap_order a b c) as Hr;
      destruct (resolveCollisionsSubStep umap_order a b c) as [gs2 es2]
  end.
  cbn in *.
  assert (Hu : Forall2 keeps es2 (List.map update_tank_position es2))
    by apply Forall2_map_same, keeps_update_tank_position.
  pose proof (Forall2_keeps_trans _ _ _ Hr Hu) as Hk.
  eapply Forall2_trans; [| | exact Hk].
  2: { apply (Forall2_map_same
                (fun e e1 =>
                   frame e e1
                   /\ (move_intent_this_step (te_tank e) = false ->
                       parked e1
                       /\ position (te_tank e1) = position (te_tank e)
                       /\ movement_progress (te_tank e1)
                          = movement_progress (te_tank e)))).
       intros e. apply intend_entry_starts. }
  cbn. intros e e1 e2 [F1 S1] [F2 K2].
  split; [eapply frame_trans; eauto |].
  intros Hmi. destruct (S1 Hmi) as (P1 & Hp & Hm).
  destruct (K2 P1) as (P2 & Hp' & Hm').
  repeat split; try apply P2; congruence.
Qed.

Lemma sub_steps_stays n max_speed gs es :
  Forall2 stays es (snd (sub_steps umap_order n max_speed gs es)).
Proof.
  revert gs es. induction n as [| n IH]; intros gs es; cbn.
  - induction es; constructor; auto using stays_refl.
  - pose proof (sub_step_stays max_speed gs es) as Hs.
    destruct (sub_step umap_order max_speed gs es) as [gs' es']; cbn in *.
    destruct (any_tank_alive es'); cbn; [| exact Hs].
    eapply Forall2_stays_trans; [exact Hs | apply IH].
Qed.

Lemma runMovementAndCollisionSubSteps_stays gs es :
  Forall2 stays es
          (snd (runMovementAndCollisionSubSteps umap_order gs es)).
Proof.
  unfold runMovementAndCollisionSubSteps.
  destruct (_ =? 0); cbn.
  - induction es; constructor; auto using stays_refl.
  - apply sub_steps_stays.
Qed.

Lemma execute_entry_acted p1 p2 e st :
  acted e (fst (execute_entry p1 p2 e st)).
Proof.
  unfold execute_entry. destruct st as [[m objs] algos].
  repeat match goal with
         | |- context [if ?b then _ else _] => destruct b
         end; cbn; try apply acted_refl.
  all: unfold shoot; destruct (can_shoot (te_tank e)); cbn;
    unfold acted; cbn; tauto.
Qed.

Lemma execute_entries_acted p1 p2 es st :
  Forall2 acted es (fst (execute_entries p1 p2 es st)).
Proof.
  revert st. induction es as [| e rest IH]; intros st; cbn.
  - constructor.
  - pose proof (execute_entry_acted p1 p2 e st) as He.
    destruct (execute_entry p1 p2 e st) as [e' st1].
    specialize (IH st1).
    destruct (execute_entries p1 p2 rest st1) as [rest' st2].
    constructor; auto.
Qed.

Lemma executeImmediateActions_acted p1 p2 gs algos es :
  Forall2 acted es (snd (executeImmediateActions p1 p2 gs algos es)).
Proof.
  unfold executeImmediateActions.
  match goal with
  | |- context [execute_entries _ _ _ ?st] =>
      pose proof (execute_entries_acted p1 p2 es st) as He;
      destruct (execute_entries p1 p2 es st) as [es' [[m' objs'] algos']]
  end.
  exact He.
Qed.

End SubStepFacts.

(** C4 (as stated) fails: a unit in [BWD_2] that receives the info request,
    a non-forward action, is not promoted; it stays in [BWD_2] and the
    outcome is [RETURNING_BATTLE_INFO], because [transitionMovementState]
    answers the info request before it looks at the movement state. *)
Lemma C4_info_request_does_not_promote :
  movementState (fst (transitionMovementState GetBattleInfo
                        (sample_tank BWD_2 3 0))) = BWD_2
  /\ snd (transitionMovementState GetBattleInfo (sample_tank BWD_2 3 0))
     = RETURNING_BATTLE_INFO.
Proof. repeat split. Qed.

(** C4 (amended).  For a unit in [BWD_1] or [BWD_2]:
    - no request moves it, turns its cannon, or touches ammunition or
      cooldown within the state machine, and none is answered [ROTATED] or
      [SHOT_INITIATED];
    - a forward-move request returns it to [INITIAL] with [STATE_CHANGED]
      and without movement intent, and through the rest of the step
      (immediate actions and all sub-steps, whatever the other units and the
      board do) its position stays what it was;
    - another backward-move, a rotation or a shoot request takes [BWD_1] to
      [BWD_2] with [STATE_CHANGED], and takes [BWD_2] to [MOVING_BWD] with
      multiplier -1 and [MOVE_PENDING];
    - an info request leaves the movement state as it is and is answered
      [RETURNING_BATTLE_INFO].
    Nothing is said of what [DoNothing] does to the movement state. *)
Theorem C4_pending_reversal {Strat : Type} `{TankAlgorithm Strat}
    (umap_order : list Z -> list Z) (t : Tank) (a : ActionRequest) :
  movementState t = BWD_1 \/ movementState t = BWD_2 ->
  let t' := fst (transitionMovementState a t) in
  let o := snd (transitionMovementState a t) in
  (position t' = position t
   /\ cannonDirection t' = cannonDirection t
   /\ shells_remaining t' = shells_remaining t
   /\ cooldown_remaining t' = cooldown_remaining t
   /\ o <> ROTATED /\ o <> SHOT_INITIATED)
  /\ (a = MoveForward ->
      movementState t' = INITIAL /\ o = STATE_CHANGED
      /\ move_intent_this_step t' = false
      /\ forall (p1 p2 : MyPlayer) (gs : GameState Z) (algos : gmap Z Strat)
                (es : list TankEntry) (i : nat) (e : TankEntry),
          es !! i = Some e ->
          te_tank e = t -> is_destroyed t = false ->
          action (te_data e) = MoveForward ->
          let es2 := processTankTransitions es in
          let r3 := executeImmediateActions p1 p2 gs algos es2 in
          let r4 :=
            runMovementAndCollisionSubSteps umap_order (fst (fst r3))
                                            (snd r3) in
          exists e4,
            snd r4 !! i = Some e4
            /\ te_id e4 = te_id e
            /\ position (te_tank e4) = position t
            /\ movementState (te_tank e4) = INITIAL
            /\ outcome (te_data e4) = STATE_CHANGED)
  /\ (confirms_reversal a ->
      (movementState t = BWD_1 ->
       movementState t' = BWD_2 /\ o = STATE_CHANGED
       /\ move_intent_this_step t' = false)
      /\ (movementState t = BWD_2 ->
          movementState t' = MOVING_BWD /\ multiplier t' = -1
          /\ o = MOVE_PENDING /\ move_intent_this_step t' = true))
  /\ (a = GetBattleInfo ->
      movementState t' = movementState t
      /\ move_intent_this_step t' = false
      /\ o = RETURNING_BATTLE_INFO).
Proof.
  intros Hst t' o. subst t' o.
  assert (Hcancel :
            a = MoveForward ->
            movementState (fst (transitionMovementState a t)) = INITIAL
            /\ snd (transitionMovementState a t) = STATE_CHANGED
            /\ move_intent_this_step (fst (transitionMovementState a t))
               = false
            /\ position (fst (transitionMovementState a t)) = position t).
  { intros ->. destruct t as [p d st pid tid mp cd sh cool mul mi].
    cbn in Hst. destruct Hst; subst st; cbn; auto. }
  split; [| split; [| split]].
  - destruct t as [p d st pid tid mp cd sh cool mul mi].
    cbn in Hst. destruct Hst; subst st; destruct a; cbn;
      repeat split; discriminate.
  - intros Ha. destruct (Hcancel Ha) as (Hi & Ho & Hmi & Hpos).
    repeat split; auto.
    intros p1 p2 gs algos es i e Hlook Het Hlive Hact es2 r3 r4.
    subst es2 r3 r4.
    (* entry [i] after the transitions *)
    assert (H2 : processTankTransitions es !! i = Some (transition_entry e)).
    { unfold processTankTransitions.
      change (List.map transition_entry es) with (transition_entry <$> es).
      rewrite list_lookup_fmap, Hlook. reflexivity. }
    pose proof (executeImmediateActions_acted p1 p2 gs algos
                  (processTankTransitions es)) as H3.
    destruct (Forall2_lookup_l _ _ _ _ _ H3 H2) as (e3 & Hl3 & A3).
    pose proof (runMovementAndCollisionSubSteps_stays umap_order
                  (fst (fst (executeImmediateActions p1 p2 gs algos
                               (processTankTransitions es))))
                  (snd (executeImmediateActions p1 p2 gs algos
                          (processTankTransitions es)))) as H4.
    destruct (Forall2_lookup_l _ _ _ _ _ H4 Hl3) as (e4 & Hl4 & [F4 S4]).
    exists e4. split; [exact Hl4 |].
    assert (Hte : transition_entry e
                  = mkTankEntry (te_id e) (fst (transitionMovementState a t))
                      (set_outcome (snd (transitionMovementState a t))
                                   (te_data e))).
    { unfold transition_entry. rewrite Het, Hlive, Hact. subst a.
      destruct (transitionMovementState MoveForward t). reflexivity. }
    rewrite Hte in A3. unfold acted in A3; cbn in A3.
    destruct A3 as (A1 & A2 & _ & A4 & _ & _ & _ & A8 & _ & A10).
    unfold frame in F4.
    destruct F4 as (F1 & _ & F3 & _ & _ & _ & _ & F8).
    assert (Hmi3 : move_intent_this_step (te_tank e3) = false)
      by (rewrite A8; exact Hmi).
    destruct (S4 Hmi3) as (_ & Hp4 & _).
    repeat split; congruence.
  - intros Hc. destruct t as [p d st pid tid mp cd sh cool mul mi].
    cbn in Hst. unfold confirms_reversal in Hc.
    split; intros Hs; cbn in Hs; subst st;
      destruct Hc as [-> | [-> | [-> | [-> | [-> | ->]]]]]; cbn; auto.
  - intros ->. destruct t as [p d st pid tid mp cd sh cool mul mi].
    cbn in Hst. destruct Hst; subst st; cbn; auto.
Qed.

Lemma C4_pending_reversal_witness :
  movementState (fst (transitionMovementState MoveForward
                        (sample_tank BWD_1 3 0))) = INITIAL
  /\ snd (transitionMovementState MoveForward (sample_tank BWD_1 3 0))
     = STATE_CHANGED.
Proof.
  destruct (C4_pending_reversal (Strat := RotatingAlgorithm) (fun l => l)
              (sample_tank BWD_1 3 0) MoveForward (or_introl eq_refl))
    as (_ & Hforward & _).
  destruct (Hforward eq_refl) as (Hstate & Hout & _).
  exact (conj Hstate Hout).
Defined.

(** ** GameState::clone *)

Lemma clone_object_is_clone fresh o : is_clone_of o (clone_object fresh o).
Proof.
  destruct o as [t | s | w | m]; cbn.
  - destruct (fresh t) as [[nid ish] ind]. cbn. repeat split.
  - repeat split.
  - repeat split.
  - repeat split.
Qed.

(** C9.  [clone] keeps the board dimensions; its objects are, in order, the
    copies of exactly the non-destroyed objects of the original; a copy
    keeps position (and player id, cannon direction, ammunition, cooldown
    for a tank; direction for a shell) and is reset otherwise: a tank copy
    is in [INITIAL] with progress 0 and no movement intent, a shell copy has
    progress 0, a wall copy has health 2 whatever the original's health. *)
Theorem C9_clone (fresh : Tank -> Z * Z * Z) (gs : GameState Tank) :
  board_width (clone fresh gs) = board_width gs
  /\ board_height (clone fresh gs) = board_height gs
  /\ Forall2 is_clone_of
       (List.filter (fun o => negb (value_is_destroyed o)) (objects gs))
       (objects (clone fresh gs))
  /\ (forall o, o ∈ objects gs -> value_is_destroyed o = true ->
        length (objects (clone fresh gs))
        < length (objects gs))%nat
  /\ Forall (fun c => value_is_destroyed c = false) (objects (clone fresh gs)).
Proof.
  unfold clone; cbn. repeat split.
  - apply Forall2_map_same, clone_object_is_clone.
  - intros o Hin Hd. rewrite List.length_map.
    induction (objects gs) as [| x l IH]; [inversion Hin |].
    cbn. apply elem_of_cons in Hin as [<- | Hin].
    + rewrite Hd; cbn. pose proof (List.filter_length_le
        (fun o => negb (value_is_destroyed o)) l). lia.
    + specialize (IH Hin). destruct (negb (value_is_destroyed x)); cbn; lia.
  - apply Forall_forall. intros c Hc. apply list_elem_of_In in Hc.
    apply List.in_map_iff in Hc as (o & <- & _).
    destruct o as [t | s | w | m]; cbn; auto.
    destruct (fresh t) as [[nid ish] ind]. reflexivity.
Qed.

(** The sample state has four objects, one of them destroyed; the clone has
    three, with the damaged wall back at health 2 and the reversing tank
    back in [INITIAL]. *)
Example clone_sample_state :
  objects (clone (fun _ => (9, 5, 0)) sample_state)
  = [ WallObj (mkWall (mkPos 0 0) false 2);
      TankObj (mkTank (mkPos 2 2) false INITIAL 2 9 0 UP 3 2 0 false);
      ShellObj (mkShell (mkPos 3 3) false 0 LEFT) ].
Proof. reflexivity. Qed.

(** ** The pursuit strategy: the tracked cooldown *)

Lemma getShortestRotation_cases c t :
  getShortestRotation c t = DoNothing
  \/ getShortestRotation c t = RotateRight45
  \/ getShortestRotation c t = RotateLeft45
  \/ getShortestRotation c t = RotateRight90
  \/ getShortestRotation c t = RotateLeft90.
Proof. destruct c, t; cbn; tauto. Qed.

Lemma track_rotation_cooldown r s :
  ca_cooldown_remaining (track_rotation r s) = ca_cooldown_remaining s
  /\ shouldAskForBattleInfo (track_rotation r s) = shouldAskForBattleInfo s.
Proof. destruct r; cbn; auto. Qed.

Lemma inferShellDirections_cooldown s :
  ca_cooldown_remaining (fst (inferShellDirections s))
  = ca_cooldown_remaining s
  /\ shouldAskForBattleInfo (fst (inferShellDirections s))
     = shouldAskForBattleInfo s.
Proof.
  unfold inferShellDirections.
  destruct (fold_left _ (findShellPositions s) (shell_directions s, []))
    as [dirs inferred].
  cbn. auto.
Qed.

Section ChasingFacts.
Variable isLineOfSightClear :
  Position -> Position -> Z -> Z -> Matrix -> bool.

Lemma target_and_move_cooldown s myPos dirs :
  let r := target_and_move isLineOfSightClear s myPos dirs in
  fst r <> GetBattleInfo
  /\ shouldAskForBattleInfo (snd r) = shouldAskForBattleInfo s
  /\ (fst r = Shoot ->
      ca_cooldown_remaining s = 0
      /\ ca_cooldown_remaining (snd r) = SHOOT_COOLDOWN)
  /\ (fst r <> Shoot ->
      ca_cooldown_remaining (snd r) = ca_cooldown_remaining s).
Proof.
  unfold target_and_move, rotate_to_search.
  destruct (match findOpponentInLine s with
            | Some p => Some p
            | None => findClosestOpponent s
            end) as [target |]; cbn.
  2: { repeat split; try discriminate; auto. }
  destruct (match calculateDirection myPos target with
            | Some d => _
            | None => false
            end) eqn:Hfire.
  { cbn. repeat split; try discriminate; auto; try congruence.
    destruct (calculateDirection myPos target); [| discriminate].
    apply andb_prop in Hfire as [Hfire _].
    apply andb_prop in Hfire as [_ Hcd]. apply Z.eqb_eq in Hcd. exact Hcd. }
  destruct (findShortestPathBFS s myPos target) as [| nextPosition path];
    cbn.
  { repeat split; try discriminate; auto. }
  destruct (negb (isPositionInDanger s nextPosition dirs)); cbn.
  2: { repeat split; try discriminate; auto. }
  destruct (calculateDirection myPos nextPosition) as [req |]; cbn.
  2: { repeat split; try discriminate; auto. }
  destruct (_ && _); cbn.
  { repeat split; try discriminate; auto. }
  destruct (bool_decide _) eqn:Hdn; cbn.
  { repeat split; try discriminate; auto. }
  apply bool_decide_eq_false in Hdn.
  destruct (track_rotation_cooldown
              (getShortestRotation (currentCannonDirection s) req) s)
    as [Hc Ha].
  destruct (getShortestRotation_cases (currentCannonDirection s) req)
    as [Hr | [Hr | [Hr | [Hr | Hr]]]]; rewrite Hr in *;
    repeat split; try discriminate; try congruence; auto.
Qed.

Lemma combat_action_cooldown s2 :
  let r := combat_action isLineOfSightClear s2 in
  fst r <> GetBattleInfo
  /\ shouldAskForBattleInfo (snd r) = shouldAskForBattleInfo s2
  /\ (fst r = Shoot ->
      ca_cooldown_remaining s2 = 0
      /\ ca_cooldown_remaining (snd r) = SHOOT_COOLDOWN)
  /\ (fst r <> Shoot ->
      ca_cooldown_remaining (snd r) = ca_cooldown_remaining s2).
Proof.
  cbv zeta. unfold combat_action.
  destruct (inferShellDirections_cooldown s2) as [Hc3 Ha3].
  destruct (inferShellDirections s2) as [s3 dirs]; cbn in Hc3, Ha3.
  rewrite <- Hc3, <- Ha3.
  pose proof (target_and_move_cooldown s3 (findMyTankPosition s2) dirs)
    as Htm. cbv zeta in Htm.
  destruct (isPositionInDanger s3 (findMyTankPosition s2) dirs);
    [| exact Htm].
  destruct (findSafeDirection s3 (findMyTankPosition s2) dirs)
    as [safe |]; [| exact Htm].
  destruct (negb (dir_eqb (currentCannonDirection s3) safe)
            && negb (bool_decide (getShortestRotation
                                    (currentCannonDirection s3) safe
                                  = DoNothing))) eqn:Hrot.
  - cbn. apply andb_prop in Hrot as [_ Hdn].
    apply negb_true_iff, bool_decide_eq_false in Hdn.
    destruct (track_rotation_cooldown
                (getShortestRotation (currentCannonDirection s3) safe) s3)
      as [Hc Ha].
    destruct (getShortestRotation_cases (currentCannonDirection s3) safe)
      as [Hr | [Hr | [Hr | [Hr | Hr]]]]; rewrite Hr in *;
      repeat split; try discriminate; try congruence; auto.
  - destruct (dir_eqb (currentCannonDirection s3) safe); [| exact Htm].
    cbn. repeat split; try discriminate; auto.
Qed.

(** C8 (amended).  Every invocation of [getAction] first decrements the
    tracked cooldown when it is above zero, whether the invocation is an
    info request or not.  The invocations alternate: when the flag is set
    the answer is [GetBattleInfo], the flag is cleared and the cooldown is
    the decremented one; when the flag is clear the answer is never
    [GetBattleInfo], the flag is set, and the cooldown is the decremented
    one unless the answer is [Shoot], which is possible only at a
    decremented cooldown of 0 and sets it to 4. *)
Theorem C8_tracked_cooldown (s : ChasingAlgorithm) :
  let a := fst (Chasing_getAction isLineOfSightClear s) in
  let s' := snd (Chasing_getAction isLineOfSightClear s) in
  let c := decremented (ca_cooldown_remaining s) in
  (shouldAskForBattleInfo s = true ->
   a = GetBattleInfo /\ shouldAskForBattleInfo s' = false
   /\ ca_cooldown_remaining s' = c)
  /\ (shouldAskForBattleInfo s = false ->
      a <> GetBattleInfo /\ shouldAskForBattleInfo s' = true
      /\ (a = Shoot -> c = 0 /\ ca_cooldown_remaining s' = SHOOT_COOLDOWN)
      /\ (a <> Shoot -> ca_cooldown_remaining s' = c)).
Proof.
  cbv zeta. unfold Chasing_getAction, decremented.
  set (s1 := if 0 <? ca_cooldown_remaining s then _ else s).
  assert (Hs1 : shouldAskForBattleInfo s1 = shouldAskForBattleInfo s
                /\ ca_cooldown_remaining s1
                   = (if 0 <? ca_cooldown_remaining s
                      then ca_cooldown_remaining s - 1
                      else ca_cooldown_remaining s)).
  { subst s1. destruct (0 <? ca_cooldown_remaining s); cbn; auto. }
  destruct Hs1 as [Hask Hcd]. rewrite <- Hcd. clearbody s1.
  split; intros Hflag; rewrite <- Hask in Hflag; rewrite Hflag.
  - cbn. repeat split.
  - pose proof (combat_action_cooldown (set_ask (negb false) s1)) as Hc.
    cbn in Hc. exact Hc.
Qed.

End ChasingFacts.

(** C8 (as stated) fails: on an info-request invocation the tracked
    cooldown is decremented all the same (3 becomes 2); the line-of-sight
    test is not consulted on such an invocation. *)
Lemma C8_info_request_decrements :
  fst (Chasing_getAction (fun _ _ _ _ _ => true) asking_strategy)
  = GetBattleInfo
  /\ ca_cooldown_remaining asking_strategy = 3
  /\ ca_cooldown_remaining
       (snd (Chasing_getAction (fun _ _ _ _ _ => true) asking_strategy)) = 2.
Proof. repeat split. Qed.

Lemma C8_tracked_cooldown_witness :
  fst (Chasing_getAction (fun _ _ _ _ _ => true) asking_strategy)
  = GetBattleInfo
  /\ ca_cooldown_remaining
       (snd (Chasing_getAction (fun _ _ _ _ _ => true) asking_strategy))
     = decremented 3.
Proof.
  destruct (C8_tracked_cooldown (fun _ _ _ _ _ => true) asking_strategy)
    as [Hask _].
  destruct (Hask eq_refl) as (Ha & _ & Hc).
  exact (conj Ha Hc).
Defined.

(** ** The board matrix of the observation snapshot *)

Lemma rect_new (w h : Z) c :
  rect (Z.to_nat w) (Z.to_nat h) (matrix_new w h c).
Proof.
  unfold rect, matrix_new. split.
  - apply length_replicate.
  - apply Forall_forall. intros col Hin.
    apply elem_of_replicate in Hin as [-> _]. apply length_replicate.
Qed.

Lemma rect_set w h m p c : rect w h m -> rect w h (matrix_set m p c).
Proof.
  unfold rect, matrix_set. intros [Hl Hc].
  destruct (_ || _); [auto |]. split.
  - rewrite length_alter. exact Hl.
  - apply Forall_alter; [exact Hc |]. intros col _ Hcol.
    rewrite length_insert. exact Hcol.
Qed.

Lemma seen_at_get w h m p :
  rect w h m -> on_board w h p -> seen_at m p = matrix_get m (px p) (py p).
Proof.
  unfold rect, on_board, seen_at, SatelliteView_getObjectAt.
  intros [Hl Hc] [[Hx0 Hx] [Hy0 Hy]].
  destruct m as [| col0 rest]; [cbn in Hl; lia |].
  assert (Hc0 : length col0 = h) by (inversion Hc; auto).
  rewrite Hl, Hc0, !Z2Nat.id by lia.
  replace (w <=? Z.to_nat (px p))%nat with false
    by (symmetry; apply Nat.leb_gt; lia).
  replace (h =? 0)%nat with false by (symmetry; apply Nat.eqb_neq; lia).
  replace (h <=? Z.to_nat (py p))%nat with false
    by (symmetry; apply Nat.leb_gt; lia).
  reflexivity.
Qed.

Lemma matrix_get_set_same w h m p c :
  rect w h m -> on_board w h p ->
  matrix_get (matrix_set m p c) (px p) (py p) = c.
Proof.
  unfold rect, on_board, matrix_get, matrix_set.
  intros [Hl Hc] [[Hx0 Hx] [Hy0 Hy]].
  replace (px p <? 0) with false by (symmetry; apply Z.ltb_ge; lia).
  replace (py p <? 0) with false by (symmetry; apply Z.ltb_ge; lia).
  cbn.
  destruct (lookup_lt_is_Some_2 m (Z.to_nat (px p))) as [col Hcol]; [lia |].
  rewrite list_lookup_alter_eq, Hcol; cbn.
  assert (Hlen : length col = h).
  { rewrite Forall_forall in Hc. apply Hc.
    apply list_elem_of_lookup. eauto. }
  rewrite list_lookup_insert_eq by lia. reflexivity.
Qed.

Lemma matrix_get_set_other m p c x y :
  mkPos x y <> p ->
  matrix_get (matrix_set m p c) x y = matrix_get m x y.
Proof.
  unfold matrix_get, matrix_set. intros Hne.
  destruct ((px p <? 0) || (py p <? 0)) eqn:Hp; [reflexivity |].
  apply orb_false_iff in Hp as [Hpx Hpy].
  apply Z.ltb_ge in Hpx, Hpy.
  destruct ((x <? 0) || (y <? 0)) eqn:Hxy; [reflexivity |].
  apply orb_false_iff in Hxy as [Hx Hy].
  apply Z.ltb_ge in Hx, Hy.
  destruct (decide (Z.to_nat x = Z.to_nat (px p))) as [Hex | Hnx].
  - rewrite Hex, list_lookup_alter_eq.
    destruct (m !! Z.to_nat (px p)) as [col |]; cbn; [| reflexivity].
    rewrite list_lookup_insert_ne; [reflexivity |].
    intros Hey. apply Hne. destruct p as [a b]; cbn in *.
    f_equal; lia.
  - rewrite list_lookup_alter_ne by congruence. reflexivity.
Qed.

Lemma seen_set_same w h m p c :
  rect w h m -> on_board w h p -> seen_at (matrix_set m p c) p = c.
Proof.
  intros Hr Hp. rewrite (seen_at_get w h) by auto using rect_set.
  eapply matrix_get_set_same; eauto.
Qed.

Lemma seen_set_other w h m p c q :
  rect w h m -> on_board w h q -> q <> p ->
  seen_at (matrix_set m p c) q = seen_at m q.
Proof.
  intros Hr Hq Hne.
  rewrite !(seen_at_get w h) by auto using rect_set.
  apply matrix_get_set_other. destruct q; cbn. exact Hne.
Qed.

Lemma matrix_set_id w h m p c :
  rect w h m -> on_board w h p -> seen_at m p = c -> matrix_set m p c = m.
Proof.
  intros Hr Hp Hs. rewrite (seen_at_get w h) in Hs by auto.
  revert Hs. destruct Hr as [Hl Hc]. destruct Hp as [[Hx0 Hx] [Hy0 Hy]].
  unfold matrix_get, matrix_set.
  replace (px p <? 0) with false by (symmetry; apply Z.ltb_ge; lia).
  replace (py p <? 0) with false by (symmetry; apply Z.ltb_ge; lia).
  cbn.
  destruct (lookup_lt_is_Some_2 m (Z.to_nat (px p))) as [col Hcol]; [lia |].
  rewrite Hcol.
  assert (Hlen : length col = h).
  { rewrite Forall_forall in Hc. apply Hc.
    apply list_elem_of_lookup. eauto. }
  destruct (lookup_lt_is_Some_2 col (Z.to_nat (py p))) as [c0 Hc0]; [lia |].
  rewrite Hc0. intros ->.
  apply list_eq. intros i.
  destruct (decide (i = Z.to_nat (px p))) as [-> | Hne].
  - rewrite list_lookup_alter_eq, Hcol; cbn.
    rewrite list_insert_id by exact Hc0. reflexivity.
  - rewrite list_lookup_alter_ne by congruence. reflexivity.
Qed.

Section SnapshotFacts.
Context {Strat : Type} `{TankAlgorithm Strat}.
Variable view : Z -> option Tank.

Lemma rect_draw_object w h m o :
  rect w h m -> rect w h (draw_object view m o).
Proof.
  unfold draw_object. intros Hr.
  destruct (obj_is_destroyed view o); auto using rect_set.
Qed.

Lemma rect_draw_shell w h m o :
  rect w h m -> rect w h (draw_shell view m o).
Proof.
  unfold draw_shell. intros Hr.
  destruct (obj_is_destroyed view o); auto.
  destruct (is_shell o); auto using rect_set.
Qed.

Lemma rect_fold_draw_object w h objs m :
  rect w h m -> rect w h (fold_left (draw_object view) objs m).
Proof.
  revert m. induction objs; cbn; auto using rect_draw_object.
Qed.

Lemma draw_shell_keeps_star w h m o p :
  rect w h m -> on_board w h p -> seen_at m p = "*"%char ->
  seen_at (draw_shell view m o) p = "*"%char.
Proof.
  unfold draw_shell, render. intros Hr Hp Hs.
  destruct (obj_is_destroyed view o); auto.
  destruct o as [r | s | wl | mn]; cbn; auto.
  destruct (decide (p = shell_position s)) as [-> | Hne].
  - eapply seen_set_same; eauto.
  - erewrite seen_set_other; eauto.
Qed.

Lemma fold_draw_shell_keeps_star w h objs m p :
  rect w h m -> on_board w h p -> seen_at m p = "*"%char ->
  seen_at (fold_left (draw_shell view) objs m) p = "*"%char.
Proof.
  revert m. induction objs as [| o rest IH]; intros m Hr Hp Hs; cbn; auto.
  apply IH; eauto using rect_draw_shell, draw_shell_keeps_star.
Qed.

Lemma fold_draw_shell_star w h objs m s :
  rect w h m -> on_board w h (shell_position s) ->
  ShellObj s ∈ objs -> shell_is_destroyed s = false ->
  seen_at (fold_left (draw_shell view) objs m) (shell_position s)
  = "*"%char.
Proof.
  revert m. induction objs as [| o rest IH]; intros m Hr Hp Hin Hlive.
  - inversion Hin.
  - cbn. apply elem_of_cons in Hin as [<- | Hin].
    + apply (fold_draw_shell_keeps_star w h); auto using rect_draw_shell.
      unfold draw_shell, render; cbn. rewrite Hlive.
      eapply seen_set_same; eauto.
    + apply IH; auto using rect_draw_shell.
Qed.

End SnapshotFacts.

Lemma C9_clone_witness :
  (length (objects (clone sample_fresh sample_state))
   < length (objects sample_state))%nat.
Proof.
  apply (proj1 (proj2 (proj2 (proj2 (C9_clone sample_fresh sample_state))))
               (MineObj (mkMine (mkPos 1 1) true))).
  - apply list_elem_of_further, list_elem_of_here.
  - reflexivity.
Defined.

(** ** Walls *)

Lemma pos_eqb_eq a b : pos_eqb a b = true <-> a = b.
Proof.
  unfold pos_eqb. destruct a as [ax ay], b as [bx by']; cbn.
  rewrite andb_true_iff, !Z.eqb_eq. split.
  - intros [-> ->]. reflexivity.
  - intros [= -> ->]. auto.
Qed.

Lemma pos_eqb_refl a : pos_eqb a a = true.
Proof. apply pos_eqb_eq. reflexivity. Qed.

Lemma pos_eqb_neq a b : pos_eqb a b = false <-> a <> b.
Proof.
  rewrite <- pos_eqb_eq. destruct (pos_eqb a b); split; congruence.
Qed.

Lemma obj_ok_on_shell f o : obj_ok o -> obj_ok (on_shell f o).
Proof. destruct o; cbn; auto. Qed.

Lemma obj_ok_on_mine f o : obj_ok o -> obj_ok (on_mine f o).
Proof. destruct o; cbn; auto. Qed.

Lemma walls_ok_alter_shell f i objs :
  walls_ok objs -> walls_ok (alter (on_shell f) i objs).
Proof.
  intros Hw. apply Forall_alter; auto. intros o _. apply obj_ok_on_shell.
Qed.

Lemma walls_ok_alter_mine f i objs :
  walls_ok objs -> walls_ok (alter (on_mine f) i objs).
Proof.
  intros Hw. apply Forall_alter; auto. intros o _. apply obj_ok_on_mine.
Qed.

Lemma walls_ok_destroy_shells l objs :
  walls_ok objs ->
  walls_ok (fold_left (fun o i => destroy_shell_at i o) l objs).
Proof.
  revert objs. induction l as [| i l IH]; intros objs Hw; cbn; auto.
  apply IH. apply walls_ok_alter_shell, Hw.
Qed.

Lemma takeDamage_ok w :
  wall_ok w -> wall_is_destroyed w = false ->
  wall_ok (fst (takeDamage w))
  /\ health (fst (takeDamage w)) = health w - 1
  /\ 0 <= health (fst (takeDamage w))
  /\ (wall_is_destroyed (fst (takeDamage w)) = true
      <-> health (fst (takeDamage w)) = 0)
  /\ snd (takeDamage w) = wall_is_destroyed (fst (takeDamage w)).
Proof.
  unfold wall_ok, takeDamage. intros [[_ Hh] | [Hd _]] Hlive;
    [| congruence].
  destruct Hh as [Hh | Hh]; rewrite Hh; cbn; rewrite ?Hlive;
    repeat split; intros; try lia; try discriminate; auto.
Qed.

Section WallFacts.
Context {Strat : Type} `{TankAlgorithm Strat}.
Variable umap_order : list Z -> list Z.
Variable fresh_data : TankStepData.
Variable max_after : Z.

Lemma getObjectAt_from_spec (view : Z -> option Tank) i objs pos j o :
  getObjectAt_from view i objs pos = Some (j, o) ->
  exists k, j = (i + k)%nat /\ objs !! k = Some o
            /\ obj_is_destroyed view o = false
            /\ obj_position view o = pos.
Proof.
  revert i. induction objs as [| x rest IH]; intros i; cbn; [discriminate |].
  destruct (negb (obj_is_destroyed view x)
            && pos_eqb (obj_position view x) pos) eqn:Hx.
  - intros [= <- <-]. exists 0%nat.
    apply andb_prop in Hx as [Hd Hp].
    apply negb_true_iff in Hd. apply pos_eqb_eq in Hp.
    split; [lia |]. split; [reflexivity |]. split; assumption.
  - intros Hr. destruct (IH _ Hr) as (k & -> & Hk & Hd & Hp).
    exists (S k). repeat split; auto; lia.
Qed.

Lemma getWallAt_spec (view : Z -> option Tank) gs pos wi wall :
  getWallAt view gs pos = Some (wi, wall) ->
  objects gs !! wi = Some (WallObj wall)
  /\ wall_is_destroyed wall = false
  /\ wall_position wall = pos.
Proof.
  unfold getWallAt, getObjectAt.
  destruct (getObjectAt_from view 0 (objects gs) pos) as [[j o] |] eqn:Hg;
    [| discriminate].
  destruct o as [r | s | w | m]; try discriminate.
  intros [= <- <-].
  destruct (getObjectAt_from_spec _ _ _ _ _ _ Hg) as (k & -> & Hk & Hd & Hp).
  cbn in *. auto.
Qed.

Lemma shell_wall_hit_spec (view : Z -> option Tank) wps gs i pos :
  walls_ok (objects gs) ->
  let gs' := shell_wall_hit view wps gs (i, pos) in
  walls_ok (objects gs')
  /\ (forall wi wall,
         shell_live (objects gs) i = true -> pos ∈ wps ->
         getWallAt view gs pos = Some (wi, wall) ->
         exists wall',
           objects gs' !! wi = Some (WallObj wall')
           /\ wall_position wall' = wall_position wall
           /\ health wall' = health wall - 1
           /\ 0 <= health wall'
           /\ (wall_is_destroyed wall' = true <-> health wall' = 0)
           /\ shell_live (objects gs') i = false)
  /\ (shell_live (objects gs) i = false \/ pos ∉ wps
      \/ getWallAt view gs pos = None -> gs' = gs).
Proof.
  intros Hok gs'. subst gs'. unfold shell_wall_hit.
  destruct (shell_live (objects gs) i) eqn:Hlive; cbn.
  2: { repeat split; auto. intros; discriminate. }
  destruct (bool_decide (pos ∈ wps)) eqn:Hin; cbn.
  2: { apply bool_decide_eq_false in Hin.
       repeat split; auto. intros; contradiction. }
  apply bool_decide_eq_true in Hin.
  destruct (getWallAt view gs pos) as [[wi wall] |] eqn:Hw.
  2: { repeat split; auto. intros; discriminate. }
  destruct (getWallAt_spec _ _ _ _ _ Hw) as (Hlook & Hwl & Hwp).
  rewrite Hwl; cbn.
  assert (Hwok : wall_ok wall).
  { unfold walls_ok in Hok. rewrite Forall_forall in Hok.
    apply (Hok (WallObj wall)). apply list_elem_of_lookup. eauto. }
  destruct (takeDamage_ok wall Hwok Hwl) as (Hok' & Hh & H0 & Hiff & _).
  assert (Hne : i <> wi).
  { intros ->. unfold shell_live, shell_at in Hlive.
    rewrite Hlook in Hlive. discriminate. }
  repeat split.
  - apply walls_ok_alter_shell. apply Forall_alter; auto.
    intros o Ho _. rewrite Hlook in Ho. injection Ho as <-. exact Hok'.
  - intros wi' wall' _ _ [= <- <-].
    exists (fst (takeDamage wall)).
    repeat split; auto; try apply Hiff.
    + unfold destroy_shell_at.
      rewrite list_lookup_alter_ne by exact Hne.
      rewrite list_lookup_alter_eq, Hlook. reflexivity.
    + unfold takeDamage. destruct (_ <=? 0); reflexivity.
    + unfold shell_live, shell_at, destroy_shell_at in *.
      rewrite list_lookup_alter_eq.
      rewrite list_lookup_alter_ne by congruence.
      destruct (objects gs !! i) as [[r | s | w | m] |]; cbn;
        try discriminate; reflexivity.
  - intros [Hc | [Hc | Hc]]; [discriminate | contradiction | discriminate].
Qed.

Lemma walls_ok_resolveShellWallCollisions (view : Z -> option Tank) sip wps
      gs :
  walls_ok (objects gs) ->
  walls_ok (objects (resolveShellWallCollisions view sip wps gs)).
Proof.
  unfold resolveShellWallCollisions. revert gs.
  induction sip as [| [i pos] rest IH]; intros gs Hok; cbn; auto.
  apply IH. apply (shell_wall_hit_spec view wps gs i pos Hok).
Qed.

End WallFacts.

Section WallInvariant.
Context {Strat : Type} `{TankAlgorithm Strat}.
Variable umap_order : list Z -> list Z.
Variable fresh_data : TankStepData.
Variable max_after : Z.

Lemma walls_ok_intend_shells max_speed gs l objs :
  walls_ok objs ->
  walls_ok (fst (intend_shells max_speed gs l objs)).
Proof.
  revert objs. induction l as [| i l IH]; intros objs Hok; cbn; auto.
  destruct (shell_at objs i) as [sh |]; [| auto].
  destruct (intend_shell max_speed gs sh) as [sh' ip].
  specialize (IH (<[i := ShellObj sh']> objs)).
  destruct (intend_shells max_speed gs l _) as [objs' out]; cbn in *.
  apply IH. apply Forall_insert; [exact Hok | exact I].
Qed.

Lemma walls_ok_head_on_shell sip objs si :
  walls_ok objs -> walls_ok (head_on_shell sip objs si).
Proof.
  unfold head_on_shell. intros Hok.
  destruct (shell_at objs si) as [sh |]; [| auto].
  destruct (negb (shell_is_destroyed sh)); [| auto].
  revert objs Hok. induction sip as [| [oi ip] rest IH]; intros objs Hok;
    cbn; auto.
  apply IH.
  destruct (shell_at objs oi) as [other |]; [| auto].
  destruct (_ && _); [| auto].
  unfold destroy_shell_at. auto using walls_ok_alter_shell.
Qed.

Lemma walls_ok_resolveShellShellCollisions sip gs :
  walls_ok (objects gs) ->
  walls_ok (objects (resolveShellShellCollisions sip gs)).
Proof.
  unfold resolveShellShellCollisions, destroy_coinciding; cbn. intros Hok.
  set (groups := map_to_list _).
  assert (H1 : walls_ok (fold_left destroy_group groups (objects gs))).
  { clearbody groups. revert Hok. generalize (objects gs).
    induction groups as [| g rest IH]; intros objs Hok; cbn; auto.
    apply IH. unfold destroy_group.
    destruct (_ <? _)%nat; auto using walls_ok_destroy_shells. }
  assert (H2 : forall l objs1,
             walls_ok objs1 ->
             walls_ok (fold_left (head_on_shell sip) l objs1)).
  { induction l as [| si l IH]; intros objs1 Hok1; cbn; auto.
    apply IH, walls_ok_head_on_shell, Hok1. }
  apply H2, H1.
Qed.

Lemma walls_ok_resolveShellTankCollisions sip gs es :
  walls_ok (objects gs) ->
  walls_ok (objects (fst (resolveShellTankCollisions umap_order sip gs es))).
Proof.
  unfold resolveShellTankCollisions. intros Hok.
  destruct (shell_tank_loop _ _ _ _ _) as [es' hit]; cbn.
  apply walls_ok_destroy_shells, Hok.
Qed.

Lemma walls_ok_tank_mine_fold mps tep gs es :
  walls_ok (objects gs) ->
  walls_ok (objects (fst (fold_left (tank_mine_hit mps) tep (gs, es)))).
Proof.
  revert gs es. induction tep as [| [id p] rest IH]; intros gs es Hok;
    cbn; auto.
  destruct (bool_decide (p ∈ mps)); [| auto].
  destruct (getMineAt _ gs p) as [[mi mine] |]; [| auto].
  destruct (negb (mine_is_destroyed mine)); [| auto].
  apply IH. cbn. apply walls_ok_alter_mine, Hok.
Qed.

Lemma walls_ok_resolveCollisionsSubStep sip gs es :
  walls_ok (objects gs) ->
  walls_ok (objects (fst (resolveCollisionsSubStep umap_order sip gs es))).
Proof.
  unfold resolveCollisionsSubStep. intros Hok.
  match goal with
  | |- context [resolveShellTankCollisions _ ?a ?b ?c] =>
      pose proof (walls_ok_resolveShellTankCollisions a b c) as H4;
      destruct (resolveShellTankCollisions umap_order a b c) as [gs4 es4]
  end.
  match goal with
  | |- context [resolveTankMineCollisions _ ?a ?b ?c] =>
      pose proof (walls_ok_tank_mine_fold a
                    (umap_iter umap_order
                       (List.map (fun e => (te_id e, effective_position e))
                                 (live_entries c))) b c) as H5;
      change (fold_left (tank_mine_hit a) _ (b, c))
        with (resolveTankMineCollisions umap_order a b c) in H5;
      destruct (resolveTankMineCollisions umap_order a b c) as [gs5 es5]
  end.
  cbn in *. apply H5, H4.
  apply walls_ok_resolveShellShellCollisions.
  apply walls_ok_resolveShellWallCollisions, Hok.
Qed.

Lemma walls_ok_update_shells sip objs :
  walls_ok objs -> walls_ok (fold_left update_shell_position sip objs).
Proof.
  revert objs. induction sip as [| sp rest IH]; intros objs Hok; cbn; auto.
  apply IH. unfold update_shell_position.
  destruct (shell_live objs (fst sp)); auto using walls_ok_alter_shell.
Qed.

Lemma walls_ok_sub_step max_speed gs es :
  walls_ok (objects gs) ->
  walls_ok (objects (fst (sub_step umap_order max_speed gs es))).
Proof.
  unfold sub_step, calculateShellIntendedPositionsSubStep. intros Hok.
  pose proof (walls_ok_intend_shells max_speed gs (getShells gs)
                (objects gs) Hok) as H1.
  destruct (intend_shells max_speed gs (getShells gs) (objects gs))
    as [objs1 sip]; cbn in H1.
  match goal with
  | |- context [resolveCollisionsSubStep _ ?a ?b ?c] =>
      pose proof (walls_ok_resolveCollisionsSubStep a b c H1) as H2;
      destruct (resolveCollisionsSubStep umap_order a b c) as [gs2 es2]
  end.
  cbn in *. apply walls_ok_update_shells, H2.
Qed.

Lemma walls_ok_sub_steps n max_speed gs es :
  walls_ok (objects gs) ->
  walls_ok (objects (fst (sub_steps umap_order n max_speed gs es))).
Proof.
  revert gs es. induction n as [| n IH]; intros gs es Hok; cbn; auto.
  pose proof (walls_ok_sub_step max_speed gs es Hok) as H1.
  destruct (sub_step umap_order max_speed gs es) as [gs' es']; cbn in *.
  destruct (any_tank_alive es'); cbn; auto.
Qed.

Lemma walls_ok_execute_entry p1 p2 e
      (st : list (list ascii) * list (GameObject Z) * gmap Z Strat) :
  walls_ok (snd (fst st)) ->
  walls_ok (snd (fst (snd (execute_entry p1 p2 e st)))).
Proof.
  destruct st as [[m objs] algos]. cbn [fst snd]. intros Hok.
  unfold execute_entry.
  repeat match goal with
         | |- context [if ?b then _ else _] => destruct b
         end;
    try (destruct (shoot (te_tank e)) as [t' [sh |]]); cbn [fst snd]; auto.
  apply Forall_app. split; [exact Hok |]. repeat constructor.
Qed.

Lemma walls_ok_execute_entries p1 p2 es
      (st : list (list ascii) * list (GameObject Z) * gmap Z Strat) :
  walls_ok (snd (fst st)) ->
  walls_ok (snd (fst (snd (execute_entries p1 p2 es st)))).
Proof.
  revert st. induction es as [| e rest IH]; intros st Hok; cbn; auto.
  pose proof (walls_ok_execute_entry p1 p2 e st Hok) as H1.
  destruct (execute_entry p1 p2 e st) as [e' st1]. cbn [fst snd] in H1.
  specialize (IH st1 H1).
  destruct (execute_entries p1 p2 rest st1) as [rest' st2]. exact IH.
Qed.

Lemma walls_ok_processStep gm :
  walls_ok (objects (state gm)) ->
  walls_ok (objects (state (fst (processStep umap_order fresh_data
                                             max_after gm)))).
Proof.
  unfold processStep. intros Hok.
  destruct (getPlayerActions _ _) as [[es1 algos1] polled].
  unfold executeImmediateActions.
  match goal with
  | |- context [execute_entries ?p1 ?p2 ?es ?st] =>
      pose proof (walls_ok_execute_entries p1 p2 es st Hok) as H3;
      destruct (execute_entries p1 p2 es st)
        as [es3 [[m3 objs3] algos3]]
  end.
  cbn [fst snd] in H3.
  unfold runMovementAndCollisionSubSteps.
  set (gs3 := set_objects objs3 (state gm)).
  assert (H4 : walls_ok (objects
                 (fst (if compute_max_speed gs3 es3 =? 0
                       then (gs3, es3)
                       else sub_steps umap_order
                              (Z.to_nat (compute_max_speed gs3 es3))
                              (compute_max_speed gs3 es3) gs3 es3)))).
  { destruct (_ =? 0); cbn; auto. apply walls_ok_sub_steps. exact H3. }
  destruct (if compute_max_speed gs3 es3 =? 0 then _ else _) as [gs4 es4].
  cbn in H4.
  destruct (checkShellDepletionStatus _ _ _ _) as [[[au sa] o5] w5].
  destruct (if negb o5 then _ else _) as [o6 w6]. cbn.
  unfold walls_ok in *. rewrite Forall_forall in *.
  intros o Ho. apply H4. apply list_elem_of_In in Ho.
  apply List.filter_In in Ho as [Ho _]. apply list_elem_of_In. exact Ho.
Qed.

End WallInvariant.

(** ** A unit blocked by a wall *)

Lemma elem_of_wall_positions_of objs pos :
  pos ∈ wall_positions_of objs
  <-> exists w, WallObj w ∈ objs /\ wall_is_destroyed w = false
                /\ wall_position w = pos.
Proof.
  unfold wall_positions_of. rewrite elem_of_list_to_set, list_elem_of_omap.
  split.
  - intros (o & Hin & Ho). destruct o as [r | s | w | m]; try discriminate.
    destruct (wall_is_destroyed w) eqn:Hd; [discriminate |].
    injection Ho as <-. eauto.
  - intros (w & Hin & Hd & <-). exists (WallObj w). rewrite Hd. auto.
Qed.

Lemma intend_shells_keeps_walls max_speed gs l objs w :
  WallObj w ∈ objs -> WallObj w ∈ fst (intend_shells max_speed gs l objs).
Proof.
  revert objs. induction l as [| i l IH]; intros objs Hin; cbn; auto.
  destruct (shell_at objs i) as [sh |] eqn:Hsh; [| auto].
  destruct (intend_shell max_speed gs sh) as [sh' ip].
  specialize (IH (<[i := ShellObj sh']> objs)).
  destruct (intend_shells max_speed gs l _) as [objs' out]; cbn in *.
  apply IH. apply list_elem_of_lookup in Hin as [k Hk].
  apply list_elem_of_lookup. exists k.
  rewrite list_lookup_insert_ne; [exact Hk |].
  intros ->. unfold shell_at in Hsh. rewrite Hk in Hsh. discriminate.
Qed.

Section BlockFacts.
Context {Strat : Type} `{TankAlgorithm Strat}.
Variable umap_order : list Z -> list Z.

Lemma resolveCollisions_after_wall sip gs es :
  Forall2 keeps
    (resolveTankWallCollisions (wall_positions_of (objects gs)) es)
    (snd (resolveCollisionsSubStep umap_order sip gs es)).
Proof.
  unfold resolveCollisionsSubStep.
  match goal with
  | |- context [resolveShellTankCollisions _ ?a ?b ?c] =>
      pose proof (keeps_resolveShellTankCollisions umap_order a b c) as H4;
      destruct (resolveShellTankCollisions umap_order a b c) as [gs4 es4]
  end.
  match goal with
  | |- context [resolveTankMineCollisions _ ?a ?b ?c] =>
      pose proof (keeps_resolveTankMineCollisions umap_order a b c) as H5;
      destruct (resolveTankMineCollisions umap_order a b c) as [gs5 es5]
  end.
  cbn in *.
  eapply Forall2_keeps_trans; [| apply keeps_resolveTankTankCollisions].
  eapply Forall2_keeps_trans; [exact H4 | exact H5].
Qed.

(** The entry at index [i] after a sub-step, in terms of the entry
    before. *)
Lemma sub_step_entry max_speed gs es i e :
  es !! i = Some e ->
  exists e',
    snd (sub_step umap_order max_speed gs es) !! i = Some e'
    /\ keeps
         (tank_wall_block
            (wall_positions_of
               (objects (fst (calculateShellIntendedPositionsSubStep
                                max_speed gs))))
            (intend_entry max_speed gs (with_data (set_blocked false) e)))
         e'.
Proof.
  intros Hl. unfold sub_step, calculateIntendedTankPositionsSubStep.
  destruct (calculateShellIntendedPositionsSubStep max_speed gs)
    as [gs1 sip]. cbn [fst].
  set (es1 := List.map (intend_entry max_speed gs)
                       (List.map (with_data (set_blocked false)) es)).
  pose proof (resolveCollisions_after_wall sip gs1 es1) as Hr.
  destruct (resolveCollisionsSubStep umap_order sip gs1 es1) as [gs2 es2].
  cbn [fst snd] in *.
  assert (Hu : Forall2 keeps es2 (List.map update_tank_position es2))
    by apply Forall2_map_same, keeps_update_tank_position.
  pose proof (Forall2_keeps_trans _ _ _ Hr Hu) as Hk.
  assert (H1 : resolveTankWallCollisions (wall_positions_of (objects gs1))
                 es1 !! i
               = Some (tank_wall_block (wall_positions_of (objects gs1))
                         (intend_entry max_speed gs
                            (with_data (set_blocked false) e)))).
  { unfold resolveTankWallCollisions, es1.
    change (@List.map) with (@fmap list _).
    rewrite !list_lookup_fmap, Hl. reflexivity. }
  destruct (Forall2_lookup_l _ _ _ _ _ Hk H1) as (e' & He' & Hke).
  exists e'. split; [exact He' | exact Hke].
Qed.

(** C5.  Let [e1] be a unit's entry once its intended position for the
    sub-step is computed.  If the unit intends to leave its cell and the
    intended cell holds a non-destroyed wall, then
    - the wall check marks it blocked, sets its intended position back to
      its position, its progress to 0 and its movement intent to false,
      and changes nothing else of the unit (position, cannon direction,
      ammunition, cooldown, destroyed flag, movement state);
    - at the end of the sub-step its position is the one it had, its
      progress is 0 and it has no movement intent;
    - however many sub-steps of the step follow, its position, its
      progress 0 and its lack of intent remain. *)
Theorem C5_blocked_by_wall (max_speed : Z) (gs : GameState Z)
    (es : list TankEntry) (i : nat) (e : TankEntry) :
  es !! i = Some e ->
  let e1 := intend_entry max_speed gs (with_data (set_blocked false) e) in
  intended_position (te_data e1) <> position (te_tank e1) ->
  (exists w, WallObj w ∈ objects gs /\ wall_is_destroyed w = false
             /\ wall_position w = intended_position (te_data e1)) ->
  let gs1 := fst (calculateShellIntendedPositionsSubStep max_speed gs) in
  let e2 := tank_wall_block (wall_positions_of (objects gs1)) e1 in
  (blocked_this_sub_step (te_data e2) = true
   /\ intended_position (te_data e2) = position (te_tank e)
   /\ movement_progress (te_tank e2) = 0
   /\ move_intent_this_step (te_tank e2) = false
   /\ position (te_tank e2) = position (te_tank e)
   /\ cannonDirection (te_tank e2) = cannonDirection (te_tank e)
   /\ shells_remaining (te_tank e2) = shells_remaining (te_tank e)
   /\ cooldown_remaining (te_tank e2) = cooldown_remaining (te_tank e)
   /\ is_destroyed (te_tank e2) = is_destroyed (te_tank e)
   /\ movementState (te_tank e2) = movementState (te_tank e))
  /\ exists e',
      snd (sub_step umap_order max_speed gs es) !! i = Some e'
      /\ position (te_tank e') = position (te_tank e)
      /\ movement_progress (te_tank e') = 0
      /\ move_intent_this_step (te_tank e') = false
      /\ cannonDirection (te_tank e') = cannonDirection (te_tank e)
      /\ shells_remaining (te_tank e') = shells_remaining (te_tank e)
      /\ cooldown_remaining (te_tank e') = cooldown_remaining (te_tank e)
      /\ forall n gs',
          exists e'',
            snd (sub_steps umap_order n max_speed gs'
                           (snd (sub_step umap_order max_speed gs es)))
            !! i = Some e''
            /\ position (te_tank e'') = position (te_tank e)
            /\ movement_progress (te_tank e'') = 0
            /\ move_intent_this_step (te_tank e'') = false.
Proof.
  intros Hl e1 Hmove (w & Hw & Hwl & Hwp) gs1 e2.
  (* the unit has movement intent, and its tank moved nowhere yet *)
  destruct (intend_entry_starts max_speed gs e) as [F1 S1].
  fold e1 in F1, S1.
  assert (Hmi : move_intent_this_step (te_tank e) = true).
  { destruct (move_intent_this_step (te_tank e)) eqn:Hmi; [reflexivity |].
    destruct (S1 eq_refl) as [[_ Hp] _]. contradiction. }
  assert (Ht1 : position (te_tank e1) = position (te_tank e)
                /\ move_intent_this_step (te_tank e1) = true
                /\ is_destroyed (te_tank e1) = is_destroyed (te_tank e)).
  { subst e1. unfold intend_entry; cbn. rewrite Hmi.
    unfold updateMovementProgress. rewrite Hmi; cbn.
    destruct (max_speed <=? _); cbn; auto. }
  destruct Ht1 as (Hp1 & Hmi1 & Hd1).
  (* the wall is still there when the collisions are resolved *)
  assert (Hin : intended_position (te_data e1)
                ∈ wall_positions_of (objects gs1)).
  { apply elem_of_wall_positions_of. exists w. repeat split; auto.
    subst gs1. unfold calculateShellIntendedPositionsSubStep.
    pose proof (intend_shells_keeps_walls max_speed gs (getShells gs)
                  (objects gs) w Hw) as Hk.
    destruct (intend_shells max_speed gs (getShells gs) (objects gs))
      as [objs' out]. exact Hk. }
  assert (He2 : e2 = mkTankEntry (te_id e1)
                       (set_move_intent false
                          (set_movement_progress 0 (te_tank e1)))
                       (set_intended (position (te_tank e1))
                          (set_blocked true (te_data e1)))).
  { subst e2. unfold tank_wall_block. rewrite Hmi1.
    apply pos_eqb_neq in Hmove. rewrite Hmove.
    rewrite bool_decide_eq_true_2 by exact Hin. reflexivity. }
  unfold frame in F1. destruct F1 as (_ & _ & F3 & F4 & F5 & F6 & _ & _).
  split.
  { rewrite He2; cbn. repeat split; congruence. }
  destruct (sub_step_entry max_speed gs es i e Hl) as (e' & He' & [Fk Kk]).
  fold e1 gs1 e2 in Fk, Kk.
  assert (Hpark : parked e2) by (rewrite He2; split; reflexivity).
  destruct (Kk Hpark) as ([Hmi' _] & Hp' & Hm').
  unfold frame in Fk. destruct Fk as (_ & _ & _ & K4 & K5 & K6 & _ & _).
  assert (He2p : position (te_tank e2) = position (te_tank e)
                 /\ movement_progress (te_tank e2) = 0
                 /\ cannonDirection (te_tank e2) = cannonDirection (te_tank e)
                 /\ shells_remaining (te_tank e2)
                    = shells_remaining (te_tank e)
                 /\ cooldown_remaining (te_tank e2)
                    = cooldown_remaining (te_tank e)).
  { rewrite He2; cbn. repeat split; congruence. }
  destruct He2p as (Q1 & Q2 & Q3 & Q4 & Q5).
  exists e'. split; [exact He' |].
  repeat split; try congruence.
  intros n gs'.
  pose proof (sub_steps_stays umap_order n max_speed gs'
                (snd (sub_step umap_order max_speed gs es))) as Hs.
  destruct (Forall2_lookup_l _ _ _ _ _ Hs He') as (e'' & He'' & [_ Ss]).
  destruct (Ss Hmi') as (R1 & R2 & R3).
  exists e''. repeat split; congruence.
Qed.

End BlockFacts.

Lemma C5_blocked_by_wall_witness :
  exists e',
    snd (sub_step (fun l => l) 1 walled_board [moving_entry]) !! 0%nat
    = Some e'
    /\ position (te_tank e') = mkPos 0 0
    /\ movement_progress (te_tank e') = 0
    /\ move_intent_this_step (te_tank e') = false.
Proof.
  destruct (C5_blocked_by_wall (fun l => l) 1
              walled_board [moving_entry] 0%nat moving_entry eq_refl
              ltac:(cbn; discriminate)
              ltac:(exists (mkWall (mkPos 1 0) false 2);
                    split; [apply list_elem_of_further, list_elem_of_here
                           | split; reflexivity]))
    as (_ & e' & He' & Hp & Hm & Hi & _).
  exists e'. repeat split; assumption.
Defined.

(** ** One whole step *)

Lemma assoc_lookup_elem {A} (k : Z) (l : list (Z * A)) v :
  assoc_lookup k l = Some v -> (k, v) ∈ l.
Proof.
  unfold assoc_lookup.
  destruct (List.find (fun kv => fst kv =? k) l) as [[k' v'] |] eqn:Hf;
    [| discriminate].
  intros [= <-]. apply List.find_some in Hf as [Hin Hk].
  cbn in Hk. apply Z.eqb_eq in Hk. subst k'. apply list_elem_of_In, Hin.
Qed.

Lemma assoc_lookup_is_Some {A} (k : Z) (l : list (Z * A)) :
  k ∈ List.map fst l -> is_Some (assoc_lookup k l).
Proof.
  intros Hin. unfold assoc_lookup.
  destruct (List.find (fun kv => fst kv =? k) l) as [kv |] eqn:Hf; [eauto |].
  exfalso. apply list_elem_of_In, List.in_map_iff in Hin as (kv & <- & Hin).
  apply (List.find_none _ _ Hf) in Hin. cbn in Hin.
  rewrite Z.eqb_refl in Hin. discriminate.
Qed.

Lemma find_entry_elem id es e :
  find_entry id es = Some e -> e ∈ es /\ te_id e = id.
Proof.
  unfold find_entry. intros Hf. apply List.find_some in Hf as [Hin Hk].
  apply Z.eqb_eq in Hk. split; [apply list_elem_of_In, Hin | exact Hk].
Qed.

Section StepFacts.
Context {Strat : Type} `{TankAlgorithm Strat}.
Variable umap_order : list Z -> list Z.
Variable fresh_data : TankStepData.
Variable max_after : Z.

(** An unordered map is traversed entry by entry, each once. *)
Hypothesis umap_order_perm : forall l, NoDup l -> umap_order l ≡ₚ l.

Lemma umap_iter_spec {A} (ins : list (Z * A)) :
  NoDup (List.map fst ins) ->
  List.map fst (umap_iter umap_order ins) = umap_order (List.map fst ins)
  /\ forall kv, kv ∈ umap_iter umap_order ins -> kv ∈ ins.
Proof.
  intros Hnd. unfold umap_iter.
  pose proof (umap_order_perm _ Hnd) as Hperm.
  assert (Hall : forall k, k ∈ umap_order (List.map fst ins) ->
                           k ∈ List.map fst ins).
  { intros k Hk. rewrite <- Hperm. exact Hk. }
  clear Hperm. induction (umap_order (List.map fst ins)) as [| k l IH].
  - split; [reflexivity |]. intros kv Hkv. inversion Hkv.
  - destruct IH as [IH1 IH2].
    { intros k' Hk'. apply Hall. right. exact Hk'. }
    destruct (assoc_lookup_is_Some k ins) as [v Hv].
    { apply Hall. left. }
    cbn. rewrite Hv. cbn. split.
    + f_equal. exact IH1.
    + intros kv Hkv. apply elem_of_cons in Hkv as [-> | Hkv]; auto.
      apply assoc_lookup_elem, Hv.
Qed.

Lemma prepareStep_ids tks :
  NoDup (List.map fst tks) ->
  List.map te_id (prepareStep umap_order fresh_data tks)
  = umap_order (List.map fst tks).
Proof.
  intros Hnd. unfold prepareStep.
  set (ins := List.map _ (List.map _ tks)).
  assert (Hk : List.map fst ins = List.map fst tks).
  { subst ins. rewrite !List.map_map. reflexivity. }
  destruct (umap_iter_spec ins) as [H1 _]; [rewrite Hk; exact Hnd |].
  rewrite List.map_map. cbn. rewrite <- Hk, <- H1. reflexivity.
Qed.

Lemma prepareStep_elem tks e :
  NoDup (List.map fst tks) ->
  e ∈ prepareStep umap_order fresh_data tks ->
  exists t, (te_id e, t) ∈ tks /\ te_tank e = decrementCooldown t.
Proof.
  intros Hnd. unfold prepareStep.
  set (ins := List.map _ (List.map _ tks)).
  assert (Hk : List.map fst ins = List.map fst tks).
  { subst ins. rewrite !List.map_map. reflexivity. }
  destruct (umap_iter_spec ins) as [_ H2]; [rewrite Hk; exact Hnd |].
  intros He. apply list_elem_of_In, List.in_map_iff in He as (kv & <- & Hkv).
  apply list_elem_of_In, H2 in Hkv. subst ins.
  apply list_elem_of_In, List.in_map_iff in Hkv as (kt & <- & Hkt).
  apply List.in_map_iff in Hkt as ([k t] & <- & Hin). cbn.
  exists t. split; [apply list_elem_of_In, Hin | reflexivity].
Qed.

(** *** [getPlayerActions] *)

Lemma getPlayerActions_same_tanks es (algos : gmap Z Strat) :
  Forall2 (fun e e' => te_id e' = te_id e /\ te_tank e' = te_tank e)
          es (fst (fst (getPlayerActions es algos))).
Proof.
  revert algos. induction es as [| e rest IH]; intros algos; cbn.
  - constructor.
  - destruct (negb (is_destroyed (te_tank e))).
    + destruct (algos !! te_id e) as [s |].
      * destruct (getAction s) as [a s'].
        specialize (IH (<[te_id e := s']> algos)).
        destruct (getPlayerActions rest _) as [[rest' algos'] polled].
        cbn in *. constructor; auto.
      * specialize (IH algos).
        destruct (getPlayerActions rest algos) as [[rest' algos'] polled].
        cbn in *. constructor; auto.
    + specialize (IH algos).
      destruct (getPlayerActions rest algos) as [[rest' algos'] polled].
      cbn in *. constructor; auto.
Qed.

Lemma is_polled_insert_ne (algos : gmap Z Strat) id s e :
  te_id e <> id -> is_polled (<[id := s]> algos) e = is_polled algos e.
Proof.
  intros Hne. unfold is_polled. rewrite lookup_insert_ne by congruence.
  reflexivity.
Qed.

Lemma filter_is_polled_insert (algos : gmap Z Strat) id s es :
  id ∉ List.map te_id es ->
  List.filter (is_polled (<[id := s]> algos)) es
  = List.filter (is_polled algos) es.
Proof.
  induction es as [| e rest IH]; intros Hni; cbn; [reflexivity |].
  rewrite is_polled_insert_ne.
  - rewrite IH; [reflexivity |]. intros Hin. apply Hni. right. exact Hin.
  - intros Heq. apply Hni. rewrite <- Heq. left.
Qed.

(** The ids polled are those of the live units that have a strategy, in
    the order of [tank_data]. *)
Lemma getPlayerActions_polled es (algos : gmap Z Strat) :
  NoDup (List.map te_id es) ->
  snd (getPlayerActions es algos)
  = List.map te_id (List.filter (is_polled algos) es).
Proof.
  revert algos. induction es as [| e rest IH]; intros algos Hnd; cbn;
    [reflexivity |].
  apply NoDup_cons in Hnd as [Hni Hnd].
  unfold is_polled at 1.
  destruct (negb (is_destroyed (te_tank e))); cbn.
  - destruct (algos !! te_id e) as [s |]; cbn.
    + destruct (getAction s) as [a s'].
      specialize (IH (<[te_id e := s']> algos) Hnd).
      destruct (getPlayerActions rest _) as [[rest' algos'] polled].
      cbn in *. rewrite IH, filter_is_polled_insert by exact Hni.
      reflexivity.
    + specialize (IH algos Hnd).
      destruct (getPlayerActions rest algos) as [[rest' algos'] polled].
      exact IH.
  - specialize (IH algos Hnd).
    destruct (getPlayerActions rest algos) as [[rest' algos'] polled].
    exact IH.
Qed.

(** Two sets of strategies that answer alike for the live units lead to
    the same entries and the same polling order. *)
Lemma getPlayerActions_agree es (algos1 algos2 : gmap Z Strat) :
  NoDup (List.map te_id es) ->
  (forall e, e ∈ es -> is_destroyed (te_tank e) = false ->
             would_answer algos1 (te_id e) = would_answer algos2 (te_id e)) ->
  fst (fst (getPlayerActions es algos1))
  = fst (fst (getPlayerActions es algos2))
  /\ snd (getPlayerActions es algos1) = snd (getPlayerActions es algos2).
Proof.
  revert algos1 algos2.
  induction es as [| e rest IH]; intros algos1 algos2 Hnd Hag; cbn; auto.
  apply NoDup_cons in Hnd as [Hni Hnd].
  assert (Hrest : forall a1 a2 : gmap Z Strat,
             (forall id, id <> te_id e -> a1 !! id = algos1 !! id) ->
             (forall id, id <> te_id e -> a2 !! id = algos2 !! id) ->
             fst (fst (getPlayerActions rest a1))
             = fst (fst (getPlayerActions rest a2))
             /\ snd (getPlayerActions rest a1)
                = snd (getPlayerActions rest a2)).
  { intros a1 a2 H1 H2. apply IH; [exact Hnd |].
    intros e' He' Hlive.
    assert (Hne : te_id e' <> te_id e).
    { intros Heq. apply Hni. rewrite <- Heq.
      apply list_elem_of_In, List.in_map, list_elem_of_In, He'. }
    unfold would_answer. rewrite H1, H2 by exact Hne.
    apply Hag; [right; exact He' | exact Hlive]. }
  destruct (is_destroyed (te_tank e)) eqn:Hd; cbn.
  - destruct (Hrest algos1 algos2) as [R1 R2]; auto.
    destruct (getPlayerActions rest algos1) as [[r1 a1] p1].
    destruct (getPlayerActions rest algos2) as [[r2 a2] p2].
    cbn in *. subst. auto.
  - pose proof (Hag e ltac:(left) Hd) as He. unfold would_answer in He.
    destruct (algos1 !! te_id e) as [s1 |], (algos2 !! te_id e) as [s2 |];
      try discriminate.
    + injection He as He.
      destruct (getAction s1) as [a1 s1'], (getAction s2) as [a2 s2'].
      cbn in He. subst a2.
      destruct (Hrest (<[te_id e := s1']> algos1)
                      (<[te_id e := s2']> algos2)) as [R1 R2];
        try (intros id Hid; apply lookup_insert_ne; congruence).
      destruct (getPlayerActions rest (<[te_id e := s1']> algos1))
        as [[r1 b1] p1].
      destruct (getPlayerActions rest (<[te_id e := s2']> algos2))
        as [[r2 b2] p2].
      cbn in *. subst. auto.
    + destruct (Hrest algos1 algos2) as [R1 R2]; auto.
      destruct (getPlayerActions rest algos1) as [[r1 a1] p1].
      destruct (getPlayerActions rest algos2) as [[r2 a2] p2].
      cbn in *. subst. auto.
Qed.

(** What polling does to the strategies, and the action of an entry that
    is not polled. *)
Lemma getPlayerActions_algos es (algos : gmap Z Strat) :
  NoDup (List.map te_id es) ->
  let r := getPlayerActions es algos in
  (forall id,
      (id ∈ snd r ->
       exists s, algos !! id = Some s
                 /\ snd (fst r) !! id = Some (snd (getAction s)))
      /\ (id ∉ snd r -> snd (fst r) !! id = algos !! id))
  /\ Forall2 (fun e e' => is_polled algos e = false ->
                          action (te_data e') = DoNothing)
             es (fst (fst r)).
Proof.
  cbv zeta. revert algos.
  induction es as [| e rest IH]; intros algos Hnd; cbn [getPlayerActions].
  { cbn. split; [| constructor]. intros id. split; [| reflexivity].
    intros Hin. inversion Hin. }
  apply NoDup_cons in Hnd as [Hni Hnd].
  destruct (is_destroyed (te_tank e)) eqn:Hd; cbn [negb].
  - destruct (IH algos Hnd) as [IH1 IH2].
    destruct (getPlayerActions rest algos) as [[rest' algos'] polled].
    cbn [fst snd] in *. split; [exact IH1 |]. constructor; auto.
  - destruct (algos !! te_id e) as [s |] eqn:Hs.
    + destruct (getAction s) as [a s'] eqn:Hga.
      pose proof (getPlayerActions_polled rest (<[te_id e := s']> algos)
                    Hnd) as Hp.
      destruct (IH (<[te_id e := s']> algos) Hnd) as [IH1 IH2].
      destruct (getPlayerActions rest _) as [[rest' algos'] polled].
      cbn [fst snd] in *. split.
      * intros id. destruct (IH1 id) as [I1 I2].
        destruct (decide (id = te_id e)) as [-> | Hne].
        -- split.
           ++ intros _. exists s. split; [exact Hs |].
              rewrite I2, lookup_insert_eq, Hga; [reflexivity |].
              rewrite Hp. intros Hin. apply Hni.
              apply list_elem_of_In, List.in_map_iff in Hin
                as (e' & He' & Hin).
              apply List.filter_In in Hin as [Hin _].
              rewrite <- He'.
              apply list_elem_of_In, List.in_map, Hin.
           ++ intros Hno. exfalso. apply Hno. left.
        -- rewrite lookup_insert_ne in I1, I2 by congruence. split.
           ++ intros Hin. apply elem_of_cons in Hin as [-> | Hin];
                [contradiction | auto].
           ++ intros Hno. apply I2. intros Hin. apply Hno. right. exact Hin.
      * constructor.
        { unfold is_polled. rewrite Hd, Hs. discriminate. }
        eapply Forall2_impl; [exact IH2 |].
        cbn beta. intros e0 e0' Himp Hpol. apply Himp.
        unfold is_polled in *.
        destruct (decide (te_id e0 = te_id e)) as [Heq | Hne].
        -- rewrite Heq, Hs in Hpol. rewrite Heq, lookup_insert_eq.
           exact Hpol.
        -- rewrite lookup_insert_ne by congruence. exact Hpol.
    + destruct (IH algos Hnd) as [IH1 IH2].
      destruct (getPlayerActions rest algos) as [[rest' algos'] polled].
      cbn [fst snd] in *. split; [exact IH1 |]. constructor; auto.
Qed.

(** *** [processTankTransitions] *)

Lemma transition_info_only a t :
  snd (transitionMovementState a t) = RETURNING_BATTLE_INFO ->
  a = GetBattleInfo.
Proof.
  unfold transitionMovementState.
  destruct a; try reflexivity;
    destruct (movementState (set_move_intent false t)); cbn;
    try discriminate; destruct (can_shoot _); discriminate.
Qed.

Lemma transition_entry_spec e :
  te_id (transition_entry e) = te_id e
  /\ (outcome (te_data (transition_entry e)) = RETURNING_BATTLE_INFO ->
      action (te_data e) = GetBattleInfo
      /\ is_destroyed (te_tank e) = false).
Proof.
  unfold transition_entry.
  destruct (is_destroyed (te_tank e)) eqn:Hd; cbn.
  - split; [reflexivity | discriminate].
  - pose proof (transition_info_only (action (te_data e)) (te_tank e)) as Hi.
    destruct (transitionMovementState _ _) as [t' o]. cbn in *.
    split; [reflexivity |]. intros Ho. auto.
Qed.

(** *** [executeImmediateActions] *)

Lemma execute_entry_agree p1 p2 e m objs (a1 a2 : gmap Z Strat) :
  fst (execute_entry p1 p2 e (m, objs, a1))
  = fst (execute_entry p1 p2 e (m, objs, a2))
  /\ fst (snd (execute_entry p1 p2 e (m, objs, a1)))
     = fst (snd (execute_entry p1 p2 e (m, objs, a2))).
Proof.
  unfold execute_entry.
  repeat match goal with
         | |- context [if ?b then _ else _] => destruct b
         end;
    try (destruct (shoot (te_tank e)) as [t' [sh |]]); cbn; auto.
Qed.

Lemma execute_entries_agree p1 p2 es m objs (a1 a2 : gmap Z Strat) :
  fst (execute_entries p1 p2 es (m, objs, a1))
  = fst (execute_entries p1 p2 es (m, objs, a2))
  /\ fst (snd (execute_entries p1 p2 es (m, objs, a1)))
     = fst (snd (execute_entries p1 p2 es (m, objs, a2))).
Proof.
  revert m objs a1 a2.
  induction es as [| e rest IH]; intros m objs a1 a2; [cbn; auto |].
  cbn [execute_entries].
  destruct (execute_entry_agree p1 p2 e m objs a1 a2) as [E1 E2].
  destruct (execute_entry p1 p2 e (m, objs, a1)) as [e1 [[m1 o1] b1]].
  destruct (execute_entry p1 p2 e (m, objs, a2)) as [e2 [[m2 o2] b2]].
  cbn [fst snd] in E1, E2. injection E2 as -> ->. subst e2.
  destruct (IH m2 o2 b1 b2) as [I1 I2].
  destruct (execute_entries p1 p2 rest (m2, o2, b1)) as [r1 [mo1 c1]].
  destruct (execute_entries p1 p2 rest (m2, o2, b2)) as [r2 [mo2 c2]].
  cbn [fst snd] in *. subst. auto.
Qed.

Lemma informed_refl (o : option Strat) : informed o o.
Proof. left. reflexivity. Qed.

Lemma execute_entry_algos p1 p2 e
      (st : list (list ascii) * list (GameObject Z) * gmap Z Strat) id :
  let algos := snd st in
  let algos' := snd (snd (execute_entry p1 p2 e st)) in
  informed (algos !! id) (algos' !! id)
  /\ (id <> te_id e -> algos' !! id = algos !! id)
  /\ (outcome (te_data e) <> RETURNING_BATTLE_INFO ->
      algos' !! id = algos !! id).
Proof.
  destruct st as [[m objs] algos]. cbn [snd]. unfold execute_entry.
  destruct (bool_decide (outcome (te_data e) = SHOT_INITIATED)).
  { destruct (shoot (te_tank e)) as [t' [sh |]]; cbn;
      auto using informed_refl. }
  destruct (_ && _); [cbn; auto using informed_refl |].
  destruct (bool_decide (outcome (te_data e) = ROTATED));
    [cbn; auto using informed_refl |].
  destruct (bool_decide (outcome (te_data e) = INVALID_ACTION));
    [cbn; auto using informed_refl |].
  destruct (_ || _); [cbn; auto using informed_refl |].
  destruct (bool_decide (outcome (te_data e) = RETURNING_BATTLE_INFO))
    eqn:Hret; [| cbn; auto using informed_refl].
  apply bool_decide_eq_true in Hret. cbn.
  destruct (algos !! te_id e) as [algo |] eqn:Ha;
    [| auto using informed_refl].
  split; [| split].
  - destruct (decide (id = te_id e)) as [-> | Hne].
    + right. rewrite Ha, lookup_insert_eq. eauto.
    + left. apply lookup_insert_ne. congruence.
  - intros Hne. apply lookup_insert_ne. congruence.
  - intros Hno. contradiction.
Qed.

Lemma execute_entries_algos p1 p2 es
      (st : list (list ascii) * list (GameObject Z) * gmap Z Strat) id :
  NoDup (List.map te_id es) ->
  let algos := snd st in
  let algos' := snd (snd (execute_entries p1 p2 es st)) in
  informed (algos !! id) (algos' !! id)
  /\ ((forall e, e ∈ es -> te_id e = id ->
                 outcome (te_data e) <> RETURNING_BATTLE_INFO) ->
      algos' !! id = algos !! id).
Proof.
  cbv zeta. revert st.
  induction es as [| e rest IH]; intros st Hnd.
  { cbn. split; [apply informed_refl | reflexivity]. }
  apply NoDup_cons in Hnd as [Hni Hnd].
  cbn [execute_entries].
  destruct (execute_entry_algos p1 p2 e st id) as (E1 & E2 & E3).
  destruct (execute_entry p1 p2 e st) as [e' st1].
  cbn [fst snd] in E1, E2, E3.
  destruct (IH st1 Hnd) as [I1 I2].
  destruct (execute_entries p1 p2 rest st1) as [rest' st2].
  cbn [fst snd] in *.
  assert (Hrest : id = te_id e -> snd st2 !! id = snd st1 !! id).
  { intros ->. apply I2. intros e0 He0 Heq. exfalso. apply Hni.
    rewrite <- Heq. apply list_elem_of_In, List.in_map, list_elem_of_In.
    exact He0. }
  split.
  - destruct (decide (id = te_id e)) as [Heq | Hne].
    + rewrite (Hrest Heq). exact E1.
    + rewrite <- (E2 Hne). exact I1.
  - intros Hall. rewrite I2.
    + destruct (decide (id = te_id e)) as [Heq | Hne].
      * apply E3. apply Hall; [left | congruence].
      * apply E2, Hne.
    + intros e0 He0. apply Hall. right. exact He0.
Qed.

(** *** The whole step *)

Lemma processStep_factor (gm : GameManager Strat) :
  processStep umap_order fresh_data max_after gm
  = (step_finish umap_order max_after gm
       (fst (fst (executeImmediateActions (player1 gm) (player2 gm)
                    (state gm)
                    (snd (fst (getPlayerActions
                                 (prepareStep umap_order fresh_data
                                              (tanks gm))
                                 (algorithms gm))))
                    (processTankTransitions
                       (fst (fst (getPlayerActions
                                    (prepareStep umap_order fresh_data
                                                 (tanks gm))
                                    (algorithms gm))))))))
       (snd (fst (executeImmediateActions (player1 gm) (player2 gm)
                    (state gm)
                    (snd (fst (getPlayerActions
                                 (prepareStep umap_order fresh_data
                                              (tanks gm))
                                 (algorithms gm))))
                    (processTankTransitions
                       (fst (fst (getPlayerActions
                                    (prepareStep umap_order fresh_data
                                                 (tanks gm))
                                    (algorithms gm))))))))
       (snd (executeImmediateActions (player1 gm) (player2 gm)
               (state gm)
               (snd (fst (getPlayerActions
                            (prepareStep umap_order fresh_data (tanks gm))
                            (algorithms gm))))
               (processTankTransitions
                  (fst (fst (getPlayerActions
                               (prepareStep umap_order fresh_data
                                            (tanks gm))
                               (algorithms gm))))))),
     snd (getPlayerActions (prepareStep umap_order fresh_data (tanks gm))
                           (algorithms gm))).
Proof.
  unfold processStep, step_finish.
  destruct (getPlayerActions _ _) as [[es1 algos1] polled]. cbn [fst snd].
  destruct (executeImmediateActions _ _ _ _ _) as [[gs3 algos3] es3].
  cbn [fst snd].
  destruct (runMovementAndCollisionSubSteps _ _ _) as [gs4 es4].
  destruct (checkShellDepletionStatus _ _ _ _) as [[[au sa] o5] w5].
  destruct (if negb o5 then _ else _) as [o6 w6]. reflexivity.
Qed.

Lemma step_finish_board (gm1 gm2 : GameManager Strat) gs3 a1 a2 es3 :
  board_of gm1 = board_of gm2 ->
  board_of (step_finish umap_order max_after gm1 gs3 a1 es3)
  = board_of (step_finish umap_order max_after gm2 gs3 a2 es3).
Proof.
  unfold board_of. intros [= E1 E2 E3 E4 E5 E6 E7 E8 E9].
  unfold step_finish. rewrite E2, E3, E4, E5, E6, E7, E8, E9.
  destruct (runMovementAndCollisionSubSteps _ _ _) as [gs4 es4].
  destruct (checkShellDepletionStatus _ _ _ _) as [[[au sa] o5] w5].
  destruct (if negb o5 then _ else _) as [o6 w6]. reflexivity.
Qed.

Lemma step_finish_algorithms (gm : GameManager Strat) gs3 a3 es3 :
  algorithms (step_finish umap_order max_after gm gs3 a3 es3) = a3.
Proof.
  unfold step_finish.
  destruct (runMovementAndCollisionSubSteps _ _ _) as [gs4 es4].
  destruct (checkShellDepletionStatus _ _ _ _) as [[[au sa] o5] w5].
  destruct (if negb o5 then _ else _) as [o6 w6]. reflexivity.
Qed.

Lemma NoDup_fst_functional {A} (l : list (Z * A)) k v v' :
  NoDup (List.map fst l) -> (k, v) ∈ l -> (k, v') ∈ l -> v = v'.
Proof.
  induction l as [| [k0 v0] l IH]; cbn; intros Hnd H1 H2.
  - inversion H1.
  - apply NoDup_cons in Hnd as [Hni Hnd].
    assert (Hk : forall w, (k0, w) ∈ l -> False).
    { intros w Hw. apply Hni.
      apply list_elem_of_In, List.in_map_iff. exists (k0, w).
      split; [reflexivity | apply list_elem_of_In, Hw]. }
    apply elem_of_cons in H1 as [E1 | H1];
      apply elem_of_cons in H2 as [E2 | H2].
    + congruence.
    + exfalso. injection E1 as -> ->. eapply Hk, H2.
    + exfalso. injection E2 as -> ->. eapply Hk, H1.
    + auto.
Qed.

Lemma map_filter_swap {A B} (f : A -> B) (p : A -> bool) (q : B -> bool)
      (l : list A) :
  (forall x, x ∈ l -> p x = q (f x)) ->
  List.map f (List.filter p l) = List.filter q (List.map f l).
Proof.
  induction l as [| x l IH]; cbn; intros Hpq; [reflexivity |].
  rewrite <- (Hpq x) by left.
  rewrite <- IH by (intros y Hy; apply Hpq; right; exact Hy).
  destruct (p x); reflexivity.
Qed.

Lemma prepareStep_is_polled (gm : GameManager Strat) e :
  NoDup (List.map fst (tanks gm)) ->
  e ∈ prepareStep umap_order fresh_data (tanks gm) ->
  is_polled (algorithms gm) e = polled_id gm (te_id e)
  /\ exists t, (te_id e, t) ∈ tanks gm
               /\ is_destroyed (te_tank e) = is_destroyed t.
Proof.
  intros Hnd He.
  destruct (prepareStep_elem _ _ Hnd He) as (t & Hin & Ht).
  assert (Hd : is_destroyed (te_tank e) = is_destroyed t).
  { rewrite Ht. unfold decrementCooldown.
    destruct (0 <? cooldown_remaining t); reflexivity. }
  split; [| eauto].
  unfold is_polled, polled_id.
  destruct (assoc_lookup_is_Some (te_id e) (tanks gm)) as [t' Ht'].
  { apply list_elem_of_In, List.in_map_iff. exists (te_id e, t).
    split; [reflexivity | apply list_elem_of_In, Hin]. }
  rewrite Ht'. apply assoc_lookup_elem in Ht'.
  rewrite (NoDup_fst_functional _ _ _ _ Hnd Ht' Hin), Hd. reflexivity.
Qed.

Lemma executeImmediateActions_agree p1 p2 gs (a1 a2 : gmap Z Strat) es :
  fst (fst (executeImmediateActions p1 p2 gs a1 es))
  = fst (fst (executeImmediateActions p1 p2 gs a2 es))
  /\ snd (executeImmediateActions p1 p2 gs a1 es)
     = snd (executeImmediateActions p1 p2 gs a2 es).
Proof.
  unfold executeImmediateActions.
  destruct (execute_entries_agree p1 p2 es
              (build_board_matrix (tank_of es) gs) (objects gs) a1 a2)
    as [E1 E2].
  destruct (execute_entries p1 p2 es (_, _, a1)) as [r1 [[m1 o1] b1]].
  destruct (execute_entries p1 p2 es (_, _, a2)) as [r2 [[m2 o2] b2]].
  cbn [fst snd] in *. injection E2 as -> ->. subst. auto.
Qed.

Lemma executeImmediateActions_algos p1 p2 gs (algos : gmap Z Strat) es id :
  NoDup (List.map te_id es) ->
  let algos' := snd (fst (executeImmediateActions p1 p2 gs algos es)) in
  informed (algos !! id) (algos' !! id)
  /\ ((forall e, e ∈ es -> te_id e = id ->
                 outcome (te_data e) <> RETURNING_BATTLE_INFO) ->
      algos' !! id = algos !! id).
Proof.
  intros Hnd. unfold executeImmediateActions.
  pose proof (execute_entries_algos p1 p2 es
                (build_board_matrix (tank_of es) gs, objects gs, algos)
                id Hnd) as Hx.
  destruct (execute_entries p1 p2 es _) as [r1 [[m1 o1] b1]].
  exact Hx.
Qed.

(** C1.  A step is a function of the board, of the traversal order of the
    library's unordered maps, and of the actions the strategies of the
    live units answer.  For two managers with the same board whose
    strategies answer alike for every live unit:
    - the boards after the step are equal (every object's position and
      destroyed flag, ammunition, cooldowns, the log of reported outcomes,
      the game-over state), and so are the polling orders;
    - the units polled are the live units that have a strategy, in the
      traversal order of [tank_data], each exactly once;
    - a polled strategy has answered [getAction] once, followed by at
      most one battle-info update; the strategy of any other unit is
      untouched. *)
Theorem C1_step_deterministic (gm1 gm2 : GameManager Strat) :
  NoDup (List.map fst (tanks gm1)) ->
  board_of gm1 = board_of gm2 ->
  (forall id t, (id, t) ∈ tanks gm1 -> is_destroyed t = false ->
                would_answer (algorithms gm1) id
                = would_answer (algorithms gm2) id) ->
  let r1 := processStep umap_order fresh_data max_after gm1 in
  let r2 := processStep umap_order fresh_data max_after gm2 in
  board_of (fst r1) = board_of (fst r2)
  /\ snd r1 = snd r2
  /\ snd r1
     = List.filter (polled_id gm1) (umap_order (List.map fst (tanks gm1)))
  /\ NoDup (snd r1)
  /\ forall id,
      (id ∈ snd r1 ->
       exists s, algorithms gm1 !! id = Some s
                 /\ informed (Some (snd (getAction s)))
                             (algorithms (fst r1) !! id))
      /\ (id ∉ snd r1 ->
          algorithms (fst r1) !! id = algorithms gm1 !! id).
Proof.
  intros Hnd Hboard Hans r1 r2. subst r1 r2.
  rewrite !processStep_factor. cbn [fst snd].
  assert (Htk : tanks gm2 = tanks gm1)
    by (unfold board_of in Hboard; congruence).
  assert (Hst : state gm2 = state gm1 /\ player1 gm2 = player1 gm1
                /\ player2 gm2 = player2 gm1)
    by (unfold board_of in Hboard; repeat split; congruence).
  destruct Hst as (Hst & Hp1 & Hp2).
  rewrite Htk, Hst, Hp1, Hp2.
  set (es0 := prepareStep umap_order fresh_data (tanks gm1)).
  assert (Hids0 : List.map te_id es0
                  = umap_order (List.map fst (tanks gm1)))
    by (apply prepareStep_ids; exact Hnd).
  assert (Hnd0 : NoDup (List.map te_id es0)).
  { rewrite Hids0, (umap_order_perm _ Hnd). exact Hnd. }
  destruct (getPlayerActions_agree es0 (algorithms gm1) (algorithms gm2)
              Hnd0) as [Hes1 Hpolled].
  { intros e He Hlive.
    destruct (prepareStep_is_polled gm1 e Hnd He) as (_ & t & Hin & Hd).
    eapply Hans; [exact Hin | congruence]. }
  rewrite <- Hes1, <- Hpolled.
  set (es1 := fst (fst (getPlayerActions es0 (algorithms gm1)))) in *.
  set (polled := snd (getPlayerActions es0 (algorithms gm1))) in *.
  set (a1 := snd (fst (getPlayerActions es0 (algorithms gm1)))).
  set (a2 := snd (fst (getPlayerActions es0 (algorithms gm2)))).
  destruct (executeImmediateActions_agree (player1 gm1) (player2 gm1)
              (state gm1) a1 a2 (processTankTransitions es1)) as [Hg3 He3].
  rewrite <- Hg3, <- He3.
  assert (Hpol : polled = List.map te_id
                            (List.filter (is_polled (algorithms gm1)) es0))
    by (apply getPlayerActions_polled; exact Hnd0).
  split; [apply step_finish_board; exact Hboard |].
  split; [reflexivity |].
  assert (Htrace : polled
                   = List.filter (polled_id gm1)
                       (umap_order (List.map fst (tanks gm1)))).
  { rewrite Hpol, <- Hids0. apply map_filter_swap.
    intros e He. apply (prepareStep_is_polled gm1 e Hnd He). }
  split; [exact Htrace |].
  split.
  { rewrite Htrace. apply NoDup_ListNoDup, List.NoDup_filter.
    apply NoDup_ListNoDup. rewrite (umap_order_perm _ Hnd). exact Hnd. }
  intros id. rewrite step_finish_algorithms.
  destruct (getPlayerActions_algos es0 (algorithms gm1) Hnd0)
    as [Halg Hact]. fold es1 a1 polled in Halg, Hact.
  pose proof (getPlayerActions_same_tanks es0 (algorithms gm1)) as Hsame.
  fold es1 in Hsame.
  assert (Hids2 : List.map te_id (processTankTransitions es1)
                  = List.map te_id es0).
  { unfold processTankTransitions. rewrite List.map_map.
    clear -Hsame. induction Hsame as [| e e' l l' [Hi _] _ IH]; cbn;
      [reflexivity |].
    rewrite (proj1 (transition_entry_spec e')), Hi, IH. reflexivity. }
  assert (Hnd2 : NoDup (List.map te_id (processTankTransitions es1)))
    by (rewrite Hids2; exact Hnd0).
  destruct (executeImmediateActions_algos (player1 gm1) (player2 gm1)
              (state gm1) a1 (processTankTransitions es1) id Hnd2)
    as [Hinf Hsame3].
  destruct (Halg id) as [Hin Hout].
  split.
  - intros Hid. destruct (Hin Hid) as (s & Hs & Hs1).
    exists s. split; [exact Hs |]. rewrite <- Hs1. exact Hinf.
  - intros Hid. rewrite Hsame3; [apply Hout, Hid |].
    intros e2 He2 Hid2 Hret.
    unfold processTankTransitions in He2.
    apply list_elem_of_In, List.in_map_iff in He2 as (e1 & <- & He1).
    destruct (transition_entry_spec e1) as [Hi2 Hr2].
    destruct (Hr2 Hret) as [Hget _].
    apply list_elem_of_In, list_elem_of_lookup in He1 as [j Hj].
    destruct (Forall2_lookup_r _ _ _ _ _ Hsame Hj) as (e0 & Hj0 & Hi0 & _).
    pose proof (Forall2_lookup_lr _ _ _ _ _ _ Hact Hj0 Hj) as Hdn.
    assert (Hnp : is_polled (algorithms gm1) e0 = false).
    { destruct (is_polled (algorithms gm1) e0) eqn:Hp; [| reflexivity].
      exfalso. apply Hid. rewrite Hpol.
      apply list_elem_of_In, List.in_map_iff. exists e0. split.
      - congruence.
      - apply List.filter_In. split; [| exact Hp].
        apply list_elem_of_In, list_elem_of_lookup. eauto. }
    rewrite (Hdn Hnp) in Hget. discriminate.
Qed.

End StepFacts.

Lemma C1_step_deterministic_witness :
  board_of (fst (processStep (fun l => l) sample_data 40 duel1))
  = board_of (fst (processStep (fun l => l) sample_data 40 duel2))
  /\ snd (processStep (fun l => l) sample_data 40 duel1)
     = snd (processStep (fun l => l) sample_data 40 duel2).
Proof.
  assert (Hnd : NoDup (List.map fst (tanks duel1))) by compute_done.
  assert (Hans : forall id t,
             (id, t) ∈ tanks duel1 -> is_destroyed t = false ->
             would_answer (algorithms duel1) id
             = would_answer (algorithms duel2) id).
  { intros id t Hin _.
    apply elem_of_cons in Hin as [Hin | Hin];
      [| apply elem_of_cons in Hin as [Hin | Hin]; [| inversion Hin]];
      injection Hin as -> _; reflexivity. }
  destruct (C1_step_deterministic (fun l => l) sample_data 40
              (fun l _ => reflexivity l) duel1 duel2 Hnd eq_refl Hans)
    as (Hboard & Htrace & _).
  exact (conj Hboard Htrace).
Defined.

(** In the scenario both shells are spawned, meet on the middle cell in the
    second sub-step and are destroyed; both units survive. *)
Example duel_first_step :
  let gm := fst (processStep (fun l => l) sample_data 40 duel1) in
  objects (state gm) = [TankObj 0; TankObj 1]
  /\ List.map (fun kt => (is_destroyed (snd kt), shells_remaining (snd kt),
                          cooldown_remaining (snd kt))) (tanks gm)
     = [(false, 2, 4); (false, 2, 4)]
  /\ game_over gm = false
  /\ snd (processStep (fun l => l) sample_data 40 duel1) = [0; 1].
Proof. vm_compute. repeat split. Qed.

(** ** The shortest-path search *)

Lemma dir_rank_range d : 0 <= dir_rank d <= 7.
Proof. destruct d; cbn; lia. Qed.

Lemma dir_rank_spec d : directions !! Z.to_nat (dir_rank d) = Some d.
Proof. destruct d; reflexivity. Qed.

Lemma dir_rank_inj d1 d2 : dir_rank d1 = dir_rank d2 -> d1 = d2.
Proof. destruct d1, d2; cbn; intros; congruence || lia. Qed.

Lemma route_code_snoc r d : route_code (r ++ [d]) = 8 * route_code r + dir_rank d.
Proof. unfold route_code. rewrite fold_left_app. reflexivity. Qed.

Lemma code_from_bounds r : forall a, 0 <= a ->
  a * 8 ^ Z.of_nat (length r)
  <= fold_left (fun acc d => 8 * acc + dir_rank d) r a
  < (a + 1) * 8 ^ Z.of_nat (length r).
Proof.
  induction r as [| d r IH]; intros a Ha.
  - cbn. lia.
  - cbn [fold_left length]. pose proof (dir_rank_range d) as Hd.
    specialize (IH (8 * a + dir_rank d) ltac:(lia)).
    rewrite Nat2Z.inj_succ, Z.pow_succ_r by lia.
    assert (0 < 8 ^ Z.of_nat (length r)) by (apply Z.pow_pos_nonneg; lia).
    nia.
Qed.

Lemma route_code_bounds r :
  8 ^ Z.of_nat (length r) <= route_code r < 2 * 8 ^ Z.of_nat (length r).
Proof.
  pose proof (code_from_bounds r 1 ltac:(lia)) as H.
  unfold route_code. lia.
Qed.

Lemma route_code_pos r : 1 <= route_code r.
Proof.
  pose proof (route_code_bounds r).
  assert (0 < 8 ^ Z.of_nat (length r)) by (apply Z.pow_pos_nonneg; lia).
  lia.
Qed.

(** A route with a smaller code is not longer. *)
Lemma route_code_length r1 r2 :
  route_code r1 <= route_code r2 -> (length r1 <= length r2)%nat.
Proof.
  intros Hle. destruct (decide (length r1 <= length r2)%nat) as [|Hn]; [done|].
  exfalso.
  pose proof (route_code_bounds r1) as H1.
  pose proof (route_code_bounds r2) as H2.
  assert (8 ^ Z.of_nat (S (length r2)) <= 8 ^ Z.of_nat (length r1))
    by (apply Z.pow_le_mono_r; lia).
  rewrite Nat2Z.inj_succ, Z.pow_succ_r in H by lia.
  assert (0 < 8 ^ Z.of_nat (length r2)) by (apply Z.pow_pos_nonneg; lia).
  lia.
Qed.

(** Among routes of one length the codes follow the lexicographic order. *)
Lemma lex_before_code r1 : forall r2 a,
  0 <= a -> length r1 = length r2 -> lex_before r1 r2 ->
  fold_left (fun acc d => 8 * acc + dir_rank d) r1 a
  < fold_left (fun acc d => 8 * acc + dir_rank d) r2 a.
Proof.
  induction r1 as [| d1 t1 IH]; intros [| d2 t2] a Ha Hlen Hlex;
    cbn in Hlex; try contradiction.
  cbn [fold_left]. injection Hlen as Hlen.
  pose proof (dir_rank_range d1). pose proof (dir_rank_range d2).
  destruct Hlex as [Hlt | [-> Hlex]].
  - pose proof (code_from_bounds t1 (8 * a + dir_rank d1) ltac:(lia)) as B1.
    pose proof (code_from_bounds t2 (8 * a + dir_rank d2) ltac:(lia)) as B2.
    rewrite Hlen in B1.
    assert (0 < 8 ^ Z.of_nat (length t2)) by (apply Z.pow_pos_nonneg; lia).
    nia.
  - apply IH; [lia | done | done].
Qed.

Lemma ascending_snoc {A} (f : A -> Z) l a :
  ascending f l -> Forall (fun x => f x < f a) l -> ascending f (l ++ [a]).
Proof.
  induction l as [| x l IH]; cbn; intros Hs Hall.
  - split; [constructor | exact I].
  - destruct Hs as [Hx Hs]. apply Forall_cons in Hall as [Hxa Hall].
    split; [| auto].
    apply Forall_app. split; [done |]. by repeat constructor.
Qed.

Lemma ascending_ext {A} (f g : A -> Z) l :
  (forall x, x ∈ l -> f x = g x) -> ascending f l -> ascending g l.
Proof.
  induction l as [| x l IH]; cbn; intros Heq Hs; [done |].
  destruct Hs as [Hx Hs]. split.
  - apply Forall_forall. intros y Hy.
    rewrite <- (Heq x), <- (Heq y) by set_solver.
    by apply (proj1 (Forall_forall _ _) Hx).
  - apply IH; [| done]. intros y Hy. apply Heq. set_solver.
Qed.

Section PathFacts.
Variable m : list (list ascii).
Variables w h : Z.
Hypothesis w_pos : 0 < w.
Hypothesis h_pos : 0 < h.

Lemma wrap_step_in_range p d : in_range w h (wrap_step w h p d).
Proof.
  unfold in_range, wrap_step, size_t_wrap. cbn.
  split; apply Z.mod_pos_bound; lia.
Qed.

(** On a board that fits the machine integers, [wrap_step] is the step on
    the torus: the unsigned arithmetic of the source does not show. *)
Lemma wrap_step_torus p d :
  w < 2 ^ 63 -> h < 2 ^ 63 -> in_range w h p ->
  wrap_step w h p d
  = mkPos ((px p + px (DirectionUtils.getMovementOffset d 1)) mod w)
          ((py p + py (DirectionUtils.getMovementOffset d 1)) mod h).
Proof.
  intros Hw Hh [Hx Hy]. unfold wrap_step, size_t_wrap. cbn zeta.
  assert (Hd : -1 <= px (DirectionUtils.getMovementOffset d 1) <= 1
               /\ -1 <= py (DirectionUtils.getMovementOffset d 1) <= 1)
    by (destruct d; cbn; lia).
  destruct Hd as [Hdx Hdy].
  rewrite (Z.mod_small (_ + w) (2 ^ 64)) by lia.
  rewrite (Z.mod_small (_ + h) (2 ^ 64)) by lia.
  rewrite <- (Z_mod_plus_full (px p + _) 1 w), Z.mul_1_l.
  rewrite <- (Z_mod_plus_full (py p + _) 1 h), Z.mul_1_l.
  reflexivity.
Qed.

Lemma route_to_snoc r : forall p d q,
  route_to m w h p (r ++ [d]) q
  <-> exists q', route_to m w h p r q'
                 /\ free m (wrap_step w h q' d) /\ q = wrap_step w h q' d.
Proof.
  induction r as [| e r IH]; intros p d q; cbn.
  - split.
    + intros [Hf Hq]. exists p. split; [done |]. split; [done | by symmetry].
    + intros (q' & -> & Hf & ->). by split.
  - rewrite IH. split.
    + intros (Hf & q' & Hr & Hf' & Hq). exists q'. by split.
    + intros (q' & (Hf & Hr) & Hf' & Hq). split; [done |]. by exists q'.
Qed.

Lemma cells_along_snoc r : forall p d q,
  route_to m w h p r q ->
  cells_along w h p (r ++ [d]) = cells_along w h p r ++ [wrap_step w h q d].
Proof.
  induction r as [| e r IH]; intros p d q; cbn.
  - by intros ->.
  - intros [_ Hr]. by rewrite (IH _ d q).
Qed.

Lemma length_cells_along r : forall p, length (cells_along w h p r) = length r.
Proof. induction r as [| e r IH]; intros p; cbn; [done | by rewrite IH]. Qed.

Lemma route_to_functional r : forall p q1 q2,
  route_to m w h p r q1 -> route_to m w h p r q2 -> q1 = q2.
Proof.
  induction r as [| e r IH]; intros p q1 q2; cbn.
  - congruence.
  - intros [_ H1] [_ H2]. eauto.
Qed.

Lemma elem_of_scan_cells p : in_range w h p -> p ∈ scan_cells w h.
Proof.
  intros [Hx Hy]. unfold scan_cells.
  apply list_elem_of_In, in_flat_map. exists (Z.to_nat (px p)). split.
  - apply in_seq. lia.
  - apply in_map_iff. exists (Z.to_nat (py p)). split.
    + destruct p as [x y]. cbn in *. f_equal; lia.
    + apply in_seq. lia.
Qed.

Lemma length_scan_cells : length (scan_cells w h) = Z.to_nat (w * h).
Proof.
  unfold scan_cells. rewrite Z2Nat.inj_mul by lia.
  assert (H : forall n s c,
             length (flat_map
                       (fun x => List.map (fun y => mkPos (Z.of_nat x) (Z.of_nat y))
                                          (seq 0 c))
                       (seq s n)) = (n * c)%nat).
  { induction n as [| n IH]; intros s c; cbn [seq flat_map]; [reflexivity |].
    rewrite length_app, IH, length_map, length_seq. lia. }
  apply H.
Qed.

(** A set of cells of the board has at most [w * h] elements. *)
Lemma size_in_range (V : gset Position) :
  (forall v, v ∈ V -> in_range w h v) -> (size V <= Z.to_nat (w * h))%nat.
Proof.
  intros HV. rewrite <- length_scan_cells.
  change (size V) with (length (elements V)).
  apply submseteq_length, NoDup_submseteq; [apply NoDup_elements |].
  intros x Hx. apply elem_of_scan_cells, HV. by apply elem_of_elements.
Qed.

End PathFacts.

Section SearchFacts.
Variable m : list (list ascii).
Variables w h : Z.
Variables start goal : Position.

Lemma free_spec (p : Position) :
  negb (isBlocked (bool_decide (cell m p = "#"%char))
                  (bool_decide (cell m p = "@"%char))) = true
  <-> free m p.
Proof.
  unfold isBlocked, free.
  rewrite negb_true_iff, orb_false_iff, !bool_decide_eq_false. tauto.
Qed.

(** The state before the loop. *)
Lemma bfs_inv_init :
  in_range w h start ->
  bfs_inv m w h start goal ∅ (fun _ => []) 0 (fun _ _ => False)
          [start] {[start]} ∅.
Proof.
  intros Hs. split.
  - sets.
  - intros v Hv. apply elem_of_singleton in Hv as ->. done.
  - sets.
  - done.
  - intros v Hv. apply elem_of_singleton in Hv as ->. done.
  - intros v Hv Hne. apply elem_of_singleton in Hv. done.
  - cbn. split; [constructor | exact I].
  - sets.
  - intros x _. cbn. lia.
  - intros x p d _ [].
  - sets.
  - sets.
  - sets.
  - intros v _. cbn. lia.
Qed.

(** Taking the head of the queue for expansion. *)
Lemma bfs_inv_pop done route k pend u rest V cf :
  bfs_inv m w h start goal done route k pend (u :: rest) V cf ->
  (forall p d, ~ pend p d) ->
  u <> goal ->
  bfs_inv m w h start goal ({[u]} ∪ done) route (route_code (route u))
          (fun p d => p = u /\ 0 <= dir_rank d) rest V cf
  /\ u ∉ done.
Proof.
  intros I Hpend Hug.
  assert (Hu : u ∉ done).
  { intros Hin. pose proof (bi_done _ _ _ _ _ _ _ _ _ _ _ _ I u Hin).
    pose proof (bi_ahead _ _ _ _ _ _ _ _ _ _ _ _ I u ltac:(sets)). lia. }
  assert (Hsize : size ({[u]} ∪ done) = S (size done)).
  { rewrite size_union by sets. by rewrite size_singleton. }
  destruct (bi_sorted _ _ _ _ _ _ _ _ _ _ _ _ I) as [Hhead Hsorted].
  split; [| done]. split.
  - rewrite (bi_cover _ _ _ _ _ _ _ _ _ _ _ _ I). sets.
  - apply (bi_range _ _ _ _ _ _ _ _ _ _ _ _ I).
  - apply (bi_start _ _ _ _ _ _ _ _ _ _ _ _ I).
  - apply (bi_start_route _ _ _ _ _ _ _ _ _ _ _ _ I).
  - apply (bi_route _ _ _ _ _ _ _ _ _ _ _ _ I).
  - intros v Hv Hne.
    destruct (bi_parent _ _ _ _ _ _ _ _ _ _ _ _ I v Hv Hne)
      as (p & d & H1 & H2 & H3 & H4).
    exists p, d. repeat split; try done. sets.
  - done.
  - intros p Hp. apply elem_of_union in Hp as [Hp | Hp].
    + apply elem_of_singleton in Hp as ->. lia.
    + pose proof (bi_done _ _ _ _ _ _ _ _ _ _ _ _ I p Hp).
      pose proof (bi_ahead _ _ _ _ _ _ _ _ _ _ _ _ I u ltac:(sets)).
      lia.
  - intros x Hx. by apply (proj1 (Forall_forall _ _) Hhead).
  - intros x p d Hx [-> _]. rewrite route_code_snoc.
    pose proof (dir_rank_range d).
    pose proof (bi_ahead _ _ _ _ _ _ _ _ _ _ _ _ I u ltac:(sets)).
    assert (HxV : x ∈ V).
    { rewrite (bi_cover _ _ _ _ _ _ _ _ _ _ _ _ I). sets. }
    destruct (decide (x = start)) as [-> | Hne].
    + rewrite (bi_start_route _ _ _ _ _ _ _ _ _ _ _ _ I).
      pose proof (route_code_pos (route u)). cbn. lia.
    + destruct (bi_parent _ _ _ _ _ _ _ _ _ _ _ _ I x HxV Hne)
        as (p & d' & _ & Hp & Hr & _).
      rewrite Hr, route_code_snoc.
      pose proof (dir_rank_range d').
      pose proof (bi_done _ _ _ _ _ _ _ _ _ _ _ _ I p Hp). lia.
  - intros p d Hp Hnp Hfree.
    apply (bi_closed _ _ _ _ _ _ _ _ _ _ _ _ I); [| apply Hpend | done].
    apply elem_of_union in Hp as [Hp | Hp]; [| done].
    apply elem_of_singleton in Hp as ->.
    exfalso. apply Hnp. split; [done |]. apply dir_rank_range.
  - pose proof (bi_goal _ _ _ _ _ _ _ _ _ _ _ _ I). sets.
  - intros p Hp. rewrite Hsize.
    assert (p ∈ V).
    { rewrite (bi_cover _ _ _ _ _ _ _ _ _ _ _ _ I). sets. }
    pose proof (bi_depth _ _ _ _ _ _ _ _ _ _ _ _ I p H). lia.
  - intros v Hv. rewrite Hsize.
    pose proof (bi_depth _ _ _ _ _ _ _ _ _ _ _ _ I v Hv). lia.
Qed.

(** Looking at one neighbour of the cell [u] in expansion. *)
Lemma bfs_inv_visit done route k u d0 st :
  bfs_inv m w h start goal done route k
          (fun p d => p = u /\ dir_rank d0 <= dir_rank d)
          st.1.1 st.1.2 st.2 ->
  0 < w -> 0 < h ->
  u ∈ done ->
  route_code (route u) = k ->
  exists route',
    bfs_inv m w h start goal done route' k
            (fun p d => p = u /\ dir_rank d0 + 1 <= dir_rank d)
            (bfs_visit m w h u st d0).1.1 (bfs_visit m w h u st d0).1.2
            (bfs_visit m w h u st d0).2
    /\ route_code (route' u) = k.
Proof.
  destruct st as [[fr V] cf]. cbn [fst snd]. intros I Hw Hh Hu Hk.
  pose proof (bi_cover _ _ _ _ _ _ _ _ _ _ _ _ I) as Hcover.
  assert (HuV : u ∈ V) by (rewrite Hcover; sets).
  unfold bfs_visit. set (n := wrap_step w h u d0).
  destruct (bool_decide (n ∉ V)
            && negb (isBlocked (bool_decide (cell m n = "#"%char))
                               (bool_decide (cell m n = "@"%char)))) eqn:Htest.
  - (* a new cell: it joins the queue with the route through [u] *)
    apply andb_true_iff in Htest as [HnV Hfree].
    apply bool_decide_eq_true in HnV. apply free_spec in Hfree.
    set (route' := fun p => if decide (p = n) then route u ++ [d0] else route p).
    assert (Hsame : forall v, v ∈ V -> route' v = route v).
    { intros v Hv. unfold route'. destruct (decide (v = n)); [| done].
      subst v. done. }
    assert (Hn : route' n = route u ++ [d0]).
    { unfold route'. by rewrite decide_True. }
    assert (Hdone : forall p, p ∈ done -> p ∈ V) by (rewrite Hcover; sets).
    assert (Hfr : forall x, x ∈ fr -> x ∈ V) by (rewrite Hcover; sets).
    exists route'. cbn [fst snd]. split; [| by rewrite Hsame].
    split.
    + rewrite Hcover, list_to_set_app_L. cbn [list_to_set]. sets.
    + intros v Hv. apply elem_of_union in Hv as [Hv | Hv].
      * apply elem_of_singleton in Hv as ->. by apply wrap_step_in_range.
      * by apply (bi_range _ _ _ _ _ _ _ _ _ _ _ _ I).
    + pose proof (bi_start _ _ _ _ _ _ _ _ _ _ _ _ I). sets.
    + rewrite Hsame by apply (bi_start _ _ _ _ _ _ _ _ _ _ _ _ I).
      apply (bi_start_route _ _ _ _ _ _ _ _ _ _ _ _ I).
    + intros v Hv. apply elem_of_union in Hv as [Hv | Hv].
      * apply elem_of_singleton in Hv as ->. rewrite Hn.
        apply route_to_snoc. exists u. split; [| done].
        apply (bi_route _ _ _ _ _ _ _ _ _ _ _ _ I). done.
      * rewrite Hsame by done. by apply (bi_route _ _ _ _ _ _ _ _ _ _ _ _ I).
    + intros v Hv Hne. apply elem_of_union in Hv as [Hv | Hv].
      * apply elem_of_singleton in Hv as ->. exists u, d0.
        rewrite lookup_insert_eq, Hn, Hsame by done. done.
      * destruct (bi_parent _ _ _ _ _ _ _ _ _ _ _ _ I v Hv Hne)
          as (p & d & H1 & H2 & H3 & H4).
        exists p, d. rewrite lookup_insert_ne by (intros ->; done).
        rewrite !Hsame by auto. done.
    + apply ascending_snoc.
      * apply (ascending_ext (fun x => route_code (route x))).
        -- intros x Hx. by rewrite Hsame by auto.
        -- apply (bi_sorted _ _ _ _ _ _ _ _ _ _ _ _ I).
      * apply Forall_forall. intros x Hx. rewrite Hn, Hsame by auto.
        apply (bi_pend _ _ _ _ _ _ _ _ _ _ _ _ I x u d0 Hx). split; [done | lia].
    + intros p Hp. rewrite Hsame by auto.
      by apply (bi_done _ _ _ _ _ _ _ _ _ _ _ _ I).
    + intros x Hx. apply elem_of_app in Hx as [Hx | Hx].
      * rewrite Hsame by auto. by apply (bi_ahead _ _ _ _ _ _ _ _ _ _ _ _ I).
      * apply list_elem_of_singleton in Hx as ->.
        rewrite Hn, route_code_snoc.
        pose proof (dir_rank_range d0). pose proof (route_code_pos (route u)).
        lia.
    + intros x p d Hx [-> Hd]. rewrite (Hsame u) by done.
      apply elem_of_app in Hx as [Hx | Hx].
      * rewrite Hsame by auto.
        apply (bi_pend _ _ _ _ _ _ _ _ _ _ _ _ I x u d Hx). split; [done | lia].
      * apply list_elem_of_singleton in Hx as ->.
        rewrite Hn, !route_code_snoc. lia.
    + intros p d Hp Hnp Hfree'. rewrite (Hsame p) by auto.
      destruct (decide (p = u /\ dir_rank d0 <= dir_rank d)) as [[-> Hd] | Hold].
      * assert (d = d0) as ->.
        { apply dir_rank_inj.
          destruct (decide (dir_rank d0 + 1 <= dir_rank d)); [| lia].
          exfalso. apply Hnp. done. }
        fold n. split; [sets |]. rewrite Hn. lia.
      * destruct (bi_closed _ _ _ _ _ _ _ _ _ _ _ _ I p d Hp Hold Hfree')
          as [HV Hle].
        split; [sets |]. by rewrite Hsame.
    + apply (bi_goal _ _ _ _ _ _ _ _ _ _ _ _ I).
    + intros p Hp. rewrite Hsame by auto.
      by apply (bi_depth_done _ _ _ _ _ _ _ _ _ _ _ _ I).
    + intros v Hv. apply elem_of_union in Hv as [Hv | Hv].
      * apply elem_of_singleton in Hv as ->. rewrite Hn, length_app. cbn.
        pose proof (bi_depth_done _ _ _ _ _ _ _ _ _ _ _ _ I u Hu). lia.
      * rewrite Hsame by done. by apply (bi_depth _ _ _ _ _ _ _ _ _ _ _ _ I).
  - (* nothing changes: the neighbour is blocked or already visited *)
    exists route. cbn [fst snd]. split; [| done].
    destruct I as [I1 I2 I3 I4 I5 I6 I7 I8 I9 I10 I11 I12 I13 I14].
    split; try done.
    + intros x p d Hx [-> Hd]. apply I10; [done |]. split; [done | lia].
    + intros p d Hp Hnp Hfree'.
      destruct (decide (p = u /\ dir_rank d0 <= dir_rank d)) as [[-> Hd] | Hold];
        [| by apply I11].
      assert (d = d0) as ->.
      { apply dir_rank_inj.
        destruct (decide (dir_rank d0 + 1 <= dir_rank d)); [| lia].
        exfalso. apply Hnp. done. }
      fold n in Hfree' |- *.
      assert (HnV : n ∈ V).
      { apply andb_false_iff in Htest as [Hv | Hb].
        - apply bool_decide_eq_false in Hv. by apply dec_stable.
        - apply free_spec in Hfree'. congruence. }
      split; [done |]. rewrite route_code_snoc.
      pose proof (dir_rank_range d0). pose proof (route_code_pos (route u)).
      rewrite I1 in HnV. apply elem_of_union in HnV as [Hin | Hin].
      * pose proof (I8 n Hin). lia.
      * apply elem_of_list_to_set in Hin.
        pose proof (I10 n u d0 Hin (conj eq_refl (Z.le_refl _))) as Hlt.
        rewrite route_code_snoc in Hlt. lia.
Qed.

(** Expanding a cell: the eight neighbours in the order of [directions]. *)
Lemma bfs_inv_expand done route k u st :
  bfs_inv m w h start goal done route k
          (fun p d => p = u /\ 0 <= dir_rank d) st.1.1 st.1.2 st.2 ->
  0 < w -> 0 < h ->
  u ∈ done ->
  route_code (route u) = k ->
  exists route',
    bfs_inv m w h start goal done route' k
            (fun p d => p = u /\ 8 <= dir_rank d)
            (fold_left (bfs_visit m w h u) directions st).1.1
            (fold_left (bfs_visit m w h u) directions st).1.2
            (fold_left (bfs_visit m w h u) directions st).2.
Proof.
  intros I0 Hw Hh Hu Hk0. unfold directions. cbn [fold_left].
  destruct (bfs_inv_visit _ _ _ u UP _ I0 Hw Hh Hu Hk0) as (r1 & I1 & Hk1).
  destruct (bfs_inv_visit _ _ _ u DOWN _ I1 Hw Hh Hu Hk1) as (r2 & I2 & Hk2).
  destruct (bfs_inv_visit _ _ _ u LEFT _ I2 Hw Hh Hu Hk2) as (r3 & I3 & Hk3).
  destruct (bfs_inv_visit _ _ _ u RIGHT _ I3 Hw Hh Hu Hk3) as (r4 & I4 & Hk4).
  destruct (bfs_inv_visit _ _ _ u UP_LEFT _ I4 Hw Hh Hu Hk4) as (r5 & I5 & Hk5).
  destruct (bfs_inv_visit _ _ _ u UP_RIGHT _ I5 Hw Hh Hu Hk5) as (r6 & I6 & Hk6).
  destruct (bfs_inv_visit _ _ _ u DOWN_LEFT _ I6 Hw Hh Hu Hk6) as (r7 & I7 & Hk7).
  destruct (bfs_inv_visit _ _ _ u DOWN_RIGHT _ I7 Hw Hh Hu Hk7) as (r8 & I8 & _).
  exists r8. exact I8.
Qed.

(** The loop ends within the bound, in a state described by [bfs_done]. *)
Lemma bfs_loop_spec fuel :
  0 < w -> 0 < h ->
  forall done route k pend fr V cf,
    bfs_inv m w h start goal done route k pend fr V cf ->
    (forall p d, ~ pend p d) ->
    (Z.to_nat (w * h) <= size done + fuel)%nat ->
    exists found cf',
      bfs_loop fuel m w h goal fr V cf = Some (found, cf')
      /\ bfs_done m w h start goal found cf'.
Proof.
  intros Hw Hh.
  induction fuel as [| fuel IH]; intros done route k pend fr V cf I Hpend Hfuel.
  - destruct fr as [| u rest]; cbn [bfs_loop].
    { exists false, cf. split; [done |]. by exists done, route, k, pend, [], V. }
    destruct (pos_eqb u goal) eqn:Hug.
    { apply pos_eqb_eq in Hug as ->. exists true, cf. split; [done |].
      exists done, route, k, pend, (goal :: rest), V. eauto. }
    exfalso.
    assert (Hne : u <> goal) by (intros ->; by rewrite pos_eqb_refl in Hug).
    destruct (bfs_inv_pop _ _ _ _ _ _ _ _ I Hpend Hne) as [I' HuP].
    assert (Hsub : {[u]} ∪ done ⊆ V).
    { rewrite (bi_cover _ _ _ _ _ _ _ _ _ _ _ _ I). sets. }
    apply subseteq_size in Hsub.
    rewrite size_union, size_singleton in Hsub by sets.
    pose proof (size_in_range w h Hw Hh V
                  (bi_range _ _ _ _ _ _ _ _ _ _ _ _ I)).
    lia.
  - destruct fr as [| u rest]; cbn [bfs_loop].
    { exists false, cf. split; [done |]. by exists done, route, k, pend, [], V. }
    destruct (pos_eqb u goal) eqn:Hug.
    { apply pos_eqb_eq in Hug as ->. exists true, cf. split; [done |].
      exists done, route, k, pend, (goal :: rest), V. eauto. }
    assert (Hne : u <> goal) by (intros ->; by rewrite pos_eqb_refl in Hug).
    destruct (bfs_inv_pop _ _ _ _ _ _ _ _ I Hpend Hne) as [I' HuP].
    destruct (bfs_inv_expand _ _ _ u (rest, V, cf) I' Hw Hh
                ltac:(sets) eq_refl) as (route' & I'').
    destruct (fold_left (bfs_visit m w h u) directions (rest, V, cf))
      as [[fr' V'] cf'].
    cbn [fst snd] in I''.
    apply (IH _ _ _ _ _ _ _ I'').
    + intros p d [_ Hd]. pose proof (dir_rank_range d). lia.
    + rewrite size_union, size_singleton by sets. lia.
Qed.

(** Walking the predecessor map back from a visited cell yields the cells
    along its route. *)
Lemma reconstruct_loop_spec done route k pend fr V cf :
  bfs_inv m w h start goal done route k pend fr V cf ->
  forall n v, v ∈ V -> length (route v) = n ->
  forall fuel acc, (n <= fuel)%nat ->
    reconstruct_loop fuel start v cf acc
    = Some (cells_along w h start (route v) ++ rev acc).
Proof.
  intros I.
  assert (Hdone : forall p, p ∈ done -> p ∈ V).
  { rewrite (bi_cover _ _ _ _ _ _ _ _ _ _ _ _ I). sets. }
  induction n as [| n IH]; intros v Hv Hlen fuel acc Hfuel.
  - apply nil_length_inv in Hlen.
    pose proof (bi_route _ _ _ _ _ _ _ _ _ _ _ _ I v Hv) as Hr.
    rewrite Hlen in Hr |- *. cbn in Hr. subst v.
    destruct fuel; cbn; by rewrite pos_eqb_refl.
  - assert (Hne : v <> start).
    { intros ->. rewrite (bi_start_route _ _ _ _ _ _ _ _ _ _ _ _ I) in Hlen.
      discriminate. }
    destruct (bi_parent _ _ _ _ _ _ _ _ _ _ _ _ I v Hv Hne)
      as (p & d & Hcf & Hp & Hr & Hstep).
    destruct fuel as [| fuel]; [lia |]. cbn [reconstruct_loop].
    rewrite (proj2 (pos_eqb_neq _ _) Hne), Hcf.
    rewrite Hr, length_app in Hlen. cbn in Hlen.
    rewrite (IH p (Hdone p Hp) ltac:(lia) fuel (acc ++ [v]) ltac:(lia)).
    rewrite Hr, (cells_along_snoc m w h _ _ d p)
      by (apply (bi_route _ _ _ _ _ _ _ _ _ _ _ _ I); auto).
    rewrite rev_app_distr, <- Hstep, <- app_assoc. done.
Qed.

(** When the goal was found, its route is valid, no valid route to the
    goal has a smaller code, and [reconstructPath] returns its cells. *)
Lemma bfs_found cf :
  0 < w -> 0 < h ->
  bfs_done m w h start goal true cf ->
  exists r,
    route_to m w h start r goal
    /\ (forall r', route_to m w h start r' goal -> route_code r <= route_code r')
    /\ forall fuel, (Z.to_nat (w * h) <= fuel)%nat ->
         reconstructPath fuel start goal cf = Some (cells_along w h start r).
Proof.
  intros Hw Hh (done & route & k & pend & fr & V & I & Hpend & rest & ->).
  pose proof (bi_cover _ _ _ _ _ _ _ _ _ _ _ _ I) as Hcover.
  assert (HgV : goal ∈ V) by (rewrite Hcover; sets).
  destruct (bi_sorted _ _ _ _ _ _ _ _ _ _ _ _ I) as [Hhead _].
  assert (Hfront : forall x, x ∈ goal :: rest ->
                     route_code (route goal) <= route_code (route x)).
  { intros x Hx. apply elem_of_cons in Hx as [-> | Hx]; [lia |].
    pose proof (proj1 (Forall_forall _ _) Hhead x Hx). cbn in *. lia. }
  (* a route with a smaller code than the goal's ends in an expanded cell *)
  assert (Hmin : forall r' x, route_to m w h start r' x ->
                   route_code r' < route_code (route goal) ->
                   x ∈ done /\ route_code (route x) <= route_code r').
  { induction r' as [| d r' IHr] using rev_ind; intros x Hr Hlt.
    - cbn in Hr. subst x.
      rewrite (bi_start_route _ _ _ _ _ _ _ _ _ _ _ _ I). split; [| done].
      pose proof (bi_start _ _ _ _ _ _ _ _ _ _ _ _ I) as Hs.
      rewrite Hcover in Hs. apply elem_of_union in Hs as [Hs | Hs]; [done |].
      apply elem_of_list_to_set, Hfront in Hs.
      rewrite (bi_start_route _ _ _ _ _ _ _ _ _ _ _ _ I) in Hs. lia.
    - apply route_to_snoc in Hr as (q & Hq & Hfree & ->).
      rewrite route_code_snoc in Hlt |- *.
      pose proof (dir_rank_range d). pose proof (route_code_pos r').
      destruct (IHr q Hq ltac:(lia)) as [HqP Hle].
      destruct (bi_closed _ _ _ _ _ _ _ _ _ _ _ _ I q d HqP (Hpend q d) Hfree)
        as [HxV Hx].
      rewrite route_code_snoc in Hx. split; [| lia].
      rewrite Hcover in HxV. apply elem_of_union in HxV as [HxV | HxV]; [done |].
      apply elem_of_list_to_set, Hfront in HxV. lia. }
  exists (route goal). split; [| split].
  - by apply (bi_route _ _ _ _ _ _ _ _ _ _ _ _ I).
  - intros r' Hr'.
    destruct (decide (route_code (route goal) <= route_code r')); [done |].
    destruct (Hmin r' goal Hr' ltac:(lia)) as [Hin _].
    by destruct (bi_goal _ _ _ _ _ _ _ _ _ _ _ _ I).
  - intros fuel Hfuel. unfold reconstructPath.
    assert (Htest : bool_decide (cf !! goal = None) && negb (pos_eqb start goal)
                    = false).
    { destruct (decide (goal = start)) as [-> | Hne].
      - by rewrite pos_eqb_refl, andb_false_r.
      - destruct (bi_parent _ _ _ _ _ _ _ _ _ _ _ _ I goal HgV Hne)
          as (p & d & Hcf & _).
        rewrite Hcf. done. }
    rewrite Htest.
    rewrite (reconstruct_loop_spec _ _ _ _ _ _ _ I _ goal HgV eq_refl).
    + cbn. by rewrite app_nil_r.
    + pose proof (bi_depth _ _ _ _ _ _ _ _ _ _ _ _ I goal HgV).
      assert (Hsub : done ⊆ V) by (rewrite Hcover; sets).
      apply subseteq_size in Hsub.
      pose proof (size_in_range w h Hw Hh V
                    (bi_range _ _ _ _ _ _ _ _ _ _ _ _ I)).
      lia.
Qed.

(** When the queue ran empty, no valid route leads to the goal. *)
Lemma bfs_not_found cf :
  bfs_done m w h start goal false cf -> forall r, ~ route_to m w h start r goal.
Proof.
  intros (done & route & k & pend & fr & V & I & Hpend & ->) r Hr.
  pose proof (bi_cover _ _ _ _ _ _ _ _ _ _ _ _ I) as Hcover.
  assert (HV : V = done) by (rewrite Hcover; sets).
  assert (Hall : forall r' x, route_to m w h start r' x -> x ∈ done).
  { induction r' as [| d r' IHr] using rev_ind; intros x Hx.
    - cbn in Hx. subst x. rewrite <- HV.
      apply (bi_start _ _ _ _ _ _ _ _ _ _ _ _ I).
    - apply route_to_snoc in Hx as (q & Hq & Hfree & ->).
      rewrite <- HV.
      apply (bi_closed _ _ _ _ _ _ _ _ _ _ _ _ I q d (IHr q Hq) (Hpend q d) Hfree). }
  apply (bi_goal _ _ _ _ _ _ _ _ _ _ _ _ I), (Hall r goal Hr).
Qed.

(** The search as a whole, for any bound of at least one more than the
    number of cells. *)
Lemma findShortestPathBFS_fuel_spec fuel :
  0 < w -> 0 < h -> in_range w h start ->
  (Z.to_nat (w * h) <= fuel)%nat ->
  (exists r,
     route_to m w h start r goal
     /\ (forall r', route_to m w h start r' goal -> route_code r <= route_code r')
     /\ findShortestPathBFS_fuel fuel m w h start goal
        = Some (cells_along w h start r))
  \/ ((forall r, ~ route_to m w h start r goal)
      /\ findShortestPathBFS_fuel fuel m w h start goal = Some []).
Proof.
  intros Hw Hh Hs Hfuel. unfold findShortestPathBFS_fuel.
  destruct (bfs_loop_spec fuel Hw Hh _ _ _ _ _ _ _ (bfs_inv_init Hs)
              ltac:(tauto) ltac:(lia)) as (found & cf & -> & Hdone).
  destruct found.
  - left. destruct (bfs_found cf Hw Hh Hdone) as (r & Hr & Hmin & Hpath).
    exists r. auto.
  - right. split; [| done]. by apply bfs_not_found with cf.
Qed.

End SearchFacts.

(** C7 (as stated) fails: a goal that is the start cell is reachable (by
    the empty route), and the path returned is empty. *)
Lemma C7_goal_at_start_empty_path :
  route_to (board_matrix (open_board 3)) 3 3 (mkPos 1 1) [] (mkPos 1 1)
  /\ findShortestPathBFS (open_board 3) (mkPos 1 1) (mkPos 1 1) = [].
Proof. split; [reflexivity | vm_compute; reflexivity]. Qed.

(** C7 (amended).  On a board of positive width and height and from a
    start cell on the board, [findShortestPathBFS] ends within as many
    expansions as there are cells (plus one).  When no route over free
    cells of the 8-connected wrap-around grid leads to the goal, the path
    is empty.  When one does, the path lists the cells along a route [r]
    to the goal (the start cell not included, so its length is the
    number of hops) such that no route to the goal is shorter, and none
    of the same length comes before [r] in the lexicographic order of
    the enumeration UP, DOWN, LEFT, RIGHT, UP_LEFT, UP_RIGHT, DOWN_LEFT,
    DOWN_RIGHT.  Hence the path is non-empty exactly when the goal is
    reachable and is not the start cell. *)
Theorem C7_shortest_path (s : ChasingAlgorithm) (start goal : Position) :
  let m := board_matrix s in
  let w := ca_board_width s in
  let h := ca_board_height s in
  let path := findShortestPathBFS s start goal in
  0 < w -> 0 < h -> in_range w h start ->
  findShortestPathBFS_fuel (S (Z.to_nat (w * h))) m w h start goal = Some path
  /\ ((forall r, ~ route_to m w h start r goal) -> path = [])
  /\ ((exists r, route_to m w h start r goal) ->
      exists r,
        route_to m w h start r goal
        /\ path = cells_along w h start r
        /\ length path = length r
        /\ forall r', route_to m w h start r' goal ->
             (length r <= length r')%nat
             /\ (length r' = length r -> ~ lex_before r' r))
  /\ (path <> [] <-> (exists r, route_to m w h start r goal) /\ goal <> start).
Proof.
  intros m w h path Hw Hh Hs.
  pose proof (findShortestPathBFS_fuel_spec m w h start goal
                (S (Z.to_nat (w * h))) Hw Hh Hs ltac:(lia)) as Hspec.
  assert (Hdef : path = default [] (findShortestPathBFS_fuel
                                      (S (Z.to_nat (w * h))) m w h start goal))
    by reflexivity.
  destruct Hspec as [(r & Hr & Hmin & Hrun) | [Hnone Hrun]];
    rewrite Hrun in Hdef |- *; cbn in Hdef.
  - assert (Hbest : forall r', route_to m w h start r' goal ->
                      (length r <= length r')%nat
                      /\ (length r' = length r -> ~ lex_before r' r)).
    { intros r' Hr'. pose proof (Hmin r' Hr') as Hle. split.
      - by apply route_code_length.
      - intros Hlen Hlex.
        pose proof (lex_before_code r' r 1 ltac:(lia) Hlen Hlex) as Hlt.
        unfold route_code in Hle. lia. }
    split; [by rewrite Hdef |]. split; [| split].
    + intros Hno. by destruct (Hno r).
    + intros _. exists r. rewrite Hdef.
      split; [done |]. split; [done |]. split; [apply length_cells_along | done].
    + rewrite Hdef. split.
      * intros Hne. split; [by exists r |]. intros ->.
        destruct (Hbest [] eq_refl) as [Hlen _]. cbn in Hlen.
        destruct r; [done | cbn in Hlen; lia].
      * intros [_ Hne] Hnil. destruct r as [| d r]; [| discriminate].
        cbn in Hr. congruence.
  - split; [by rewrite Hdef |]. split; [done |]. split.
    + intros [r Hr]. by destruct (Hnone r).
    + rewrite Hdef. split; [done |]. intros [[r Hr] _]. by destruct (Hnone r).
Qed.

Lemma C7_shortest_path_witness :
  findShortestPathBFS (open_board 5) (mkPos 1 1) (mkPos 3 1) <> []
  <-> (exists r, route_to (board_matrix (open_board 5)) 5 5
                          (mkPos 1 1) r (mkPos 3 1))
      /\ mkPos 3 1 <> mkPos 1 1.
Proof.
  assert (Hs : in_range 5 5 (mkPos 1 1)) by (unfold in_range; cbn; lia).
  exact (proj2 (proj2 (proj2
           (C7_shortest_path (open_board 5) (mkPos 1 1) (mkPos 3 1)
              ltac:(reflexivity) ltac:(reflexivity) Hs)))).
Defined.

(** Two hops lead from (1,1) to (3,1) on the open 5x5 board through (2,0),
    (2,1) or (2,2); the path goes through (2,1), which RIGHT reaches and
    which precedes UP_RIGHT and DOWN_RIGHT in the enumeration. *)
Example tie_broken_by_enumeration_order :
  findShortestPathBFS (open_board 5) (mkPos 1 1) (mkPos 3 1)
  = [mkPos 2 1; mkPos 3 1]
  /\ cells_along 5 5 (mkPos 1 1) [RIGHT; RIGHT] = [mkPos 2 1; mkPos 3 1]
  /\ cells_along 5 5 (mkPos 1 1) [UP_RIGHT; DOWN_RIGHT] = [mkPos 2 0; mkPos 3 1]
  /\ lex_before [RIGHT; RIGHT] [UP_RIGHT; DOWN_RIGHT].
Proof.
  split; [vm_compute; reflexivity |].
  split; [reflexivity |]. split; [reflexivity |]. left. reflexivity.
Qed.

(** ** Shell against shell *)

Lemma shell_at_destroy_shell_at k (objs : list (GameObject Z)) i :
  shell_at (destroy_shell_at k objs) i
  = if decide (k = i) then destroy_shell <$> shell_at objs i
    else shell_at objs i.
Proof.
  unfold shell_at, destroy_shell_at. destruct (decide (k = i)) as [-> | Hne].
  - rewrite list_lookup_alter_eq. by destruct (objs !! i) as [[] |].
  - by rewrite list_lookup_alter_ne.
Qed.

Lemma shell_live_destroy_shell_at k (objs : list (GameObject Z)) i :
  shell_live (destroy_shell_at k objs) i
  = if decide (k = i) then false else shell_live objs i.
Proof.
  unfold shell_live. rewrite shell_at_destroy_shell_at.
  destruct (decide (k = i)); [| done]. by destruct (shell_at objs i).
Qed.

Lemma fades_refl objs : fades objs objs.
Proof. intros i. by left. Qed.

Lemma fades_trans objs1 objs2 objs3 :
  fades objs1 objs2 -> fades objs2 objs3 -> fades objs1 objs3.
Proof.
  intros H12 H23 i.
  destruct (H12 i) as [E12 | (s & E1 & E2)], (H23 i) as [E23 | (s' & E2' & E3)].
  - left. congruence.
  - right. exists s'. split; congruence.
  - right. exists s. split; congruence.
  - right. exists s. split; [done |].
    rewrite E3. assert (s' = destroy_shell s) as -> by congruence. done.
Qed.

Lemma fades_destroy_shell_at k objs : fades objs (destroy_shell_at k objs).
Proof.
  intros i. rewrite shell_at_destroy_shell_at.
  destruct (decide (k = i)); [| by left].
  destruct (shell_at objs i) as [s |]; [right; by exists s | by left].
Qed.

(** A shell of the later state is the same shell of the earlier one, up to
    its destruction. *)
Lemma fades_shell objs objs' i s' :
  fades objs objs' -> shell_at objs' i = Some s' ->
  exists s, shell_at objs i = Some s
            /\ shell_position s = shell_position s'
            /\ shell_direction s = shell_direction s'
            /\ (shell_is_destroyed s' = false -> shell_is_destroyed s = false).
Proof.
  intros Hf Hs'. destruct (Hf i) as [E | (s & E1 & E2)].
  - exists s'. split; [congruence | done].
  - exists s. split; [done |].
    assert (s' = destroy_shell s) as -> by congruence. cbn. done.
Qed.

Lemma fades_shell_later objs objs' i s :
  fades objs objs' -> shell_at objs i = Some s ->
  exists s', shell_at objs' i = Some s'
             /\ shell_position s' = shell_position s
             /\ shell_direction s' = shell_direction s.
Proof.
  intros Hf Hs. destruct (Hf i) as [E | (s0 & E1 & E2)].
  - exists s. split; [congruence | done].
  - exists (destroy_shell s0). split; [done |].
    assert (s0 = s) as -> by congruence. done.
Qed.

Lemma fades_live objs objs' i :
  fades objs objs' -> shell_live objs' i = true -> shell_live objs i = true.
Proof.
  unfold shell_live. intros Hf Hl.
  destruct (shell_at objs' i) as [s' |] eqn:Hs'; [| done].
  destruct (fades_shell _ _ _ _ Hf Hs') as (s & -> & _ & _ & Hd).
  apply negb_true_iff in Hl. by rewrite (Hd Hl).
Qed.

Lemma fades_dead objs objs' i :
  fades objs objs' -> shell_live objs i = false -> shell_live objs' i = false.
Proof.
  intros Hf Hd. destruct (shell_live objs' i) eqn:Hl; [| done].
  apply (fades_live _ _ _ Hf) in Hl. congruence.
Qed.

Lemma head_on_fades objs objs' sip a b :
  fades objs objs' -> head_on objs sip a b <-> head_on objs' sip a b.
Proof.
  intros Hf. unfold head_on. split.
  - intros (Hne & sa & sb & ip & Ha & Hb & Hin & Hip & Hopp).
    destruct (fades_shell_later _ _ _ _ Hf Ha) as (sa' & Ha' & Hpa & Hda).
    destruct (fades_shell_later _ _ _ _ Hf Hb) as (sb' & Hb' & Hpb & Hdb).
    split; [done |]. exists sa', sb', ip. rewrite Hpa, Hda, Hdb. done.
  - intros (Hne & sa' & sb' & ip & Ha' & Hb' & Hin & Hip & Hopp).
    destruct (fades_shell _ _ _ _ Hf Ha') as (sa & Ha & Hpa & Hda & _).
    destruct (fades_shell _ _ _ _ Hf Hb') as (sb & Hb & Hpb & Hdb & _).
    split; [done |]. exists sa, sb, ip. rewrite Hpa, Hda, Hdb. done.
Qed.

(** *** The shells that share an intended position *)

Lemma shells_at_intended_pos_spec objs sip p :
  default [] (shells_at_intended_pos objs sip !! p)
  = (List.filter (fun sp => shell_live objs sp.1 && pos_eqb sp.2 p) sip).*1.
Proof.
  unfold shells_at_intended_pos.
  assert (H : forall acc : gmap Position (list nat),
    default [] (fold_left
       (fun acc sp =>
          if shell_live objs sp.1
          then <[sp.2 := default [] (acc !! sp.2) ++ [sp.1]]> acc
          else acc) sip acc !! p)
    = default [] (acc !! p)
      ++ (List.filter (fun sp => shell_live objs sp.1 && pos_eqb sp.2 p) sip).*1).
  { induction sip as [| [i q] sip IH]; intros acc; cbn [fold_left List.filter].
    - cbn. by rewrite app_nil_r.
    - rewrite IH. cbn [fst snd].
      destruct (shell_live objs i); cbn [andb]; [| done].
      destruct (pos_eqb q p) eqn:Hq.
      + apply pos_eqb_eq in Hq as ->. rewrite lookup_insert_eq. cbn.
        by rewrite <- app_assoc.
      + apply pos_eqb_neq in Hq. by rewrite lookup_insert_ne. }
  rewrite H, lookup_empty. done.
Qed.

Lemma two_elements {A} (l : list A) x y :
  x ∈ l -> y ∈ l -> x <> y -> (1 < length l)%nat.
Proof.
  destruct l as [| a [| b l]]; cbn; intros Hx Hy Hne; [| | lia].
  - by apply elem_of_nil in Hx.
  - apply list_elem_of_singleton in Hx, Hy. congruence.
Qed.

Lemma fades_destroy_group objs g : fades objs (destroy_group objs g).
Proof.
  unfold destroy_group. destruct (1 <? length g.2)%nat; [| apply fades_refl].
  generalize (snd g) as l. intros l. revert objs.
  induction l as [| i l IH]; intros objs; cbn; [apply fades_refl |].
  eapply fades_trans; [apply fades_destroy_shell_at | apply IH].
Qed.

Lemma fades_fold_destroy_group gl : forall objs,
  fades objs (fold_left destroy_group gl objs).
Proof.
  induction gl as [| g gl IH]; intros objs; cbn; [apply fades_refl |].
  eapply fades_trans; [apply fades_destroy_group | apply IH].
Qed.

Lemma fades_destroy_coinciding sip objs :
  fades objs (destroy_coinciding sip objs).
Proof. apply fades_fold_destroy_group. Qed.

Lemma destroy_group_kills objs p g i :
  (1 < length g)%nat -> i ∈ g -> shell_live (destroy_group objs (p, g)) i = false.
Proof.
  intros Hlen Hin. unfold destroy_group. cbn [snd].
  rewrite (proj2 (Nat.ltb_lt _ _) Hlen). clear Hlen. revert objs.
  induction g as [| k g IH]; intros objs; [by apply elem_of_nil in Hin |].
  cbn [fold_left]. apply elem_of_cons in Hin as [-> | Hin]; [| by apply IH].
  assert (Hf : fades (destroy_shell_at k objs)
                 (fold_left (fun o i => destroy_shell_at i o) g
                            (destroy_shell_at k objs))).
  { generalize (destroy_shell_at k objs) as o. clear.
    induction g as [| x g IH]; intros o; cbn; [apply fades_refl |].
    eapply fades_trans; [apply fades_destroy_shell_at | apply IH]. }
  apply (fades_dead _ _ _ Hf). rewrite shell_live_destroy_shell_at.
  by rewrite decide_True.
Qed.

Lemma fold_destroy_group_kills p g i gl : forall objs,
  (p, g) ∈ gl -> (1 < length g)%nat -> i ∈ g ->
  shell_live (fold_left destroy_group gl objs) i = false.
Proof.
  induction gl as [| e gl IH]; intros objs Hin Hlen Hi;
    [by apply elem_of_nil in Hin |].
  cbn [fold_left]. apply elem_of_cons in Hin as [<- | Hin]; [| by apply IH].
  apply (fades_dead _ _ _ (fades_fold_destroy_group gl _)).
  by apply destroy_group_kills.
Qed.

(** Two live shells with one intended position do not survive the first
    loops. *)
Lemma destroy_coinciding_kills sip objs i j p :
  i <> j -> (i, p) ∈ sip -> (j, p) ∈ sip ->
  shell_live objs i = true -> shell_live objs j = true ->
  shell_live (destroy_coinciding sip objs) i = false.
Proof.
  intros Hne Hi Hj Li Lj. unfold destroy_coinciding.
  pose proof (shells_at_intended_pos_spec objs sip p) as Hg.
  set (g := (List.filter (fun sp => shell_live objs sp.1 && pos_eqb sp.2 p)
                         sip).*1) in Hg.
  assert (Hmem : forall k, (k, p) ∈ sip -> shell_live objs k = true -> k ∈ g).
  { intros k Hk Lk. unfold g. apply list_elem_of_fmap. exists (k, p).
    split; [done |]. apply list_elem_of_In, filter_In.
    split; [by apply list_elem_of_In |]. cbn. by rewrite Lk, pos_eqb_refl. }
  pose proof (two_elements g i j (Hmem i Hi Li) (Hmem j Hj Lj) Hne) as Hlen.
  destruct (shells_at_intended_pos objs sip !! p) as [g' |] eqn:Hlook;
    cbn in Hg; [subst g' | rewrite <- Hg in Hlen; cbn in Hlen; lia].
  apply elem_of_map_to_list in Hlook.
  apply (fold_destroy_group_kills p g); auto.
Qed.

(** *** The head-on check *)

(** One entry of the inner loop changes nothing, or destroys both shells. *)
Lemma head_on_with_cases k pos dir objs o ip :
  head_on_with k pos dir objs (o, ip) = objs
  \/ (exists so, shell_at objs o = Some so
                 /\ shell_is_destroyed so = false /\ ip = pos /\ o <> k
                 /\ Z.abs (dir_index dir - dir_index (shell_direction so)) = 4)
     /\ head_on_with k pos dir objs (o, ip)
        = destroy_shell_at o (destroy_shell_at k objs).
Proof.
  unfold head_on_with. destruct (shell_at objs o) as [so |]; [| by left].
  destruct (negb (shell_is_destroyed so) && pos_eqb ip pos && negb (o =? k)%nat
            && (Z.abs (dir_index dir - dir_index (shell_direction so)) =? 4))
    eqn:Htest; [| by left].
  right. split; [| done].
  apply andb_true_iff in Htest as [Htest Hopp].
  apply andb_true_iff in Htest as [Htest Hne].
  apply andb_true_iff in Htest as [Hlive Hpos].
  exists so. split; [done |].
  apply negb_true_iff in Hlive. apply pos_eqb_eq in Hpos.
  apply negb_true_iff, Nat.eqb_neq in Hne. apply Z.eqb_eq in Hopp. done.
Qed.

Lemma fades_head_on_with k pos dir objs sp :
  fades objs (head_on_with k pos dir objs sp).
Proof.
  destruct sp as [o ip].
  destruct (head_on_with_cases k pos dir objs o ip) as [-> | [_ ->]].
  - apply fades_refl.
  - eapply fades_trans; apply fades_destroy_shell_at.
Qed.

Lemma fades_fold_head_on_with k pos dir sip : forall objs,
  fades objs (fold_left (head_on_with k pos dir) sip objs).
Proof.
  induction sip as [| sp sip IH]; intros objs; cbn; [apply fades_refl |].
  eapply fades_trans; [apply fades_head_on_with | apply IH].
Qed.

Lemma fades_head_on_shell sip objs k : fades objs (head_on_shell sip objs k).
Proof.
  unfold head_on_shell. destruct (shell_at objs k) as [s |]; [| apply fades_refl].
  destruct (negb (shell_is_destroyed s)); [| apply fades_refl].
  apply fades_fold_head_on_with.
Qed.

Lemma fades_fold_head_on_shell sip l : forall objs,
  fades objs (fold_left (head_on_shell sip) l objs).
Proof.
  induction l as [| k l IH]; intros objs; cbn; [apply fades_refl |].
  eapply fades_trans; [apply fades_head_on_shell | apply IH].
Qed.

Lemma fades_resolveShellShellCollisions sip gs :
  fades (objects gs) (objects (resolveShellShellCollisions sip gs)).
Proof.
  unfold resolveShellShellCollisions. cbn.
  eapply fades_trans; [apply fades_destroy_coinciding |].
  apply fades_fold_head_on_shell.
Qed.

Lemma elem_of_getShells_from (objs : list (GameObject Z)) : forall n i,
  shell_live objs i = true -> (n + i)%nat ∈ getShells_from n objs.
Proof.
  induction objs as [| obj objs IH]; intros n i Hl.
  - unfold shell_live, shell_at in Hl. by rewrite lookup_nil in Hl.
  - destruct i as [| i].
    + unfold shell_live, shell_at in Hl. cbn in Hl.
      destruct obj as [| s | |]; try done. cbn.
      apply negb_true_iff in Hl. rewrite Hl, Nat.add_0_r. apply elem_of_cons. by left.
    + assert (Hl' : shell_live objs i = true) by exact Hl.
      specialize (IH (S n) i Hl').
      replace (n + S i)%nat with (S n + i)%nat by lia.
      destruct obj as [| s | |]; cbn; try done.
      destruct (shell_is_destroyed s); [done |]. apply elem_of_cons. by right.
Qed.

(** The inner loop at the turn of [i] does not leave both [i] and a live
    shell [j] that lands on its cell from the opposite direction. *)
Lemma inner_not_both ref i j sj pos dir sip : forall cur,
  shell_at ref j = Some sj -> j <> i ->
  Z.abs (dir_index dir - dir_index (shell_direction sj)) = 4 ->
  (j, pos) ∈ sip ->
  fades ref cur ->
  shell_live (fold_left (head_on_with i pos dir) sip cur) j = false.
Proof.
  induction sip as [| e sip IH]; intros cur Hj Hne Hopp Hin Hf;
    [by apply elem_of_nil in Hin |].
  cbn [fold_left]. apply elem_of_cons in Hin as [<- | Hin].
  - apply (fades_dead _ _ _ (fades_fold_head_on_with _ _ _ _ _)).
    destruct (fades_shell_later _ _ _ _ Hf Hj) as (sj' & Hj' & _ & Hd).
    unfold head_on_with. rewrite Hj', Hd, pos_eqb_refl.
    rewrite (proj2 (Nat.eqb_neq _ _) Hne), (proj2 (Z.eqb_eq _ _) Hopp).
    destruct (shell_is_destroyed sj') eqn:Hdead; cbn [negb andb].
    + unfold shell_live. by rewrite Hj', Hdead.
    + rewrite shell_live_destroy_shell_at. by rewrite decide_True.
  - apply IH; try done.
    eapply fades_trans; [exact Hf | apply fades_head_on_with].
Qed.

Section HeadOnPair.
Variable ref : list (GameObject Z).
Variable sip : list (nat * Position).
Variables i j : nat.
Hypothesis pair : head_on ref sip i j.

(** The turn of [i] in the outer loop does not leave both shells live. *)
Lemma turn_not_both cur :
  fades ref cur ->
  shell_live (head_on_shell sip cur i) i = false
  \/ shell_live (head_on_shell sip cur i) j = false.
Proof.
  intros Hf.
  destruct pair as (Hne & si & sj & ip & Hi & Hj & Hin & Hip & Hopp).
  unfold head_on_shell.
  destruct (shell_at cur i) as [s |] eqn:Hs;
    [| left; unfold shell_live; by rewrite Hs].
  destruct (shell_is_destroyed s) eqn:Hdead; cbn [negb];
    [left; unfold shell_live; by rewrite Hs, Hdead |].
  destruct (fades_shell _ _ _ _ Hf Hs) as (s0 & Hs0 & Hp & Hd & _).
  assert (s0 = si) as -> by congruence.
  right. apply (inner_not_both ref i j sj); try done.
  - congruence.
  - by rewrite <- Hp, <- Hip.
Qed.

(** Nor does the whole head-on loop, when [i] has its turn. *)
Lemma loop_not_both l : forall cur,
  i ∈ l -> fades ref cur ->
  shell_live (fold_left (head_on_shell sip) l cur) i = false
  \/ shell_live (fold_left (head_on_shell sip) l cur) j = false.
Proof.
  induction l as [| k l IH]; intros cur Hin Hf; [by apply elem_of_nil in Hin |].
  cbn [fold_left]. apply elem_of_cons in Hin as [<- | Hin].
  - pose proof (fades_fold_head_on_shell sip l (head_on_shell sip cur i)) as Hrest.
    destruct (turn_not_both cur Hf) as [H | H]; [left | right];
      by apply (fades_dead _ _ _ Hrest).
  - apply IH; [done |].
    eapply fades_trans; [exact Hf | apply fades_head_on_shell].
Qed.

End HeadOnPair.

Section Undisturbed.
Variable ref : list (GameObject Z).
Variable sip : list (nat * Position).
Variables i j : nat.
Hypothesis alone : undisturbed ref sip i j.

(** With no third shell involved, [i] and [j] are destroyed together or
    not at all. *)
Lemma inner_paired k sk sip' : forall cur,
  shell_at ref k = Some sk -> shell_is_destroyed sk = false ->
  (forall e, e ∈ sip' -> e ∈ sip) ->
  fades ref cur ->
  shell_live cur i = shell_live cur j ->
  shell_live (fold_left (head_on_with k (shell_position sk) (shell_direction sk))
                        sip' cur) i
  = shell_live (fold_left (head_on_with k (shell_position sk) (shell_direction sk))
                          sip' cur) j.
Proof.
  induction sip' as [| [o ip] sip' IH]; intros cur Hk Hlive Hsub Hf Heq; [done |].
  cbn [fold_left].
  assert (Hsub' : forall e, e ∈ sip' -> e ∈ sip).
  { intros e He. apply Hsub, elem_of_cons. by right. }
  destruct (head_on_with_cases k (shell_position sk) (shell_direction sk)
              cur o ip) as [-> | [(so & Ho & Hso & Hip & Hne & Hopp) ->]];
    [by apply IH |].
  destruct (fades_shell _ _ _ _ Hf Ho) as (so0 & Ho0 & Hp & Hd & Hl).
  assert (Hhead : head_on ref sip k o).
  { split; [done |]. exists sk, so0, ip. rewrite Hd.
    repeat split; try done. apply Hsub, elem_of_cons. by left. }
  assert (Lk : shell_live ref k = true).
  { unfold shell_live. by rewrite Hk, Hlive. }
  assert (Lo : shell_live ref o = true).
  { unfold shell_live. by rewrite Ho0, (Hl Hso). }
  assert (Hf' : fades ref (destroy_shell_at o (destroy_shell_at k cur))).
  { eapply fades_trans; [exact Hf |].
    eapply fades_trans; apply fades_destroy_shell_at. }
  apply IH; try done.
  rewrite !shell_live_destroy_shell_at.
  destruct (decide (o = i)) as [Eoi | Hoi], (decide (o = j)) as [Eoj | Hoj],
           (decide (k = i)) as [Eki | Hki], (decide (k = j)) as [Ekj | Hkj];
    try done; try congruence; exfalso.
  - destruct (alone k Hki Hkj Lk) as (_ & _ & H & _). by rewrite Eoi in Hhead.
  - destruct (alone k Hki Hkj Lk) as (_ & _ & _ & H). by rewrite Eoj in Hhead.
  - destruct (alone o Hoi Hoj Lo) as (H & _). by rewrite Eki in Hhead.
  - destruct (alone o Hoi Hoj Lo) as (_ & H & _). by rewrite Ekj in Hhead.
Qed.

Lemma loop_paired l : forall cur,
  fades ref cur ->
  shell_live cur i = shell_live cur j ->
  shell_live (fold_left (head_on_shell sip) l cur) i
  = shell_live (fold_left (head_on_shell sip) l cur) j.
Proof.
  induction l as [| k l IH]; intros cur Hf Heq; [done |].
  cbn [fold_left].
  apply IH; [eapply fades_trans; [exact Hf | apply fades_head_on_shell] |].
  unfold head_on_shell. destruct (shell_at cur k) as [s |] eqn:Hs; [| done].
  destruct (shell_is_destroyed s) eqn:Hdead; cbn [negb]; [done |].
  destruct (fades_shell _ _ _ _ Hf Hs) as (sk & Hk & Hp & Hd & Hl).
  rewrite <- Hp, <- Hd. apply inner_paired; auto.
Qed.

End Undisturbed.

(** Two shells that are live after the first loops, one landing on the
    cell of the other from the opposite direction, are never both left
    live, and are both destroyed when no third shell is involved. *)
Lemma head_on_pair_destroyed sip gs i j :
  let objs1 := destroy_coinciding sip (objects gs) in
  let objs' := objects (resolveShellShellCollisions sip gs) in
  shell_live objs1 i = true -> shell_live objs1 j = true ->
  head_on objs1 sip i j ->
  (shell_live objs' i = false \/ shell_live objs' j = false)
  /\ (undisturbed objs1 sip i j ->
      shell_live objs' i = false /\ shell_live objs' j = false).
Proof.
  intros objs1 objs' Li Lj Hpair.
  assert (Hin : i ∈ getShells (set_objects objs1 gs)).
  { apply (elem_of_getShells_from objs1 0 i Li). }
  assert (Hweak : shell_live objs' i = false \/ shell_live objs' j = false).
  { apply (loop_not_both objs1 sip i j Hpair); [done | apply fades_refl]. }
  split; [done |]. intros Hal.
  assert (Heq : shell_live objs' i = shell_live objs' j).
  { apply (loop_paired objs1 sip i j Hal); [apply fades_refl |].
    fold objs1. by rewrite Li, Lj. }
  destruct Hweak as [H | H]; rewrite H in Heq |- *; auto.
Qed.

(** *** The intended positions of a sub-step *)

Lemma intend_shell_keeps max_speed gs s :
  shell_position (intend_shell max_speed gs s).1 = shell_position s
  /\ shell_direction (intend_shell max_speed gs s).1 = shell_direction s
  /\ shell_is_destroyed (intend_shell max_speed gs s).1 = shell_is_destroyed s.
Proof. unfold intend_shell. by destruct (_ <=? _). Qed.

Lemma intend_shell_advancing max_speed gs s :
  max_speed <= shell_movement_progress s + Shell_speed ->
  (intend_shell max_speed gs s).2 = shell_target gs s.
Proof.
  intros H. unfold intend_shell.
  by rewrite (proj2 (Z.leb_le _ _) H).
Qed.

Lemma shell_at_insert_ne (objs : list (GameObject Z)) i0 i obj :
  i0 <> i -> shell_at (<[i0 := obj]> objs) i = shell_at objs i.
Proof. intros Hne. unfold shell_at. by rewrite list_lookup_insert_ne. Qed.

Lemma shell_at_insert_eq (objs : list (GameObject Z)) i s0 s :
  shell_at objs i = Some s0 ->
  shell_at (<[i := ShellObj s]> objs) i = Some s.
Proof.
  unfold shell_at. intros H.
  destruct (objs !! i) as [obj |] eqn:Hobj; [| done].
  rewrite list_lookup_insert_eq; [done |]. by apply lookup_lt_Some in Hobj.
Qed.

(** What [intend_shells] returns for a list of distinct indices: an entry
    for each shell of the list, computed from the shell as it was, and
    the shells with nothing but their progress changed. *)
Lemma intend_shells_spec max_speed gs l : forall objs,
  NoDup l ->
  (forall i s, i ∈ l -> shell_at objs i = Some s ->
     (i, (intend_shell max_speed gs s).2) ∈ (intend_shells max_speed gs l objs).2)
  /\ (forall i p, (i, p) ∈ (intend_shells max_speed gs l objs).2 ->
        i ∈ l /\ exists s, shell_at objs i = Some s
                           /\ p = (intend_shell max_speed gs s).2)
  /\ (forall i s', shell_at (intend_shells max_speed gs l objs).1 i = Some s' ->
        exists s, shell_at objs i = Some s
                  /\ shell_position s' = shell_position s
                  /\ shell_direction s' = shell_direction s
                  /\ shell_is_destroyed s' = shell_is_destroyed s).
Proof.
  induction l as [| i0 l IH]; intros objs Hnd.
  - cbn. split; [| split].
    + intros i s Hin. by apply elem_of_nil in Hin.
    + intros i p Hin. by apply elem_of_nil in Hin.
    + intros i s' Hs'. by exists s'.
  - apply NoDup_cons in Hnd as [Hi0 Hnd]. cbn [intend_shells].
    destruct (shell_at objs i0) as [s0 |] eqn:Hs0.
    + destruct (intend_shell max_speed gs s0) as [shell' ip] eqn:Hint.
      specialize (IH (<[i0 := ShellObj shell']> objs) Hnd).
      destruct (intend_shells max_speed gs l (<[i0 := ShellObj shell']> objs))
        as [objs' out] eqn:Hrest.
      cbn [fst snd] in IH |- *. destruct IH as (IH1 & IH2 & IH3).
      split; [| split].
      * intros i s Hin Hs. apply elem_of_cons in Hin as [-> | Hin].
        -- assert (s = s0) as -> by congruence. rewrite Hint.
           apply elem_of_cons. by left.
        -- apply elem_of_cons. right. apply IH1; [done |].
           rewrite shell_at_insert_ne; [done |]. by intros ->.
      * intros i p Hin. apply elem_of_cons in Hin as [[= -> ->] | Hin].
        -- split; [apply elem_of_cons; by left |]. exists s0. by rewrite Hint.
        -- destruct (IH2 i p Hin) as (Hil & s & Hs & Hp).
           split; [apply elem_of_cons; by right |]. exists s.
           rewrite shell_at_insert_ne in Hs; [done |]. by intros ->.
      * intros i s' Hs'. destruct (IH3 i s' Hs') as (s & Hs & Hp & Hd & Hx).
        destruct (decide (i0 = i)) as [<- | Hne].
        -- rewrite (shell_at_insert_eq _ _ s0) in Hs by done.
           injection Hs as <-. exists s0.
           pose proof (intend_shell_keeps max_speed gs s0) as (K1 & K2 & K3).
           rewrite Hint in K1, K2, K3. cbn in K1, K2, K3.
           split; [done |]. by rewrite Hp, Hd, Hx.
        -- rewrite shell_at_insert_ne in Hs by done. by exists s.
    + destruct (IH objs Hnd) as (IH1 & IH2 & IH3). split; [| split].
      * intros i s Hin Hs. apply elem_of_cons in Hin as [-> | Hin];
          [congruence | by apply IH1].
      * intros i p Hin. destruct (IH2 i p Hin) as (Hil & Hs).
        split; [apply elem_of_cons; by right | done].
      * done.
Qed.

Lemma intend_shells_NoDup max_speed gs l : forall objs,
  NoDup l -> NoDup (intend_shells max_speed gs l objs).2.*1.
Proof.
  induction l as [| i0 l IH]; intros objs Hnd; [constructor |].
  pose proof Hnd as Hnd'.
  apply NoDup_cons in Hnd as [Hi0 Hnd]. cbn [intend_shells].
  destruct (shell_at objs i0) as [s0 |]; [| by apply IH].
  destruct (intend_shell max_speed gs s0) as [shell' ip].
  pose proof (IH (<[i0 := ShellObj shell']> objs) Hnd) as Hout.
  destruct (intend_shells_spec max_speed gs l (<[i0 := ShellObj shell']> objs)
              Hnd) as (_ & H2 & _).
  destruct (intend_shells max_speed gs l (<[i0 := ShellObj shell']> objs))
    as [objs' out].
  cbn [fst snd] in *. apply NoDup_cons. split; [| done].
  intros Hin. apply list_elem_of_fmap in Hin as ([i p] & Heq & Hin).
  cbn in Heq. subst i. by destruct (H2 i0 p Hin) as [Hil _].
Qed.

Lemma getShells_from_ge (objs : list (GameObject Z)) : forall n i,
  i ∈ getShells_from n objs -> (n <= i)%nat.
Proof.
  induction objs as [| obj objs IH]; intros n i Hin; [by apply elem_of_nil in Hin |].
  cbn in Hin.
  assert (Hrest : i ∈ getShells_from (S n) objs -> (n <= i)%nat).
  { intros H. apply IH in H. lia. }
  destruct obj as [| s | |]; auto.
  destruct (shell_is_destroyed s); auto.
  apply elem_of_cons in Hin as [-> | Hin]; auto.
Qed.

Lemma NoDup_getShells_from (objs : list (GameObject Z)) : forall n,
  NoDup (getShells_from n objs).
Proof.
  induction objs as [| obj objs IH]; intros n; [constructor |]. cbn.
  destruct obj as [| s | |]; auto.
  destruct (shell_is_destroyed s); auto.
  apply NoDup_cons. split; [| auto].
  intros Hin. apply getShells_from_ge in Hin. lia.
Qed.

(** *** Opposite directions on the wrap-around board *)

Lemma opposite_offsets a b :
  Z.abs (dir_index a - dir_index b) = 4 ->
  DirectionUtils.getMovementOffset b 1
  = mkPos (- px (DirectionUtils.getMovementOffset a 1))
          (- py (DirectionUtils.getMovementOffset a 1)).
Proof. destruct a, b; cbn; intros H; first [reflexivity | discriminate]. Qed.

Lemma opposite_unique a b c :
  Z.abs (dir_index a - dir_index c) = 4 ->
  Z.abs (dir_index b - dir_index c) = 4 -> a = b.
Proof.
  destruct a, c; cbn; intros Ha; try discriminate;
    destruct b; cbn; intros Hb; first [reflexivity | discriminate].
Qed.

Lemma offset_range d :
  -1 <= px (DirectionUtils.getMovementOffset d 1) <= 1
  /\ -1 <= py (DirectionUtils.getMovementOffset d 1) <= 1.
Proof. destruct d; cbn; lia. Qed.

Lemma wrap_back w x dx :
  0 < w -> 0 <= x < w -> -1 <= dx <= 1 ->
  Z.rem (Z.rem (x + dx + w) w + - dx + w) w = x.
Proof.
  intros Hw Hx Hdx.
  rewrite (Z.rem_mod_nonneg (x + dx + w) w) by lia.
  pose proof (Z.mod_pos_bound (x + dx + w) w Hw).
  rewrite Z.rem_mod_nonneg by lia.
  rewrite <- Z.add_assoc, Zplus_mod_idemp_l.
  replace (x + dx + w + (- dx + w)) with (x + 2 * w) by lia.
  rewrite Z_mod_plus_full. apply Z.mod_small. lia.
Qed.

(** A shell that flies opposite to [sa] from the cell [sa] is about to
    enter is about to enter the cell of [sa]. *)
Lemma target_back gs sa sb :
  0 < board_width gs -> 0 < board_height gs ->
  Z.abs (dir_index (shell_direction sa) - dir_index (shell_direction sb)) = 4 ->
  in_range (board_width gs) (board_height gs) (shell_position sa) ->
  shell_position sb = shell_target gs sa ->
  shell_target gs sb = shell_position sa.
Proof.
  intros Hw Hh Hopp [Hx Hy] Hpos. unfold shell_target at 1.
  rewrite Hpos, (opposite_offsets _ _ Hopp). unfold shell_target. cbn [px py].
  destruct (offset_range (shell_direction sa)) as [Hdx Hdy].
  rewrite !wrap_back by done. by destruct (shell_position sa).
Qed.

Lemma shell_target_ext gs s1 s2 :
  shell_position s1 = shell_position s2 ->
  shell_direction s1 = shell_direction s2 ->
  shell_target gs s1 = shell_target gs s2.
Proof. unfold shell_target. by intros -> ->. Qed.

Lemma opposite_sym a b :
  Z.abs (dir_index a - dir_index b) = 4 -> Z.abs (dir_index b - dir_index a) = 4.
Proof. lia. Qed.

(** *** The shells of a sub-step *)

Section SubStepShells.
Variable max_speed : Z.
Variables gs gs2 : GameState Z.
Variable sip : list (nat * Position).
Hypothesis sip_def :
  sip = (calculateShellIntendedPositionsSubStep max_speed gs).2.
Hypothesis width_pos : 0 < board_width gs.
Hypothesis height_pos : 0 < board_height gs.
Hypothesis advance : shells_advance max_speed gs.
Hypothesis later :
  fades (objects (calculateShellIntendedPositionsSubStep max_speed gs).1)
        (objects gs2).

Lemma sub_step_sip :
  sip = (intend_shells max_speed gs (getShells gs) (objects gs)).2
  /\ objects (calculateShellIntendedPositionsSubStep max_speed gs).1
     = (intend_shells max_speed gs (getShells gs) (objects gs)).1.
Proof.
  rewrite sip_def. unfold calculateShellIntendedPositionsSubStep.
  by destruct (intend_shells max_speed gs (getShells gs) (objects gs)).
Qed.

(** A shell that is live when the shells are resolved was live when the
    sub-step began, stood where it stands, and has its entry. *)
Lemma live_shell_known x :
  shell_live (objects gs2) x = true ->
  exists s0 s2,
    shell_at (objects gs) x = Some s0 /\ shell_at (objects gs2) x = Some s2
    /\ shell_position s2 = shell_position s0
    /\ shell_direction s2 = shell_direction s0
    /\ in_range (board_width gs) (board_height gs) (shell_position s0)
    /\ (x, shell_target gs s0) ∈ sip
    /\ forall p, (x, p) ∈ sip -> p = shell_target gs s0.
Proof.
  intros Hl. destruct sub_step_sip as [Esip Eobjs].
  destruct (intend_shells_spec max_speed gs (getShells gs) (objects gs)
              (NoDup_getShells_from _ 0)) as (S1 & S2 & S3).
  rewrite <- Esip in S1, S2. rewrite <- Eobjs in S3.
  unfold shell_live in Hl.
  destruct (shell_at (objects gs2) x) as [s2 |] eqn:Hs2; [| done].
  apply negb_true_iff in Hl.
  destruct (fades_shell _ _ _ _ later Hs2) as (s1 & Hs1 & Hp1 & Hd1 & Hl1).
  destruct (S3 x s1 Hs1) as (s0 & Hs0 & Hp0 & Hd0 & Hl0).
  assert (Hlive0 : shell_is_destroyed s0 = false) by (rewrite <- Hl0; auto).
  destruct (advance x s0 Hs0 Hlive0) as [Hrange Hadv].
  assert (Hin : x ∈ getShells gs).
  { apply (elem_of_getShells_from (objects gs) 0 x).
    unfold shell_live. by rewrite Hs0, Hlive0. }
  exists s0, s2. repeat split; try congruence; try apply Hrange.
  - rewrite <- (intend_shell_advancing max_speed gs s0 Hadv). by apply S1.
  - intros p Hp. destruct (S2 x p Hp) as (_ & s & Hs & ->).
    assert (s = s0) as -> by congruence.
    by apply intend_shell_advancing.
Qed.

Lemma coinciding_clash x y p :
  x <> y -> (x, p) ∈ sip -> (y, p) ∈ sip ->
  shell_live (destroy_coinciding sip (objects gs2)) x = true ->
  shell_live (objects gs2) y = true -> False.
Proof.
  intros Hne Hx Hy Lx Ly.
  pose proof (fades_live _ _ _ (fades_destroy_coinciding sip _) Lx) as Lx2.
  pose proof (destroy_coinciding_kills sip _ x y p Hne Hx Hy Lx2 Ly). congruence.
Qed.

(** The geometry of a head-on pair, read on the state at the beginning of
    the sub-step. *)
Lemma head_on_geometry a b :
  shell_live (objects gs2) a = true -> shell_live (objects gs2) b = true ->
  head_on (objects gs2) sip a b ->
  exists sa sb,
    shell_at (objects gs) a = Some sa /\ shell_at (objects gs) b = Some sb
    /\ shell_target gs sb = shell_position sa
    /\ Z.abs (dir_index (shell_direction sa) - dir_index (shell_direction sb)) = 4.
Proof.
  intros La Lb (Hne & sa2 & sb2 & ip & Ha2 & Hb2 & Hin & Hip & Hopp).
  destruct (live_shell_known a La) as (sa & sa2' & Ha & Ha2' & Hpa & Hda & _).
  destruct (live_shell_known b Lb)
    as (sb & sb2' & Hb & Hb2' & Hpb & Hdb & _ & _ & Hfun).
  assert (sa2' = sa2) as -> by congruence.
  assert (sb2' = sb2) as -> by congruence.
  exists sa, sb. repeat split; try done.
  - rewrite <- (Hfun ip Hin), Hip. done.
  - by rewrite <- Hda, <- Hdb.
Qed.

(** In a sub-step, a third live shell that is head-on with one of a pair
    shares its intended position with one of the pair: no such shell is
    live after the first loops. *)
Lemma sub_step_undisturbed i j :
  shell_live (destroy_coinciding sip (objects gs2)) i = true ->
  shell_live (destroy_coinciding sip (objects gs2)) j = true ->
  head_on (objects gs2) sip i j ->
  undisturbed (destroy_coinciding sip (objects gs2)) sip i j.
Proof.
  intros Li Lj Hpair k Hki Hkj Lk.
  pose proof (fades_destroy_coinciding sip (objects gs2)) as Hf.
  pose proof (fades_live _ _ _ Hf Li) as Li2.
  pose proof (fades_live _ _ _ Hf Lj) as Lj2.
  pose proof (fades_live _ _ _ Hf Lk) as Lk2.
  destruct (head_on_geometry i j Li2 Lj2 Hpair) as (si & sj & Hi & Hj & Hij & Oij).
  destruct (live_shell_known i Li2) as (si' & _ & Hi' & _ & _ & _ & Ri & Ei & _).
  destruct (live_shell_known j Lj2) as (sj' & _ & Hj' & _ & _ & _ & Rj & Ej & _).
  destruct (live_shell_known k Lk2) as (sk & _ & Hk & _ & _ & _ & Rk & Ek & _).
  assert (si' = si) as -> by congruence.
  assert (sj' = sj) as -> by congruence.
  (* the shell [i] is about to enter the cell of [j] as well *)
  assert (Hji : shell_target gs si = shell_position sj).
  { apply target_back; auto using opposite_sym. }
  repeat split; intros Hh; apply (head_on_fades _ _ sip _ _ Hf) in Hh.
  - destruct (head_on_geometry i k Li2 Lk2 Hh) as (s1 & s2 & H1 & H2 & Ht & Ho).
    assert (s1 = si) as -> by congruence. assert (s2 = sk) as -> by congruence.
    apply (coinciding_clash k j (shell_target gs sj)); auto. congruence.
  - destruct (head_on_geometry j k Lj2 Lk2 Hh) as (s1 & s2 & H1 & H2 & Ht & Ho).
    assert (s1 = sj) as -> by congruence. assert (s2 = sk) as -> by congruence.
    apply (coinciding_clash k i (shell_target gs si)); auto. congruence.
  - destruct (head_on_geometry k i Lk2 Li2 Hh) as (s1 & s2 & H1 & H2 & Ht & Ho).
    assert (s1 = sk) as -> by congruence. assert (s2 = si) as -> by congruence.
    apply (coinciding_clash k j (shell_target gs sj)); auto.
    rewrite <- (shell_target_ext gs sk sj); [done | congruence |].
    apply (opposite_unique _ _ (shell_direction si)); auto using opposite_sym.
  - destruct (head_on_geometry k j Lk2 Lj2 Hh) as (s1 & s2 & H1 & H2 & Ht & Ho).
    assert (s1 = sk) as -> by congruence. assert (s2 = sj) as -> by congruence.
    apply (coinciding_clash k i (shell_target gs si)); auto.
    rewrite <- (shell_target_ext gs sk si); [done | congruence |].
    apply (opposite_unique _ _ (shell_direction sj)); auto.
Qed.

End SubStepShells.

(** *** A shell alone at its intended position *)

Lemma NoDup_filter_fst {A B} (f : A * B -> bool) (l : list (A * B)) :
  NoDup l.*1 -> NoDup (List.filter f l).*1.
Proof.
  induction l as [| x l IH]; cbn; intros Hnd; [constructor |].
  apply NoDup_cons in Hnd as [Hx Hnd].
  destruct (f x); cbn; [| auto].
  apply NoDup_cons. split; [| auto].
  intros Hin. apply Hx.
  apply list_elem_of_fmap in Hin as (y & -> & Hy).
  apply list_elem_of_fmap. exists y. split; [done |].
  apply list_elem_of_In in Hy. apply filter_In in Hy as [Hy _].
  by apply list_elem_of_In.
Qed.

Lemma destroy_group_other objs p g i :
  i ∉ g -> shell_live (destroy_group objs (p, g)) i = shell_live objs i.
Proof.
  intros Hi. unfold destroy_group. cbn [snd].
  destruct (1 <? length g)%nat; [| done]. revert objs.
  induction g as [| k g IH]; intros objs; [done |]. cbn [fold_left].
  apply not_elem_of_cons in Hi as [Hne Hi].
  rewrite IH by done. rewrite shell_live_destroy_shell_at.
  by rewrite decide_False.
Qed.

(** A live shell that shares its intended position with no other live
    shell is live after the first loops. *)
Lemma destroy_coinciding_spares sip objs i :
  NoDup sip.*1 -> shell_live objs i = true -> sole_at_intended sip objs i ->
  shell_live (destroy_coinciding sip objs) i = true.
Proof.
  intros Hnd Li Hsole. unfold destroy_coinciding.
  assert (Hgroups : forall p g,
            (p, g) ∈ map_to_list (shells_at_intended_pos objs sip) ->
            (1 < length g)%nat -> i ∉ g).
  { intros p g Hin Hlen Hi. apply elem_of_map_to_list in Hin.
    pose proof (shells_at_intended_pos_spec objs sip p) as Hg.
    rewrite Hin in Hg. cbn in Hg.
    assert (Hmem : forall k, k ∈ g ->
              (k, p) ∈ sip /\ shell_live objs k = true).
    { intros k Hk. rewrite Hg in Hk.
      apply list_elem_of_fmap in Hk as ([k' q] & -> & Hk).
      apply list_elem_of_In, filter_In in Hk as [Hk Htest]. cbn in Htest |- *.
      apply andb_true_iff in Htest as [Hl Hq]. apply pos_eqb_eq in Hq as ->.
      split; [by apply list_elem_of_In | done]. }
    assert (Hndg : NoDup g) by (rewrite Hg; by apply NoDup_filter_fst).
    assert (Hother : exists k, k ∈ g /\ k <> i).
    { destruct g as [| a [| b g]]; cbn in Hlen; try lia.
      apply NoDup_cons in Hndg as [Hab _].
      destruct (decide (a = i)) as [-> | Hai].
      - exists b. split; [apply elem_of_cons; right; apply elem_of_cons; by left |].
        intros ->. apply Hab, elem_of_cons. by left.
      - exists a. split; [apply elem_of_cons; by left | done]. }
    destruct Hother as (k & Hk & Hki).
    destruct (Hmem k Hk) as [Hkp Lk]. destruct (Hmem i Hi) as [Hip _].
    rewrite (Hsole k p Hki Hip Hkp) in Lk. done. }
  assert (Hfold : forall gl objs0,
            (forall p g, (p, g) ∈ gl -> (1 < length g)%nat -> i ∉ g) ->
            shell_live objs0 i = true ->
            shell_live (fold_left destroy_group gl objs0) i = true).
  { clear. induction gl as [| [p g] gl IH]; intros objs0 Hgl Li; [done |].
    cbn [fold_left]. apply IH.
    - intros p' g' Hin. apply (Hgl p' g'), elem_of_cons. by right.
    - destruct (decide (1 < length g)%nat) as [Hlen | Hlen].
      + rewrite destroy_group_other; [done |].
        apply (Hgl p g); [apply elem_of_cons; by left | done].
      + unfold destroy_group. cbn [snd].
        destruct (1 <? length g)%nat eqn:E; [| done].
        apply Nat.ltb_lt in E. lia. }
  by apply Hfold.
Qed.

(** The shells that hit a wall before the shells are resolved against each
    other are destroyed; no other shell changes. *)
Lemma shell_at_alter_wall (f : Wall -> Wall) wi (objs : list (GameObject Z)) i :
  shell_at (alter (on_wall f) wi objs) i = shell_at objs i.
Proof.
  unfold shell_at. destruct (decide (wi = i)) as [-> | Hne].
  - rewrite list_lookup_alter_eq. by destruct (objs !! i) as [[] |].
  - by rewrite list_lookup_alter_ne.
Qed.

Lemma fades_shell_wall_hit view walls gs sp :
  fades (objects gs) (objects (shell_wall_hit view walls gs sp)).
Proof.
  destruct sp as [i pos]. unfold shell_wall_hit.
  destruct (shell_live (objects gs) i && bool_decide (pos ∈ walls));
    [| apply fades_refl].
  destruct (getWallAt view gs pos) as [[wi wall] |]; [| apply fades_refl].
  destruct (negb (wall_is_destroyed wall)); [| apply fades_refl]. cbn.
  intros k. rewrite shell_at_destroy_shell_at, shell_at_alter_wall.
  destruct (decide (i = k)); [| by left].
  destruct (shell_at (objects gs) k) as [s |]; [right; by exists s | by left].
Qed.

Lemma fades_resolveShellWallCollisions view sip walls gs :
  fades (objects gs) (objects (resolveShellWallCollisions view sip walls gs)).
Proof.
  unfold resolveShellWallCollisions. revert gs.
  induction sip as [| sp sip IH]; intros gs; cbn; [apply fades_refl |].
  eapply fades_trans; [apply fades_shell_wall_hit | apply IH].
Qed.

(** C2.  [resolveShellShellCollisions] at [three_shells].  The shells 0
    and 1 are live, next to each other, fly in exactly opposite directions
    and are about to swap cells, so the head-on rule asks that both be
    destroyed.  The function destroys the shells that share an intended
    position at once, where [resolveShellTankCollisions] and
    [resolveTankTankCollisions] first collect what collides, and its
    head-on loop skips a partner that is destroyed by then: the shell 1
    shares its intended position with the shell 2 and is destroyed for
    that, and the shell 0 is live after the collisions and after the
    whole sub-step. *)
Lemma C2_third_shell_spares_head_on :
  let gs1 := (calculateShellIntendedPositionsSubStep 2 three_shells).1 in
  let sip := (calculateShellIntendedPositionsSubStep 2 three_shells).2 in
  sip = [(0%nat, mkPos 2 0); (1%nat, mkPos 1 0); (2%nat, mkPos 1 0)]
  /\ shell_at (objects gs1) 0 = Some (new_Shell (mkPos 1 0) RIGHT)
  /\ shell_at (objects gs1) 1 = Some (new_Shell (mkPos 2 0) LEFT)
  /\ Z.abs (dir_index RIGHT - dir_index LEFT) = 4
  /\ shell_live (objects (resolveShellShellCollisions sip gs1)) 0 = true
  /\ shell_live (objects (sub_step (fun l => l) 2 three_shells []).1) 0 = true.
Proof. vm_compute. repeat split. Qed.

(** What [resolveShellShellCollisions] does destroy.  In a sub-step in
    which every live shell is on the board and advances, with the
    intended positions as [calculateShellIntendedPositionsSubStep]
    computed them, and for the shells that are live when the function
    runs ([gs2] is the state then: some shells may have been destroyed by
    walls): any two live shells whose intended positions coincide are
    both destroyed; and a head-on pair is destroyed when neither of the
    two shares its intended position with another live shell.  The
    head-on pair that the function misses is the one above. *)
Theorem C2_shell_collisions (max_speed : Z) (gs gs2 : GameState Z) :
  let sip := (calculateShellIntendedPositionsSubStep max_speed gs).2 in
  let objs := objects gs2 in
  let objs' := objects (resolveShellShellCollisions sip gs2) in
  0 < board_width gs -> 0 < board_height gs ->
  shells_advance max_speed gs ->
  fades (objects (calculateShellIntendedPositionsSubStep max_speed gs).1) objs ->
  (forall i j p,
     i <> j -> (i, p) ∈ sip -> (j, p) ∈ sip ->
     shell_live objs i = true -> shell_live objs j = true ->
     shell_live objs' i = false /\ shell_live objs' j = false)
  /\ (forall i j,
        shell_live objs i = true -> shell_live objs j = true ->
        sole_at_intended sip objs i -> sole_at_intended sip objs j ->
        head_on objs sip i j ->
        shell_live objs' i = false /\ shell_live objs' j = false).
Proof.
  intros sip objs objs' Hw Hh Hadv Hlater. split.
  - intros i j p Hne Hi Hj Li Lj.
    assert (Hf : fades (destroy_coinciding sip objs) objs').
    { unfold objs', resolveShellShellCollisions. cbn.
      apply fades_fold_head_on_shell. }
    split; apply (fades_dead _ _ _ Hf).
    + by apply (destroy_coinciding_kills sip objs i j p).
    + by apply (destroy_coinciding_kills sip objs j i p).
  - intros i j Li Lj Si Sj Hpair.
    assert (Hnd : NoDup sip.*1).
    { unfold sip, calculateShellIntendedPositionsSubStep.
      pose proof (intend_shells_NoDup max_speed gs (getShells gs) (objects gs)
                    (NoDup_getShells_from _ 0)) as H.
      by destruct (intend_shells max_speed gs (getShells gs) (objects gs)). }
    pose proof (destroy_coinciding_spares sip objs i Hnd Li Si) as Li1.
    pose proof (destroy_coinciding_spares sip objs j Hnd Lj Sj) as Lj1.
    pose proof (fades_destroy_coinciding sip objs) as Hf.
    apply (head_on_pair_destroyed sip gs2 i j Li1 Lj1).
    + by apply (head_on_fades _ _ sip i j Hf).
    + by apply (sub_step_undisturbed max_speed gs gs2 sip eq_refl Hw Hh Hadv Hlater).
Qed.

Lemma C2_shell_collisions_witness :
  let gs1 := (calculateShellIntendedPositionsSubStep 2 two_shells).1 in
  let sip := (calculateShellIntendedPositionsSubStep 2 two_shells).2 in
  let gs2 :=
    resolveShellWallCollisions (fun _ => None) sip
                               (wall_positions_of (objects gs1)) gs1 in
  shell_live (objects gs2) 0 = true /\ shell_live (objects gs2) 1 = true
  /\ shell_live (objects (resolveShellShellCollisions sip gs2)) 0 = false
  /\ shell_live (objects (resolveShellShellCollisions sip gs2)) 1 = false.
Proof.
  intros gs1 sip gs2.
  assert (Hadv : shells_advance 2 two_shells).
  { intros [| [| i]] s; cbn; intros [= <-] _;
      unfold in_range, Shell_speed; cbn; lia. }
  assert (Hsole : forall i, sole_at_intended sip (objects gs2) i).
  { intros i k p Hne Hi Hk. apply list_elem_of_In in Hi, Hk.
    vm_compute in Hi, Hk.
    destruct Hi as [Hi | [Hi | []]]; inversion Hi; subst;
      destruct Hk as [Hk | [Hk | []]]; inversion Hk; subst; done. }
  assert (Hpair : head_on (objects gs2) sip 0 1).
  { split; [done |].
    exists (new_Shell (mkPos 1 0) RIGHT), (new_Shell (mkPos 2 0) LEFT),
           (mkPos 1 0).
    repeat split. vm_compute. apply elem_of_cons. right.
    apply elem_of_cons. by left. }
  destruct (C2_shell_collisions 2 two_shells gs2 ltac:(reflexivity)
              ltac:(reflexivity) Hadv
              (fades_resolveShellWallCollisions _ _ _ _)) as [_ Hhead].
  split; [reflexivity |]. split; [reflexivity |].
  exact (Hhead 0%nat 1%nat eq_refl eq_refl (Hsole 0%nat) (Hsole 1%nat) Hpair).
Defined.

(** * Further properties of the code *)

(** ** Direction.h *)

Lemma dir_index_range d : 0 <= dir_index d < 8.
Proof. destruct d; cbn; lia. Qed.

Lemma dir_index_inj d1 d2 : dir_index d1 = dir_index d2 -> d1 = d2.
Proof. destruct d1, d2; cbn; intros H; first [reflexivity | discriminate]. Qed.

Lemma dir_index_of_index i : 0 <= i < 8 -> dir_index (dir_of_index i) = i.
Proof.
  intros Hi.
  assert (i = 0 \/ i = 1 \/ i = 2 \/ i = 3 \/ i = 4 \/ i = 5 \/ i = 6 \/ i = 7)
    as H by lia.
  repeat (destruct H as [-> | H]; [reflexivity |]). by subst.
Qed.

(** The formula [((a % n) + n) % n] of the source is the mathematical
    remainder, whatever the sign of [a]. *)
Lemma rem_rem_mod a n : 0 < n -> Z.rem (Z.rem a n + n) n = a mod n.
Proof.
  intros Hn.
  pose proof (Z.quot_rem' a n) as Hq.
  assert (Hb : - n < Z.rem a n < n).
  { pose proof (Z.rem_bound_abs a n ltac:(lia)). lia. }
  rewrite Z.rem_mod_nonneg by lia.
  replace (Z.rem a n + n) with (a + (1 - Z.quot a n) * n) by lia.
  apply Z_mod_plus_full.
Qed.

(** X1.  [DirectionUtils::rotate] adds the steps to the index modulo 8,
    for negative steps as well; hence rotations compose by adding their
    steps, a rotation is undone by the opposite one, eight steps are
    none, and [opposite] is an involution without fixed point. *)
Theorem X1_rotate :
  (forall d s, dir_index (DirectionUtils.rotate d s) = (dir_index d + s) mod 8)
  /\ (forall d a b,
         DirectionUtils.rotate (DirectionUtils.rotate d a) b
         = DirectionUtils.rotate d (a + b))
  /\ (forall d s, DirectionUtils.rotate (DirectionUtils.rotate d s) (- s) = d)
  /\ (forall d s, DirectionUtils.rotate d (s + 8) = DirectionUtils.rotate d s)
  /\ (forall d, DirectionUtils.opposite (DirectionUtils.opposite d) = d
                /\ DirectionUtils.opposite d <> d).
Proof.
  assert (Hidx : forall d s,
             dir_index (DirectionUtils.rotate d s) = (dir_index d + s) mod 8).
  { intros d s. unfold DirectionUtils.rotate. cbn zeta.
    rewrite rem_rem_mod by lia. apply dir_index_of_index.
    apply Z.mod_pos_bound. lia. }
  split; [exact Hidx |]. split; [| split; [| split]].
  - intros d a b. apply dir_index_inj. rewrite !Hidx.
    rewrite Zplus_mod_idemp_l. f_equal. lia.
  - intros d s. apply dir_index_inj. rewrite !Hidx.
    rewrite Zplus_mod_idemp_l.
    replace (dir_index d + s + - s) with (dir_index d) by lia.
    apply Z.mod_small, dir_index_range.
  - intros d s. apply dir_index_inj. rewrite !Hidx.
    replace (dir_index d + (s + 8)) with (dir_index d + s + 1 * 8) by lia.
    apply Z_mod_plus_full.
  - intros d. destruct d; split; first [reflexivity | discriminate].
Qed.

(** X2.  [DirectionUtils::getMovementOffset] scales the unit offset by the
    multiplier; a backward step (multiplier -1) is a forward step in the
    opposite direction; the eight unit offsets differ from one another
    and none is zero. *)
Theorem X2_movement_offset :
  (forall d m,
      DirectionUtils.getMovementOffset d m
      = mkPos (m * px (DirectionUtils.getMovementOffset d 1))
              (m * py (DirectionUtils.getMovementOffset d 1)))
  /\ (forall d,
         DirectionUtils.getMovementOffset d (-1)
         = DirectionUtils.getMovementOffset (DirectionUtils.opposite d) 1)
  /\ (forall d1 d2,
         DirectionUtils.getMovementOffset d1 1
         = DirectionUtils.getMovementOffset d2 1 -> d1 = d2)
  /\ (forall d, DirectionUtils.getMovementOffset d 1 <> mkPos 0 0).
Proof.
  split; [| split; [| split]].
  - intros d m. destruct d; cbn; f_equal; lia.
  - intros d. by destruct d.
  - intros d1 d2. destruct d1, d2; cbn; intros H;
      first [reflexivity | discriminate].
  - intros d. destruct d; discriminate.
Qed.

(** ** ChasingAlgorithm.cpp: direction helpers *)

(** X3.  [getShortestRotation] answers [DoNothing] exactly when the cannon
    already faces the target, and otherwise one of the four rotations;
    the strategy that follows its answers (tracking the cannon as
    [getAction] does) faces the target after one request when the target
    is at most 90 degrees away, and after two requests in every case. *)
Theorem X3_shortest_rotation :
  (forall c t, getShortestRotation c t = DoNothing <-> c = t)
  /\ (forall c t,
         getShortestRotation c t
         ∈ [DoNothing; RotateLeft45; RotateRight45; RotateLeft90; RotateRight90])
  /\ (forall s t,
         let s1 :=
           track_rotation (getShortestRotation (currentCannonDirection s) t) s in
         let s2 :=
           track_rotation (getShortestRotation (currentCannonDirection s1) t) s1 in
         currentCannonDirection s2 = t
         /\ (currentCannonDirection s1 = t
             <-> (dir_index t - dir_index (currentCannonDirection s)) mod 8
                 ∈ [0; 1; 2; 6; 7])).
Proof.
  split; [| split].
  - intros c t. destruct c, t; vm_compute; split; congruence.
  - intros c t. destruct c, t; vm_compute;
      repeat first [apply list_elem_of_here | apply list_elem_of_further].
  - intros s t. destruct s as [ask bm c ini cd sh pid bw bh prev sd].
    cbn. split; [by destruct c, t |].
    rewrite !elem_of_cons, elem_of_nil.
    destruct c, t; vm_compute; intuition congruence.
Qed.

(** X4.  [calculateDirection] has no answer exactly for a cell and itself.
    It recovers the direction of any straight run of [k > 0] steps, the
    reverse pair of cells reads as the opposite direction, and it does
    not know of the wrap-around: from the last column to the first of the
    same row it reads LEFT. *)
Theorem X4_calculate_direction :
  (forall a b, calculateDirection a b = None <-> a = b)
  /\ (forall p d k, 0 < k ->
         calculateDirection p (pos_add p (DirectionUtils.getMovementOffset d k))
         = Some d)
  /\ (forall a b d, calculateDirection a b = Some d ->
         calculateDirection b a = Some (DirectionUtils.opposite d))
  /\ (forall w y, 2 <= w ->
         calculateDirection (mkPos (w - 1) y) (mkPos 0 y) = Some LEFT).
Proof.
  split; [| split; [| split]].
  - intros [ax ay] [bx by']. unfold calculateDirection. cbn.
    destruct (Z.eqb_spec (bx - ax) 0), (Z.eqb_spec (by' - ay) 0); cbn.
    + split; [intros _; f_equal; lia | done].
    + split; [| intros [= ]; lia].
      repeat match goal with
             | |- context [if ?c then _ else _] => destruct c
             end; discriminate.
    + split; [| intros [= ]; lia].
      repeat match goal with
             | |- context [if ?c then _ else _] => destruct c
             end; discriminate.
    + split; [| intros [= ]; lia].
      repeat match goal with
             | |- context [if ?c then _ else _] => destruct c
             end; discriminate.
  - intros [x y] d k Hk. unfold calculateDirection.
    destruct d; cbn;
      repeat match goal with
             | |- context [Z.eqb ?a ?b] => destruct (Z.eqb_spec a b)
             | |- context [Z.ltb ?a ?b] => destruct (Z.ltb_spec a b)
             end; cbn; first [reflexivity | lia].
  - intros [ax ay] [bx by'] d. unfold calculateDirection. cbn.
    replace (ax - bx) with (- (bx - ax)) by lia.
    replace (ay - by') with (- (by' - ay)) by lia.
    generalize (bx - ax) (by' - ay). clear. intros dx dy.
    rewrite !Z.abs_opp.
    repeat match goal with
           | |- context [Z.eqb ?a ?b] =>
               destruct (Z.eqb_spec a b); cbn; try lia
           | |- context [Z.ltb ?a ?b] =>
               destruct (Z.ltb_spec a b); cbn; try lia
           end; intros [= <-]; reflexivity.
  - intros w y Hw. unfold calculateDirection. cbn.
    repeat match goal with
           | |- context [Z.eqb ?a ?b] => destruct (Z.eqb_spec a b)
           | |- context [Z.ltb ?a ?b] => destruct (Z.ltb_spec a b)
           end; cbn; first [reflexivity | lia].
Qed.

(** The cells of X4's straight run, on a concrete input. *)
Lemma X4_calculate_direction_witness :
  0 < 3
  /\ calculateDirection (mkPos 4 4)
       (pos_add (mkPos 4 4) (DirectionUtils.getMovementOffset UP_LEFT 3))
     = Some UP_LEFT.
Proof.
  split; [lia |]. apply (proj1 (proj2 X4_calculate_direction)). lia.
Defined.

(** ** ChasingAlgorithm.h: the shell book-keeping *)

Lemma calculateDirection_self p : calculateDirection p p = None.
Proof.
  unfold calculateDirection. cbn.
  by rewrite !Z.sub_diag.
Qed.

Lemma self_map_fold (l : list Position) :
  forall acc : gmap Position Position,
    (forall p q, acc !! p = Some q -> q = p) ->
    forall p q,
      fold_left (fun (acc : gmap Position Position) pos => <[pos := pos]> acc)
                l acc !! p = Some q -> q = p.
Proof.
  induction l as [| x l IH]; intros acc Hacc p q; cbn; [apply Hacc |].
  apply IH. intros p' q'.
  destruct (decide (x = p')) as [-> | Hne].
  - rewrite lookup_insert_eq. congruence.
  - rewrite lookup_insert_ne by done. apply Hacc.
Qed.

Lemma inferShellDirections_idle s :
  shell_books_idle s ->
  snd (inferShellDirections s) = []
  /\ shell_books_idle (fst (inferShellDirections s))
  /\ board_matrix (fst (inferShellDirections s)) = board_matrix s
  /\ currentCannonDirection (fst (inferShellDirections s))
     = currentCannonDirection s.
Proof.
  intros [Hprev Hdirs]. unfold inferShellDirections. rewrite Hdirs.
  match goal with
  | |- context [fold_left ?f ?l (∅, [])] =>
      assert (Hfold : fold_left f l (∅, []) = (∅, []))
  end.
  { generalize (findShellPositions s). intros l.
    induction l as [| x l IH]; [done |]. cbn [fold_left].
    destruct (previous_shell_positions s !! x) as [q |] eqn:E.
    - apply Hprev in E. subst q. by rewrite calculateDirection_self.
    - by rewrite lookup_empty. }
  rewrite Hfold. cbn. split; [done |]. split; [| done].
  split; cbn; [| done].
  apply self_map_fold. intros p q. by rewrite lookup_empty.
Qed.

Lemma track_rotation_books r s :
  previous_shell_positions (track_rotation r s) = previous_shell_positions s
  /\ shell_directions (track_rotation r s) = shell_directions s.
Proof. by destruct r. Qed.

Section BookFacts.
Variable isLineOfSightClear :
  Position -> Position -> Z -> Z -> list (list ascii) -> bool.

Lemma target_and_move_books s p l :
  previous_shell_positions (snd (target_and_move isLineOfSightClear s p l))
  = previous_shell_positions s
  /\ shell_directions (snd (target_and_move isLineOfSightClear s p l))
     = shell_directions s.
Proof.
  unfold target_and_move, rotate_to_search.
  repeat case_match; cbn; try done; apply track_rotation_books.
Qed.

Lemma idle_same_books s s' :
  previous_shell_positions s' = previous_shell_positions s ->
  shell_directions s' = shell_directions s ->
  shell_books_idle s -> shell_books_idle s'.
Proof. unfold shell_books_idle. intros -> ->. done. Qed.

Lemma combat_action_idle s :
  shell_books_idle s ->
  combat_action isLineOfSightClear s
  = target_and_move isLineOfSightClear (fst (inferShellDirections s))
      (findMyTankPosition s) []
  /\ shell_books_idle (snd (combat_action isLineOfSightClear s)).
Proof.
  intros Hs. destruct (inferShellDirections_idle s Hs) as (Hl & Hi & _).
  unfold combat_action.
  destruct (inferShellDirections s) as [s3 l]. cbn in Hl, Hi |- *. subst l.
  cbn. split; [done |].
  destruct (target_and_move_books s3 (findMyTankPosition s) []) as [H1 H2].
  by apply (idle_same_books s3).
Qed.

Lemma reachable_idle s :
  chasing_reachable isLineOfSightClear s -> shell_books_idle s.
Proof.
  induction 1 as [n | s Hs IH | info s Hs IH].
  - split; [intros p q; cbn; by rewrite lookup_empty | done].
  - unfold Chasing_getAction.
    set (s1 := if 0 <? ca_cooldown_remaining s then _ else s).
    assert (H1 : shell_books_idle s1).
    { subst s1. by destruct (0 <? ca_cooldown_remaining s). }
    destruct (shouldAskForBattleInfo s1); [exact H1 |].
    apply combat_action_idle. exact H1.
  - exact IH.
Qed.

End BookFacts.

(** X5.  The shell book-keeping of [ChasingAlgorithm] never yields a
    direction: [inferShellDirections] records every shell's own cell as
    its previous position, so in every state the object can reach (from
    the constructor, through [getAction] and [updateBattleInfo]) the list
    it infers is empty, the direction cache is empty, and [getAction]
    goes on to targeting without the evasive branch. *)
Theorem X5_no_shell_inference
    (isLineOfSightClear :
       Position -> Position -> Z -> Z -> list (list ascii) -> bool)
    (s : ChasingAlgorithm) :
  chasing_reachable isLineOfSightClear s ->
  snd (inferShellDirections s) = []
  /\ shell_directions s = ∅
  /\ combat_action isLineOfSightClear s
     = target_and_move isLineOfSightClear (fst (inferShellDirections s))
         (findMyTankPosition s) [].
Proof.
  intros Hs. apply reachable_idle in Hs.
  split; [by apply inferShellDirections_idle |].
  split; [apply Hs |]. by apply combat_action_idle.
Qed.

(** A reachable state for X5: a strategy object after its first request
    for information, a snapshot with a shell in it, and the next call. *)
Lemma X5_no_shell_inference_witness :
  chasing_reachable clear_sight briefed_chaser
  /\ snd (inferShellDirections briefed_chaser) = []
  /\ shell_directions briefed_chaser = ∅.
Proof.
  assert (Hs : chasing_reachable clear_sight briefed_chaser).
  { apply reach_getAction, reach_updateBattleInfo, reach_getAction,
      reach_new. }
  split; [exact Hs |].
  destruct (X5_no_shell_inference clear_sight briefed_chaser Hs)
    as (H1 & H2 & _).
  split; [exact H1 | exact H2].
Defined.

(** ** Tank.h *)

Lemma decrementCooldown_iter (n : nat) (t : Tank) :
  0 <= cooldown_remaining t ->
  cooldown_remaining (Nat.iter n decrementCooldown t)
  = Z.max 0 (cooldown_remaining t - Z.of_nat n)
  /\ shells_remaining (Nat.iter n decrementCooldown t) = shells_remaining t
  /\ position (Nat.iter n decrementCooldown t) = position t
  /\ cannonDirection (Nat.iter n decrementCooldown t) = cannonDirection t.
Proof.
  intros Hc. induction n as [| n IH].
  - cbn. repeat split; lia.
  - rewrite Nat2Z.inj_succ, Nat.iter_succ.
    destruct IH as (IHc & IHs & IHp & IHd).
    generalize dependent (Nat.iter n decrementCooldown t). intros u IHc IHs IHp IHd.
    unfold decrementCooldown.
    destruct (Z.ltb_spec 0 (cooldown_remaining u));
      cbn [cooldown_remaining set_cooldown_remaining shells_remaining
           position cannonDirection];
      repeat split; try done; lia.
Qed.

(** X6.  A tank with ammunition and no cooldown shoots: [shoot] hands out
    a shell on the tank's own cell, flying where the cannon points, and
    takes one shell from the stock.  After that [shoot] is refused until
    [decrementCooldown] has run four times; then the tank can shoot again
    exactly if it has a shell left.  A tank that may not shoot is left as
    it is by [shoot]. *)
Theorem X6_shoot_cooldown (t : Tank) :
  (can_shoot t = true ->
   let t1 := fst (shoot t) in
   snd (shoot t) = Some (new_Shell (position t) (cannonDirection t))
   /\ shells_remaining t1 = shells_remaining t - 1
   /\ (forall n, (n < 4)%nat ->
         shoot (Nat.iter n decrementCooldown t1)
         = (Nat.iter n decrementCooldown t1, None))
   /\ can_shoot (Nat.iter 4 decrementCooldown t1)
      = (1 <? shells_remaining t))
  /\ (can_shoot t = false -> shoot t = (t, None)).
Proof.
  split.
  - intros Hc. unfold shoot. rewrite Hc. cbn zeta. cbn [fst snd].
    split; [done |]. split; [done |].
    set (t1 := set_cooldown_remaining 4 _).
    assert (H4 : 0 <= cooldown_remaining t1) by (cbn; lia).
    split.
    + intros n Hn.
      destruct (decrementCooldown_iter n t1 H4) as (Hcd & _).
      unfold can_shoot. rewrite Hcd. cbn [cooldown_remaining t1 set_cooldown_remaining].
      replace (cooldown_remaining t1) with 4 by done.
      destruct (Z.eqb_spec (Z.max 0 (4 - Z.of_nat n)) 0) as [E | E]; [lia |].
      by rewrite andb_false_r.
    + destruct (decrementCooldown_iter 4 t1 H4) as (Hcd & Hsh & _).
      unfold can_shoot. rewrite Hcd, Hsh.
      replace (cooldown_remaining t1) with 4 by done.
      replace (shells_remaining t1) with (shells_remaining t - 1) by done.
      cbn. rewrite andb_true_r.
      destruct (Z.ltb_spec 0 (shells_remaining t - 1)),
               (Z.ltb_spec 1 (shells_remaining t)); first [done | lia].
  - intros Hc. unfold shoot. by rewrite Hc.
Qed.

(** A tank that may shoot, for X6. *)
Lemma X6_shoot_cooldown_witness :
  can_shoot (sample_tank INITIAL 2 0) = true
  /\ snd (shoot (sample_tank INITIAL 2 0)) = Some (new_Shell (mkPos 2 2) RIGHT).
Proof.
  split; [reflexivity |].
  apply (proj1 (X6_shoot_cooldown (sample_tank INITIAL 2 0))). reflexivity.
Defined.

(** X7.  [updateMovementProgress] never moves the tank itself; it only
    reports where the tank intends to be.  Without a move intent the
    progress is reset and the report is the tank's own cell.  With one,
    the progress counts modulo [max_speed]: the report is the own cell
    until the call on which the progress reaches [max_speed], and on that
    call it is the neighbouring cell in cannon direction (backwards for
    multiplier -1), wrapped around the board edges. *)
Theorem X7_movement_progress (max_speed w h : Z) (t : Tank) :
  0 < w -> 0 < h ->
  0 <= px (position t) < w -> 0 <= py (position t) < h ->
  multiplier t = 1 \/ multiplier t = -1 ->
  0 <= movement_progress t < max_speed ->
  let r := updateMovementProgress max_speed w h t in
  let offset :=
    DirectionUtils.getMovementOffset (cannonDirection t) (multiplier t) in
  position (fst r) = position t
  /\ 0 <= px (snd r) < w /\ 0 <= py (snd r) < h
  /\ 0 <= movement_progress (fst r) < max_speed
  /\ (if move_intent_this_step t then
        movement_progress (fst r) = (movement_progress t + 1) mod max_speed
        /\ snd r = (if movement_progress t + 1 =? max_speed
                    then mkPos ((px (position t) + px offset) mod w)
                               ((py (position t) + py offset) mod h)
                    else position t)
      else movement_progress (fst r) = 0 /\ snd r = position t).
Proof.
  intros Hw Hh Hx Hy Hm Hp r offset. subst r.
  assert (Hox : -1 <= px offset <= 1 /\ -1 <= py offset <= 1).
  { subst offset. destruct (cannonDirection t), Hm as [-> | ->]; cbn; lia. }
  unfold updateMovementProgress.
  destruct (move_intent_this_step t); cbn [negb].
  2: { cbn. repeat split; lia. }
  cbn zeta. unfold Tank_speed.
  cbn [movement_progress set_movement_progress position cannonDirection
       multiplier].
  fold offset.
  destruct (Z.leb_spec max_speed (movement_progress t + 1)) as [Hge | Hlt];
    cbn [fst snd movement_progress set_movement_progress position px py].
  - assert (E : movement_progress t + 1 = max_speed) by lia.
    rewrite E, Z.eqb_refl, Z.sub_diag, Z_mod_same_full.
    rewrite !Z.rem_mod_nonneg by lia.
    replace (px (position t) + px offset + w)
      with (px (position t) + px offset + 1 * w) by lia.
    replace (py (position t) + py offset + h)
      with (py (position t) + py offset + 1 * h) by lia.
    rewrite !Z_mod_plus_full.
    pose proof (Z.mod_pos_bound (px (position t) + px offset) w Hw).
    pose proof (Z.mod_pos_bound (py (position t) + py offset) h Hh).
    repeat split; lia.
  - rewrite Z.mod_small by lia.
    destruct (Z.eqb_spec (movement_progress t + 1) max_speed); [lia |].
    repeat split; lia.
Qed.

(** A tank about to complete a forward move across the right edge, for
    X7. *)
Lemma X7_movement_progress_witness :
  snd (updateMovementProgress 2 3 3
         (mkTank (mkPos 2 2) false INITIAL 1 0 1 RIGHT 5 0 1 true))
  = mkPos 0 2.
Proof.
  pose proof (X7_movement_progress 2 3 3
                (mkTank (mkPos 2 2) false INITIAL 1 0 1 RIGHT 5 0 1 true)
                ltac:(lia) ltac:(lia) ltac:(cbn; lia) ltac:(cbn; lia)
                ltac:(by left) ltac:(cbn; lia)) as H.
  cbn zeta in H. destruct H as (_ & _ & _ & _ & _ & H). exact H.
Defined.

Lemma rotate_moves d s :
  s = 1 \/ s = -1 \/ s = 2 \/ s = -2 -> DirectionUtils.rotate d s <> d.
Proof. intros [-> | [-> | [-> | ->]]]; destruct d; discriminate. Qed.

(** X8.  [transitionMovementState] is pure book-keeping: it never moves
    the tank, never touches ammunition, cooldown, progress or identity
    (a granted [Shoot] only answers [SHOT_INITIATED], and only when the
    tank may shoot).  The move intent is set exactly when the answer is
    [MOVE_PENDING], and then the multiplier is 1 or -1; the cannon turns
    exactly when the answer is [ROTATED]. *)
Theorem X8_transition_frame (a : ActionRequest) (t : Tank) :
  let t' := fst (transitionMovementState a t) in
  let o := snd (transitionMovementState a t) in
  position t' = position t
  /\ is_destroyed t' = is_destroyed t
  /\ player_id t' = player_id t /\ tank_id t' = tank_id t
  /\ shells_remaining t' = shells_remaining t
  /\ cooldown_remaining t' = cooldown_remaining t
  /\ movement_progress t' = movement_progress t
  /\ (move_intent_this_step t' = true <-> o = MOVE_PENDING)
  /\ (o = MOVE_PENDING -> multiplier t' = 1 \/ multiplier t' = -1)
  /\ (cannonDirection t' <> cannonDirection t <-> o = ROTATED)
  /\ (o = SHOT_INITIATED -> can_shoot t = true /\ can_shoot t' = true).
Proof.
  destruct t as [pos dead st pid tid prog dir ammo cd mult intent].
  cbn zeta. unfold transitionMovementState. cbn zeta.
  cbn [movementState set_move_intent].
  destruct a, st; cbn -[DirectionUtils.rotate];
    try (destruct (can_shoot _) eqn:Hcs; cbn -[DirectionUtils.rotate]);
    repeat split;
    try first
      [ done
      | by left | by right
      | intros _; apply rotate_moves; tauto
      | intros Hne; by destruct Hne ].
Qed.

(** ** GameState.h: the queries *)

Section QueryFacts.
Context {T : Type} (view : T -> option Tank).

Lemma getObjectAt_from_iff (objs : list (GameObject T)) pos : forall n i o,
  getObjectAt_from view n objs pos = Some (i, o)
  <-> exists k, i = (n + k)%nat /\ objs !! k = Some o
        /\ obj_is_destroyed view o = false /\ obj_position view o = pos
        /\ forall j o', (j < k)%nat -> objs !! j = Some o' ->
             obj_is_destroyed view o' = true \/ obj_position view o' <> pos.
Proof.
  induction objs as [| x rest IH]; intros n i o; cbn.
  - split; [discriminate | intros (k & _ & Hk & _); by rewrite lookup_nil in Hk].
  - destruct (negb (obj_is_destroyed view x) && pos_eqb (obj_position view x) pos)
      eqn:E.
    + apply andb_true_iff in E as [E1 E2].
      apply negb_true_iff in E1. apply pos_eqb_eq in E2.
      split.
      * intros [= <- <-]. exists 0%nat.
        split_and!; [lia | done | done | done | intros; lia].
      * intros (k & -> & Hk & Hl & Hp & Hfirst).
        destruct k as [| k].
        { cbn in Hk. injection Hk as <-. f_equal. f_equal. lia. }
        destruct (Hfirst 0%nat x ltac:(lia) eq_refl) as [Hd | Hd];
          [congruence | done].
    + rewrite IH. split.
      * intros (k & -> & Hk & Hl & Hp & Hfirst). exists (S k).
        split_and!; [lia | done | done | done |].
        intros j o' Hj Ho'. destruct j as [| j].
        { cbn in Ho'. injection Ho' as <-.
          apply andb_false_iff in E as [E | E].
          - left. by apply negb_false_iff in E.
          - right. by apply pos_eqb_neq. }
        apply (Hfirst j o'); [lia | done].
      * intros (k & -> & Hk & Hl & Hp & Hfirst).
        destruct k as [| k].
        { cbn in Hk. injection Hk as <-.
          rewrite Hl in E. cbn in E.
          rewrite (proj2 (pos_eqb_eq _ _) Hp) in E. discriminate. }
        exists k. split_and!; [lia | done | done | done |].
        intros j o' Hj Ho'. apply (Hfirst (S j) o'); [lia | done].
Qed.

Lemma getObjectAt_from_None (objs : list (GameObject T)) pos : forall n,
  getObjectAt_from view n objs pos = None
  <-> forall o, o ∈ objs ->
        obj_is_destroyed view o = true \/ obj_position view o <> pos.
Proof.
  induction objs as [| x rest IH]; intros n; cbn.
  - split; [intros _ o Ho; by apply elem_of_nil in Ho | done].
  - destruct (negb (obj_is_destroyed view x) && pos_eqb (obj_position view x) pos)
      eqn:E.
    + apply andb_true_iff in E as [E1 E2].
      apply negb_true_iff in E1. apply pos_eqb_eq in E2.
      split; [discriminate |]. intros Hall.
      destruct (Hall x) as [Hd | Hd]; [apply elem_of_cons; by left | congruence | done].
    + rewrite IH. split.
      * intros Hall o Ho. apply elem_of_cons in Ho as [-> | Ho]; [| by apply Hall].
        apply andb_false_iff in E as [E | E].
        -- left. by apply negb_false_iff in E.
        -- right. by apply pos_eqb_neq.
      * intros Hall o Ho. apply Hall. apply elem_of_cons. by right.
Qed.

End QueryFacts.

(** X9.  [GameState::getObjectAt] answers with the first object of
    [objects] that is not destroyed and stands on the cell, and with
    nothing exactly when there is no such object.  [getWallAt] and
    [getMineAt] look at that first object only: when it is of another
    kind they find nothing, whatever stands on the cell further down the
    list. *)
Theorem X9_first_live_object {T : Type} (view : T -> option Tank)
    (gs : GameState T) (pos : Position) :
  (forall i o,
      getObjectAt view gs pos = Some (i, o)
      <-> objects gs !! i = Some o
          /\ obj_is_destroyed view o = false /\ obj_position view o = pos
          /\ forall j o', (j < i)%nat -> objects gs !! j = Some o' ->
               obj_is_destroyed view o' = true
               \/ obj_position view o' <> pos)
  /\ (getObjectAt view gs pos = None
      <-> forall o, o ∈ objects gs ->
            obj_is_destroyed view o = true \/ obj_position view o <> pos)
  /\ (forall i o,
         getObjectAt view gs pos = Some (i, o) ->
         getWallAt view gs pos
         = match o with WallObj w => Some (i, w) | _ => None end
         /\ getMineAt view gs pos
            = match o with MineObj m => Some (i, m) | _ => None end)
  /\ (getObjectAt view gs pos = None ->
      getWallAt view gs pos = None /\ getMineAt view gs pos = None).
Proof.
  split; [| split; [| split]].
  - intros i o. unfold getObjectAt. rewrite getObjectAt_from_iff.
    split.
    + intros (k & -> & H). exact H.
    + intros H. exists i. split; [done | exact H].
  - apply getObjectAt_from_None.
  - intros i o Ho. unfold getWallAt, getMineAt. rewrite Ho.
    by destruct o.
  - intros Ho. unfold getWallAt, getMineAt. by rewrite Ho.
Qed.

Lemma getShells_from_iff {T : Type} (objs : list (GameObject T)) : forall n i,
  i ∈ getShells_from n objs
  <-> exists k s, i = (n + k)%nat /\ objs !! k = Some (ShellObj s)
                  /\ shell_is_destroyed s = false.
Proof.
  induction objs as [| x rest IH]; intros n i.
  - cbn. split; [intros H; by apply elem_of_nil in H |].
    intros (k & s & _ & Hk & _). by rewrite lookup_nil in Hk.
  - assert (Hrest : i ∈ getShells_from (S n) rest
                    <-> exists k s, i = (n + S k)%nat
                          /\ (x :: rest) !! S k = Some (ShellObj s)
                          /\ shell_is_destroyed s = false).
    { rewrite IH. split; intros (k & s & -> & Hk & Hs); exists k, s;
        (split_and!; [lia | done | done]). }
    assert (Hskip :
              (forall s, x = ShellObj s -> shell_is_destroyed s = true) ->
              (exists k s, i = (n + k)%nat /\ (x :: rest) !! k = Some (ShellObj s)
                           /\ shell_is_destroyed s = false)
              <-> exists k s, i = (n + S k)%nat
                    /\ (x :: rest) !! S k = Some (ShellObj s)
                    /\ shell_is_destroyed s = false).
    { intros Hx. split.
      - intros (k & s & -> & Hk & Hs). destruct k as [| k].
        + cbn in Hk. injection Hk as ->. rewrite (Hx s eq_refl) in Hs.
          discriminate.
        + by exists k, s.
      - intros (k & s & -> & Hk & Hs). by exists (S k), s. }
    cbn [getShells_from].
    destruct x as [r | s | w | m];
      try (rewrite Hrest, Hskip; [done | intros ? [=]]).
    destruct (shell_is_destroyed s) eqn:Es.
    + rewrite Hrest, Hskip; [done |]. by intros ? [= <-].
    + rewrite elem_of_cons, Hrest. split.
      * intros [-> | (k & s' & -> & Hk & Hs)].
        -- exists 0%nat, s. split_and!; [lia | done | done].
        -- by exists (S k), s'.
      * intros (k & s' & -> & Hk & Hs). destruct k as [| k].
        -- left. lia.
        -- right. by exists k, s'.
Qed.

Lemma getShells_from_lower {T : Type} (objs : list (GameObject T)) n i :
  i ∈ getShells_from n objs -> (n <= i)%nat.
Proof. rewrite getShells_from_iff. intros (k & s & -> & _). lia. Qed.

Lemma getShells_from_NoDup {T : Type} (objs : list (GameObject T)) : forall n,
  NoDup (getShells_from n objs).
Proof.
  induction objs as [| x rest IH]; intros n; [constructor |]. cbn.
  destruct x as [r | s | w | m]; auto.
  destruct (shell_is_destroyed s); auto.
  apply NoDup_cons. split; [| auto].
  intros Hin. apply getShells_from_lower in Hin. lia.
Qed.

Lemma getTank_in_Some {T : Type} (view : T -> option Tank)
    (objs : list (GameObject T)) player t :
  getTank_in view objs player = Some t ->
  is_destroyed t = false /\ player_id t = player
  /\ exists r, TankObj r ∈ objs /\ view r = Some t.
Proof.
  induction objs as [| x rest IH]; cbn; [discriminate |].
  assert (Hrest : getTank_in view rest player = Some t ->
                  is_destroyed t = false /\ player_id t = player
                  /\ exists r, TankObj r ∈ x :: rest /\ view r = Some t).
  { intros H. destruct (IH H) as (H1 & H2 & r & Hr & Hv).
    split_and!; [done | done |]. exists r. split; [| done].
    apply elem_of_cons. by right. }
  destruct x as [r | s | w | m]; try exact Hrest.
  destruct (view r) as [t0 |] eqn:Ev; [| exact Hrest].
  destruct (negb (is_destroyed t0) && (player_id t0 =? player)) eqn:E;
    [| exact Hrest].
  intros [= <-]. apply andb_true_iff in E as [E1 E2].
  apply negb_true_iff in E1. apply Z.eqb_eq in E2.
  split_and!; [done | done |]. exists r. split; [| done].
  apply elem_of_cons. by left.
Qed.

Lemma getTank_in_None {T : Type} (view : T -> option Tank)
    (objs : list (GameObject T)) player :
  getTank_in view objs player = None
  <-> forall r t, TankObj r ∈ objs -> view r = Some t ->
        is_destroyed t = true \/ player_id t <> player.
Proof.
  induction objs as [| x rest IH]; cbn.
  - split; [intros _ r t Hr; by apply elem_of_nil in Hr | done].
  - assert (Hskip :
              (forall r t, x = TankObj r -> view r = Some t ->
                 is_destroyed t = true \/ player_id t <> player) ->
              getTank_in view rest player = None
              <-> forall r t, TankObj r ∈ x :: rest -> view r = Some t ->
                    is_destroyed t = true \/ player_id t <> player).
    { intros Hx. rewrite IH. split.
      - intros Hall r t Hr Hv. apply elem_of_cons in Hr as [Hr | Hr].
        + by apply (Hx r t).
        + by apply (Hall r t).
      - intros Hall r t Hr Hv. apply (Hall r t); [| done].
        apply elem_of_cons. by right. }
    destruct x as [r | s | w | m]; try (apply Hskip; by intros ? ? [=]).
    destruct (view r) as [t0 |] eqn:Ev.
    2: { apply Hskip. intros r' t' [= <-] Hv. congruence. }
    destruct (negb (is_destroyed t0) && (player_id t0 =? player)) eqn:E.
    + apply andb_true_iff in E as [E1 E2].
      apply negb_true_iff in E1. apply Z.eqb_eq in E2.
      split; [discriminate |]. intros Hall.
      destruct (Hall r t0) as [Hd | Hd];
        [apply elem_of_cons; by left | done | congruence | done].
    + apply Hskip. intros r' t' [= <-] Hv.
      assert (t' = t0) as -> by congruence.
      apply andb_false_iff in E as [E | E].
      * left. by apply negb_false_iff in E.
      * right. by apply Z.eqb_neq in E.
Qed.

(** X10.  [GameState::getShells] lists exactly the shells of [objects]
    that are not destroyed, each once.  [GameState::getTank] answers with
    a tank of [objects] that is not destroyed and belongs to the player,
    and with nothing exactly when the player has no such tank. *)
Theorem X10_shells_and_tank {T : Type} (view : T -> option Tank)
    (gs : GameState T) :
  (forall i,
      i ∈ getShells gs
      <-> exists s, objects gs !! i = Some (ShellObj s)
                    /\ shell_is_destroyed s = false)
  /\ NoDup (getShells gs)
  /\ (forall player t,
         getTank view gs player = Some t ->
         is_destroyed t = false /\ player_id t = player
         /\ exists r, TankObj r ∈ objects gs /\ view r = Some t)
  /\ (forall player,
         getTank view gs player = None
         <-> forall r t, TankObj r ∈ objects gs -> view r = Some t ->
               is_destroyed t = true \/ player_id t <> player).
Proof.
  split; [| split; [| split]].
  - intros i. unfold getShells. rewrite getShells_from_iff. split.
    + intros (k & s & -> & H). by exists s.
    + intros (s & H). by exists i, s.
  - apply getShells_from_NoDup.
  - intros player t. apply getTank_in_Some.
  - intros player. apply getTank_in_None.
Qed.

(** ** MyPlayer.h, MySatelliteView.h, MyBattleInfo.h: what a strategy is
    shown *)

Lemma lookup_map_seq {A} (f : nat -> A) (n i : nat) :
  List.map f (seq 0 n) !! i = if (i <? n)%nat then Some (f i) else None.
Proof.
  change (@List.map) with (@fmap list _).
  rewrite list_lookup_fmap.
  destruct (Nat.ltb_spec i n) as [Hi | Hi].
  - by rewrite lookup_seq_lt.
  - by rewrite lookup_seq_ge.
Qed.

Lemma length_map_seq {A} (f : nat -> A) (n : nat) :
  length (List.map f (seq 0 n)) = n.
Proof. by rewrite length_map, length_seq. Qed.

(** The copy loops of [MyPlayer::updateTankWithBattleInfo] and
    [ChasingAlgorithm::updateBattleInfo]. *)
Lemma copy_rect (get : nat -> nat -> ascii) (w h : nat) :
  rect w h (List.map (fun i => List.map (fun j => get i j) (seq 0 h))
                     (seq 0 w)).
Proof.
  split; [apply length_map_seq |].
  apply Forall_forall. intros col Hcol.
  apply list_elem_of_In, in_map_iff in Hcol as (i & <- & _).
  apply length_map_seq.
Qed.

Lemma copy_get (get : nat -> nat -> ascii) (w h x y : nat) :
  (x < w)%nat -> (y < h)%nat ->
  SatelliteView_getObjectAt
    (List.map (fun i => List.map (fun j => get i j) (seq 0 h)) (seq 0 w)) x y
  = get x y.
Proof.
  intros Hx Hy. unfold SatelliteView_getObjectAt.
  set (M := List.map _ (seq 0 w)).
  assert (HM : M !! x = Some (List.map (fun j => get x j) (seq 0 h))).
  { subst M. rewrite lookup_map_seq.
    by rewrite (proj2 (Nat.ltb_lt _ _) Hx). }
  assert (Hlen : length M = w) by apply length_map_seq.
  destruct M as [| col0 rest] eqn:EM; [cbn in Hlen; lia |].
  assert (Hcol0 : length col0 = h).
  { assert (H0 : M !! 0%nat = Some col0) by (by rewrite EM).
    subst M. rewrite lookup_map_seq in H0.
    destruct (0 <? w)%nat; [| discriminate].
    injection H0 as <-. apply length_map_seq. }
  rewrite Hlen, Hcol0.
  rewrite (proj2 (Nat.leb_gt _ _) Hx), (proj2 (Nat.leb_gt _ _) Hy).
  rewrite (proj2 (Nat.eqb_neq _ _)) by lia. cbn [orb].
  unfold matrix_get.
  destruct (Z.ltb_spec (Z.of_nat x) 0); [lia |].
  destruct (Z.ltb_spec (Z.of_nat y) 0); [lia |]. cbn [orb].
  rewrite !Nat2Z.id, HM, lookup_map_seq.
  by rewrite (proj2 (Nat.ltb_lt _ _) Hy).
Qed.

Lemma copy_same (m : list (list ascii)) (w h : nat) :
  rect w h m ->
  List.map (fun i => List.map (fun j => SatelliteView_getObjectAt m i j)
                              (seq 0 h))
           (seq 0 w) = m.
Proof.
  intros [Hlen Hcols].
  apply list_eq. intros i. rewrite lookup_map_seq.
  destruct (Nat.ltb_spec i w) as [Hi | Hi].
  2: { symmetry. apply lookup_ge_None. lia. }
  destruct (lookup_lt_is_Some_2 m i ltac:(lia)) as [col Hcol].
  rewrite Hcol. f_equal.
  assert (Hcl : length col = h).
  { rewrite Forall_forall in Hcols. apply Hcols.
    by apply list_elem_of_lookup_2 in Hcol. }
  apply list_eq. intros j. rewrite lookup_map_seq.
  destruct (Nat.ltb_spec j h) as [Hj | Hj].
  2: { symmetry. apply lookup_ge_None. lia. }
  destruct (lookup_lt_is_Some_2 col j ltac:(lia)) as [c Hc].
  rewrite Hc. f_equal.
  unfold SatelliteView_getObjectAt.
  destruct m as [| col0 rest] eqn:Em; [by rewrite lookup_nil in Hcol |].
  assert (Hcol0 : length col0 = h).
  { rewrite Forall_forall in Hcols. apply Hcols. apply elem_of_cons. by left. }
  rewrite Hlen, Hcol0.
  rewrite (proj2 (Nat.leb_gt _ _) Hi), (proj2 (Nat.leb_gt _ _) Hj).
  rewrite (proj2 (Nat.eqb_neq _ _)) by lia. cbn [orb].
  unfold matrix_get.
  destruct (Z.ltb_spec (Z.of_nat i) 0); [lia |].
  destruct (Z.ltb_spec (Z.of_nat j) 0); [lia |]. cbn [orb].
  by rewrite !Nat2Z.id, Hcol, Hc.
Qed.

(** X11.  What [MyPlayer::updateTankWithBattleInfo] hands to a chasing
    strategy: the strategy's matrix has the player's dimensions whatever
    the view is; a view of these dimensions arrives unchanged through the
    two copies; on a view of other dimensions each cell reads what the
    view's [getObjectAt] answers, ['&'] beyond its columns.  The player
    id is taken over only while the strategy has none (0), the cannon
    direction is initialised on the first call only (LEFT for player 1,
    RIGHT otherwise), and the info-request flag, the tracked cooldown and
    ammunition are left alone. *)
Theorem X11_battle_info_round_trip
    (isLineOfSightClear :
       Position -> Position -> Z -> Z -> list (list ascii) -> bool)
    (p : MyPlayer) (s : ChasingAlgorithm) (view : list (list ascii)) :
  let s' :=
    @updateTankWithBattleInfo ChasingAlgorithm
      (ChasingAlgorithm_TankAlgorithm isLineOfSightClear) p s view in
  rect (player_x p) (player_y p) (board_matrix s')
  /\ ca_board_width s' = Z.of_nat (player_x p)
  /\ ca_board_height s' = Z.of_nat (player_y p)
  /\ (rect (player_x p) (player_y p) view -> board_matrix s' = view)
  /\ (forall x y, (x < player_x p)%nat -> (y < player_y p)%nat ->
        cell (board_matrix s') (mkPos (Z.of_nat x) (Z.of_nat y))
        = SatelliteView_getObjectAt view x y
        /\ ((length view <= x)%nat ->
            cell (board_matrix s') (mkPos (Z.of_nat x) (Z.of_nat y))
            = "&"%char))
  /\ ca_player_id s'
     = (if ca_player_id s =? 0 then player_index p else ca_player_id s)
  /\ currentCannonDirection s'
     = (if isDirectionInitialized s then currentCannonDirection s
        else if ca_player_id s' =? 1 then LEFT else RIGHT)
  /\ isDirectionInitialized s' = true
  /\ shouldAskForBattleInfo s' = shouldAskForBattleInfo s
  /\ ca_cooldown_remaining s' = ca_cooldown_remaining s
  /\ ca_shells_remaining s' = ca_shells_remaining s.
Proof.
  cbn zeta. unfold updateTankWithBattleInfo.
  cbn [updateBattleInfo ChasingAlgorithm_TankAlgorithm].
  unfold Chasing_updateBattleInfo, BattleInfo_getObjectAt.
  cbn [bi_board_width bi_board_height bi_satelliteView bi_player_id
       board_matrix ca_board_width ca_board_height ca_player_id
       currentCannonDirection isDirectionInitialized shouldAskForBattleInfo
       ca_cooldown_remaining ca_shells_remaining].
  set (A := List.map (fun i => List.map (fun j =>
                SatelliteView_getObjectAt view i j) (seq 0 (player_y p)))
              (seq 0 (player_x p))).
  assert (HA : rect (player_x p) (player_y p) A) by apply copy_rect.
  rewrite (copy_same A _ _ HA).
  split_and!; try done.
  - intros Hv. subst A. by apply copy_same.
  - intros x y Hx Hy.
    assert (Hcell : cell A (mkPos (Z.of_nat x) (Z.of_nat y))
                    = SatelliteView_getObjectAt view x y).
    { unfold cell.
      rewrite <- (seen_at_get (player_x p) (player_y p) A
                    (mkPos (Z.of_nat x) (Z.of_nat y)) HA)
        by (unfold on_board; cbn; lia).
      unfold seen_at. cbn [px py]. rewrite !Nat2Z.id.
      subst A. by apply copy_get. }
    split; [exact Hcell |].
    intros Hout. rewrite Hcell. unfold SatelliteView_getObjectAt.
    destruct view as [| col0 rest]; [done |].
    by rewrite (proj2 (Nat.leb_le _ _) Hout).
Qed.

(** A 2 x 2 view of the right dimensions reaches the strategy as it is. *)
Lemma X11_battle_info_round_trip_witness :
  board_matrix
    (@updateTankWithBattleInfo ChasingAlgorithm
       (ChasingAlgorithm_TankAlgorithm clear_sight) (mkPlayer 2 2 2)
       (new_ChasingAlgorithm 16) [["%"; " "]; ["*"; "1"]]%char)
  = [["%"; " "]; ["*"; "1"]]%char.
Proof.
  apply (X11_battle_info_round_trip clear_sight (mkPlayer 2 2 2)
           (new_ChasingAlgorithm 16) [["%"; " "]; ["*"; "1"]]%char).
  split; [reflexivity |]. repeat constructor.
Defined.

(** ** ChasingAlgorithm.h: the searches over the board *)

Lemma scan_cells_in_range w h p : p ∈ scan_cells w h -> in_range w h p.
Proof.
  unfold scan_cells. intros Hp.
  apply list_elem_of_In, in_flat_map in Hp as (x & Hx & Hp).
  apply in_map_iff in Hp as (y & <- & Hy).
  apply in_seq in Hx. apply in_seq in Hy.
  unfold in_range. cbn. lia.
Qed.

Lemma scan_cells_iff w h p : p ∈ scan_cells w h <-> in_range w h p.
Proof.
  split; [apply scan_cells_in_range |].
  intros Hp. apply elem_of_scan_cells; [| | done]; destruct Hp; lia.
Qed.

(** X12.  [findMyTankPosition] answers with a cell of the board that
    reads ['%'] whenever there is one, so with the unit's cell when that
    is the only one; when no cell reads ['%'] it answers (0, 0), which
    may hold anything. *)
Theorem X12_find_my_tank (s : ChasingAlgorithm) :
  let w := ca_board_width s in
  let h := ca_board_height s in
  ((exists p, in_range w h p /\ cell (board_matrix s) p = "%"%char) ->
   in_range w h (findMyTankPosition s)
   /\ cell (board_matrix s) (findMyTankPosition s) = "%"%char)
  /\ (forall p,
         in_range w h p -> cell (board_matrix s) p = "%"%char ->
         (forall q, in_range w h q -> cell (board_matrix s) q = "%"%char ->
                    q = p) ->
         findMyTankPosition s = p)
  /\ ((forall p, in_range w h p -> cell (board_matrix s) p <> "%"%char) ->
      findMyTankPosition s = mkPos 0 0).
Proof.
  cbn zeta. unfold findMyTankPosition.
  set (f := fun p => bool_decide (cell (board_matrix s) p = "%"%char)).
  assert (Hfound : (exists p, in_range (ca_board_width s) (ca_board_height s) p
                              /\ cell (board_matrix s) p = "%"%char) ->
                   exists r, List.find f (scan_cells (ca_board_width s)
                                                     (ca_board_height s))
                             = Some r
                             /\ in_range (ca_board_width s)
                                         (ca_board_height s) r
                             /\ cell (board_matrix s) r = "%"%char).
  { intros (p & Hp & Hc).
    destruct (List.find f _) as [r |] eqn:E.
    - apply find_some in E as [Hin Hf]. exists r. split; [done |].
      split; [by apply scan_cells_in_range, list_elem_of_In |].
      subst f. by apply bool_decide_eq_true in Hf.
    - exfalso.
      pose proof (find_none _ _ E p
                    (proj1 (list_elem_of_In _ _)
                       (proj2 (scan_cells_iff _ _ p) Hp))) as Hf.
      subst f. cbn in Hf. by apply bool_decide_eq_false in Hf. }
  split_and!.
  - intros Hex. destruct (Hfound Hex) as (r & -> & Hr & Hc). done.
  - intros p Hp Hc Huniq.
    destruct (Hfound (ex_intro _ p (conj Hp Hc))) as (r & -> & Hr & Hcr).
    by apply Huniq.
  - intros Hnone.
    destruct (List.find f _) as [r |] eqn:E; [| done].
    apply find_some in E as [Hin Hf]. exfalso.
    apply (Hnone r).
    + by apply scan_cells_in_range, list_elem_of_In.
    + subst f. by apply bool_decide_eq_true in Hf.
Qed.

(** A 2 x 2 matrix with the mark in its last cell, for X12. *)
Lemma X12_find_my_tank_witness :
  findMyTankPosition
    (mkChasing false [["1"; " "]; [" "; "%"]]%char RIGHT true 0 5 2 2 2 ∅ ∅)
  = mkPos 1 1.
Proof.
  apply (proj1 (proj2 (X12_find_my_tank
           (mkChasing false [["1"; " "]; [" "; "%"]]%char RIGHT true 0 5 2
                      2 2 ∅ ∅)))).
  - unfold in_range. cbn. lia.
  - reflexivity.
  - intros [x y] [Hx Hy] Hc. cbn in Hx, Hy.
    assert (Hxy : (x = 0 \/ x = 1) /\ (y = 0 \/ y = 1)) by lia.
    destruct Hxy as [[-> | ->] [-> | ->]]; first [reflexivity | discriminate].
Defined.

Lemma closest_fold (opp : Position -> bool) (dist : Position -> Z)
    (l : list Position) :
  forall (seen : list Position) (acc : option Position * option Z),
    match acc with
    | (Some r, Some d) =>
        r ∈ seen /\ opp r = true /\ d = dist r
        /\ forall x, x ∈ seen -> opp x = true -> dist r <= dist x
    | (None, None) => forall x, x ∈ seen -> opp x = false
    | _ => False
    end ->
    match
      fold_left
        (fun (acc : option Position * option Z) tankPos =>
           if opp tankPos then
             match snd acc with
             | Some minDistance =>
                 if dist tankPos <? minDistance
                 then (Some tankPos, Some (dist tankPos)) else acc
             | None => (Some tankPos, Some (dist tankPos))
             end
           else acc) l acc
    with
    | (Some r, Some d) =>
        r ∈ seen ++ l /\ opp r = true /\ d = dist r
        /\ forall x, x ∈ seen ++ l -> opp x = true -> dist r <= dist x
    | (None, None) => forall x, x ∈ seen ++ l -> opp x = false
    | _ => False
    end.
Proof.
  induction l as [| y l IH]; intros seen acc Hacc.
  - cbn. by rewrite app_nil_r.
  - cbn [fold_left].
    replace (seen ++ y :: l) with ((seen ++ [y]) ++ l)
      by (by rewrite <- app_assoc).
    apply IH.
    destruct acc as [[r |] [d |]]; try done; cbn [snd].
    + destruct Hacc as (Hr & Hor & -> & Hmin).
      destruct (opp y) eqn:Ey.
      * destruct (Z.ltb_spec (dist y) (dist r)) as [Hlt | Hge].
        -- split_and!; [apply elem_of_app; right; by apply list_elem_of_singleton
                       | done | done |].
           intros x Hx Hox. apply elem_of_app in Hx as [Hx | Hx].
           ++ specialize (Hmin x Hx Hox). lia.
           ++ apply list_elem_of_singleton in Hx as ->. lia.
        -- split_and!; [apply elem_of_app; by left | done | done |].
           intros x Hx Hox. apply elem_of_app in Hx as [Hx | Hx].
           ++ by apply Hmin.
           ++ by apply list_elem_of_singleton in Hx as ->.
      * split_and!; [apply elem_of_app; by left | done | done |].
        intros x Hx Hox. apply elem_of_app in Hx as [Hx | Hx].
        -- by apply Hmin.
        -- apply list_elem_of_singleton in Hx as ->. congruence.
    + destruct (opp y) eqn:Ey.
      * split_and!; [apply elem_of_app; right; by apply list_elem_of_singleton
                     | done | done |].
        intros x Hx Hox. apply elem_of_app in Hx as [Hx | Hx].
        -- rewrite (Hacc x Hx) in Hox. discriminate.
        -- by apply list_elem_of_singleton in Hx as ->.
      * intros x Hx. apply elem_of_app in Hx as [Hx | Hx].
        -- by apply Hacc.
        -- by apply list_elem_of_singleton in Hx as ->.
Qed.

(** X13.  [findClosestOpponent] answers with a cell of the board that
    shows a tank of another player and whose wrap-around distance to the
    unit's own cell is the least among all such cells; it has no answer
    exactly when no cell of the board shows one. *)
Theorem X13_closest_opponent (s : ChasingAlgorithm) :
  let w := ca_board_width s in
  let h := ca_board_height s in
  let opp p := is_opponent s (cell (board_matrix s) p) in
  let dist p := wrapped_distance2 w h p (findMyTankPosition s) in
  (forall r,
      findClosestOpponent s = Some r ->
      in_range w h r /\ opp r = true
      /\ forall q, in_range w h q -> opp q = true -> dist r <= dist q)
  /\ (findClosestOpponent s = None
      <-> forall q, in_range w h q -> opp q = false).
Proof.
  cbn zeta. unfold findClosestOpponent. cbn zeta.
  pose proof (closest_fold
                (fun p => is_opponent s (cell (board_matrix s) p))
                (fun p => wrapped_distance2 (ca_board_width s)
                            (ca_board_height s) p (findMyTankPosition s))
                (scan_cells (ca_board_width s) (ca_board_height s))
                [] (None, None)
                ltac:(intros x Hx; by apply elem_of_nil in Hx)) as Hfold.
  cbn beta in Hfold. rewrite app_nil_l in Hfold.
  destruct (fold_left _ _ _) as [[r |] [d |]]; try done; cbn [fst].
  - destruct Hfold as (Hr & Hor & _ & Hmin). split.
    + intros r' [= <-]. split_and!; [by apply scan_cells_in_range | done |].
      intros q Hq Hoq. apply Hmin; [by apply scan_cells_iff | done].
    + split; [discriminate |]. intros Hnone.
      rewrite (Hnone r (scan_cells_in_range _ _ _ Hr)) in Hor. discriminate.
  - split; [discriminate |]. split; [intros _ | done].
    intros q Hq. apply Hfold. by apply scan_cells_iff.
Qed.

(** X14.  The geometric part of the firing test of [getAction]: the
    target reads in cannon direction ([calculateDirection]) and passes
    [isTargetInFiringLine] exactly when it lies on the ray that leaves
    the unit's cell in cannon direction, some [k > 0] steps away, the
    board edges not being wrapped.  On its own, [isTargetInFiringLine]
    cannot tell a target ahead from one behind. *)
Theorem X14_firing_ray (from to : Position) (d : Direction) :
  (calculateDirection from to = Some d
   /\ isTargetInFiringLine from to d = true
   <-> exists k, 0 < k
         /\ to = pos_add from (DirectionUtils.getMovementOffset d k))
  /\ isTargetInFiringLine from to (DirectionUtils.opposite d)
     = isTargetInFiringLine from to d.
Proof.
  destruct from as [fx fy], to as [tx ty]. split.
  - split.
    + intros [Hc Hl].
      exists (Z.max (Z.abs (tx - fx)) (Z.abs (ty - fy))).
      revert Hc Hl. unfold calculateDirection, isTargetInFiringLine.
      cbn [px py].
      destruct d; cbn; split_comparisons; intros Hc Hl;
        try discriminate;
        (split; [lia | unfold pos_add; cbn [px py]; f_equal; lia]).
    + intros (k & Hk & [= -> ->]).
      unfold calculateDirection, isTargetInFiringLine, pos_add.
      destruct d; cbn; split_comparisons; split; first [reflexivity | lia].
  - destruct d;
      match goal with
      | |- context [DirectionUtils.opposite ?x] =>
          let y := eval vm_compute in (DirectionUtils.opposite x) in
          change (DirectionUtils.opposite x) with y
      end;
      unfold isTargetInFiringLine; cbn; split_comparisons; reflexivity.
Qed.

(** A target three cells up and to the left, for X14. *)
Lemma X14_firing_ray_witness :
  calculateDirection (mkPos 4 4) (mkPos 1 1) = Some UP_LEFT
  /\ isTargetInFiringLine (mkPos 4 4) (mkPos 1 1) UP_LEFT = true.
Proof.
  apply (proj1 (X14_firing_ray (mkPos 4 4) (mkPos 1 1) UP_LEFT)).
  exists 3. split; [lia | reflexivity].
Defined.

Section LineFacts.
Variable s : ChasingAlgorithm.
Variables w h : Z.
Hypothesis w_def : ca_board_width s = w.
Hypothesis h_def : ca_board_height s = h.
Hypothesis w_pos : 0 < w.
Hypothesis h_pos : 0 < h.
Hypothesis w_small : w < 2 ^ 63.
Hypothesis h_small : h < 2 ^ 63.
Variable me : Position.
Hypothesis me_in : in_range w h me.

Lemma ray_cell_in_range d k : in_range w h (ray_cell w h me d k).
Proof.
  destruct k as [| k]; [exact me_in |].
  unfold ray_cell. rewrite Nat.iter_succ. by apply wrap_step_in_range.
Qed.

Lemma ray_cell_closed d k :
  ray_cell w h me d k
  = mkPos ((px me + Z.of_nat k * px (DirectionUtils.getMovementOffset d 1))
           mod w)
          ((py me + Z.of_nat k * py (DirectionUtils.getMovementOffset d 1))
           mod h).
Proof.
  induction k as [| k IH].
  - cbn. destruct me as [x y], me_in as [Hx Hy]. cbn in *.
    rewrite !Z.add_0_r, !Z.mod_small by lia. done.
  - pose proof (ray_cell_in_range d k) as Hin.
    unfold ray_cell in *. rewrite Nat.iter_succ.
    rewrite wrap_step_torus by done.
    rewrite IH. cbn [px py].
    rewrite !Zplus_mod_idemp_l. f_equal; f_equal; lia.
Qed.

Lemma ray_cell_period d : ray_cell w h me d (Z.to_nat (w * h)) = me.
Proof.
  rewrite ray_cell_closed. rewrite Z2Nat.id by lia.
  destruct me as [x y], me_in as [Hx Hy]. cbn in *.
  replace (x + w * h * px (DirectionUtils.getMovementOffset d 1))
    with (x + (h * px (DirectionUtils.getMovementOffset d 1)) * w) by lia.
  replace (y + w * h * py (DirectionUtils.getMovementOffset d 1))
    with (y + (w * py (DirectionUtils.getMovementOffset d 1)) * h) by lia.
  rewrite !Z_mod_plus_full, !Z.mod_small by lia. done.
Qed.

(** The loop of [findOpponentInLine] from the [k]-th cell of the ray:
    it stops for a reason of its own before the fuel is spent, at the
    first cell that is the own cell, a wall or an opponent. *)
Lemma opponent_in_line_loop_spec (n : nat) : forall k extra,
  (Z.to_nat (w * h) <= k + n)%nat -> (k < Z.to_nat (w * h))%nat ->
  let d := currentCannonDirection s in
  opponent_in_line_loop (n + extra) s me (ray_cell w h me d k)
  = opponent_in_line_loop n s me (ray_cell w h me d k)
  /\ exists j,
       (k < j <= Z.to_nat (w * h))%nat
       /\ (forall i, (k < i < j)%nat ->
             ray_cell w h me d i <> me
             /\ cell (board_matrix s) (ray_cell w h me d i) <> "#"%char
             /\ is_opponent s (cell (board_matrix s) (ray_cell w h me d i))
                = false)
       /\ opponent_in_line_loop n s me (ray_cell w h me d k)
          = (if pos_eqb (ray_cell w h me d j) me then None
             else if bool_decide (cell (board_matrix s) (ray_cell w h me d j)
                                  = "#"%char) then None
             else Some (ray_cell w h me d j))
       /\ (pos_eqb (ray_cell w h me d j) me = false ->
           cell (board_matrix s) (ray_cell w h me d j) <> "#"%char ->
           is_opponent s (cell (board_matrix s) (ray_cell w h me d j))
           = true).
Proof.
  induction n as [| n IH]; intros k extra Hfuel Hk d; [lia |].
  cbn [Nat.add opponent_in_line_loop]. rewrite w_def, h_def.
  assert (Hstep : wrap_step w h (ray_cell w h me d k) d
                  = ray_cell w h me d (S k))
    by (unfold ray_cell; by rewrite Nat.iter_succ).
  fold d. rewrite !Hstep.
  destruct (pos_eqb (ray_cell w h me d (S k)) me) eqn:Eme.
  { split; [done |]. exists (S k).
    split_and!; [lia | lia | intros; lia | by rewrite Eme
                 | intros; congruence]. }
  assert (HSk : (S k < Z.to_nat (w * h))%nat).
  { destruct (decide (S k = Z.to_nat (w * h))) as [E | E]; [| lia].
    rewrite E, ray_cell_period, pos_eqb_refl in Eme. discriminate. }
  destruct (bool_decide (cell (board_matrix s) (ray_cell w h me d (S k))
                         = "#"%char)) eqn:Ewall.
  { split; [done |]. exists (S k).
    split_and!; [lia | lia | intros; lia | by rewrite Eme, Ewall |].
    intros _ Hw. by apply bool_decide_eq_true in Ewall. }
  destruct (is_opponent s (cell (board_matrix s) (ray_cell w h me d (S k))))
    eqn:Eopp.
  { split; [done |]. exists (S k).
    split_and!; [lia | lia | intros; lia | by rewrite Eme, Ewall | done]. }
  destruct (IH (S k) extra ltac:(lia) HSk) as (Hext & j & Hj & Hclear & Hres & Hopp).
  fold d in Hext, Hclear, Hres, Hopp.
  split; [exact Hext |]. exists j.
  split_and!; [lia | lia | | exact Hres | exact Hopp].
  intros i Hi. destruct (decide (i = S k)) as [-> | Hne].
  - split_and!; [by apply pos_eqb_neq | by apply bool_decide_eq_false in Ewall
                 | done].
  - apply Hclear. lia.
Qed.

End LineFacts.

Lemma findMyTankPosition_in_range (s : ChasingAlgorithm) :
  0 < ca_board_width s -> 0 < ca_board_height s ->
  in_range (ca_board_width s) (ca_board_height s) (findMyTankPosition s).
Proof.
  intros Hw Hh. unfold findMyTankPosition.
  destruct (List.find _ _) as [r |] eqn:E.
  - apply find_some in E as [Hin _].
    by apply scan_cells_in_range, list_elem_of_In.
  - unfold in_range. cbn. lia.
Qed.

(** X15.  [findOpponentInLine] terminates on every board with cells: its
    walk along the cannon direction is back on the unit's own cell after
    at most width x height steps, so the loop always stops for a reason
    of its own.  It stops at the first cell of the ray that is the own
    cell, a wall or a tank of another player, and answers with that cell
    in the last case only. *)
Theorem X15_opponent_in_line (s : ChasingAlgorithm) :
  let w := ca_board_width s in
  let h := ca_board_height s in
  let me := findMyTankPosition s in
  let ray := ray_cell w h me (currentCannonDirection s) in
  let obj p := cell (board_matrix s) p in
  0 < w < 2 ^ 63 -> 0 < h < 2 ^ 63 ->
  (forall extra,
      opponent_in_line_loop (S (Z.to_nat (w * h)) + extra) s me me
      = findOpponentInLine s)
  /\ exists j,
       (1 <= j <= Z.to_nat (w * h))%nat
       /\ (forall i, (1 <= i < j)%nat ->
             ray i <> me /\ obj (ray i) <> "#"%char
             /\ is_opponent s (obj (ray i)) = false)
       /\ ((ray j = me /\ findOpponentInLine s = None)
           \/ (ray j <> me /\ obj (ray j) = "#"%char
               /\ findOpponentInLine s = None)
           \/ (ray j <> me /\ obj (ray j) <> "#"%char
               /\ is_opponent s (obj (ray j)) = true
               /\ findOpponentInLine s = Some (ray j))).
Proof.
  intros w h me ray obj Hw Hh.
  assert (Hme : in_range w h me)
    by (apply findMyTankPosition_in_range; lia).
  assert (HN : (0 < Z.to_nat (w * h))%nat) by nia.
  split.
  - intros extra.
    apply (opponent_in_line_loop_spec s w h eq_refl eq_refl
             ltac:(lia) ltac:(lia) ltac:(lia) ltac:(lia) me Hme
             (S (Z.to_nat (w * h))) 0%nat extra); lia.
  - destruct (opponent_in_line_loop_spec s w h eq_refl eq_refl
                ltac:(lia) ltac:(lia) ltac:(lia) ltac:(lia) me Hme
                (S (Z.to_nat (w * h))) 0%nat 0%nat ltac:(lia) HN)
      as (_ & j & Hj & Hclear & Hres & Hopp).
    exists j. split; [lia |]. split; [intros i Hi; apply Hclear; lia |].
    change (opponent_in_line_loop (S (Z.to_nat (w * h))) s me
              (ray_cell w h me (currentCannonDirection s) 0))
      with (findOpponentInLine s) in Hres.
    fold ray in Hres, Hopp. fold obj in Hres, Hopp.
    destruct (pos_eqb (ray j) me) eqn:Eme.
    + left. split; [by apply pos_eqb_eq | exact Hres].
    + right. specialize (Hopp eq_refl). apply pos_eqb_neq in Eme.
      change (cell (board_matrix s) (ray j)) with (obj (ray j)) in Hres, Hopp.
      destruct (bool_decide (obj (ray j) = "#"%char)) eqn:Ewall.
      * left. apply bool_decide_eq_true in Ewall.
        split_and!; [done | done | exact Hres].
      * right. apply bool_decide_eq_false in Ewall.
        split_and!; [done | done | by apply Hopp | exact Hres].
Qed.

(** A unit in the corner of a 3 x 3 board looking RIGHT at an opponent
    two cells away, for X15. *)
Lemma X15_opponent_in_line_witness :
  findOpponentInLine
    (mkChasing false
       [["%"; " "; " "]; [" "; " "; " "]; ["2"; " "; " "]]%char
       RIGHT true 0 5 1 3 3 ∅ ∅)
  = opponent_in_line_loop 10 (mkChasing false
       [["%"; " "; " "]; [" "; " "; " "]; ["2"; " "; " "]]%char
       RIGHT true 0 5 1 3 3 ∅ ∅) (mkPos 0 0) (mkPos 0 0).
Proof.
  symmetry.
  apply (proj1 (X15_opponent_in_line
           (mkChasing false
              [["%"; " "; " "]; [" "; " "; " "]; ["2"; " "; " "]]%char
              RIGHT true 0 5 1 3 3 ∅ ∅)
           ltac:(cbn; lia) ltac:(cbn; lia)) 0%nat).
Defined.

(** ** GameManager.cpp: the verdict of a step and the game loop *)

Lemma checkGameOver_over tks w : checkGameOver tks (true, w) = (true, w).
Proof. reflexivity. Qed.

Lemma checkGameOver_idem tks st :
  checkGameOver tks (checkGameOver tks st) = checkGameOver tks st.
Proof.
  destruct st as [over w]. destruct over; [reflexivity |].
  unfold checkGameOver. cbv zeta beta.
  set (a1 := length (List.filter _ tks)).
  set (a2 := length (List.filter _ tks)).
  by destruct (Nat.ltb 0 a1), (Nat.eqb a2 0), (Nat.ltb 0 a2), (Nat.eqb a1 0).
Qed.

Section VerdictFacts.
Context {Strat : Type} `{TankAlgorithm Strat}.
Variable umap_order : list Z -> list Z.
Variable fresh_data : TankStepData.
Variable max_after : Z.

Lemma processStep_verdict (gm : GameManager Strat) :
  let gm' := fst (processStep umap_order fresh_data max_after gm) in
  (game_over gm = true ->
   game_over gm' = true /\ winner gm' = winner gm)
  /\ (game_over gm = false -> all_shells_used gm = true ->
      max_after <= steps_after_no_shells gm + 1 ->
      game_over gm' = true /\ winner gm' = "Tie"%string)
  /\ (game_over gm = false ->
      all_shells_used gm = false
      \/ steps_after_no_shells gm + 1 < max_after ->
      (game_over gm', winner gm')
      = checkGameOver (tanks gm') (false, winner gm))
  /\ (all_shells_used gm = true ->
      all_shells_used gm' = true
      /\ steps_after_no_shells gm'
         = (if game_over gm then steps_after_no_shells gm
            else steps_after_no_shells gm + 1)).
Proof.
  cbn zeta. unfold processStep.
  destruct (getPlayerActions _ _) as [[es1 algos1] polled].
  destruct (executeImmediateActions _ _ _ _ _) as [[gs3 algos3] es3].
  destruct (runMovementAndCollisionSubSteps _ _ _) as [gs4 es4].
  unfold checkShellDepletionStatus.
  destruct (all_shells_used gm) eqn:Eused, (game_over gm) eqn:Eover;
    cbn [negb]; cbv beta iota zeta.
  - cbn [negb game_over winner all_shells_used steps_after_no_shells tanks
         fst].
    split_and!; done.
  - destruct (Z.leb_spec max_after (steps_after_no_shells gm + 1));
      cbv beta iota zeta; cbn [negb].
    + cbn [negb game_over winner all_shells_used steps_after_no_shells tanks
           fst].
      split_and!; try done. intros _ [? | ?]; [done | lia].
    + destruct (checkGameOver _ _) as [o w] eqn:E.
      cbn [negb game_over winner all_shells_used steps_after_no_shells tanks
           fst].
      split_and!; try done. intros; lia.
  - match goal with
    | |- context [if ?c then (true, 0, true, winner gm) else _] =>
        destruct c
    end;
      cbv beta iota zeta;
      cbn [negb game_over winner all_shells_used steps_after_no_shells tanks
           fst]; split_and!; done.
  - match goal with
    | |- context [if ?c then (true, 0, false, winner gm) else _] =>
        destruct c
    end;
      cbv beta iota zeta; cbn [negb];
      destruct (checkGameOver _ _) as [o w] eqn:E;
      cbn [negb game_over winner all_shells_used steps_after_no_shells tanks
           fst]; split_and!; done.
Qed.

Lemma processStep_check_redundant (gm : GameManager Strat) :
  let gm' := fst (processStep umap_order fresh_data max_after gm) in
  checkGameOver (tanks gm') (game_over gm', winner gm')
  = (game_over gm', winner gm').
Proof.
  cbn zeta. unfold processStep.
  destruct (getPlayerActions _ _) as [[es1 algos1] polled].
  destruct (executeImmediateActions _ _ _ _ _) as [[gs3 algos3] es3].
  destruct (runMovementAndCollisionSubSteps _ _ _) as [gs4 es4].
  destruct (checkShellDepletionStatus _ _ _ _) as [[[used steps] over5] win5].
  destruct over5; cbn [negb].
  - reflexivity.
  - destruct (checkGameOver (store_tanks es4 (tanks gm)) (false, win5))
      as [o w] eqn:E.
    cbn [game_over winner tanks fst]. rewrite <- E.
    apply checkGameOver_idem.
Qed.

Lemma run_over (n : nat) (gm : GameManager Strat) :
  game_over gm = true ->
  game_over (Nat.iter n (fun g => fst (processStep umap_order fresh_data
                                         max_after g)) gm) = true
  /\ winner (Nat.iter n (fun g => fst (processStep umap_order fresh_data
                                         max_after g)) gm) = winner gm.
Proof.
  intros Hover.
  set (step := fun g => fst (processStep umap_order fresh_data max_after g)).
  induction n as [| n [IH1 IH2]]; [done |].
  rewrite Nat.iter_succ.
  destruct (processStep_verdict (Nat.iter n step gm)) as (Hv & _).
  destruct (Hv IH1) as [H1 H2]. split; [exact H1 | ].
  etrans; [exact H2 | exact IH2].
Qed.

Lemma run_countdown (n : nat) : forall gm : GameManager Strat,
  all_shells_used gm = true -> (1 <= n)%nat ->
  (Z.to_nat (max_after - steps_after_no_shells gm) <= n)%nat ->
  game_over (Nat.iter n (fun g => fst (processStep umap_order fresh_data
                                         max_after g)) gm) = true.
Proof.
  induction n as [| n IH]; intros gm Hused Hn Hfuel; [lia |].
  rewrite Nat.iter_succ_r.
  destruct (processStep_verdict gm) as (Hover & Htie & _ & Hcount).
  destruct (Hcount Hused) as [Hused' Hsteps].
  destruct (game_over gm) eqn:Eover.
  { apply run_over. by apply Hover. }
  destruct (Z.le_gt_cases max_after (steps_after_no_shells gm + 1))
    as [Hle | Hgt].
  { apply run_over. by apply Htie. }
  apply IH; [done | lia |]. rewrite Hsteps. lia.
Qed.

(** X16.  The verdict of [processStep].  A game that is over stays over
    with the same winner, although the step is still played.  In a
    running game whose shells were all used, the step that brings the
    counter to [MAX_STEPS_AFTER_NO_SHELLS] ends the game as a tie,
    whatever happened to the tanks in that step; in every other step of
    a running game the verdict is the one of [checkGameOver] on the
    tanks after the step.  Once [all_shells_used] is set it stays set,
    and the counter advances by one per step of a running game.  A
    second call of [checkGameOver] after the step changes nothing. *)
Theorem X16_step_verdict (gm : GameManager Strat) :
  let gm' := fst (processStep umap_order fresh_data max_after gm) in
  (game_over gm = true ->
   game_over gm' = true /\ winner gm' = winner gm)
  /\ (game_over gm = false -> all_shells_used gm = true ->
      max_after <= steps_after_no_shells gm + 1 ->
      game_over gm' = true /\ winner gm' = "Tie"%string)
  /\ (game_over gm = false ->
      all_shells_used gm = false
      \/ steps_after_no_shells gm + 1 < max_after ->
      (game_over gm', winner gm')
      = checkGameOver (tanks gm') (false, winner gm))
  /\ (all_shells_used gm = true ->
      all_shells_used gm' = true
      /\ steps_after_no_shells gm'
         = (if game_over gm then steps_after_no_shells gm
            else steps_after_no_shells gm + 1))
  /\ checkGameOver (tanks gm') (game_over gm', winner gm')
     = (game_over gm', winner gm').
Proof.
  cbn zeta. destruct (processStep_verdict gm) as (H1 & H2 & H3 & H4).
  split_and!; [exact H1 | exact H2 | exact H3 | exact H4 |].
  apply processStep_check_redundant.
Qed.

(** X17.  Once all shells are used the game cannot go on for long: after
    any number of steps that is at least 1 and at least what the counter
    lacks to [MAX_STEPS_AFTER_NO_SHELLS], the game is over, and further
    steps change neither that nor the winner. *)
Theorem X17_depletion_countdown (gm : GameManager Strat) (n m : nat) :
  let run k :=
    Nat.iter k (fun g => fst (processStep umap_order fresh_data max_after g))
             gm in
  all_shells_used gm = true -> (1 <= n)%nat ->
  (Z.to_nat (max_after - steps_after_no_shells gm) <= n)%nat ->
  game_over (run n) = true
  /\ game_over (run (m + n)%nat) = true
  /\ winner (run (m + n)%nat) = winner (run n).
Proof.
  intros run Hused Hn Hfuel. subst run. cbn beta.
  assert (Hover := run_countdown n gm Hused Hn Hfuel).
  split; [exact Hover |].
  rewrite Nat.iter_add. by apply run_over.
Qed.

Lemma game_loop_body_spec (max_game_steps : Z) (st : Z * GameManager Strat) :
  let st' := game_loop_body umap_order fresh_data max_after max_game_steps st in
  fst st' = fst st + 1
  /\ (max_game_steps <= fst st + 1 ->
      game_over (snd st') = true /\ winner (snd st') = "Tie"%string).
Proof.
  unfold game_loop_body. cbn zeta.
  destruct (checkGameOver _ _) as [o w].
  split; [done |]. intros Hmax.
  destruct (Z.leb_spec max_game_steps (fst st + 1)); [done | lia].
Qed.

Lemma startGameLoop_spec (max_game_steps : Z) (d : nat) :
  forall (steps : Z) (gm : GameManager Strat),
    (Z.to_nat (max_game_steps - steps - 1) <= d)%nat ->
    game_over gm = false ->
    exists n gm',
      (forall fuel, (S d <= fuel)%nat ->
         startGameLoop umap_order fresh_data max_after fuel max_game_steps
                       (steps, gm) = Some (n, gm'))
      /\ game_over gm' = true
      /\ steps < n <= Z.max (steps + 1) max_game_steps
      /\ (max_game_steps <= n -> winner gm' = "Tie"%string).
Proof.
  induction d as [| d IH]; intros steps gm Hd Hrun.
  - pose proof (game_loop_body_spec max_game_steps (steps, gm)) as Hbody.
    destruct (game_loop_body _ _ _ _ _) as [n gm'] eqn:E.
    cbn [fst snd] in Hbody. destruct Hbody as [-> Htie].
    destruct (Htie ltac:(lia)) as [Hover Hwin].
    exists (steps + 1), gm'. split_and!; [| done | lia | lia | done].
    intros fuel Hfuel. destruct fuel as [| fuel]; [lia |].
    cbn [startGameLoop snd]. rewrite Hrun, E.
    destruct fuel; cbn [startGameLoop snd]; by rewrite Hover.
  - pose proof (game_loop_body_spec max_game_steps (steps, gm)) as Hbody.
    destruct (game_loop_body _ _ _ _ _) as [n gm1] eqn:E.
    cbn [fst snd] in Hbody. destruct Hbody as [-> Htie].
    destruct (game_over gm1) eqn:Hover.
    + exists (steps + 1), gm1. split_and!; [| done | lia | lia |].
      * intros fuel Hfuel. destruct fuel as [| fuel]; [lia |].
        cbn [startGameLoop snd]. rewrite Hrun, E.
        destruct fuel; cbn [startGameLoop snd]; by rewrite Hover.
      * intros Hmax. by apply Htie.
    + assert (Hlt : steps + 1 < max_game_steps).
      { destruct (Z.le_gt_cases max_game_steps (steps + 1)) as [Hle | Hgt];
          [| lia].
        destruct (Htie Hle). congruence. }
      destruct (IH (steps + 1) gm1 ltac:(lia) Hover)
        as (n & gm' & Hloop & Hover' & Hn & Hwin).
      exists n, gm'. split_and!; [| done | lia | lia | done].
      intros fuel Hfuel. destruct fuel as [| fuel]; [lia |].
      cbn [startGameLoop snd]. rewrite Hrun, E.
      apply Hloop. lia.
Qed.

(** X18.  [startGameLoop] always ends: a game that is over is left as it
    is without a step; a running game is over after at most
    [max_game_steps - steps_count] turns of the loop (one turn if that
    is not positive), with [steps_count] advanced by the number of
    turns.  When the loop ends with [steps_count] at the limit the
    winner is "Tie", even if the last step was won by a player. *)
Theorem X18_game_loop (max_game_steps steps : Z) (gm : GameManager Strat) :
  exists n gm',
    (forall fuel,
        (Z.to_nat (Z.max 1 (max_game_steps - steps)) <= fuel)%nat ->
        startGameLoop umap_order fresh_data max_after fuel max_game_steps
                      (steps, gm) = Some (n, gm'))
    /\ game_over gm' = true
    /\ (game_over gm = true -> n = steps /\ gm' = gm)
    /\ (game_over gm = false ->
        steps < n <= Z.max (steps + 1) max_game_steps
        /\ (max_game_steps <= n -> winner gm' = "Tie"%string)).
Proof.
  destruct (game_over gm) eqn:Hover.
  - exists steps, gm. split_and!; try done.
    intros fuel _. destruct fuel; cbn [startGameLoop snd]; by rewrite Hover.
  - destruct (startGameLoop_spec max_game_steps
                (Z.to_nat (max_game_steps - steps - 1)) steps gm
                ltac:(lia) Hover)
      as (n & gm' & Hloop & Hover' & Hn & Hwin).
    exists n, gm'. split_and!; try done.
    intros fuel Hfuel. apply Hloop. lia.
Qed.

End VerdictFacts.

(** The step that completes the countdown of a spent duel, for X16. *)
Lemma X16_step_verdict_witness :
  game_over (fst (processStep (fun l => l) sample_data 40 (spent_duel 39)))
  = true
  /\ winner (fst (processStep (fun l => l) sample_data 40 (spent_duel 39)))
     = "Tie"%string.
Proof.
  apply (proj1 (proj2 (X16_step_verdict (fun l => l) sample_data 40
                         (spent_duel 39))));
    [reflexivity | reflexivity | cbn; lia].
Defined.

(** Two steps before the end of the countdown, for X17. *)
Lemma X17_depletion_countdown_witness :
  game_over
    (Nat.iter 2 (fun g => fst (processStep (fun l => l) sample_data 40 g))
              (spent_duel 38)) = true.
Proof.
  apply (proj1 (X17_depletion_countdown (fun l => l) sample_data 40
                  (spent_duel 38) 2 0 eq_refl ltac:(lia)
                  ltac:(cbn; lia))).
Defined.

(** ** GameManager.cpp: reading the board *)

Lemma length_fit_line (num_cols : Z) (line : list ascii) :
  0 <= num_cols -> length (fit_line num_cols line) = Z.to_nat num_cols.
Proof.
  intros Hc. unfold fit_line.
  destruct (Z.ltb_spec num_cols (Z.of_nat (length line))).
  - rewrite length_take. lia.
  - destruct (Z.ltb_spec (Z.of_nat (length line)) num_cols).
    + rewrite length_app, length_replicate. lia.
    + lia.
Qed.

Lemma fit_line_lookup (num_cols : Z) (line : list ascii) (x : nat) :
  (x < Z.to_nat num_cols)%nat ->
  fit_line num_cols line !! x
  = Some (match line !! x with Some c => c | None => " "%char end).
Proof.
  intros Hx. unfold fit_line.
  destruct (Z.ltb_spec num_cols (Z.of_nat (length line))).
  - rewrite lookup_take_lt by lia.
    destruct (lookup_lt_is_Some_2 line x ltac:(lia)) as [c Hc].
    by rewrite Hc.
  - destruct (Z.ltb_spec (Z.of_nat (length line)) num_cols).
    + destruct (decide (x < length line)%nat) as [Hlt | Hge].
      * rewrite lookup_app_l by done.
        destruct (lookup_lt_is_Some_2 line x Hlt) as [c Hc]. by rewrite Hc.
      * rewrite lookup_app_r by lia.
        rewrite lookup_replicate_2 by lia.
        by rewrite (proj2 (lookup_ge_None line x)) by lia.
    + destruct (lookup_lt_is_Some_2 line x ltac:(lia)) as [c Hc].
      by rewrite Hc.
Qed.

Lemma read_board_lines_spec (num_rows num_cols : Z)
    (lines : list (list ascii)) :
  forall (board_lines : list (list ascii)) (n : Z),
    0 <= n ->
    read_board_lines num_rows num_cols lines board_lines n
    = (board_lines
       ++ List.map (fun l => fit_line num_cols (trim_line l))
                   (take (Z.to_nat (num_rows - n)) lines),
       n + Z.of_nat (length (take (Z.to_nat (num_rows - n)) lines))).
Proof.
  induction lines as [| line rest IH]; intros board_lines n Hn.
  - cbn. rewrite take_nil. cbn. rewrite app_nil_r. f_equal. lia.
  - cbn [read_board_lines].
    destruct (Z.ltb_spec n num_rows) as [Hlt | Hge].
    + rewrite IH by lia.
      replace (Z.to_nat (num_rows - n)) with (S (Z.to_nat (num_rows - (n + 1))))
        by lia.
      cbn [take List.map length]. rewrite <- app_assoc. cbn [app].
      f_equal. lia.
    + replace (Z.to_nat (num_rows - n)) with 0%nat by lia.
      cbn. rewrite app_nil_r. f_equal. lia.
Qed.

Lemma board_lines_of_eq (num_rows num_cols : Z) (lines : list (list ascii)) :
  board_lines_of num_rows num_cols lines
  = List.map (fun l => fit_line num_cols (trim_line l))
             (take (Z.to_nat num_rows) lines)
    ++ replicate (Z.to_nat num_rows - length lines)
                 (replicate (Z.to_nat num_cols) " "%char).
Proof.
  unfold board_lines_of. rewrite read_board_lines_spec by lia.
  rewrite Z.sub_0_r, Z.add_0_l. cbn [app]. f_equal.
  rewrite length_take. f_equal. lia.
Qed.

Lemma drop_blanks_app (blanks rest : list ascii) :
  forallb is_blank blanks = true ->
  drop_blanks (blanks ++ rest) = drop_blanks rest.
Proof.
  induction blanks as [| b blanks IH]; [done |]. cbn.
  intros Hb. apply andb_true_iff in Hb as [Hb1 Hb2].
  rewrite Hb1. by apply IH.
Qed.

Lemma drop_blanks_head (c : ascii) (rest : list ascii) :
  is_blank c = false -> drop_blanks (c :: rest) = c :: rest.
Proof. intros Hc. cbn. by rewrite Hc. Qed.

Lemma drop_blanks_keeps_last (l : list ascii) (c : ascii) :
  is_blank c = false -> exists l', drop_blanks (l ++ [c]) = l' ++ [c].
Proof.
  intros Hc. induction l as [| a l IH].
  - exists []. cbn. by rewrite Hc.
  - cbn. destruct (is_blank a); [exact IH |]. by exists (a :: l).
Qed.

Lemma trim_line_head (blanks rest : list ascii) (c : ascii) :
  forallb is_blank blanks = true -> is_blank c = false ->
  exists rest', trim_line (blanks ++ c :: rest) = c :: rest'.
Proof.
  intros Hb Hc. unfold trim_line.
  rewrite drop_blanks_app, drop_blanks_head by done.
  cbn [rev].
  destruct (drop_blanks_keeps_last (rev rest) c Hc) as [l' Hl'].
  rewrite Hl', rev_app_distr. cbn. by exists (rev l').
Qed.

(** X19.  The board that [parseInputFile] builds from the lines after
    the parameters has exactly [num_rows] rows of [num_cols] characters,
    whatever the file holds, so every [board_lines[y][x]] of the
    populating loops is in range.  Row [y] is the [y]-th line with the
    blanks at both ends removed, cut or filled up with spaces to
    [num_cols]; rows beyond the end of the file are spaces.  Since the
    blanks at the start of a line are removed, a line that begins with
    blanks is shifted left: its first other character lands in column
    0. *)
Theorem X19_board_lines (num_rows num_cols : Z) (lines : list (list ascii)) :
  0 <= num_rows -> 0 <= num_cols ->
  let board := board_lines_of num_rows num_cols lines in
  length board = Z.to_nat num_rows
  /\ (forall row, row ∈ board -> length row = Z.to_nat num_cols)
  /\ (forall x y line,
         (y < Z.to_nat num_rows)%nat -> (x < Z.to_nat num_cols)%nat ->
         lines !! y = Some line ->
         board_char board x y
         = match trim_line line !! x with Some c => c | None => " "%char end)
  /\ (forall x y,
         (y < Z.to_nat num_rows)%nat -> (x < Z.to_nat num_cols)%nat ->
         lines !! y = None -> board_char board x y = " "%char)
  /\ (forall y blanks c rest,
         (y < Z.to_nat num_rows)%nat -> 0 < num_cols ->
         lines !! y = Some (blanks ++ c :: rest) ->
         forallb is_blank blanks = true -> is_blank c = false ->
         board_char board 0 y = c).
Proof.
  intros Hr Hc board. subst board. rewrite board_lines_of_eq.
  set (read := List.map _ (take (Z.to_nat num_rows) lines)).
  assert (Hlen : length read = (Z.to_nat num_rows `min` length lines)%nat).
  { subst read. by rewrite length_map, length_take. }
  assert (Hrow : forall x y line,
             (y < Z.to_nat num_rows)%nat -> (x < Z.to_nat num_cols)%nat ->
             lines !! y = Some line ->
             board_char (read ++ replicate (Z.to_nat num_rows - length lines)
                                  (replicate (Z.to_nat num_cols) " "%char))
                        x y
             = match trim_line line !! x with
               | Some c => c
               | None => " "%char
               end).
  { intros x y line Hy Hx Hline. unfold board_char.
    assert (Hy' : (y < length lines)%nat)
      by (apply lookup_lt_is_Some; by eexists).
    rewrite lookup_app_l by lia.
    subst read. change (@List.map) with (@fmap list _).
    rewrite list_lookup_fmap, lookup_take_lt by done. rewrite Hline. cbn.
    by rewrite fit_line_lookup. }
  split_and!.
  - rewrite length_app, length_replicate. lia.
  - intros row Hin. apply elem_of_app in Hin as [Hin | Hin].
    + subst read. apply list_elem_of_In, in_map_iff in Hin as (l & <- & _).
      by apply length_fit_line.
    + apply elem_of_replicate in Hin as [-> _]. apply length_replicate.
  - exact Hrow.
  - intros x y Hy Hx Hnone. unfold board_char.
    apply lookup_ge_None in Hnone.
    rewrite lookup_app_r by lia.
    rewrite lookup_replicate_2 by lia.
    by rewrite lookup_replicate_2.
  - intros y blanks c rest Hy Hcol Hline Hb Hnb.
    rewrite (Hrow 0%nat y _ Hy ltac:(lia) Hline).
    destruct (trim_line_head blanks rest c Hb Hnb) as [rest' ->]. done.
Qed.

(** A row that begins with two spaces, for X19: the tank of player 1
    written in column 2 is read in column 0. *)
Lemma X19_board_lines_witness :
  board_char (board_lines_of 1 3 [[" "; " "; "1"]%char]) 0 0 = "1"%char.
Proof.
  apply (proj2 (proj2 (proj2 (proj2
           (X19_board_lines 1 3 [[" "; " "; "1"]%char]
              ltac:(lia) ltac:(lia)))))
           0%nat [" "; " "]%char "1"%char []);
    [lia | lia | reflexivity | reflexivity | reflexivity].
Defined.

Lemma tanks_insert_fresh (id : Z) (t : Tank) (tks : list (Z * Tank)) :
  id ∉ List.map fst tks -> tanks_insert id t tks = tks ++ [(id, t)].
Proof.
  intros Hid. unfold tanks_insert.
  destruct (existsb _ tks) eqn:E; [| done].
  apply existsb_exists in E as (kt & Hin & Hk). apply Z.eqb_eq in Hk.
  exfalso. apply Hid. apply list_elem_of_In, in_map_iff.
  by exists kt.
Qed.

Lemma consecutive_fresh (next : Z) (n : nat) :
  next + Z.of_nat n
  ∉ List.map (fun i => next + Z.of_nat i) (seq 0 n).
Proof.
  intros Hin. apply list_elem_of_In, in_map_iff in Hin as (i & Hi & Hseq).
  apply in_seq in Hseq. lia.
Qed.

Lemma consecutive_snoc (next : Z) (n : nat) :
  List.map (fun i => next + Z.of_nat i) (seq 0 (S n))
  = List.map (fun i => next + Z.of_nat i) (seq 0 n) ++ [next + Z.of_nat n].
Proof. by rewrite seq_S, map_app. Qed.

Section PopulateFacts.
Variables num_shells indeterminate next_tank_id : Z.
Variable board_lines : list (list ascii).

Lemma populated_ok_init :
  populated_ok num_shells indeterminate next_tank_id board_lines []
               (mkPopulated [] [] next_tank_id 0 0).
Proof.
  unfold populated_ok. cbn.
  split_and!; try done; try lia.
  - intros id t Hin. by apply elem_of_nil in Hin.
  - intros xy Hin. by apply elem_of_nil in Hin.
  - intros o Hin. by apply elem_of_nil in Hin.
  - intros xy Hin. by apply elem_of_nil in Hin.
Qed.

(** A cell that creates nothing, or a wall or a mine. *)
Lemma populated_ok_object (done : list (nat * nat)) (st : Populated)
    (xy : nat * nat) (added : list (GameObject Z)) :
  populated_ok num_shells indeterminate next_tank_id board_lines done st ->
  board_char board_lines (fst xy) (snd xy) <> "1"%char ->
  board_char board_lines (fst xy) (snd xy) <> "2"%char ->
  (board_char board_lines (fst xy) (snd xy) = "#"%char
   /\ added = [WallObj (new_Wall (cell_pos xy))])
  \/ (board_char board_lines (fst xy) (snd xy) = "@"%char
      /\ added = [MineObj (new_Mine (cell_pos xy))])
  \/ (board_char board_lines (fst xy) (snd xy) <> "#"%char
      /\ board_char board_lines (fst xy) (snd xy) <> "@"%char
      /\ added = []) ->
  populated_ok num_shells indeterminate next_tank_id board_lines
    (done ++ [xy])
    (mkPopulated (pop_objects st ++ added) (pop_tanks st)
                 (pop_next_tank_id st) (player1_tanks st) (player2_tanks st)).
Proof.
  intros (Hnext & Hkeys & Hsub & Htanks & Hfound & Hobjs & Hwm & Hp1 & Hp2)
         Hn1 Hn2 Hadded.
  unfold populated_ok.
  cbn [pop_objects pop_tanks pop_next_tank_id player1_tanks player2_tanks].
  split_and!; try done.
  - rewrite map_app. by apply sublist_inserts_r.
  - intros id t Hin. destruct (Htanks id t Hin) as (Ho & c & Hc & Hcase).
    split; [apply elem_of_app; by left |].
    exists c. split; [apply elem_of_app; by left | done].
  - intros c Hc Hchar. apply elem_of_app in Hc as [Hc | Hc].
    + by apply Hfound.
    + apply list_elem_of_singleton in Hc as ->. by destruct Hchar.
  - intros o Ho. apply elem_of_app in Ho as [Ho | Ho].
    + destruct (Hobjs o Ho) as [Ht | [(c & Hc & Hch & ->) | (c & Hc & Hch & ->)]].
      * by left.
      * right. left. exists c. split_and!; [apply elem_of_app; by left | done | done].
      * right. right. exists c. split_and!; [apply elem_of_app; by left | done | done].
    + destruct Hadded as [[Hch ->] | [[Hch ->] | (_ & _ & ->)]].
      * apply list_elem_of_singleton in Ho as ->. right. left. exists xy.
        split_and!; [apply elem_of_app; right; by apply list_elem_of_singleton
                     | done | done].
      * apply list_elem_of_singleton in Ho as ->. right. right. exists xy.
        split_and!; [apply elem_of_app; right; by apply list_elem_of_singleton
                     | done | done].
      * by apply elem_of_nil in Ho.
  - intros c Hc. apply elem_of_app in Hc as [Hc | Hc].
    + destruct (Hwm c Hc) as [Hw Hm].
      split; intros Hch; apply elem_of_app; left; auto.
    + apply list_elem_of_singleton in Hc as ->.
      destruct Hadded as [[Hch ->] | [[Hch ->] | (Hw & Hm & ->)]].
      * split; intros Hch'; [| congruence].
        apply elem_of_app. right. by apply list_elem_of_singleton.
      * split; intros Hch'; [congruence |].
        apply elem_of_app. right. by apply list_elem_of_singleton.
      * split; intros Hch'; congruence.
Qed.

(** A cell that creates a tank. *)
Lemma populated_ok_tank (done : list (nat * nat)) (st : Populated)
    (xy : nat * nat) (player : Z) (dir : Direction) :
  populated_ok num_shells indeterminate next_tank_id board_lines done st ->
  (board_char board_lines (fst xy) (snd xy) = "1"%char
   /\ player = 1 /\ dir = LEFT)
  \/ (board_char board_lines (fst xy) (snd xy) = "2"%char
      /\ player = 2 /\ dir = RIGHT) ->
  let tank :=
    new_Tank (pop_next_tank_id st) num_shells indeterminate (cell_pos xy)
             player dir in
  populated_ok num_shells indeterminate next_tank_id board_lines
    (done ++ [xy])
    (mkPopulated (pop_objects st ++ [TankObj (pop_next_tank_id st)])
                 (tanks_insert (pop_next_tank_id st) tank (pop_tanks st))
                 (pop_next_tank_id st + 1)
                 (player1_tanks st + (if player =? 1 then 1 else 0))
                 (player2_tanks st + (if player =? 2 then 1 else 0))).
Proof.
  intros (Hnext & Hkeys & Hsub & Htanks & Hfound & Hobjs & Hwm & Hp1 & Hp2)
         Hcase tank.
  assert (Hfresh : pop_next_tank_id st ∉ List.map fst (pop_tanks st)).
  { rewrite Hnext, Hkeys. apply consecutive_fresh. }
  rewrite (tanks_insert_fresh _ _ _ Hfresh).
  assert (Hchar : board_char board_lines (fst xy) (snd xy) <> "#"%char
                  /\ board_char board_lines (fst xy) (snd xy) <> "@"%char).
  { destruct Hcase as [(-> & _) | (-> & _)]; by split. }
  unfold populated_ok.
  cbn [pop_objects pop_tanks pop_next_tank_id player1_tanks player2_tanks].
  split_and!.
  - rewrite length_app. cbn. lia.
  - rewrite map_app, length_app, Nat.add_1_r, consecutive_snoc, <- Hkeys.
    cbn. by rewrite Hnext.
  - rewrite !map_app. apply sublist_app; [done |]. cbn. reflexivity.
  - intros id t Hin. apply elem_of_app in Hin as [Hin | Hin].
    + destruct (Htanks id t Hin) as (Ho & c & Hc & Hcase').
      split; [apply elem_of_app; by left |].
      exists c. split; [apply elem_of_app; by left | done].
    + apply list_elem_of_singleton in Hin. injection Hin as -> ->.
      split; [apply elem_of_app; right; by apply list_elem_of_singleton |].
      exists xy. split; [apply elem_of_app; right; by apply list_elem_of_singleton |].
      subst tank.
      destruct Hcase as [(Hch & -> & ->) | (Hch & -> & ->)]; [by left | by right].
  - intros c Hc Hch. apply elem_of_app in Hc as [Hc | Hc].
    + destruct (Hfound c Hc Hch) as (id & t & Hin & Hpos).
      exists id, t. split; [apply elem_of_app; by left | done].
    + apply list_elem_of_singleton in Hc as ->.
      exists (pop_next_tank_id st), tank.
      split; [apply elem_of_app; right; by apply list_elem_of_singleton | done].
  - intros o Ho. apply elem_of_app in Ho as [Ho | Ho].
    + destruct (Hobjs o Ho) as [(id & -> & Hid) | [(c & Hc & Hch & ->) | (c & Hc & Hch & ->)]].
      * left. exists id. split; [done |]. rewrite map_app.
        apply elem_of_app. by left.
      * right. left. exists c. split_and!; [apply elem_of_app; by left | done | done].
      * right. right. exists c. split_and!; [apply elem_of_app; by left | done | done].
    + apply list_elem_of_singleton in Ho as ->. left.
      exists (pop_next_tank_id st). split; [done |]. rewrite map_app.
      apply elem_of_app. right. by apply list_elem_of_singleton.
  - intros c Hc. apply elem_of_app in Hc as [Hc | Hc].
    + destruct (Hwm c Hc) as [Hw Hm].
      split; intros Hch; apply elem_of_app; left; auto.
    + apply list_elem_of_singleton in Hc as ->. destruct Hchar.
      split; intros Hch; congruence.
  - rewrite List.filter_app, length_app, Nat2Z.inj_add, <- Hp1. cbn.
    destruct Hcase as [(_ & -> & _) | (_ & -> & _)]; cbn; lia.
  - rewrite List.filter_app, length_app, Nat2Z.inj_add, <- Hp2. cbn.
    destruct Hcase as [(_ & -> & _) | (_ & -> & _)]; cbn; lia.
Qed.

Lemma populated_ok_step (done : list (nat * nat)) (st : Populated)
    (xy : nat * nat) :
  populated_ok num_shells indeterminate next_tank_id board_lines done st ->
  populated_ok num_shells indeterminate next_tank_id board_lines
    (done ++ [xy]) (populate_cell num_shells indeterminate board_lines st xy).
Proof.
  intros Hok. unfold populate_cell. cbn zeta.
  destruct (Ascii.eqb_spec (board_char board_lines (fst xy) (snd xy)) "1")
    as [E1 | E1].
  { pose proof (populated_ok_tank done st xy 1 LEFT Hok
                  ltac:(left; done)) as Hstep.
    cbn in Hstep. rewrite Z.add_0_r in Hstep. exact Hstep. }
  destruct (Ascii.eqb_spec (board_char board_lines (fst xy) (snd xy)) "2")
    as [E2 | E2].
  { pose proof (populated_ok_tank done st xy 2 RIGHT Hok
                  ltac:(right; done)) as Hstep.
    cbn in Hstep. rewrite Z.add_0_r in Hstep. exact Hstep. }
  destruct (Ascii.eqb_spec (board_char board_lines (fst xy) (snd xy)) "#")
    as [E3 | E3].
  { apply populated_ok_object; try done. by left. }
  destruct (Ascii.eqb_spec (board_char board_lines (fst xy) (snd xy)) "@")
    as [E4 | E4].
  { apply populated_ok_object; try done. right. by left. }
  pose proof (populated_ok_object done st xy [] Hok E1 E2
                ltac:(right; right; done)) as Hstep.
  rewrite app_nil_r in Hstep. by destruct st.
Qed.

Lemma populated_ok_fold (cells : list (nat * nat)) :
  forall done st,
    populated_ok num_shells indeterminate next_tank_id board_lines done st ->
    populated_ok num_shells indeterminate next_tank_id board_lines
      (done ++ cells)
      (fold_left (populate_cell num_shells indeterminate board_lines)
                 cells st).
Proof.
  induction cells as [| c cells IH]; intros done st Hok.
  - by rewrite app_nil_r.
  - cbn [fold_left].
    replace (done ++ c :: cells) with ((done ++ [c]) ++ cells)
      by (by rewrite <- app_assoc).
    apply IH. by apply populated_ok_step.
Qed.

End PopulateFacts.

Lemma elem_of_board_cells (num_rows num_cols : Z) (xy : nat * nat) :
  xy ∈ board_cells num_rows num_cols
  <-> (fst xy < Z.to_nat num_cols)%nat /\ (snd xy < Z.to_nat num_rows)%nat.
Proof.
  unfold board_cells. rewrite list_elem_of_In, in_flat_map. split.
  - intros (y & Hy & Hin). apply in_map_iff in Hin as (x & <- & Hx).
    apply in_seq in Hx. apply in_seq in Hy. cbn. lia.
  - intros [Hx Hy]. exists (snd xy). split; [apply in_seq; lia |].
    apply in_map_iff. exists (fst xy). split; [by destruct xy |].
    apply in_seq. lia.
Qed.

(** X20.  What the populating loops of [parseInputFile] create from a
    board.  The tanks get consecutive ids from [Tank::next_tank_id] on,
    in reading order (row by row, left to right), so the keys of the
    [tanks] map are distinct.  Every tank stands on a cell of the board
    that reads ['1'] or ['2'], belongs to that player, faces LEFT
    (player 1) or RIGHT (player 2), has [num_shells] shells and no
    cooldown, and is in [state->objects] under its id; every such cell
    has its tank.  Walls and mines are created exactly on the cells that
    read ['#'] and ['@'], and nothing else is created.  The game is over
    from the start exactly when a player has no tank. *)
Theorem X20_populate (num_rows num_cols num_shells indeterminate : Z)
    (next_tank_id : Z) (board_lines : list (list ascii)) :
  let st :=
    populate num_rows num_cols num_shells indeterminate next_tank_id
             board_lines in
  let on_cell (xy : nat * nat) c :=
    board_char board_lines (fst xy) (snd xy) = c in
  let in_board (xy : nat * nat) :=
    (fst xy < Z.to_nat num_cols)%nat /\ (snd xy < Z.to_nat num_rows)%nat in
  let tanks_of player :=
    length (List.filter (fun kt => player_id (snd kt) =? player)
                        (pop_tanks st)) in
  pop_next_tank_id st = next_tank_id + Z.of_nat (length (pop_tanks st))
  /\ List.map fst (pop_tanks st)
     = List.map (fun i => next_tank_id + Z.of_nat i)
                (seq 0 (length (pop_tanks st)))
  /\ NoDup (List.map fst (pop_tanks st))
  /\ sublist (List.map (fun kt => position (snd kt)) (pop_tanks st))
             (List.map cell_pos (board_cells num_rows num_cols))
  /\ (forall id t,
         (id, t) ∈ pop_tanks st ->
         TankObj id ∈ pop_objects st
         /\ exists xy,
              in_board xy
              /\ ((on_cell xy "1"%char
                   /\ t = new_Tank id num_shells indeterminate (cell_pos xy)
                                   1 LEFT)
                  \/ (on_cell xy "2"%char
                      /\ t = new_Tank id num_shells indeterminate
                                      (cell_pos xy) 2 RIGHT)))
  /\ (forall xy,
         in_board xy -> on_cell xy "1"%char \/ on_cell xy "2"%char ->
         exists id t, (id, t) ∈ pop_tanks st /\ position t = cell_pos xy)
  /\ (forall o,
         o ∈ pop_objects st ->
         (exists id, o = TankObj id /\ id ∈ List.map fst (pop_tanks st))
         \/ (exists xy, in_board xy /\ on_cell xy "#"%char
               /\ o = WallObj (new_Wall (cell_pos xy)))
         \/ (exists xy, in_board xy /\ on_cell xy "@"%char
               /\ o = MineObj (new_Mine (cell_pos xy))))
  /\ (forall xy,
         in_board xy ->
         (on_cell xy "#"%char ->
          WallObj (new_Wall (cell_pos xy)) ∈ pop_objects st)
         /\ (on_cell xy "@"%char ->
             MineObj (new_Mine (cell_pos xy)) ∈ pop_objects st))
  /\ (forall verdict,
         initial_verdict st verdict
         = (if Nat.eqb (tanks_of 1) 0 && Nat.eqb (tanks_of 2) 0
            then (true, "Tie"%string)
            else if Nat.eqb (tanks_of 1) 0 then (true, "Player 2"%string)
            else if Nat.eqb (tanks_of 2) 0 then (true, "Player 1"%string)
            else verdict)).
Proof.
  cbn zeta. unfold populate.
  pose proof (populated_ok_fold num_shells indeterminate next_tank_id
                board_lines (board_cells num_rows num_cols) [] _
                (populated_ok_init _ _ _ _)) as Hok.
  rewrite app_nil_l in Hok.
  set (st := fold_left _ _ _) in *.
  destruct Hok as (Hnext & Hkeys & Hsub & Htanks & Hfound & Hobjs & Hwm
                   & Hp1 & Hp2).
  split_and!; try done.
  - rewrite Hkeys. change (@List.map) with (@fmap list _).
    assert (Hinj : Inj eq eq (fun i : nat => next_tank_id + Z.of_nat i))
      by (intros i j Hij; lia).
    apply (NoDup_fmap_2 _), NoDup_seq.
  - intros id t Hin. destruct (Htanks id t Hin) as (Ho & xy & Hxy & Hcase).
    split; [done |]. exists xy. split; [| done].
    by apply elem_of_board_cells.
  - intros xy Hxy Hch. apply Hfound; [| done].
    by apply elem_of_board_cells.
  - intros o Ho.
    destruct (Hobjs o Ho) as [Ht | [(c & Hc & Hch & ->) | (c & Hc & Hch & ->)]].
    + by left.
    + right. left. exists c.
      split; [by apply elem_of_board_cells | by split].
    + right. right. exists c.
      split; [by apply elem_of_board_cells | by split].
  - intros xy Hxy. apply Hwm. by apply elem_of_board_cells.
  - intros verdict. unfold initial_verdict. rewrite Hp1, Hp2.
    set (a1 := length (List.filter _ (pop_tanks st))).
    set (a2 := length (List.filter _ (pop_tanks st))).
    destruct a1, a2; reflexivity.
Qed.

(** ** GameManager.cpp: tanks running into each other *)

Lemma effective_unmoved (e : TankEntry) :
  negb (blocked_this_sub_step (te_data e))
  && negb (pos_eqb (intended_position (te_data e)) (position (te_tank e)))
  = false ->
  effective_position e = position (te_tank e).
Proof.
  unfold effective_position.
  destruct (blocked_this_sub_step (te_data e)); [done |]. cbn.
  intros Hp. apply negb_false_iff, pos_eqb_eq in Hp. done.
Qed.

Lemma tanks_collide_spec (es : list TankEntry) (id1 id2 : Z)
    (e1 e2 : TankEntry) :
  find_entry id1 es = Some e1 -> find_entry id2 es = Some e2 ->
  tanks_collide es (id1, id2)
  = pos_eqb (effective_position e1) (effective_position e2).
Proof.
  intros H1 H2. unfold tanks_collide. cbn [fst snd]. rewrite H1, H2.
  destruct (pos_eqb (effective_position e1) (effective_position e2)) eqn:E;
    [| done].
  apply pos_eqb_eq in E.
  destruct (negb (blocked_this_sub_step (te_data e1)) && _) eqn:M1; [done |].
  destruct (negb (blocked_this_sub_step (te_data e2)) && _) eqn:M2; [done |].
  cbn. apply pos_eqb_eq.
  rewrite <- (effective_unmoved e1 M1), <- (effective_unmoved e2 M2). done.
Qed.

Lemma mark_killed_id e : te_id (mark_killed e) = te_id e.
Proof. unfold mark_killed. by destruct (is_destroyed (te_tank e)). Qed.

Lemma mark_killed_idem e : mark_killed (mark_killed e) = mark_killed e.
Proof.
  unfold mark_killed at 1.
  assert (Hd : is_destroyed (te_tank (mark_killed e)) = true).
  { unfold mark_killed. by destruct (is_destroyed (te_tank e)) eqn:E. }
  by rewrite Hd.
Qed.

Lemma mark_killed_destroyed e : is_destroyed (te_tank (mark_killed e)) = true.
Proof. unfold mark_killed. by destruct (is_destroyed (te_tank e)) eqn:E. Qed.

(** The destroying loop: an entry is marked exactly if its id occurs in
    one of the pairs. *)
Lemma fold_mark_killed (prs : list (Z * Z)) : forall es : list TankEntry,
  fold_left
    (fun es pr =>
       update_entry (snd pr) mark_killed
                    (update_entry (fst pr) mark_killed es))
    prs es
  = List.map
      (fun e =>
         if existsb (fun pr => (te_id e =? fst pr) || (te_id e =? snd pr)) prs
         then mark_killed e else e)
      es.
Proof.
  induction prs as [| pr prs IH]; intros es.
  - cbn. by rewrite map_id.
  - cbn [fold_left existsb]. rewrite IH. unfold update_entry.
    rewrite !List.map_map. apply map_ext. intros e.
    destruct (te_id e =? fst pr) eqn:Ea.
    + rewrite mark_killed_id. cbn [orb].
      destruct (te_id e =? snd pr); rewrite ?mark_killed_id;
        destruct (existsb _ prs); by rewrite ?mark_killed_idem.
    + cbn [orb]. destruct (te_id e =? snd pr) eqn:Eb; cbn [orb].
      * rewrite mark_killed_id.
        destruct (existsb _ prs); by rewrite ?mark_killed_idem.
      * done.
Qed.

Lemma elem_of_id_pairs (ids : list Z) (a b : Z) :
  (a, b) ∈ id_pairs ids -> a ∈ ids /\ b ∈ ids /\ (NoDup ids -> a <> b).
Proof.
  induction ids as [| x ids IH]; cbn; [intros H; by apply elem_of_nil in H |].
  intros Hin. apply elem_of_app in Hin as [Hin | Hin].
  - apply list_elem_of_In, in_map_iff in Hin as (y & [= <- <-] & Hy).
    apply list_elem_of_In in Hy.
    split_and!; [apply elem_of_cons; by left | apply elem_of_cons; by right |].
    intros Hnd Heq. apply NoDup_cons in Hnd as [Hx _]. congruence.
  - destruct (IH Hin) as (Ha & Hb & Hne).
    split_and!; [apply elem_of_cons; by right | apply elem_of_cons; by right |].
    intros Hnd. apply NoDup_cons in Hnd as [_ Hnd]. by apply Hne.
Qed.

Lemma id_pairs_complete (ids : list Z) (a b : Z) :
  a ∈ ids -> b ∈ ids -> a <> b ->
  (a, b) ∈ id_pairs ids \/ (b, a) ∈ id_pairs ids.
Proof.
  induction ids as [| x ids IH]; intros Ha Hb Hne;
    [by apply elem_of_nil in Ha |].
  cbn. rewrite !elem_of_app.
  apply elem_of_cons in Ha as [-> | Ha]; apply elem_of_cons in Hb as [-> | Hb].
  - done.
  - left. left. apply list_elem_of_In, in_map_iff. exists b.
    split; [done | by apply list_elem_of_In].
  - right. left. apply list_elem_of_In, in_map_iff. exists a.
    split; [done | by apply list_elem_of_In].
  - destruct (IH Ha Hb Hne); [left | right]; by right.
Qed.

Lemma find_entry_NoDup (es : list TankEntry) (e : TankEntry) :
  NoDup (List.map te_id es) -> e ∈ es -> find_entry (te_id e) es = Some e.
Proof.
  intros Hnd Hin. unfold find_entry.
  induction es as [| x es IH]; [by apply elem_of_nil in Hin |].
  cbn in Hnd |- *. apply NoDup_cons in Hnd as [Hx Hnd].
  apply elem_of_cons in Hin as [-> | Hin].
  - by rewrite Z.eqb_refl.
  - destruct (Z.eqb_spec (te_id x) (te_id e)) as [E | E]; [| by apply IH].
    exfalso. apply Hx. rewrite E.
    apply list_elem_of_In, in_map. by apply list_elem_of_In.
Qed.

Lemma elem_of_live_ids (es : list TankEntry) (id : Z) :
  id ∈ List.map te_id (live_entries es)
  <-> exists e, e ∈ es /\ te_id e = id /\ is_destroyed (te_tank e) = false.
Proof.
  unfold live_entries. rewrite list_elem_of_In, in_map_iff. split.
  - intros (e & <- & Hin). apply filter_In in Hin as [Hin Hl].
    exists e. split_and!; [by apply list_elem_of_In | done |].
    by apply negb_true_iff in Hl.
  - intros (e & Hin & <- & Hl). exists e. split; [done |].
    apply filter_In. split; [by apply list_elem_of_In |].
    by apply negb_true_iff.
Qed.

Lemma NoDup_live_ids (es : list TankEntry) :
  NoDup (List.map te_id es) -> NoDup (List.map te_id (live_entries es)).
Proof.
  unfold live_entries. induction es as [| x es IH]; [done |].
  cbn. intros Hnd. apply NoDup_cons in Hnd as [Hx Hnd].
  destruct (negb (is_destroyed (te_tank x))); [| by apply IH].
  cbn. apply NoDup_cons. split; [| by apply IH].
  intros Hin. apply Hx.
  apply list_elem_of_In, in_map_iff in Hin as (e & He & Hin).
  apply filter_In in Hin as [Hin _].
  apply list_elem_of_In, in_map_iff. by exists e.
Qed.

(** X21.  [resolveTankTankCollisions], for entries with distinct ids.
    Two entries collide exactly when their effective positions are the
    same: the exemption for tanks "that intended the same spot but
    neither moved" can never apply, because such tanks stand on the same
    cell.  A tank is destroyed afterwards exactly if it was destroyed
    before or is a live tank whose effective position is also that of
    another live tank; so two tanks that exchange their cells pass
    through each other.  Ids, positions, intended positions and the
    blocked flags are left as they are. *)
Theorem X21_tank_tank_collisions (es : list TankEntry) :
  NoDup (List.map te_id es) ->
  (forall e1 e2,
      e1 ∈ es -> e2 ∈ es ->
      tanks_collide es (te_id e1, te_id e2)
      = pos_eqb (effective_position e1) (effective_position e2))
  /\ Forall2
       (fun e e' =>
          te_id e' = te_id e
          /\ position (te_tank e') = position (te_tank e)
          /\ intended_position (te_data e') = intended_position (te_data e)
          /\ blocked_this_sub_step (te_data e')
             = blocked_this_sub_step (te_data e)
          /\ (is_destroyed (te_tank e') = true
              <-> is_destroyed (te_tank e) = true
                  \/ exists e2,
                       e2 ∈ es /\ te_id e2 <> te_id e
                       /\ is_destroyed (te_tank e2) = false
                       /\ effective_position e2 = effective_position e))
       es (resolveTankTankCollisions es).
Proof.
  intros Hnd.
  assert (Hcollide : forall e1 e2,
             e1 ∈ es -> e2 ∈ es ->
             tanks_collide es (te_id e1, te_id e2)
             = pos_eqb (effective_position e1) (effective_position e2)).
  { intros e1 e2 H1 H2.
    apply tanks_collide_spec; by apply find_entry_NoDup. }
  split; [exact Hcollide |].
  unfold resolveTankTankCollisions. rewrite fold_mark_killed.
  set (prs := List.filter (tanks_collide es) _).
  assert (Hprs : forall a b,
             (a, b) ∈ prs
             <-> (a, b) ∈ id_pairs (List.map te_id (live_entries es))
                 /\ tanks_collide es (a, b) = true).
  { intros a b. subst prs. rewrite list_elem_of_In, filter_In.
    by rewrite <- list_elem_of_In. }
  apply Forall2_fmap_r, Forall_Forall2_diag, Forall_forall.
  intros e He. unfold compose. cbn beta.
  destruct (existsb (fun pr => (te_id e =? fst pr) || (te_id e =? snd pr))
                    prs) eqn:Hk.
  - apply existsb_exists in Hk as ([a b] & Hin & Hid).
    apply list_elem_of_In in Hin. cbn [fst snd] in Hid.
    apply orb_true_iff in Hid. rewrite !Z.eqb_eq in Hid.
    rewrite mark_killed_id.
    do 4 (split; [unfold mark_killed; by destruct (is_destroyed (te_tank e))
                  |]).
    rewrite mark_killed_destroyed. split; [intros _ | done].
    destruct (is_destroyed (te_tank e)) eqn:Hd; [by left | right].
    apply Hprs in Hin as [Hpair Hcol].
    apply elem_of_id_pairs in Hpair as (Ha & Hb & Hne).
    specialize (Hne (NoDup_live_ids es Hnd)).
    apply elem_of_live_ids in Ha as (ea & Hea & <- & Hla).
    apply elem_of_live_ids in Hb as (eb & Heb & <- & Hlb).
    rewrite (Hcollide ea eb Hea Heb) in Hcol. apply pos_eqb_eq in Hcol.
    destruct Hid as [Hid | Hid].
    + assert (e = ea) as ->.
      { pose proof (find_entry_NoDup es e Hnd He) as F1.
        pose proof (find_entry_NoDup es ea Hnd Hea) as F2.
        rewrite Hid in F1. congruence. }
      exists eb. split_and!; [done | congruence | done | done].
    + assert (e = eb) as ->.
      { pose proof (find_entry_NoDup es e Hnd He) as F1.
        pose proof (find_entry_NoDup es eb Hnd Heb) as F2.
        rewrite Hid in F1. congruence. }
      exists ea. split_and!; [done | congruence | done | done].
  - do 4 (split; [done |]). split; [by left |].
    intros [Hd | (e2 & He2 & Hne & Hl2 & Heff)]; [done |].
    destruct (is_destroyed (te_tank e)) eqn:Hd; [done |].
    exfalso.
    assert (Hk' : (exists pr, pr ∈ prs
                              /\ (te_id e = fst pr \/ te_id e = snd pr))
                  -> False).
    { intros (pr & Hin & Hid).
      assert (existsb (fun pr => (te_id e =? fst pr) || (te_id e =? snd pr))
                      prs = true); [| congruence].
      apply existsb_exists. exists pr. split; [by apply list_elem_of_In |].
      apply orb_true_iff. by rewrite !Z.eqb_eq. }
    apply Hk'.
    assert (Ha : te_id e ∈ List.map te_id (live_entries es))
      by (apply elem_of_live_ids; by exists e).
    assert (Hb : te_id e2 ∈ List.map te_id (live_entries es))
      by (apply elem_of_live_ids; by exists e2).
    destruct (id_pairs_complete _ _ _ Ha Hb ltac:(congruence)) as [Hp | Hp].
    + exists (te_id e, te_id e2). split; [| by left].
      apply Hprs. split; [done |]. rewrite (Hcollide e e2 He He2).
      apply pos_eqb_eq. done.
    + exists (te_id e2, te_id e). split; [| by right].
      apply Hprs. split; [done |]. rewrite (Hcollide e2 e He2 He).
      apply pos_eqb_eq. done.
Qed.

(** The two neighbours that exchange their cells, for X21: no collision
    is found. *)
Lemma X21_tank_tank_collisions_witness :
  NoDup (List.map te_id swapping_entries)
  /\ tanks_collide swapping_entries (0, 1) = false.
Proof.
  assert (Hnd : NoDup (List.map te_id swapping_entries)) by compute_done.
  split; [exact Hnd |].
  destruct (X21_tank_tank_collisions swapping_entries Hnd) as [Hcollide _].
  assert (H1 : swap_left ∈ swapping_entries)
    by (apply elem_of_cons; by left).
  assert (H2 : swap_right ∈ swapping_entries)
    by (apply elem_of_cons; right; apply elem_of_cons; by left).
  exact (Hcollide swap_left swap_right H1 H2).
Defined.

(** ** ChasingAlgorithm.h: the answers of [getAction] *)

Lemma transition_tracks (a : ActionRequest) (t : Tank) (s : ChasingAlgorithm) :
  movementState t = INITIAL ->
  cannonDirection t = currentCannonDirection s ->
  a <> MoveBackward ->
  movementState (fst (transitionMovementState a t)) = INITIAL
  /\ cannonDirection (fst (transitionMovementState a t))
     = currentCannonDirection (track_rotation a s).
Proof.
  intros Hst Hdir Ha. unfold transitionMovementState. cbn zeta.
  cbn [movementState set_move_intent]. rewrite Hst.
  destruct a; try done; cbn -[DirectionUtils.rotate];
    try (by rewrite ?Hdir).
  destruct (can_shoot _); by rewrite ?Hdir.
Qed.

Lemma track_rotation_shells r s :
  ca_shells_remaining (track_rotation r s) = ca_shells_remaining s.
Proof. by destruct r. Qed.

Lemma inferShellDirections_shells s :
  ca_shells_remaining (fst (inferShellDirections s)) = ca_shells_remaining s
  /\ currentCannonDirection (fst (inferShellDirections s))
     = currentCannonDirection s.
Proof.
  unfold inferShellDirections.
  destruct (fold_left _ (findShellPositions s) (shell_directions s, []))
    as [dirs inferred].
  cbn. auto.
Qed.

Section AnswerFacts.
Variable isLineOfSightClear :
  Position -> Position -> Z -> Z -> list (list ascii) -> bool.

Lemma target_and_move_answers s myPos dirs :
  let r := target_and_move isLineOfSightClear s myPos dirs in
  fst r <> DoNothing /\ fst r <> MoveBackward
  /\ (fst r = Shoot ->
      0 < ca_shells_remaining s
      /\ ca_shells_remaining (snd r) = ca_shells_remaining s - 1)
  /\ (fst r <> Shoot -> ca_shells_remaining (snd r) = ca_shells_remaining s)
  /\ currentCannonDirection (snd r)
     = currentCannonDirection (track_rotation (fst r) s).
Proof.
  unfold target_and_move, rotate_to_search.
  destruct (match findOpponentInLine s with
            | Some p => Some p
            | None => findClosestOpponent s
            end) as [target |]; cbn.
  2: { split_and!; try done. }
  destruct (match calculateDirection myPos target with
            | Some d => _
            | None => false
            end) eqn:Hfire.
  { cbn. split_and!; try done. intros _.
    destruct (calculateDirection myPos target); [| discriminate].
    apply andb_prop in Hfire as [_ Hsh]. apply Z.ltb_lt in Hsh.
    split; [exact Hsh | done]. }
  destruct (findShortestPathBFS s myPos target) as [| nextPosition path];
    cbn.
  { split_and!; try done. }
  destruct (negb (isPositionInDanger s nextPosition dirs)); cbn.
  2: { split_and!; try done. }
  destruct (calculateDirection myPos nextPosition) as [req |]; cbn.
  2: { split_and!; try done. }
  destruct (_ && _); cbn.
  { split_and!; try done. }
  destruct (bool_decide _) eqn:Hdn; cbn.
  { split_and!; try done. }
  apply bool_decide_eq_false in Hdn.
  pose proof (track_rotation_shells
                (getShortestRotation (currentCannonDirection s) req) s) as Hs.
  destruct (getShortestRotation_cases (currentCannonDirection s) req)
    as [Hr | [Hr | [Hr | [Hr | Hr]]]]; rewrite Hr in *;
    split_and!; try done.
Qed.

Lemma combat_action_answers s2 :
  let r := combat_action isLineOfSightClear s2 in
  fst r <> DoNothing /\ fst r <> MoveBackward
  /\ (fst r = Shoot ->
      0 < ca_shells_remaining s2
      /\ ca_shells_remaining (snd r) = ca_shells_remaining s2 - 1)
  /\ (fst r <> Shoot -> ca_shells_remaining (snd r) = ca_shells_remaining s2)
  /\ currentCannonDirection (snd r)
     = currentCannonDirection (track_rotation (fst r) s2).
Proof.
  cbv zeta. unfold combat_action.
  destruct (inferShellDirections_shells s2) as [Hs3 Hd3].
  destruct (inferShellDirections s2) as [s3 dirs]; cbn in Hs3, Hd3.
  assert (Htrack : forall a,
             currentCannonDirection (track_rotation a s3)
             = currentCannonDirection (track_rotation a s2)).
  { intros a. destruct a; cbn; by rewrite ?Hd3. }
  rewrite <- Hs3.
  pose proof (target_and_move_answers s3 (findMyTankPosition s2) dirs)
    as Htm. cbv zeta in Htm.
  assert (Htm' :
            let r := target_and_move isLineOfSightClear s3
                       (findMyTankPosition s2) dirs in
            fst r <> DoNothing /\ fst r <> MoveBackward
            /\ (fst r = Shoot ->
                0 < ca_shells_remaining s3
                /\ ca_shells_remaining (snd r) = ca_shells_remaining s3 - 1)
            /\ (fst r <> Shoot ->
                ca_shells_remaining (snd r) = ca_shells_remaining s3)
            /\ currentCannonDirection (snd r)
               = currentCannonDirection (track_rotation (fst r) s2)).
  { cbv zeta. destruct Htm as (H1 & H2 & H3 & H4 & H5).
    split_and!; try done. by rewrite <- Htrack. }
  cbv zeta in Htm'.
  destruct (isPositionInDanger s3 (findMyTankPosition s2) dirs);
    [| exact Htm'].
  destruct (findSafeDirection s3 (findMyTankPosition s2) dirs)
    as [safe |]; [| exact Htm'].
  destruct (negb (dir_eqb (currentCannonDirection s3) safe)
            && negb (bool_decide (getShortestRotation
                                    (currentCannonDirection s3) safe
                                  = DoNothing))) eqn:Hrot.
  - cbn. apply andb_prop in Hrot as [_ Hdn].
    apply negb_true_iff, bool_decide_eq_false in Hdn.
    pose proof (track_rotation_shells
                  (getShortestRotation (currentCannonDirection s3) safe) s3)
      as Hs.
    rewrite Htrack.
    destruct (getShortestRotation_cases (currentCannonDirection s3) safe)
      as [Hr | [Hr | [Hr | [Hr | Hr]]]]; rewrite Hr in *;
      split_and!; try done.
  - destruct (dir_eqb (currentCannonDirection s3) safe); [| exact Htm'].
    cbn. split_and!; try done.
Qed.

(** X22.  The answers of [ChasingAlgorithm::getAction].  It never
    answers [DoNothing] or [MoveBackward].  It answers [Shoot] only
    while it counts at least one shell, and then takes one from its
    count; no other answer changes the count.  The cannon direction it
    tracks is the one a tank gets that obeys the answer: for a tank in
    state [INITIAL] whose cannon points where the strategy believes,
    [transitionMovementState] with the answer leaves the tank in
    [INITIAL] with the cannon where the strategy believes afterwards. *)
Theorem X22_chasing_answers (s : ChasingAlgorithm) (t : Tank) :
  let r := Chasing_getAction isLineOfSightClear s in
  let t' := fst (transitionMovementState (fst r) t) in
  fst r <> DoNothing /\ fst r <> MoveBackward
  /\ (fst r = Shoot ->
      0 < ca_shells_remaining s
      /\ ca_shells_remaining (snd r) = ca_shells_remaining s - 1)
  /\ (fst r <> Shoot -> ca_shells_remaining (snd r) = ca_shells_remaining s)
  /\ (movementState t = INITIAL ->
      cannonDirection t = currentCannonDirection s ->
      movementState t' = INITIAL
      /\ cannonDirection t' = currentCannonDirection (snd r)).
Proof.
  cbv zeta.
  assert (Hr : let r := Chasing_getAction isLineOfSightClear s in
               fst r <> DoNothing /\ fst r <> MoveBackward
               /\ (fst r = Shoot ->
                   0 < ca_shells_remaining s
                   /\ ca_shells_remaining (snd r) = ca_shells_remaining s - 1)
               /\ (fst r <> Shoot ->
                   ca_shells_remaining (snd r) = ca_shells_remaining s)
               /\ currentCannonDirection (snd r)
                  = currentCannonDirection (track_rotation (fst r) s)).
  { cbv zeta. unfold Chasing_getAction.
    set (s1 := if 0 <? ca_cooldown_remaining s then _ else s).
    assert (Hs1 : ca_shells_remaining s1 = ca_shells_remaining s
                  /\ currentCannonDirection s1 = currentCannonDirection s).
    { subst s1. by destruct (0 <? ca_cooldown_remaining s). }
    destruct Hs1 as [Hsh Hdir].
    destruct (shouldAskForBattleInfo s1).
    - cbn. split_and!; try done.
    - pose proof (combat_action_answers (set_ask (negb false) s1)) as Hc.
      cbv zeta in Hc. cbn [ca_shells_remaining set_ask] in Hc.
      rewrite Hsh in Hc.
      destruct Hc as (H1 & H2 & H3 & H4 & H5).
      split_and!; try done. rewrite H5.
      destruct (fst (combat_action _ _)); cbn; by rewrite ?Hdir. }
  cbv zeta in Hr. destruct Hr as (H1 & H2 & H3 & H4 & H5).
  split_and!; try done.
  intros Hst Hdir. rewrite H5. by apply transition_tracks.
Qed.

End AnswerFacts.

(** A tank in [INITIAL] that obeys the first answer of a fresh strategy,
    for X22. *)
Lemma X22_chasing_answers_witness :
  movementState
    (fst (transitionMovementState
            (fst (Chasing_getAction clear_sight (new_ChasingAlgorithm 16)))
            (sample_tank INITIAL 16 0))) = INITIAL.
Proof.
  apply (X22_chasing_answers clear_sight (new_ChasingAlgorithm 16)
           (sample_tank INITIAL 16 0)); reflexivity.
Defined.

(** ** GameManager.cpp: what a step keeps *)

Lemma step_frame_refl e : step_frame e e.
Proof. unfold step_frame. split_and!; try done. Qed.

Lemma step_frame_trans e1 e2 e3 :
  step_frame e1 e2 -> step_frame e2 e3 -> step_frame e1 e3.
Proof.
  intros (A1 & A2 & A3 & A4 & A5 & A6) (B1 & B2 & B3 & B4 & B5 & B6).
  unfold step_frame. split_and!; try congruence; try lia; [| auto].
  intros Hd. destruct (A5 Hd) as (C1 & C2 & C3).
  destruct (B5 C1) as (D1 & D2 & D3). split_and!; congruence.
Qed.

Lemma Forall2_step_frame_refl l : Forall2 step_frame l l.
Proof. induction l; constructor; auto using step_frame_refl. Qed.

Lemma Forall2_step_frame_trans l1 l2 l3 :
  Forall2 step_frame l1 l2 -> Forall2 step_frame l2 l3 ->
  Forall2 step_frame l1 l3.
Proof. apply Forall2_trans. intros ? ? ?. apply step_frame_trans. Qed.

Lemma step_frame_with_data f e :
  logged_action (f (te_data e)) = logged_action (te_data e) ->
  step_frame e (with_data f e).
Proof.
  intros Hl. unfold step_frame, log_ok, with_data. cbn. rewrite Hl.
  split_and!; try done; lia.
Qed.

Lemma step_frame_mark_killed e : step_frame e (mark_killed e).
Proof.
  unfold mark_killed. destruct (is_destroyed (te_tank e)) eqn:Hd;
    [apply step_frame_refl |].
  unfold step_frame, log_ok. cbn. split_and!; try done; lia.
Qed.

Lemma step_frame_update_entry id f es :
  (forall e, step_frame e (f e)) ->
  Forall2 step_frame es (update_entry id f es).
Proof.
  intros Hf. apply Forall2_map_same. intros e.
  destruct (te_id e =? id); auto using step_frame_refl.
Qed.

Lemma step_frame_tank_wall_block wps e :
  step_frame e (tank_wall_block wps e).
Proof.
  unfold tank_wall_block.
  destruct (_ && _); [| apply step_frame_refl].
  unfold step_frame, log_ok. cbn. split_and!; try done; lia.
Qed.

Lemma step_frame_update_tank_position e :
  step_frame e (update_tank_position e).
Proof.
  unfold update_tank_position.
  destruct (negb (is_destroyed (te_tank e))
            && negb (blocked_this_sub_step (te_data e))) eqn:E.
  - apply andb_prop in E as [Hl _]. apply negb_true_iff in Hl.
    unfold step_frame, log_ok. cbn.
    split_and!; try done; try lia; [congruence |].
    destruct (negb (pos_eqb _ _)); cbn; done.
  - destruct (blocked_this_sub_step (te_data e)); [| apply step_frame_refl].
    destruct (_ || _); [| apply step_frame_refl].
    unfold step_frame, log_ok. cbn. split_and!; try done; lia.
Qed.

Lemma step_frame_intend_entry max_speed gs e :
  step_frame e (intend_entry max_speed gs e).
Proof.
  unfold intend_entry. cbn zeta.
  cbn [with_data te_tank te_id te_data].
  destruct (move_intent_this_step (te_tank e)) eqn:Hmi.
  2: { by apply step_frame_with_data. }
  unfold updateMovementProgress. rewrite Hmi. cbn [negb].
  cbn zeta.
  destruct (_ <=? _); unfold step_frame, log_ok; cbn;
    (split_and!; try done; try lia).
Qed.

Lemma transition_identity a t :
  player_id (fst (transitionMovementState a t)) = player_id t
  /\ tank_id (fst (transitionMovementState a t)) = tank_id t
  /\ shells_remaining (fst (transitionMovementState a t))
     = shells_remaining t.
Proof.
  destruct t as [pos dead st pid tid prog dir ammo cd mult intent].
  unfold transitionMovementState. cbn zeta.
  cbn [movementState set_move_intent].
  destruct a, st; cbn; try done; by destruct (can_shoot _).
Qed.

Lemma step_frame_transition_entry e : step_frame e (transition_entry e).
Proof.
  unfold transition_entry.
  destruct (negb (is_destroyed (te_tank e))) eqn:Hl.
  2: { by apply step_frame_with_data. }
  apply negb_true_iff in Hl.
  destruct (transition_identity (action (te_data e)) (te_tank e))
    as (H1 & H2 & H3).
  destruct (transitionMovementState (action (te_data e)) (te_tank e))
    as [t' o] eqn:E.
  cbn [fst] in H1, H2, H3.
  unfold step_frame, log_ok. cbn.
  split_and!; try done; try lia; congruence.
Qed.

Section StepFrame.
Context {Strat : Type} `{TankAlgorithm Strat}.
Variable umap_order : list Z -> list Z.

Lemma step_frame_execute_entry p1 p2 e
    (st : list (list ascii) * list (GameObject Z) * gmap Z Strat) :
  step_frame e (fst (execute_entry p1 p2 e st)).
Proof.
  unfold execute_entry. destruct st as [[m objs] algos].
  repeat case_bool_decide; cbn [andb orb];
    try (unfold step_frame, log_ok; cbn; split_and!; try done; lia).
  all: try apply step_frame_refl.
  unfold shoot. destruct (can_shoot (te_tank e));
    unfold step_frame, log_ok; cbn; split_and!; try done; lia.
Qed.

Lemma step_frame_execute_entries p1 p2 es :
  forall st : list (list ascii) * list (GameObject Z) * gmap Z Strat,
    Forall2 step_frame es (fst (execute_entries p1 p2 es st)).
Proof.
  induction es as [| e es IH]; intros st; cbn; [constructor |].
  pose proof (step_frame_execute_entry p1 p2 e st) as He.
  destruct (execute_entry p1 p2 e st) as [e' st1].
  specialize (IH st1).
  destruct (execute_entries p1 p2 es st1) as [es' st2].
  constructor; done.
Qed.

Lemma step_frame_executeImmediateActions p1 p2 gs algos es :
  Forall2 step_frame es (snd (executeImmediateActions p1 p2 gs algos es)).
Proof.
  unfold executeImmediateActions.
  match goal with
  | |- context [execute_entries p1 p2 es ?st] =>
      pose proof (step_frame_execute_entries p1 p2 es st) as He;
      destruct (execute_entries p1 p2 es st) as [es' [[m objs] algos']]
  end.
  exact He.
Qed.

Lemma step_frame_getPlayerActions es : forall algos : gmap Z Strat,
  Forall2 step_frame es (fst (fst (getPlayerActions es algos))).
Proof.
  induction es as [| e es IH]; intros algos; cbn; [constructor |].
  assert (Ha : forall a, step_frame e (with_data (set_action a) e))
    by (intros a; by apply step_frame_with_data).
  destruct (negb (is_destroyed (te_tank e))).
  - destruct (algos !! te_id e) as [s |].
    + destruct (getAction s) as [a s'].
      specialize (IH (<[te_id e := s']> algos)).
      destruct (getPlayerActions es _) as [[rest' algos'] polled].
      constructor; [apply Ha | exact IH].
    + specialize (IH algos).
      destruct (getPlayerActions es _) as [[rest' algos'] polled].
      constructor; [apply Ha | exact IH].
  - specialize (IH algos).
    destruct (getPlayerActions es _) as [[rest' algos'] polled].
    constructor; [apply Ha | exact IH].
Qed.

Lemma step_frame_shell_tank_loop tep tcp objs sip es :
  Forall2 step_frame es (fst (shell_tank_loop tep tcp objs sip es)).
Proof.
  revert es. induction sip as [| [i p] rest IH]; intros es; cbn.
  - apply Forall2_step_frame_refl.
  - destruct (shell_at objs i) as [sh |]; [| apply IH].
    destruct (shell_is_destroyed sh); [apply IH |].
    destruct (List.find _ tep) as [[id q] |]; [| apply IH].
    specialize (IH (update_entry id mark_killed es)).
    destruct (shell_tank_loop tep tcp objs rest _) as [es' hit]; cbn in *.
    eapply Forall2_step_frame_trans; [| exact IH].
    apply step_frame_update_entry, step_frame_mark_killed.
Qed.

Lemma step_frame_tank_mine_fold mps tep gs es :
  Forall2 step_frame es (snd (fold_left (tank_mine_hit mps) tep (gs, es))).
Proof.
  revert gs es. induction tep as [| [id p] rest IH]; intros gs es; cbn.
  - apply Forall2_step_frame_refl.
  - destruct (bool_decide (p ∈ mps)); [| apply IH].
    destruct (getMineAt _ gs p) as [[mi mine] |]; [| apply IH].
    destruct (negb (mine_is_destroyed mine)); [| apply IH].
    eapply Forall2_step_frame_trans; [| apply IH].
    apply step_frame_update_entry, step_frame_mark_killed.
Qed.

Lemma step_frame_resolveTankTankCollisions es :
  Forall2 step_frame es (resolveTankTankCollisions es).
Proof.
  unfold resolveTankTankCollisions.
  generalize (List.filter (tanks_collide es)
                (id_pairs (List.map te_id (live_entries es)))).
  intros prs. revert es.
  induction prs as [| pr rest IH]; intros es; cbn.
  - apply Forall2_step_frame_refl.
  - eapply Forall2_step_frame_trans; [| apply IH].
    eapply Forall2_step_frame_trans;
      apply step_frame_update_entry, step_frame_mark_killed.
Qed.

Lemma step_frame_resolveCollisionsSubStep sip gs es :
  Forall2 step_frame es
          (snd (resolveCollisionsSubStep umap_order sip gs es)).
Proof.
  unfold resolveCollisionsSubStep.
  match goal with
  | |- context [resolveShellTankCollisions _ ?a ?b ?c] =>
      assert (H4 : Forall2 step_frame c
                     (snd (resolveShellTankCollisions umap_order a b c)));
      [| destruct (resolveShellTankCollisions umap_order a b c)
           as [gs4 es4]]
  end.
  { unfold resolveShellTankCollisions.
    match goal with
    | |- context [shell_tank_loop ?a ?b ?c ?d ?e] =>
        pose proof (step_frame_shell_tank_loop a b c d e) as Hk;
        destruct (shell_tank_loop a b c d e) as [es' hit]
    end.
    exact Hk. }
  match goal with
  | |- context [resolveTankMineCollisions _ ?a ?b ?c] =>
      pose proof (step_frame_tank_mine_fold a
                    (umap_iter umap_order
                       (List.map (fun e => (te_id e, effective_position e))
                                 (live_entries c))) b c) as H5;
      change (fold_left (tank_mine_hit a) _ (b, c))
        with (resolveTankMineCollisions umap_order a b c) in H5;
      destruct (resolveTankMineCollisions umap_order a b c) as [gs5 es5]
  end.
  cbn in *.
  eapply Forall2_step_frame_trans;
    [| apply step_frame_resolveTankTankCollisions].
  eapply Forall2_step_frame_trans; [| exact H5].
  eapply Forall2_step_frame_trans; [| exact H4].
  apply Forall2_map_same, step_frame_tank_wall_block.
Qed.

Lemma step_frame_sub_step max_speed gs es :
  Forall2 step_frame es (snd (sub_step umap_order max_speed gs es)).
Proof.
  unfold sub_step.
  destruct (calculateShellIntendedPositionsSubStep max_speed gs)
    as [gs1 sip].
  match goal with
  | |- context [resolveCollisionsSubStep _ ?a ?b ?c] =>
      pose proof (step_frame_resolveCollisionsSubStep a b c) as Hc;
      destruct (resolveCollisionsSubStep umap_order a b c) as [gs2 es2]
  end.
  cbn in *.
  eapply Forall2_step_frame_trans;
    [| apply Forall2_map_same, step_frame_update_tank_position].
  eapply Forall2_step_frame_trans; [| exact Hc].
  unfold calculateIntendedTankPositionsSubStep.
  eapply Forall2_step_frame_trans;
    [| apply Forall2_map_same, step_frame_intend_entry].
  apply Forall2_map_same. intros e. by apply step_frame_with_data.
Qed.

Lemma step_frame_sub_steps n max_speed : forall gs es,
  Forall2 step_frame es (snd (sub_steps umap_order n max_speed gs es)).
Proof.
  induction n as [| n IH]; intros gs es; cbn.
  - apply Forall2_step_frame_refl.
  - pose proof (step_frame_sub_step max_speed gs es) as Hs.
    destruct (sub_step umap_order max_speed gs es) as [gs' es'].
    cbn in Hs. destruct (any_tank_alive es'); [| exact Hs].
    eapply Forall2_step_frame_trans; [exact Hs | apply IH].
Qed.

Lemma step_frame_runMovement gs es :
  Forall2 step_frame es
          (snd (runMovementAndCollisionSubSteps umap_order gs es)).
Proof.
  unfold runMovementAndCollisionSubSteps.
  destruct (_ =? 0); [apply Forall2_step_frame_refl |].
  apply step_frame_sub_steps.
Qed.

Variable fresh_data : TankStepData.
Variable max_after : Z.

Lemma step_end_frame (gm : GameManager Strat) :
  Forall2 step_frame (prepareStep umap_order fresh_data (tanks gm))
          (snd (step_end umap_order fresh_data gm)).
Proof.
  unfold step_end.
  pose proof (step_frame_getPlayerActions
                (prepareStep umap_order fresh_data (tanks gm))
                (algorithms gm)) as H1.
  destruct (getPlayerActions _ _) as [[es1 algos1] polled]. cbn in H1.
  pose proof (step_frame_executeImmediateActions (player1 gm) (player2 gm)
                (state gm) algos1 (processTankTransitions es1)) as H3.
  destruct (executeImmediateActions _ _ _ _ _) as [[gs3 algos3] es3].
  cbn in H3.
  eapply Forall2_step_frame_trans; [exact H1 |].
  eapply Forall2_step_frame_trans;
    [apply Forall2_map_same, step_frame_transition_entry |].
  eapply Forall2_step_frame_trans; [exact H3 |].
  apply step_frame_runMovement.
Qed.

Lemma processStep_end (gm : GameManager Strat) :
  let gm' := fst (processStep umap_order fresh_data max_after gm) in
  let gs4 := fst (step_end umap_order fresh_data gm) in
  let es4 := snd (step_end umap_order fresh_data gm) in
  state gm' = cleanupDestroyedObjects (tank_of es4) gs4
  /\ tanks gm' = store_tanks es4 (tanks gm)
  /\ action_log gm' = action_log gm ++ omap log_entry es4.
Proof.
  cbn zeta. unfold processStep, step_end.
  destruct (getPlayerActions _ _) as [[es1 algos1] polled].
  destruct (executeImmediateActions _ _ _ _ _) as [[gs3 algos3] es3].
  destruct (runMovementAndCollisionSubSteps _ _ _) as [gs4 es4].
  destruct (checkShellDepletionStatus _ _ _ _) as [[[used steps] over5] win5].
  destruct (if negb over5 then _ else _) as [over6 win6].
  cbn. done.
Qed.

End StepFrame.

Lemma decrementCooldown_frame t : tank_frame t (decrementCooldown t).
Proof.
  unfold tank_frame, decrementCooldown.
  destruct (0 <? cooldown_remaining t); cbn; split_and!; try done; lia.
Qed.

Lemma Forall2_same_ids (R : TankEntry -> TankEntry -> Prop) es es' :
  (forall e e', R e e' -> te_id e' = te_id e) ->
  Forall2 R es es' -> List.map te_id es' = List.map te_id es.
Proof.
  intros HR Hall. induction Hall as [| e e' es es' He Hall IH]; [done |].
  cbn. f_equal; [by apply HR | exact IH].
Qed.

Lemma omap_all_Some {A B} (f : A -> option B) (g : A -> B) (l : list A) :
  (forall x, x ∈ l -> f x = Some (g x)) -> omap f l = List.map g l.
Proof.
  induction l as [| x l IH]; intros Hf; [done |]. cbn.
  rewrite (Hf x) by (apply elem_of_cons; by left).
  f_equal. apply IH. intros y Hy. apply Hf. apply elem_of_cons. by right.
Qed.

Lemma store_tanks_lookup es tks id t4 :
  id ∈ List.map fst tks -> tank_of es id = Some t4 ->
  assoc_lookup id (store_tanks es tks) = Some t4
  /\ (id, t4) ∈ store_tanks es tks.
Proof.
  intros Hid Ht. unfold store_tanks, assoc_lookup.
  induction tks as [| [k v] tks IH]; [by apply elem_of_nil in Hid |].
  cbn [List.map List.find fst snd].
  destruct (Z.eqb_spec k id) as [-> | Hne].
  - rewrite Ht. cbn. rewrite Z.eqb_refl. cbn.
    split; [done | apply elem_of_cons; by left].
  - assert (Hk : fst (match tank_of es k with
                      | Some t => (k, t)
                      | None => (k, decrementCooldown v)
                      end) = k) by (by destruct (tank_of es k)).
    rewrite Hk. rewrite (proj2 (Z.eqb_neq k id) Hne).
    cbn in Hid. apply elem_of_cons in Hid as [Hid | Hid]; [congruence |].
    destruct (IH Hid) as [H1 H2].
    split; [exact H1 | apply elem_of_cons; by right].
Qed.

Section StepInvariants.
Context {Strat : Type} `{TankAlgorithm Strat}.
Variable umap_order : list Z -> list Z.
Variable fresh_data : TankStepData.
Variable max_after : Z.
Hypothesis umap_order_perm : forall l, NoDup l -> umap_order l ≡ₚ l.

Variable gm : GameManager Strat.
Hypothesis keys_distinct : NoDup (List.map fst (tanks gm)).

Lemma step_end_ids :
  List.map te_id (snd (step_end umap_order fresh_data gm))
  = umap_order (List.map fst (tanks gm)).
Proof.
  rewrite <- (prepareStep_ids umap_order fresh_data umap_order_perm
                (tanks gm) keys_distinct).
  apply (Forall2_same_ids step_frame); [| apply step_end_frame].
  by intros e e' (Hid & _).
Qed.

Lemma step_end_NoDup :
  NoDup (List.map te_id (snd (step_end umap_order fresh_data gm))).
Proof.
  rewrite step_end_ids.
  by rewrite (umap_order_perm _ keys_distinct).
Qed.

Lemma step_end_key e :
  e ∈ snd (step_end umap_order fresh_data gm) ->
  te_id e ∈ List.map fst (tanks gm).
Proof.
  intros He.
  assert (Hin : te_id e
                ∈ List.map te_id (snd (step_end umap_order fresh_data gm))).
  { apply list_elem_of_In, in_map. by apply list_elem_of_In. }
  rewrite step_end_ids in Hin.
  by rewrite (umap_order_perm _ keys_distinct) in Hin.
Qed.

Lemma prepareStep_log_ok e :
  e ∈ prepareStep umap_order fresh_data (tanks gm) -> log_ok e.
Proof.
  unfold prepareStep. intros He.
  apply list_elem_of_In, in_map_iff in He as ([k [t d]] & <- & Hkv).
  apply list_elem_of_In in Hkv.
  match type of Hkv with
  | _ ∈ umap_iter _ ?ins =>
      assert (Hnd : NoDup (List.map fst ins))
  end.
  { rewrite !List.map_map. cbn. exact keys_distinct. }
  destruct (umap_iter_spec umap_order umap_order_perm _ Hnd) as [_ Hsub].
  apply Hsub in Hkv.
  apply list_elem_of_In, in_map_iff in Hkv as ([k1 t1] & Heq & _).
  cbn in Heq. injection Heq as <- <- <-.
  unfold log_ok, init_step_data. cbn.
  by destruct (is_destroyed t1).
Qed.

(** Every entry at the end of the step comes from a tank of the map. *)
Lemma step_end_origin e4 :
  e4 ∈ snd (step_end umap_order fresh_data gm) ->
  exists t,
    (te_id e4, t) ∈ tanks gm
    /\ tank_frame t (te_tank e4)
    /\ log_ok e4.
Proof.
  intros He4.
  apply list_elem_of_lookup in He4 as [i Hi].
  destruct (Forall2_lookup_r _ _ _ _ _
              (step_end_frame umap_order fresh_data gm) Hi)
    as (e0 & Hi0 & Hf).
  apply list_elem_of_lookup_2 in Hi0.
  destruct (prepareStep_elem umap_order fresh_data umap_order_perm
              (tanks gm) e0 keys_distinct Hi0) as (t & Ht & He0).
  pose proof (prepareStep_log_ok e0 Hi0) as Hlog.
  destruct Hf as (F1 & F2 & F3 & F4 & F5 & F6).
  destruct (decrementCooldown_frame t) as (D1 & D2 & D3 & D4).
  rewrite <- He0 in D1, D2, D3, D4.
  exists t. split_and!; [by rewrite F1 | | by apply F6].
  unfold tank_frame. split_and!; [congruence | congruence | lia |].
  intros Hd. destruct (D4 Hd) as (G1 & G2 & G3).
  destruct (F5 G1) as (K1 & K2 & K3). split_and!; congruence.
Qed.

Lemma step_end_tank_of e4 :
  e4 ∈ snd (step_end umap_order fresh_data gm) ->
  tank_of (snd (step_end umap_order fresh_data gm)) (te_id e4)
  = Some (te_tank e4).
Proof.
  intros He4. unfold tank_of.
  by rewrite (find_entry_NoDup _ e4 step_end_NoDup He4).
Qed.

(** X23.  What a step does to the [tanks] map, for a map with distinct
    keys.  The keys stay as they are, in the same order.  Every tank
    keeps its player and its tank id; its ammunition never grows; and a
    tank that was destroyed before the step is destroyed after it, on
    the same cell, its cannon unturned. *)
Theorem X23_step_keeps_tanks :
  let gm' := fst (processStep umap_order fresh_data max_after gm) in
  List.map fst (tanks gm') = List.map fst (tanks gm)
  /\ NoDup (List.map fst (tanks gm'))
  /\ Forall2 (fun kt kt' => fst kt' = fst kt
                            /\ tank_frame (snd kt) (snd kt'))
             (tanks gm) (tanks gm').
Proof.
  cbn zeta.
  destruct (processStep_end umap_order fresh_data max_after gm)
    as (_ & Htanks & _).
  rewrite Htanks. unfold store_tanks.
  set (es4 := snd (step_end umap_order fresh_data gm)).
  assert (Hkeys : List.map fst
                    (List.map (fun kt => match tank_of es4 (fst kt) with
                                         | Some t => (fst kt, t)
                                         | None =>
                                             (fst kt,
                                              decrementCooldown (snd kt))
                                         end) (tanks gm))
                  = List.map fst (tanks gm)).
  { rewrite List.map_map. apply map_ext. intros kt.
    by destruct (tank_of es4 (fst kt)). }
  split_and!; [exact Hkeys | by rewrite Hkeys |].
  change (@List.map) with (@fmap list _).
  apply Forall2_fmap_r, Forall_Forall2_diag, Forall_forall.
  intros [id t] Hin. unfold compose. cbn [fst snd].
  destruct (tank_of es4 id) as [t4 |] eqn:Ht4; cbn [fst snd].
  2: { split; [done | apply decrementCooldown_frame]. }
  split; [done |].
  unfold tank_of in Ht4.
  destruct (find_entry id es4) as [e4 |] eqn:Hf; [| discriminate].
  injection Ht4 as <-.
  apply find_entry_elem in Hf as [He4 Hid].
  destruct (step_end_origin e4 He4) as (t0 & Ht0 & Hframe & _).
  rewrite Hid in Ht0.
  by rewrite (NoDup_fst_functional _ _ _ _ keys_distinct Hin Ht0).
Qed.

(** X24.  The log of a step, for a map with distinct keys whose tanks
    all have a player id other than 0: [processStep] appends exactly
    one record per tank of the map, destroyed or not, in the traversal
    order of [tank_data]; each record carries the id and the player of
    its tank, and is marked destroyed when the tank is destroyed after
    the step.  So the log grows by the size of the map in every step,
    which is what the grouping in [writeGameResults] relies on. *)
Theorem X24_step_log :
  (forall id t, (id, t) ∈ tanks gm -> player_id t <> 0) ->
  let gm' := fst (processStep umap_order fresh_data max_after gm) in
  exists records,
    action_log gm' = action_log gm ++ records
    /\ List.map la_tank_id records = umap_order (List.map fst (tanks gm))
    /\ length records = length (tanks gm)
    /\ Forall (fun la =>
                 exists t',
                   (la_tank_id la, t') ∈ tanks gm'
                   /\ la_player_id la = player_id t'
                   /\ (is_destroyed t' = true ->
                       la_was_tank_destroyed la = true))
              records.
Proof.
  intros Hplayers. cbn zeta.
  destruct (processStep_end umap_order fresh_data max_after gm)
    as (_ & Htanks & Hlog).
  rewrite Htanks, Hlog.
  set (es4 := snd (step_end umap_order fresh_data gm)).
  set (record := fun e : TankEntry =>
         let la := logged_action (te_data e) in
         if is_destroyed (te_tank e)
         then mkLoggedAction (la_player_id la) (la_tank_id la) (la_action la)
                (la_is_bad la) true (la_killed_this_step la) (la_tank la)
         else la).
  assert (Hrec : forall e, e ∈ es4 ->
             log_entry e = Some (record e)
             /\ la_tank_id (record e) = te_id e
             /\ la_player_id (record e) = player_id (te_tank e)
             /\ (is_destroyed (te_tank e) = true ->
                 la_was_tank_destroyed (record e) = true)).
  { intros e He.
    destruct (step_end_origin e He) as (t & Ht & (P1 & _) & [L1 L2]).
    assert (Hp : la_player_id (record e) = player_id (te_tank e)).
    { subst record. cbn. by destruct (is_destroyed (te_tank e)). }
    split_and!.
    - unfold log_entry. fold (record e). rewrite Hp, P1.
      by rewrite (proj2 (Z.eqb_neq _ _) (Hplayers _ _ Ht)).
    - subst record. cbn. by destruct (is_destroyed (te_tank e)).
    - exact Hp.
    - intros Hd. subst record. cbn. by rewrite Hd. }
  exists (List.map record es4).
  assert (Hids : List.map la_tank_id (List.map record es4)
                 = umap_order (List.map fst (tanks gm))).
  { rewrite <- step_end_ids. fold es4. rewrite List.map_map.
    apply map_ext_in. intros e He. apply list_elem_of_In in He.
    by destruct (Hrec e He) as (_ & ? & _). }
  split_and!.
  - f_equal. apply omap_all_Some. intros e He.
    by destruct (Hrec e He) as (? & _).
  - exact Hids.
  - rewrite <- (length_map la_tank_id), Hids.
    rewrite (umap_order_perm _ keys_distinct). by rewrite length_map.
  - apply Forall_forall. intros la Hla.
    apply list_elem_of_In, in_map_iff in Hla as (e & <- & He).
    apply list_elem_of_In in He.
    destruct (Hrec e He) as (_ & Hid & Hp & Hd).
    exists (te_tank e). rewrite Hid. split_and!; [| exact Hp | exact Hd].
    apply (store_tanks_lookup es4 (tanks gm));
      [by apply step_end_key | by apply step_end_tank_of].
Qed.

(** X25.  After a step, for a map with distinct keys, [state->objects]
    holds no destroyed object any more: every shell, wall and mine in it
    is live, and every tank in it is a live tank of the [tanks] map. *)
Theorem X25_step_cleans_up :
  let gm' := fst (processStep umap_order fresh_data max_after gm) in
  let view id := assoc_lookup id (tanks gm') in
  forall o,
    o ∈ objects (state gm') ->
    obj_is_destroyed view o = false
    /\ (forall id, o = TankObj id ->
          exists t, (id, t) ∈ tanks gm' /\ is_destroyed t = false).
Proof.
  cbn zeta.
  destruct (processStep_end umap_order fresh_data max_after gm)
    as (Hstate & Htanks & _).
  rewrite Hstate, Htanks.
  set (es4 := snd (step_end umap_order fresh_data gm)).
  intros o Ho. unfold cleanupDestroyedObjects in Ho. cbn in Ho.
  apply list_elem_of_In, filter_In in Ho as [_ Hlive].
  apply negb_true_iff in Hlive.
  destruct o as [id | sh | w | m]; cbn in Hlive |- *;
    try (split; [exact Hlive | intros ? [=]]).
  destruct (tank_of es4 id) as [t4 |] eqn:Ht4; [| discriminate].
  assert (Hkey : id ∈ List.map fst (tanks gm)).
  { unfold tank_of in Ht4.
    destruct (find_entry id es4) as [e4 |] eqn:Hf; [| discriminate].
    apply find_entry_elem in Hf as [He4 <-]. by apply step_end_key. }
  destruct (store_tanks_lookup es4 (tanks gm) id t4 Hkey Ht4) as [Hl Hin].
  rewrite Hl. split; [exact Hlive |].
  intros id' [= <-]. by exists t4.
Qed.

End StepInvariants.

(** The first step of the duel, for X23. *)
Lemma X23_step_keeps_tanks_witness :
  List.map fst (tanks (fst (processStep (fun l => l) sample_data 40 duel1)))
  = List.map fst (tanks duel1).
Proof.
  assert (Hnd : NoDup (List.map fst (tanks duel1))) by compute_done.
  apply (X23_step_keeps_tanks (fun l => l) sample_data 40
           (fun l _ => reflexivity l) duel1 Hnd).
Defined.

(** The first step of the duel, for X24: two records are appended. *)
Lemma X24_step_log_witness :
  exists records,
    action_log (fst (processStep (fun l => l) sample_data 40 duel1))
    = action_log duel1 ++ records
    /\ length records = length (tanks duel1).
Proof.
  assert (Hnd : NoDup (List.map fst (tanks duel1))) by compute_done.
  assert (Hpl : forall id t, (id, t) ∈ tanks duel1 -> player_id t <> 0).
  { intros id t Hin.
    apply elem_of_cons in Hin as [Hin | Hin];
      [| apply elem_of_cons in Hin as [Hin | Hin]; [| inversion Hin]];
      injection Hin as -> ->; discriminate. }
  destruct (X24_step_log (fun l => l) sample_data 40
              (fun l _ => reflexivity l) duel1 Hnd Hpl)
    as (records & Hlog & _ & Hlen & _).
  exists records. split; [exact Hlog | exact Hlen].
Defined.

(** The first step of the duel, for X25: unit 0 is still on the board
    and live. *)
Lemma X25_step_cleans_up_witness :
  obj_is_destroyed
    (fun id =>
       assoc_lookup id
         (tanks (fst (processStep (fun l => l) sample_data 40 duel1))))
    (TankObj 0) = false.
Proof.
  assert (Hnd : NoDup (List.map fst (tanks duel1))) by compute_done.
  assert (Ho : TankObj 0
               ∈ objects (state (fst (processStep (fun l => l) sample_data
                                                  40 duel1)))).
  { replace (objects (state (fst (processStep (fun l => l) sample_data 40
                                              duel1))))
      with [@TankObj Z 0; TankObj 1] by (vm_compute; reflexivity).
    apply elem_of_cons. by left. }
  apply (X25_step_cleans_up (fun l => l) sample_data 40
           (fun l _ => reflexivity l) duel1 Hnd (TankObj 0) Ho).
Defined.

(** ** GameManager.cpp: the rendering *)

Lemma rect_render_object view gs h w board obj :
  rect h w board -> rect h w (render_object view gs board obj).
Proof.
  intros Hr. unfold render_object. cbn zeta.
  repeat case_match; try done. by apply rect_set.
Qed.

Lemma rect_fold_render_object view gs h w objs : forall board,
  rect h w board -> rect h w (fold_left (render_object view gs) objs board).
Proof.
  induction objs as [| o objs IH]; intros board Hr; [done |].
  cbn. by apply IH, rect_render_object.
Qed.

Lemma render_fold (view : Z -> option Tank) (gs : GameState Z)
    (board0 : list (list ascii)) (x y : Z) (objs : list (GameObject Z)) :
  rect (Z.to_nat (board_height gs)) (Z.to_nat (board_width gs)) board0 ->
  0 <= x < board_width gs -> 0 <= y < board_height gs ->
  forall i,
    matrix_get (fold_left (render_object view gs) objs board0) y x
    = match getObjectAt_from view i (rev objs) (mkPos x y) with
      | Some (_, o) => obj_symbol view o
      | None => matrix_get board0 y x
      end.
Proof.
  intros Hr Hx Hy. induction objs as [| o objs IH] using rev_ind; intros i.
  - done.
  - rewrite fold_left_app, rev_app_distr. cbn [rev app fold_left].
    cbn [getObjectAt_from].
    pose proof (rect_fold_render_object view gs _ _ objs board0 Hr) as Hr'.
    set (board := fold_left (render_object view gs) objs board0) in *.
    unfold render_object. cbn zeta.
    destruct (obj_is_destroyed view o) eqn:Hd; cbn [negb andb].
    { apply IH. }
    destruct (pos_eqb (obj_position view o) (mkPos x y)) eqn:Hp.
    + apply pos_eqb_eq in Hp. rewrite Hp. cbn [px py].
      unfold isValidPosition. cbn [px py].
      rewrite !(proj2 (Z.leb_le _ _)) by lia.
      rewrite !(proj2 (Z.ltb_lt _ _)) by lia. cbn [andb].
      rewrite (matrix_get_set_same (Z.to_nat (board_height gs))
                 (Z.to_nat (board_width gs)) board (mkPos y x)) by
        (try done; unfold on_board; cbn; lia).
      unfold render. by rewrite Hd.
    + apply pos_eqb_neq in Hp.
      destruct (isValidPosition gs (obj_position view o)); [| apply IH].
      destruct (_ && _); [| apply IH].
      rewrite matrix_get_set_other; [apply IH |].
      intros [= E1 E2]. apply Hp. destruct (obj_position view o). cbn in *.
      congruence.
Qed.

Lemma matrix_get_new (w h : Z) (c : ascii) (x y : Z) :
  0 <= x < w -> 0 <= y < h -> matrix_get (matrix_new w h c) x y = c.
Proof.
  intros Hx Hy. unfold matrix_get, matrix_new.
  destruct (Z.ltb_spec x 0); [lia |]. destruct (Z.ltb_spec y 0); [lia |].
  cbn [orb]. rewrite lookup_replicate_2 by lia.
  by rewrite lookup_replicate_2 by lia.
Qed.

Lemma length_flat_map_rows {A} (f : list A -> list A) (n : nat)
    (rows : list (list A)) :
  (forall row, row ∈ rows -> length (f row) = n) ->
  length (flat_map f rows) = (length rows * n)%nat.
Proof.
  induction rows as [| row rows IH]; intros Hrows; [done |].
  cbn. rewrite length_app, IH, Hrows; [lia | apply elem_of_cons; by left |].
  intros r Hr. apply Hrows. apply elem_of_cons. by right.
Qed.

(** X26.  [renderGameState] on a board of non-negative dimensions.  The
    string has [board_height + 2] lines of [board_width + 2] characters,
    each ended by a newline.  A cell of the board shows the symbol of
    the last object of [state->objects] that is not destroyed and stands
    on it (where [getObjectAt] answers with the first), and ['.'] when
    there is none; an object outside the board is skipped. *)
Theorem X26_render (view : Z -> option Tank) (gs : GameState Z) :
  0 <= board_width gs -> 0 <= board_height gs ->
  let board := render_board view gs in
  rect (Z.to_nat (board_height gs)) (Z.to_nat (board_width gs)) board
  /\ (forall x y,
         0 <= x < board_width gs -> 0 <= y < board_height gs ->
         matrix_get board y x
         = match getObjectAt view (set_objects (rev (objects gs)) gs)
                             (mkPos x y) with
           | Some (_, o) => obj_symbol view o
           | None => "."%char
           end)
  /\ Z.of_nat (length (renderGameState view gs))
     = (board_height gs + 2) * (board_width gs + 3).
Proof.
  intros Hw Hh board.
  assert (Hrect : rect (Z.to_nat (board_height gs))
                       (Z.to_nat (board_width gs)) board).
  { apply rect_fold_render_object, rect_new. }
  split_and!; [exact Hrect | |].
  - intros x y Hx Hy. subst board. unfold render_board, getObjectAt.
    cbn [objects set_objects].
    rewrite (render_fold view gs _ x y (objects gs) (rect_new _ _ _) Hx Hy
               0%nat).
    destruct (getObjectAt_from view 0 (rev (objects gs)) (mkPos x y))
      as [[j o] |]; [done |].
    by apply matrix_get_new.
  - unfold renderGameState. cbn zeta. fold board.
    destruct Hrect as [Hrows Hcols].
    rewrite !length_app.
    rewrite (length_flat_map_rows _
               (Z.to_nat (board_width gs) + 3)%nat).
    2: { intros row Hrow. rewrite Forall_forall in Hcols.
         cbn. rewrite length_app, (Hcols row Hrow). cbn. lia. }
    cbn [length]. rewrite length_app, length_replicate, Hrows. cbn [length].
    nia.
Qed.

(** A shell over a mine on a 3 x 3 board, for X26: the rendering has 5
    lines of 6 characters. *)
Lemma X26_render_witness :
  Z.of_nat (length (renderGameState (fun _ => None) shell_mine_board))
  = 30.
Proof.
  apply (X26_render (fun _ => None) shell_mine_board); cbn; lia.
Defined.

(** ** ChasingAlgorithm.h: danger and escape *)

Lemma shell_threatens_spec (s : ChasingAlgorithm) (pos : Position)
    (d : Direction) (n : nat) :
  forall cp,
    shell_threatens n s pos cp d = true
    <-> exists k,
          (1 <= k <= n)%nat
          /\ ray_cell (ca_board_width s) (ca_board_height s) cp d k = pos
          /\ forall j, (1 <= j < k)%nat ->
               cell (board_matrix s)
                    (ray_cell (ca_board_width s) (ca_board_height s) cp d j)
               <> "#"%char.
Proof.
  unfold ray_cell.
  induction n as [| n IH]; intros cp.
  - cbn. split; [discriminate | intros (k & Hk & _); lia].
  - cbn [shell_threatens].
    set (step := fun q => wrap_step (ca_board_width s) (ca_board_height s)
                                    q d) in *.
    change (wrap_step (ca_board_width s) (ca_board_height s) cp d)
      with (step cp).
    destruct (pos_eqb (step cp) pos) eqn:Ep.
    { apply pos_eqb_eq in Ep. split; [intros _ | done].
      exists 1%nat. split_and!; [lia | lia | done | intros; lia]. }
    apply pos_eqb_neq in Ep.
    destruct (bool_decide (cell (board_matrix s) (step cp) = "#"%char))
      eqn:Ew.
    { apply bool_decide_eq_true in Ew. split; [discriminate |].
      intros (k & Hk & Hpos & Hfree). exfalso.
      destruct (decide (k = 1%nat)) as [-> | Hne]; [by apply Ep |].
      apply (Hfree 1%nat); [lia | exact Ew]. }
    apply bool_decide_eq_false in Ew.
    rewrite IH. split.
    + intros (k & Hk & Hpos & Hfree). exists (S k).
      split_and!; [lia | lia | by rewrite Nat.iter_succ_r |].
      intros j Hj. destruct j as [| j]; [lia |].
      rewrite Nat.iter_succ_r.
      destruct (decide (j = 0%nat)) as [-> | Hj0]; [exact Ew |].
      apply Hfree. lia.
    + intros (k & Hk & Hpos & Hfree).
      destruct k as [| k]; [lia |].
      destruct (decide (k = 0%nat)) as [-> | Hk0]; [by destruct Ep |].
      exists k. split_and!; [lia | lia | by rewrite <- Nat.iter_succ_r |].
      intros j Hj. rewrite <- Nat.iter_succ_r. apply Hfree. lia.
Qed.

(** X27.  [isPositionInDanger] holds exactly when the cell lies on the
    path of one of the listed shells, at most four steps ahead of it on
    the wrap-around board, with no wall on the path before the cell; a
    wall on the cell itself does not shield it. *)
Theorem X27_position_in_danger (s : ChasingAlgorithm) (pos : Position)
    (shells : list (Position * Direction)) :
  isPositionInDanger s pos shells = true
  <-> exists shell_pos d k,
        (shell_pos, d) ∈ shells
        /\ (1 <= k <= 4)%nat
        /\ ray_cell (ca_board_width s) (ca_board_height s) shell_pos d k
           = pos
        /\ forall j, (1 <= j < k)%nat ->
             cell (board_matrix s)
                  (ray_cell (ca_board_width s) (ca_board_height s)
                            shell_pos d j)
             <> "#"%char.
Proof.
  unfold isPositionInDanger. rewrite existsb_exists. split.
  - intros ([sp d] & Hin & Ht). cbn [fst snd] in Ht.
    apply shell_threatens_spec in Ht as (k & Hk & Hpos & Hfree).
    exists sp, d, k. split; [by apply list_elem_of_In | done].
  - intros (sp & d & k & Hin & Hk & Hpos & Hfree).
    exists (sp, d). split; [by apply list_elem_of_In |]. cbn [fst snd].
    apply shell_threatens_spec. by exists k.
Qed.

(** A shell two cells to the left flying RIGHT, for X27. *)
Lemma X27_position_in_danger_witness :
  isPositionInDanger
    (mkChasing false
       [[" "; " "; " "]; [" "; " "; " "]; [" "; " "; " "]]%char
       RIGHT true 0 5 1 3 3 ∅ ∅)
    (mkPos 2 1) [(mkPos 0 1, RIGHT)] = true.
Proof.
  apply (proj2 (X27_position_in_danger _ _ _)).
  exists (mkPos 0 1), RIGHT, 2%nat.
  split_and!; [apply elem_of_cons; by left | lia | lia | reflexivity |].
  intros j Hj. assert (j = 1%nat) as -> by lia. discriminate.
Defined.

Lemma fold_best_in {A} (f : Direction * A -> Direction -> Direction * A)
    (l : list Direction) (P : Direction -> Prop) :
  (forall best dir, P (fst best) -> P dir ->
                    P (fst (f best dir))) ->
  forall best, P (fst best) -> Forall P l -> P (fst (fold_left f l best)).
Proof.
  intros Hf. induction l as [| d l IH]; intros best Hb Hl; [done |].
  cbn. apply Forall_cons in Hl as [Hd Hl]. apply IH; [| done].
  by apply Hf.
Qed.

(** X28.  [findSafeDirection] answers with a direction whose neighbouring
    cell (across the board edges) is not endangered by the listed shells
    and is neither a wall nor a mine; it has no answer exactly when no
    direction is like that. *)
Theorem X28_safe_direction (s : ChasingAlgorithm) (current_pos : Position)
    (shells : list (Position * Direction)) :
  let safe dir :=
    let new_pos :=
      wrap_step (ca_board_width s) (ca_board_height s) current_pos dir in
    isPositionInDanger s new_pos shells = false
    /\ cell (board_matrix s) new_pos <> "#"%char
    /\ cell (board_matrix s) new_pos <> "@"%char in
  (forall dir, findSafeDirection s current_pos shells = Some dir -> safe dir)
  /\ (findSafeDirection s current_pos shells = None
      <-> forall dir, ~ safe dir).
Proof.
  cbn zeta. unfold findSafeDirection. cbn zeta.
  set (test := fun dir =>
         negb (isPositionInDanger s
                 (wrap_step (ca_board_width s) (ca_board_height s)
                            current_pos dir) shells)
         && negb (bool_decide
                    (cell (board_matrix s)
                       (wrap_step (ca_board_width s) (ca_board_height s)
                                  current_pos dir) = "#"%char))
         && negb (bool_decide
                    (cell (board_matrix s)
                       (wrap_step (ca_board_width s) (ca_board_height s)
                                  current_pos dir) = "@"%char))).
  assert (Htest : forall dir,
             test dir = true
             <-> isPositionInDanger s
                   (wrap_step (ca_board_width s) (ca_board_height s)
                              current_pos dir) shells = false
                 /\ cell (board_matrix s)
                      (wrap_step (ca_board_width s) (ca_board_height s)
                                 current_pos dir) <> "#"%char
                 /\ cell (board_matrix s)
                      (wrap_step (ca_board_width s) (ca_board_height s)
                                 current_pos dir) <> "@"%char).
  { intros dir. subst test. cbn beta.
    rewrite !andb_true_iff, !negb_true_iff, !bool_decide_eq_false. tauto. }
  assert (Hall : forall dir, dir ∈ directions)
    by (intros dir; destruct dir; compute_done).
  assert (Hfilter : forall dir,
             dir ∈ List.filter test directions <-> test dir = true).
  { intros dir. rewrite list_elem_of_In, filter_In, <- list_elem_of_In.
    split; [tauto | intros Ht; split; [apply Hall | exact Ht]]. }
  destruct (List.filter test directions) as [| first rest] eqn:Ef.
  - split; [discriminate |]. split; [intros _ | done].
    intros dir Hsafe. apply Htest, Hfilter in Hsafe.
    by apply elem_of_nil in Hsafe.
  - split.
    + intros dir Hdir. injection Hdir as Hdir. apply Htest.
      rewrite <- Hdir.
      assert (Hfirst : test first = true)
        by (apply Hfilter, elem_of_cons; by left).
      assert (Hrest : Forall (fun d => test d = true) (first :: rest))
        by (apply Forall_forall; intros d Hd; by apply Hfilter).
      match goal with
      | |- test (fst (fold_left ?f ?l ?b)) = true =>
          apply (fold_best_in f l (fun d => test d = true))
      end.
      * intros best d Hb Hd. cbn beta.
        repeat case_match; cbn [fst]; done.
      * first [exact Hfirst | repeat case_match; cbn [fst]; done].
      * first [exact Hrest | by apply Forall_cons in Hrest as [_ ?]].
    + split; [discriminate |]. intros Hnone. exfalso.
      apply (Hnone first), Htest, Hfilter. apply elem_of_cons. by left.
Qed.

(** ** Shells against tanks *)

Lemma shell_tank_loop_closed tep tcp objs sip : forall cur,
  shell_tank_loop tep tcp objs sip cur
  = (fold_left (fun es id => update_entry id mark_killed es)
               (omap (shell_victim tep tcp objs) sip) cur,
     List.map fst
       (List.filter
          (fun ip => bool_decide (is_Some (shell_victim tep tcp objs ip)))
          sip)).
Proof.
  induction sip as [| [i p] rest IH]; intros cur; [done |].
  cbn [shell_tank_loop omap list_omap List.filter].
  remember (shell_victim tep tcp objs (i, p)) as v eqn:Hv.
  unfold shell_victim in Hv. cbn [fst snd] in Hv.
  destruct (shell_at objs i) as [shell |];
    [destruct (shell_is_destroyed shell);
     [| destruct (List.find _ tep) as [[id q] |]] |];
    subst v; cbn; by rewrite IH.
Qed.

Lemma fold_mark_killed_ids (ids : list Z) : forall es : list TankEntry,
  fold_left (fun es id => update_entry id mark_killed es) ids es
  = List.map
      (fun e =>
         if existsb (fun id => te_id e =? id) ids then mark_killed e else e)
      es.
Proof.
  induction ids as [| id ids IH]; intros es.
  - cbn. by rewrite map_id.
  - cbn [fold_left existsb]. rewrite IH. unfold update_entry.
    rewrite !List.map_map. apply map_ext. intros e.
    destruct (te_id e =? id); cbn [orb]; [| done].
    rewrite mark_killed_id.
    destruct (existsb _ ids); by rewrite ?mark_killed_idem.
Qed.

Lemma shell_live_fold_destroy (hitting : list nat) :
  forall (objs : list (GameObject Z)) (i : nat),
    shell_live (fold_left (fun o k => destroy_shell_at k o) hitting objs) i
    = shell_live objs i && negb (bool_decide (i ∈ hitting)).
Proof.
  induction hitting as [| k hitting IH]; intros objs i; cbn [fold_left].
  - rewrite bool_decide_eq_false_2; [by rewrite andb_true_r |].
    apply not_elem_of_nil.
  - rewrite IH, shell_live_destroy_shell_at.
    destruct (decide (k = i)) as [-> | Hne].
    + rewrite (bool_decide_eq_true_2 (i ∈ i :: hitting));
        [by rewrite andb_false_r | apply elem_of_cons; by left].
    + f_equal. f_equal. apply bool_decide_ext.
      rewrite elem_of_cons. intuition congruence.
Qed.

Lemma other_objects_fold_destroy (hitting : list nat) :
  forall (objs : list (GameObject Z)) (i : nat),
    shell_at objs i = None ->
    fold_left (fun o k => destroy_shell_at k o) hitting objs !! i
    = objs !! i.
Proof.
  induction hitting as [| k hitting IH]; intros objs i Hi; cbn [fold_left];
    [done |].
  assert (Hstep : destroy_shell_at k objs !! i = objs !! i).
  { unfold destroy_shell_at. destruct (decide (k = i)) as [-> | Hne].
    - rewrite list_lookup_alter_eq. unfold shell_at in Hi.
      destruct (objs !! i) as [[] |]; cbn in *; congruence.
    - by rewrite list_lookup_alter_ne. }
  rewrite IH; [exact Hstep |]. unfold shell_at. by rewrite Hstep.
Qed.

Section TankHitFacts.
Variable umap_order : list Z -> list Z.
Hypothesis umap_order_perm : forall l, NoDup l -> umap_order l ≡ₚ l.
Variable es : list TankEntry.
Hypothesis ids_distinct : NoDup (List.map te_id es).

Let tep : list (Z * Position) :=
  umap_iter umap_order
    (List.map (fun e => (te_id e, effective_position e)) (live_entries es)).
Let tcp : list (Z * Position) :=
  List.map (fun e => (te_id e, position (te_tank e))) (live_entries es).

Lemma live_entry_unique (e1 e2 : TankEntry) :
  e1 ∈ es -> e2 ∈ es -> te_id e1 = te_id e2 -> e1 = e2.
Proof.
  intros H1 H2 Heq.
  pose proof (find_entry_NoDup es e1 ids_distinct H1) as F1.
  pose proof (find_entry_NoDup es e2 ids_distinct H2) as F2.
  rewrite Heq in F1. congruence.
Qed.

Lemma tep_elem (kp : Z * Position) :
  kp ∈ tep
  <-> exists e, e ∈ es /\ is_destroyed (te_tank e) = false
                /\ kp = (te_id e, effective_position e).
Proof.
  set (ins := List.map (fun e => (te_id e, effective_position e))
                       (live_entries es)).
  assert (Hkeys : List.map fst ins = List.map te_id (live_entries es)).
  { subst ins. rewrite List.map_map. by apply map_ext. }
  assert (Hnd : NoDup (List.map fst ins)).
  { rewrite Hkeys. by apply NoDup_live_ids. }
  destruct (umap_iter_spec umap_order umap_order_perm ins Hnd)
    as [Hk Hsub].
  assert (Hins : forall kp, kp ∈ ins
                 <-> exists e, e ∈ es /\ is_destroyed (te_tank e) = false
                               /\ kp = (te_id e, effective_position e)).
  { intros kp'. subst ins. rewrite list_elem_of_In, in_map_iff.
    unfold live_entries. split.
    - intros (e & <- & Hin). apply filter_In in Hin as [Hin Hl].
      exists e. split_and!; [by apply list_elem_of_In | | done].
      by apply negb_true_iff in Hl.
    - intros (e & Hin & Hl & ->). exists e. split; [done |].
      apply filter_In. split; [by apply list_elem_of_In |].
      by apply negb_true_iff. }
  split.
  - intros Hin. apply Hins, Hsub, Hin.
  - intros (e & He & Hl & ->).
    assert (Hid : te_id e ∈ List.map fst tep).
    { subst tep. fold ins. rewrite Hk, (umap_order_perm _ Hnd), Hkeys.
      apply elem_of_live_ids. by exists e. }
    apply list_elem_of_In, in_map_iff in Hid as ([k q] & Hkq & Hin).
    cbn in Hkq. subst k. apply list_elem_of_In in Hin.
    pose proof (Hsub _ Hin) as Hin2.
    apply Hins in Hin2 as (e2 & He2 & _ & [= Hid2 ->]).
    assert (e = e2) as -> by exact (live_entry_unique e e2 He He2 Hid2).
    exact Hin.
Qed.

Lemma tcp_lookup (e : TankEntry) :
  e ∈ es -> is_destroyed (te_tank e) = false ->
  assoc_lookup (te_id e) tcp = Some (position (te_tank e)).
Proof.
  intros He Hl.
  assert (Hin : te_id e ∈ List.map fst tcp).
  { subst tcp. rewrite List.map_map. cbn [fst].
    apply elem_of_live_ids. by exists e. }
  destruct (assoc_lookup_is_Some _ _ Hin) as [q Hq]. rewrite Hq.
  apply assoc_lookup_elem in Hq. subst tcp.
  apply list_elem_of_In, in_map_iff in Hq as (e2 & [= Hid <-] & Hin2).
  apply filter_In in Hin2 as [Hin2 _]. apply list_elem_of_In in Hin2.
  by rewrite (live_entry_unique e e2 He Hin2 (eq_sym Hid)).
Qed.

Lemma shell_victim_Some objs ip id :
  shell_victim tep tcp objs ip = Some id ->
  exists e, e ∈ es /\ te_id e = id /\ shell_strikes objs ip e = true.
Proof.
  unfold shell_victim, shell_strikes.
  destruct (shell_at objs (fst ip)) as [shell |]; [| done].
  destruct (shell_is_destroyed shell); [done |].
  destruct (List.find _ tep) as [[k q] |] eqn:Hf; [| done].
  intros [= <-]. apply List.find_some in Hf as [Hin Hhit].
  apply list_elem_of_In, tep_elem in Hin as (e & He & Hl & [= -> ->]).
  cbn [fst snd] in Hhit. rewrite (tcp_lookup e He Hl) in Hhit.
  exists e. split_and!; [done | done |]. rewrite Hl. exact Hhit.
Qed.

Lemma shell_victim_None objs ip e :
  shell_victim tep tcp objs ip = None ->
  e ∈ es -> shell_strikes objs ip e = false.
Proof.
  unfold shell_victim, shell_strikes. intros Hv He.
  destruct (shell_at objs (fst ip)) as [shell |]; [| done].
  destruct (shell_is_destroyed shell); [done |].
  destruct (is_destroyed (te_tank e)) eqn:Hl; [done |]. cbn [negb andb].
  destruct (List.find _ tep) as [[k q] |] eqn:Hf; [done |].
  assert (Hin : (te_id e, effective_position e) ∈ tep).
  { apply tep_elem. by exists e. }
  apply list_elem_of_In in Hin.
  pose proof (List.find_none _ _ Hf _ Hin) as Hno. cbn [fst snd] in Hno.
  by rewrite (tcp_lookup e He Hl) in Hno.
Qed.

(** X29.  [resolveShellTankCollisions], for entries with distinct ids.
    A live shell strikes a tank that was live on entry when it heads for
    the tank's effective position, or when it heads for the tank's cell
    while the tank heads for the shell's.  A shell stays live exactly if
    it was live and struck no tank; every shell that strikes destroys one
    of the tanks it strikes, also when an earlier shell of the same call
    has destroyed that tank already; a tank is destroyed afterwards only
    if it was before or a shell struck it.  Ids, positions and step data
    other than the log are left as they are, and so is every object that
    is no shell. *)
Theorem X29_shell_tank_collisions
    (sip : list (nat * Position)) (gs : GameState Z) :
  let r := resolveShellTankCollisions umap_order sip gs es in
  Forall2
    (fun e e' =>
       te_id e' = te_id e
       /\ position (te_tank e') = position (te_tank e)
       /\ intended_position (te_data e') = intended_position (te_data e)
       /\ blocked_this_sub_step (te_data e')
          = blocked_this_sub_step (te_data e)
       /\ (is_destroyed (te_tank e') = true ->
           is_destroyed (te_tank e) = true
           \/ exists ip, ip ∈ sip /\ shell_strikes (objects gs) ip e = true))
    es (snd r)
  /\ (forall i,
         shell_live (objects (fst r)) i = true
         <-> shell_live (objects gs) i = true
             /\ forall p e, (i, p) ∈ sip -> e ∈ es ->
                            shell_strikes (objects gs) (i, p) e = false)
  /\ (forall ip,
         ip ∈ sip ->
         (exists e, e ∈ es /\ shell_strikes (objects gs) ip e = true) ->
         exists e e',
           e ∈ es /\ shell_strikes (objects gs) ip e = true
           /\ find_entry (te_id e) (snd r) = Some e'
           /\ is_destroyed (te_tank e') = true)
  /\ (forall i,
         shell_at (objects gs) i = None ->
         objects (fst r) !! i = objects gs !! i).
Proof.
  cbn zeta. unfold resolveShellTankCollisions.
  fold tep tcp. rewrite shell_tank_loop_closed, fold_mark_killed_ids.
  cbn [fst snd objects set_objects].
  set (victims := omap (shell_victim tep tcp (objects gs)) sip).
  assert (Hvict : forall id,
             id ∈ victims
             <-> exists ip, ip ∈ sip
                            /\ shell_victim tep tcp (objects gs) ip = Some id).
  { intros id. subst victims. by rewrite list_elem_of_omap. }
  assert (Hex : forall e,
             existsb (fun id => te_id e =? id) victims = true
             <-> te_id e ∈ victims).
  { intros e. rewrite existsb_exists. split.
    - intros (id & Hin & Hid). apply Z.eqb_eq in Hid. subst id.
      by apply list_elem_of_In.
    - intros Hin. exists (te_id e). split; [by apply list_elem_of_In |].
      apply Z.eqb_refl. }
  split_and!.
  - change (@List.map) with (@fmap list _).
    apply Forall2_fmap_r, Forall_Forall2_diag, Forall_forall.
    intros e He. unfold compose. cbn beta.
    destruct (existsb (fun id => te_id e =? id) victims) eqn:Hk.
    + apply Hex, Hvict in Hk as (ip & Hip & Hv).
      apply shell_victim_Some in Hv as (e2 & He2 & Hid & Hs).
      rewrite (live_entry_unique e2 e He2 He Hid) in Hs.
      unfold mark_killed.
      destruct (is_destroyed (te_tank e)) eqn:Hd;
        cbn; split_and!; try done; intros _; right; by exists ip.
    + split_and!; try done. intros Hd. by left.
  - intros i. rewrite shell_live_fold_destroy, andb_true_iff, negb_true_iff,
      bool_decide_eq_false.
    rewrite list_elem_of_In, in_map_iff.
    split; intros [Hlive Hno]; (split; [exact Hlive |]).
    + intros p e Hin He.
      destruct (shell_victim tep tcp (objects gs) (i, p)) as [id |] eqn:Hv;
        [| by apply (shell_victim_None _ _ _ Hv)].
      exfalso. apply Hno. exists (i, p). split; [done |].
      apply filter_In. split; [by apply list_elem_of_In |].
      apply bool_decide_eq_true. rewrite Hv. eauto.
    + intros ([i' p] & Hi & Hin). cbn in Hi. subst i'.
      apply filter_In in Hin as [Hin Hv]. apply bool_decide_eq_true in Hv.
      destruct Hv as [id Hv].
      apply shell_victim_Some in Hv as (e & He & _ & Hs).
      apply list_elem_of_In in Hin. by rewrite (Hno p e Hin He) in Hs.
  - intros ip Hip (e0 & He0 & Hs0).
    destruct (shell_victim tep tcp (objects gs) ip) as [id |] eqn:Hv;
      [| by rewrite (shell_victim_None _ _ _ Hv He0) in Hs0].
    pose proof Hv as Hv'.
    apply shell_victim_Some in Hv as (e & He & Hid & Hs).
    exists e, (mark_killed e). split_and!; [done | done | |].
    2: apply mark_killed_destroyed.
    rewrite <- (mark_killed_id e) at 1. apply find_entry_NoDup.
    + rewrite List.map_map.
      erewrite map_ext; [exact ids_distinct |].
      intros a. cbn beta. destruct (existsb _ victims); [| done].
      apply mark_killed_id.
    + apply list_elem_of_In, in_map_iff. exists e.
      split; [| by apply list_elem_of_In].
      assert (Hk : existsb (fun id => te_id e =? id) victims = true).
      { apply Hex, Hvict. exists ip. split; [done |]. by rewrite Hid. }
      by rewrite Hk.
  - intros i Hi. by apply other_objects_fold_destroy.
Qed.

(** ** Tanks on mines *)

Lemma mines_sprung_init mps (gs : GameState Z) (es0 : list TankEntry) :
  mines_sprung mps (objects gs) es0 [] (gs, es0).
Proof.
  unfold mines_sprung. cbn [fst snd]. split_and!; try done.
  - intros i e He. by left.
  - intros i o Ho. by left.
Qed.

Lemma mines_sprung_mono mps objs0 es0 v v' st :
  (forall kp, kp ∈ v -> kp ∈ v') ->
  mines_sprung mps objs0 es0 v st -> mines_sprung mps objs0 es0 v' st.
Proof.
  intros Hsub (H1 & H2 & H3 & H4). unfold mines_sprung.
  split_and!; try done.
  - intros i e He.
    destruct (H2 i e He) as [Hl | (Hl & Hd & Hv & Hp & Hex)];
      [by left | right].
    split_and!; try done. by apply Hsub.
  - intros i o Ho.
    destruct (H4 i o Ho)
      as [Hl | (mine & e & -> & Hm & Hl & Hp & He & Hd & Hv & Heq & Hk)];
      [by left | right].
    exists mine, e. split_and!; try done. by apply Hsub.
Qed.

Lemma sprung_mine_origin mps objs0 es0 v st mi mine :
  mines_sprung mps objs0 es0 v st ->
  objects (fst st) !! mi = Some (MineObj mine) ->
  mine_is_destroyed mine = false ->
  objs0 !! mi = Some (MineObj mine).
Proof.
  intros (_ & _ & H3 & H4) Hlk Hlive.
  assert (Hlt : (mi < length objs0)%nat).
  { rewrite <- H3. by apply lookup_lt_is_Some. }
  apply lookup_lt_is_Some in Hlt as [o Ho].
  destruct (H4 mi o Ho) as [Hl | (m & e & -> & _ & Hl & _)].
  - congruence.
  - rewrite Hl in Hlk. injection Hlk as <-. discriminate.
Qed.

Lemma update_entry_lookup id (f : TankEntry -> TankEntry) cur i :
  update_entry id f cur !! i
  = (fun e => if te_id e =? id then f e else e) <$> cur !! i.
Proof.
  unfold update_entry. change (@List.map) with (@fmap list _).
  apply list_lookup_fmap.
Qed.

Lemma update_entry_killed id cur e :
  mark_killed e ∈ cur -> mark_killed e ∈ update_entry id mark_killed cur.
Proof.
  intros Hin. unfold update_entry.
  apply list_elem_of_In, in_map_iff. exists (mark_killed e).
  split; [| by apply list_elem_of_In].
  rewrite mark_killed_id.
  destruct (te_id e =? id); [apply mark_killed_idem | done].
Qed.

Lemma tank_mine_hit_cases mps (gs1 : GameState Z) es1 id p :
  tank_mine_hit mps (gs1, es1) (id, p) = (gs1, es1)
  \/ exists mi mine,
       p ∈ mps
       /\ getMineAt (tank_of es1) gs1 p = Some (mi, mine)
       /\ mine_is_destroyed mine = false
       /\ tank_mine_hit mps (gs1, es1) (id, p)
          = (set_objects (alter (on_mine destroy_mine) mi (objects gs1)) gs1,
             update_entry id mark_killed es1).
Proof.
  unfold tank_mine_hit. case_bool_decide as Hp; [| by left].
  destruct (getMineAt (tank_of es1) gs1 p) as [[mi mine] |] eqn:Hg;
    [| by left].
  destruct (mine_is_destroyed mine) eqn:Hm; cbn [negb]; [by left |].
  right. by exists mi, mine.
Qed.

Lemma getMineAt_Some {T : Type} (view : T -> option Tank) (gs : GameState T)
    pos mi mine :
  getMineAt view gs pos = Some (mi, mine)
  <-> objects gs !! mi = Some (MineObj mine)
      /\ mine_is_destroyed mine = false /\ mine_position mine = pos
      /\ forall j o', (j < mi)%nat -> objects gs !! j = Some o' ->
           obj_is_destroyed view o' = true \/ obj_position view o' <> pos.
Proof.
  unfold getMineAt, getObjectAt. split.
  - destruct (getObjectAt_from view 0 (objects gs) pos) as [[j o] |] eqn:Hg;
      [| done].
    destruct o as [| | | m]; try done. intros [= -> ->].
    apply getObjectAt_from_iff in Hg as (k & -> & Hrest). exact Hrest.
  - intros Hrest.
    assert (Hg : getObjectAt_from view 0 (objects gs) pos
                 = Some (mi, MineObj mine)).
    { apply getObjectAt_from_iff. exists mi. split; [done | exact Hrest]. }
    by rewrite Hg.
Qed.

Lemma tank_mine_hit_keeps mps st kp e mi mine :
  mark_killed e ∈ snd st ->
  objects (fst st) !! mi = Some (MineObj (destroy_mine mine)) ->
  mark_killed e ∈ snd (tank_mine_hit mps st kp)
  /\ objects (fst (tank_mine_hit mps st kp)) !! mi
     = Some (MineObj (destroy_mine mine)).
Proof.
  destruct st as [gs1 es1], kp as [id p]. cbn [fst snd]. intros He Hm.
  destruct (tank_mine_hit_cases mps gs1 es1 id p)
    as [-> | (mi' & mine' & _ & _ & _ & ->)]; [done |].
  cbn [fst snd objects set_objects]. split; [by apply update_entry_killed |].
  destruct (decide (mi' = mi)) as [-> | Hne].
  - rewrite list_lookup_alter_eq, Hm. done.
  - by rewrite list_lookup_alter_ne.
Qed.

Lemma fold_tank_mine_hit_keeps mps e mi mine (l : list (Z * Position)) :
  forall st,
    mark_killed e ∈ snd st ->
    objects (fst st) !! mi = Some (MineObj (destroy_mine mine)) ->
    mark_killed e ∈ snd (fold_left (tank_mine_hit mps) l st)
    /\ objects (fst (fold_left (tank_mine_hit mps) l st)) !! mi
       = Some (MineObj (destroy_mine mine)).
Proof.
  induction l as [| kp l IH]; intros st He Hm; [done |].
  cbn [fold_left].
  destruct (tank_mine_hit_keeps mps st kp e mi mine He Hm) as [He' Hm'].
  by apply IH.
Qed.

Lemma killed_view (es0 es1 : list TankEntry) :
  Forall2 (fun e e' => e' = e \/ e' = mark_killed e) es0 es1 ->
  forall r,
    match tank_of es0 r, tank_of es1 r with
    | Some t, Some t' =>
        position t' = position t
        /\ (is_destroyed t = true -> is_destroyed t' = true)
    | None, None => True
    | _, _ => False
    end.
Proof.
  unfold tank_of, find_entry.
  induction 1 as [| e e' es0 es1 Hrel _ IH]; intros r; cbn [List.find];
    [done |].
  assert (Hid : te_id e' = te_id e).
  { destruct Hrel as [-> | ->]; [done | apply mark_killed_id]. }
  rewrite Hid. destruct (te_id e =? r); [| apply IH].
  destruct Hrel as [-> | ->]; [done |].
  unfold mark_killed. by destruct (is_destroyed (te_tank e)) eqn:Hd.
Qed.

Lemma sprung_entries mps objs0 es0 v st :
  mines_sprung mps objs0 es0 v st ->
  Forall2 (fun e e' => e' = e \/ e' = mark_killed e) es0 (snd st).
Proof.
  intros (H1 & H2 & _). apply Forall2_same_length_lookup.
  split; [done |]. intros i e e' He He'.
  destruct (H2 i e He) as [Hl | (Hl & _)]; rewrite Hl in He';
    injection He' as <-; [by left | by right].
Qed.

Lemma getMineAt_sprung mps (gs0 : GameState Z) es0 v st p mi mine :
  mines_sprung mps (objects gs0) es0 v st ->
  (forall kp, kp ∈ v -> snd kp <> p) ->
  getMineAt (tank_of es0) gs0 p = Some (mi, mine) ->
  getMineAt (tank_of (snd st)) (fst st) p = Some (mi, mine).
Proof.
  intros Hinv Hv Hg. pose proof (sprung_entries _ _ _ _ _ Hinv) as Hrel.
  pose proof (killed_view _ _ Hrel) as Hview.
  destruct Hinv as (_ & _ & H3 & H4).
  apply getMineAt_Some in Hg as (Hlk & Hlive & Hpos & Hfirst).
  apply getMineAt_Some. split_and!; try done.
  - destruct (H4 mi _ Hlk)
      as [Hl | (m & e & [= <-] & _ & _ & _ & _ & _ & Hin & Heq & _)];
      [done |].
    exfalso. apply (Hv _ Hin). cbn [snd]. congruence.
  - intros j o' Hj Ho'.
    assert (Hlt : (j < length (objects gs0))%nat).
    { rewrite <- H3. by apply lookup_lt_is_Some. }
    apply lookup_lt_is_Some in Hlt as [o0 Ho0].
    destruct (H4 j o0 Ho0) as [Hl | (m & e & -> & _ & Hl & _)].
    + assert (o' = o0) as -> by congruence.
      destruct (Hfirst j o0 Hj Ho0) as [Hd | Hp].
      * left. destruct o0 as [r | | |]; try exact Hd.
        cbn in Hd |- *. specialize (Hview r).
        destruct (tank_of es0 r) as [t |], (tank_of (snd st) r) as [t' |];
          try done.
        destruct Hview as [_ Hk]. by apply Hk.
      * destruct o0 as [r | | |]; try (by right).
        cbn in Hp |- *. specialize (Hview r).
        destruct (tank_of es0 r) as [t |], (tank_of (snd st) r) as [t' |];
          try done; [| by left].
        destruct Hview as [Hq _]. right. by rewrite Hq.
    + left. rewrite Hl in Ho'. by injection Ho' as <-.
Qed.

Lemma mines_sprung_step mps objs0 v st (e : TankEntry) :
  mines_sprung mps objs0 es v st ->
  e ∈ es -> is_destroyed (te_tank e) = false ->
  mines_sprung mps objs0 es (v ++ [(te_id e, effective_position e)])
               (tank_mine_hit mps st (te_id e, effective_position e)).
Proof.
  intros Hinv He Hlive. destruct st as [gs1 es1].
  assert (Hsub : forall kp, kp ∈ v ->
                            kp ∈ v ++ [(te_id e, effective_position e)]).
  { intros kp Hkp. apply elem_of_app. by left. }
  assert (Hlast : (te_id e, effective_position e)
                  ∈ v ++ [(te_id e, effective_position e)]).
  { apply elem_of_app. right. by apply list_elem_of_singleton. }
  destruct (tank_mine_hit_cases mps gs1 es1 (te_id e) (effective_position e))
    as [-> | (mi & mine & Hp & Hg & Hm & ->)];
    [by apply (mines_sprung_mono _ _ _ v) |].
  apply getMineAt_Some in Hg as (Hlk & _ & Hpos & _).
  pose proof (sprung_mine_origin _ _ _ _ _ mi mine Hinv Hlk Hm) as Horig.
  destruct Hinv as (H1 & H2 & H3 & H4). cbn [fst snd] in *.
  unfold mines_sprung. cbn [fst snd objects set_objects].
  assert (Hother : forall mi' mine',
             objects gs1 !! mi' = Some (MineObj (destroy_mine mine')) ->
             alter (on_mine destroy_mine) mi (objects gs1) !! mi'
             = Some (MineObj (destroy_mine mine'))).
  { intros mi' mine' Hl. destruct (decide (mi = mi')) as [-> | Hne].
    - rewrite Hlk in Hl. injection Hl as ->. discriminate.
    - by rewrite list_lookup_alter_ne. }
  assert (Hhere : alter (on_mine destroy_mine) mi (objects gs1) !! mi
                  = Some (MineObj (destroy_mine mine))).
  { by rewrite list_lookup_alter_eq, Hlk. }
  assert (Hkilled : mark_killed e
                    ∈ update_entry (te_id e) mark_killed es1).
  { apply list_elem_of_lookup in He as [j Hj].
    apply list_elem_of_lookup. exists j. rewrite update_entry_lookup.
    destruct (H2 j e Hj) as [Hl | (Hl & _)]; rewrite Hl; cbn [fmap option_fmap
      option_map]; rewrite ?mark_killed_id, Z.eqb_refl;
      by rewrite ?mark_killed_idem. }
  split_and!.
  - unfold update_entry. by rewrite length_map.
  - intros i e0 He0. rewrite update_entry_lookup.
    destruct (H2 i e0 He0)
      as [Hl | (Hl & Hd & Hv & Hq & mi' & mine' & Ho & Hm' & Hpos' & Hl')];
      rewrite Hl; cbn [fmap option_fmap option_map].
    + destruct (Z.eqb_spec (te_id e0) (te_id e)) as [Heq | Hne];
        [| by left].
      assert (e0 = e) as ->.
      { apply live_entry_unique; [| done | done].
        by apply list_elem_of_lookup_2 in He0. }
      right. split_and!; try done. by exists mi, mine.
    + right. rewrite mark_killed_id.
      assert (Hk : (if te_id e0 =? te_id e
                    then mark_killed (mark_killed e0) else mark_killed e0)
                   = mark_killed e0).
      { destruct (te_id e0 =? te_id e); [apply mark_killed_idem | done]. }
      rewrite Hk. split_and!; try done; [by apply Hsub |].
      exists mi', mine'. split_and!; try done. by apply Hother.
  - by rewrite length_alter.
  - intros i o Ho. destruct (decide (i = mi)) as [-> | Hne].
    + right. assert (o = MineObj mine) as -> by congruence.
      exists mine, e. split_and!; try done. by rewrite Hpos.
    + rewrite list_lookup_alter_ne by done.
      destruct (H4 i o Ho)
        as [Hl | (m & e2 & -> & Hm2 & Hl & Hp2 & He2 & Hd2 & Hv2 & Heq2
                  & Hk2)]; [by left | right].
      exists m, e2. split_and!; try done; [by apply Hsub |].
      by apply update_entry_killed.
Qed.

Lemma mines_sprung_fold mps objs0 (l : list (Z * Position)) :
  forall v st,
    (forall kp, kp ∈ l ->
                exists e, e ∈ es /\ is_destroyed (te_tank e) = false
                          /\ kp = (te_id e, effective_position e)) ->
    mines_sprung mps objs0 es v st ->
    mines_sprung mps objs0 es (v ++ l) (fold_left (tank_mine_hit mps) l st).
Proof.
  induction l as [| kp l IH]; intros v st Hl Hinv; cbn [fold_left].
  - by rewrite app_nil_r.
  - destruct (Hl kp) as (e & He & Hd & ->); [apply elem_of_cons; by left |].
    rewrite (cons_middle _ v l), app_assoc. apply IH.
    + intros kp Hkp. apply Hl. apply elem_of_cons. by right.
    + by apply mines_sprung_step.
Qed.

Lemma tep_keys_NoDup : NoDup (List.map fst tep).
Proof.
  set (ins := List.map (fun e => (te_id e, effective_position e))
                       (live_entries es)).
  assert (Hkeys : List.map fst ins = List.map te_id (live_entries es)).
  { subst ins. rewrite List.map_map. by apply map_ext. }
  assert (Hnd : NoDup (List.map fst ins)).
  { rewrite Hkeys. by apply NoDup_live_ids. }
  destruct (umap_iter_spec umap_order umap_order_perm ins Hnd) as [Hk _].
  subst tep. fold ins. by rewrite Hk, (umap_order_perm _ Hnd).
Qed.

Lemma view_fades (es0 es1 : list TankEntry) (o : GameObject Z) p :
  Forall2 (fun e e' => e' = e \/ e' = mark_killed e) es0 es1 ->
  obj_is_destroyed (tank_of es0) o = true
  \/ obj_position (tank_of es0) o <> p ->
  obj_is_destroyed (tank_of es1) o = true
  \/ obj_position (tank_of es1) o <> p.
Proof.
  intros Hrel Ho. pose proof (killed_view _ _ Hrel) as Hview.
  destruct o as [r | | |]; try exact Ho.
  cbn in Ho |- *. specialize (Hview r).
  destruct (tank_of es0 r) as [t |], (tank_of es1 r) as [t' |]; try done.
  destruct Hview as [Hq Hk]. destruct Ho as [Hd | Hp]; [left; by apply Hk |].
  right. by rewrite Hq.
Qed.

Lemma update_entry_rel id (cur : list TankEntry) :
  Forall2 (fun e e' => e' = e \/ e' = mark_killed e)
          cur (update_entry id mark_killed cur).
Proof.
  unfold update_entry. change (@List.map) with (@fmap list _).
  apply Forall2_fmap_r, Forall_Forall2_diag, Forall_forall.
  intros e _. unfold compose. cbn beta.
  destruct (te_id e =? id); [by right | by left].
Qed.

Lemma clear_cell_step mps st kp p :
  getObjectAt (tank_of (snd st)) (fst st) p = None ->
  getObjectAt (tank_of (snd (tank_mine_hit mps st kp)))
              (fst (tank_mine_hit mps st kp)) p = None.
Proof.
  destruct st as [gs1 es1], kp as [id q]. cbn [fst snd]. intros Hclear.
  destruct (tank_mine_hit_cases mps gs1 es1 id q)
    as [-> | (mi & mine & _ & Hg & _ & ->)]; [done |].
  cbn [fst snd]. unfold getObjectAt in *. cbn [objects set_objects].
  apply getMineAt_Some in Hg as (Hlk & _).
  apply getObjectAt_from_None. intros o Ho.
  apply list_elem_of_lookup in Ho as [j Hj].
  destruct (decide (mi = j)) as [-> | Hne].
  - rewrite list_lookup_alter_eq, Hlk in Hj. injection Hj as <-. by left.
  - rewrite list_lookup_alter_ne in Hj by done.
    apply (view_fades es1); [apply update_entry_rel |].
    apply (proj1 (getObjectAt_from_None _ _ _ _) Hclear).
    by apply list_elem_of_lookup_2 in Hj.
Qed.

Lemma clear_cell_entry mps p j (ey : TankEntry) (l : list (Z * Position)) :
  forall st,
    getObjectAt (tank_of (snd st)) (fst st) p = None ->
    snd st !! j = Some ey ->
    (forall kp, kp ∈ l -> fst kp = te_id ey -> snd kp = p) ->
    snd (fold_left (tank_mine_hit mps) l st) !! j = Some ey.
Proof.
  induction l as [| kp l IH]; intros st Hclear Hj Hl; [done |].
  cbn [fold_left]. apply IH.
  - by apply clear_cell_step.
  - destruct st as [gs1 es1], kp as [id q]. cbn [fst snd] in *.
    destruct (tank_mine_hit_cases mps gs1 es1 id q)
      as [-> | (mi & mine & _ & Hg & _ & ->)]; [done |].
    cbn [snd]. rewrite update_entry_lookup, Hj.
    cbn [fmap option_fmap option_map].
    destruct (Z.eqb_spec (te_id ey) id) as [Heq | Hne]; [| done].
    exfalso.
    assert (q = p) as ->.
    { apply (Hl (id, q)); [apply elem_of_cons; by left | done]. }
    unfold getMineAt in Hg. by rewrite Hclear in Hg.
  - intros kp' Hkp'. apply Hl. apply elem_of_cons. by right.
Qed.

Lemma mine_takes_tank mps gs (e : TankEntry) mi mine l1 l2 :
  tep = l1 ++ (te_id e, effective_position e) :: l2 ->
  e ∈ es -> is_destroyed (te_tank e) = false ->
  effective_position e ∈ mps ->
  getMineAt (tank_of es) gs (effective_position e) = Some (mi, mine) ->
  (forall kp, kp ∈ l1 -> snd kp <> effective_position e) ->
  let st2 :=
    tank_mine_hit mps (fold_left (tank_mine_hit mps) l1 (gs, es))
                  (te_id e, effective_position e) in
  mines_sprung mps (objects gs) es
               (l1 ++ [(te_id e, effective_position e)]) st2
  /\ mark_killed e ∈ snd st2
  /\ objects (fst st2) !! mi = Some (MineObj (destroy_mine mine)).
Proof.
  intros Hsplit He Hd Hp Hg Hv. cbn zeta.
  assert (Hl1 : forall kp, kp ∈ l1 ->
                  exists e1, e1 ∈ es /\ is_destroyed (te_tank e1) = false
                             /\ kp = (te_id e1, effective_position e1)).
  { intros kp Hkp. apply tep_elem. rewrite Hsplit. apply elem_of_app.
    by left. }
  pose proof (mines_sprung_fold mps (objects gs) l1 [] (gs, es) Hl1
                (mines_sprung_init mps gs es)) as Hinv1.
  rewrite app_nil_l in Hinv1.
  set (st1 := fold_left (tank_mine_hit mps) l1 (gs, es)) in *.
  pose proof (getMineAt_sprung _ _ _ _ _ _ _ _ Hinv1 Hv Hg) as Hg1.
  split; [by apply mines_sprung_step |].
  assert (Hm : mine_is_destroyed mine = false).
  { by apply getMineAt_Some in Hg as (_ & Hm & _). }
  destruct st1 as [gs1 es1] eqn:Hst1. cbn [fst snd] in Hg1.
  unfold tank_mine_hit. rewrite bool_decide_eq_true_2 by done.
  rewrite Hg1, Hm. cbn [negb fst snd objects set_objects].
  apply getMineAt_Some in Hg1 as (Hlk & _).
  split; [| by rewrite list_lookup_alter_eq, Hlk].
  destruct Hinv1 as (_ & H2' & _). cbn [snd] in H2'.
  apply list_elem_of_lookup in He as [j Hj].
  apply list_elem_of_lookup. exists j. rewrite update_entry_lookup.
  destruct (H2' j e Hj) as [Hl | (Hl & _)]; rewrite Hl;
    cbn [fmap option_fmap option_map];
    rewrite ?mark_killed_id, Z.eqb_refl; by rewrite ?mark_killed_idem.
Qed.

Lemma first_takes_mine mps gs (ex ey : TankEntry) mi mine a b :
  tep = a ++ (te_id ex, effective_position ex) :: b ->
  (te_id ey, effective_position ex) ∈ b ->
  ex ∈ es -> ey ∈ es ->
  is_destroyed (te_tank ex) = false -> is_destroyed (te_tank ey) = false ->
  effective_position ey = effective_position ex ->
  effective_position ex ∈ mps ->
  getMineAt (tank_of es) gs (effective_position ex) = Some (mi, mine) ->
  (forall j o, j <> mi -> objects gs !! j = Some o ->
               obj_is_destroyed (tank_of es) o = true
               \/ obj_position (tank_of es) o <> effective_position ex) ->
  (forall e3, e3 ∈ es -> is_destroyed (te_tank e3) = false ->
              effective_position e3 = effective_position ex ->
              e3 = ex \/ e3 = ey) ->
  let r := fold_left (tank_mine_hit mps) tep (gs, es) in
  objects (fst r) !! mi = Some (MineObj (destroy_mine mine))
  /\ mark_killed ex ∈ snd r /\ ey ∈ snd r.
Proof.
  intros Hsplit Hyb Hex Hey Hdx Hdy Heff Hp Hg Halone Hthird. cbn zeta.
  set (p := effective_position ex) in *.
  pose proof tep_keys_NoDup as Hnd. rewrite Hsplit in Hnd.
  rewrite map_app in Hnd. cbn [List.map fst] in Hnd.
  apply NoDup_app in Hnd as (_ & Hdisj & Hnd2).
  apply NoDup_cons in Hnd2 as [Hxb _].
  assert (Hyk : te_id ey ∈ List.map fst b).
  { apply list_elem_of_In, in_map_iff. exists (te_id ey, p).
    split; [done | by apply list_elem_of_In]. }
  assert (Hne : te_id ey <> te_id ex) by (intros Heq; by rewrite Heq in Hyk).
  assert (Htep : forall kp, kp ∈ tep ->
                   exists e, e ∈ es /\ is_destroyed (te_tank e) = false
                             /\ kp = (te_id e, effective_position e)).
  { intros kp Hkp. by apply tep_elem. }
  assert (Hv : forall kp, kp ∈ a -> snd kp <> p).
  { intros kp Hkp Heq.
    destruct (Htep kp) as (e3 & He3 & Hd3 & ->);
      [rewrite Hsplit; apply elem_of_app; by left |].
    cbn [snd] in Heq.
    apply (Hdisj (te_id e3)).
    - apply list_elem_of_In, in_map_iff. exists (te_id e3, effective_position e3).
      split; [done | by apply list_elem_of_In].
    - destruct (Hthird e3 He3 Hd3 Heq) as [-> | ->];
        apply elem_of_cons; [by left | by right]. }
  destruct (mine_takes_tank mps gs ex mi mine a b Hsplit Hex Hdx Hp Hg Hv)
    as (Hinv2 & Hk & Hmi).
  rewrite Hsplit, fold_left_app. cbn [fold_left]. fold p in Hinv2, Hk, Hmi |- *.
  set (st2 := tank_mine_hit mps (fold_left (tank_mine_hit mps) a (gs, es))
                            (te_id ex, p)) in *.
  destruct (fold_tank_mine_hit_keeps mps ex mi mine b _ Hk Hmi)
    as [Hk' Hmi'].
  split_and!; [exact Hmi' | exact Hk' |].
  pose proof (sprung_entries _ _ _ _ _ Hinv2) as Hrel2.
  destruct Hinv2 as (_ & H2 & H3 & H4).
  apply list_elem_of_lookup in Hey as [j Hj].
  apply (list_elem_of_lookup_2 _ j).
  apply (clear_cell_entry mps p).
  - unfold getObjectAt. apply getObjectAt_from_None. intros o Ho.
    apply list_elem_of_lookup in Ho as [k Hk2].
    destruct (decide (k = mi)) as [-> | Hkm].
    + rewrite Hmi in Hk2. injection Hk2 as <-. by left.
    + assert (Hlt : (k < length (objects gs))%nat).
      { rewrite <- H3. by apply lookup_lt_is_Some. }
      apply lookup_lt_is_Some in Hlt as [o0 Ho0].
      destruct (H4 k o0 Ho0) as [Hl | (m & e & -> & _ & Hl & _)].
      * assert (o = o0) as -> by congruence.
        apply (view_fades es); [exact Hrel2 |]. by apply (Halone k).
      * rewrite Hl in Hk2. injection Hk2 as <-. by left.
  - destruct (H2 j ey Hj) as [Hl | (_ & _ & Hvis & _)]; [exact Hl |].
    exfalso. rewrite Heff in Hvis. fold p in Hvis.
    apply elem_of_app in Hvis as [Hvis | Hvis].
    + apply (Hdisj (te_id ey)); [| apply elem_of_cons; by right].
      apply list_elem_of_In, in_map_iff. exists (te_id ey, p).
      split; [done | by apply list_elem_of_In].
    + apply list_elem_of_singleton in Hvis. congruence.
  - intros kp Hkp Hid.
    destruct (Htep kp) as (e3 & He3 & Hd3 & ->).
    { rewrite Hsplit. apply elem_of_app. right. apply elem_of_cons.
      by right. }
    cbn [fst snd] in *.
    assert (e3 = ey) as ->.
    { apply live_entry_unique; [done | | done].
      by apply list_elem_of_lookup_2 in Hj. }
    exact Heff.
Qed.

(** X30.  [resolveTankMineCollisions], for entries with distinct ids.
    Every entry is left as it is or is that of a live tank, marked
    killed, whose effective position is listed in [mine_positions] and
    carried a live mine that is destroyed now; every object is left as it
    is or is a live mine, destroyed now, on the effective position of a
    live tank that is marked killed now.  A live tank is destroyed for
    certain, together with the mine, when [getMineAt] finds a mine on its
    listed effective position and no other live tank has the same
    effective position.  When two live tanks have the same effective
    position, that mine is the only live object on it and no third live
    tank shares it, the mine is destroyed with exactly one of the two:
    the other tank is left as it is. *)
Theorem X30_tank_mine_collisions
    (mps : gset Position) (gs : GameState Z) :
  let r := resolveTankMineCollisions umap_order mps gs es in
  Forall2
    (fun e e' =>
       e' = e
       \/ (e' = mark_killed e
           /\ is_destroyed (te_tank e) = false
           /\ effective_position e ∈ mps
           /\ exists mi mine,
                objects gs !! mi = Some (MineObj mine)
                /\ mine_is_destroyed mine = false
                /\ mine_position mine = effective_position e
                /\ objects (fst r) !! mi
                   = Some (MineObj (destroy_mine mine))))
    es (snd r)
  /\ length (objects (fst r)) = length (objects gs)
  /\ (forall i o,
         objects gs !! i = Some o ->
         objects (fst r) !! i = Some o
         \/ exists mine e,
              o = MineObj mine
              /\ mine_is_destroyed mine = false
              /\ objects (fst r) !! i = Some (MineObj (destroy_mine mine))
              /\ mine_position mine ∈ mps
              /\ e ∈ es
              /\ is_destroyed (te_tank e) = false
              /\ effective_position e = mine_position mine
              /\ find_entry (te_id e) (snd r) = Some (mark_killed e))
  /\ (forall e mi mine,
         e ∈ es ->
         is_destroyed (te_tank e) = false ->
         effective_position e ∈ mps ->
         getMineAt (tank_of es) gs (effective_position e) = Some (mi, mine) ->
         (forall e2, e2 ∈ es -> is_destroyed (te_tank e2) = false ->
                     effective_position e2 = effective_position e ->
                     e2 = e) ->
         find_entry (te_id e) (snd r) = Some (mark_killed e)
         /\ objects (fst r) !! mi = Some (MineObj (destroy_mine mine)))
  /\ (forall e1 e2 mi mine,
         e1 ∈ es -> e2 ∈ es -> e1 <> e2 ->
         is_destroyed (te_tank e1) = false ->
         is_destroyed (te_tank e2) = false ->
         effective_position e2 = effective_position e1 ->
         effective_position e1 ∈ mps ->
         getMineAt (tank_of es) gs (effective_position e1)
         = Some (mi, mine) ->
         (forall j o, j <> mi -> objects gs !! j = Some o ->
                      obj_is_destroyed (tank_of es) o = true
                      \/ obj_position (tank_of es) o
                         <> effective_position e1) ->
         (forall e3, e3 ∈ es -> is_destroyed (te_tank e3) = false ->
                     effective_position e3 = effective_position e1 ->
                     e3 = e1 \/ e3 = e2) ->
         objects (fst r) !! mi = Some (MineObj (destroy_mine mine))
         /\ ((find_entry (te_id e1) (snd r) = Some (mark_killed e1)
              /\ find_entry (te_id e2) (snd r) = Some e2)
             \/ (find_entry (te_id e1) (snd r) = Some e1
                 /\ find_entry (te_id e2) (snd r) = Some (mark_killed e2)))).
Proof.
  cbn zeta. unfold resolveTankMineCollisions. fold tep.
  assert (Htep : forall kp, kp ∈ tep ->
                   exists e, e ∈ es /\ is_destroyed (te_tank e) = false
                             /\ kp = (te_id e, effective_position e)).
  { intros kp Hkp. by apply tep_elem. }
  pose proof (mines_sprung_fold mps (objects gs) tep [] (gs, es) Htep
                (mines_sprung_init mps gs es)) as Hinv.
  rewrite app_nil_l in Hinv.
  set (r := fold_left (tank_mine_hit mps) tep (gs, es)) in *.
  pose proof (sprung_entries _ _ _ _ _ Hinv) as Hrel.
  assert (Hids : List.map te_id (snd r) = List.map te_id es).
  { clear -Hrel. induction Hrel as [| e e' l l' Hr _ IH]; [done |].
    cbn. rewrite IH. f_equal.
    destruct Hr as [-> | ->]; [done | apply mark_killed_id]. }
  assert (Hfind : forall e, e ∈ snd r ->
                    find_entry (te_id e) (snd r) = Some e).
  { intros e Hin. apply find_entry_NoDup; [by rewrite Hids | done]. }
  assert (Hfindk : forall e, mark_killed e ∈ snd r ->
                     find_entry (te_id e) (snd r) = Some (mark_killed e)).
  { intros e Hin. rewrite <- (mark_killed_id e) at 1. by apply Hfind. }
  destruct Hinv as (H1 & H2 & H3 & H4).
  split_and!.
  - apply Forall2_same_length_lookup. split; [done |].
    intros i e e' He He'.
    destruct (H2 i e He) as [Hl | (Hl & Hd & _ & Hq & Hex)];
      rewrite Hl in He'; injection He' as <-; [by left | by right].
  - done.
  - intros i o Ho.
    destruct (H4 i o Ho)
      as [Hl | (m & e & -> & Hm & Hl & Hp & He & Hd & _ & Heq & Hk)];
      [by left | right].
    exists m, e. split_and!; try done. by apply Hfindk.
  - intros e mi mine He Hd Hp Hg Huniq.
    assert (Hin : (te_id e, effective_position e) ∈ tep)
      by (apply tep_elem; by exists e).
    apply list_elem_of_split in Hin as (l1 & l2 & Hsplit).
    pose proof tep_keys_NoDup as Hnd. rewrite Hsplit in Hnd.
    rewrite map_app in Hnd. cbn [List.map fst] in Hnd.
    apply NoDup_app in Hnd as (_ & Hdisj & _).
    assert (Hv : forall kp, kp ∈ l1 -> snd kp <> effective_position e).
    { intros kp Hkp Heq.
      destruct (Htep kp) as (e1 & He1 & Hd1 & ->);
        [rewrite Hsplit; apply elem_of_app; by left |].
      cbn [snd] in Heq. rewrite (Huniq e1 He1 Hd1 Heq) in Hkp.
      apply (Hdisj (te_id e)).
      - apply list_elem_of_In, in_map_iff.
        exists (te_id e, effective_position e).
        split; [done | by apply list_elem_of_In].
      - apply elem_of_cons. by left. }
    destruct (mine_takes_tank mps gs e mi mine l1 l2 Hsplit He Hd Hp Hg Hv)
      as (_ & Hk & Hmi).
    destruct (fold_tank_mine_hit_keeps mps e mi mine l2 _ Hk Hmi)
      as [Hk' Hmi'].
    assert (Hr : r = fold_left (tank_mine_hit mps) l2
                       (tank_mine_hit mps
                          (fold_left (tank_mine_hit mps) l1 (gs, es))
                          (te_id e, effective_position e))).
    { subst r. by rewrite Hsplit, fold_left_app. }
    split; [apply Hfindk |]; by rewrite Hr.
  - intros e1 e2 mi mine He1 He2 Hne Hd1 Hd2 Heff Hp Hg Halone Hthird.
    assert (Hin1 : (te_id e1, effective_position e1) ∈ tep)
      by (apply tep_elem; by exists e1).
    assert (Hin2 : (te_id e2, effective_position e1) ∈ tep)
      by (apply tep_elem; exists e2; by rewrite Heff).
    assert (Hidne : te_id e2 <> te_id e1).
    { intros Heq. apply Hne. by apply live_entry_unique. }
    apply list_elem_of_split in Hin1 as (l1 & l2 & Hsplit).
    rewrite Hsplit in Hin2. apply elem_of_app in Hin2 as [Hin2 | Hin2].
    + apply list_elem_of_split in Hin2 as (a & b & ->).
      rewrite <- app_assoc in Hsplit. cbn [app] in Hsplit.
      rewrite <- Heff in Hsplit at 1.
      destruct (first_takes_mine mps gs e2 e1 mi mine a
                  (b ++ (te_id e1, effective_position e1) :: l2))
        as (Hmi & Hk & Hkeep); try done.
      * rewrite Heff. apply elem_of_app. right. apply elem_of_cons. by left.
      * by rewrite Heff.
      * by rewrite Heff.
      * intros j o Hj Ho. rewrite Heff. by apply (Halone j).
      * intros e3 He3 Hd3 He3p. rewrite Heff in He3p.
        destruct (Hthird e3 He3 Hd3 He3p); [by right | by left].
      * split; [exact Hmi |]. right. split; [by apply Hfind |].
        by apply Hfindk.
    + apply elem_of_cons in Hin2 as [[= Heq] | Hin2]; [done |].
      destruct (first_takes_mine mps gs e1 e2 mi mine l1 l2)
        as (Hmi & Hk & Hkeep); try done.
      split; [exact Hmi |]. left. split; [by apply Hfindk |].
      by apply Hfind.
Qed.

End TankHitFacts.

(** The shell flying at the two neighbours that exchange their cells, for
    X29: it strikes one of them, which is destroyed. *)
Lemma X29_shell_tank_collisions_witness :
  exists e e',
    e ∈ swapping_entries
    /\ shell_strikes (objects incoming_shell) (0%nat, mkPos 1 0) e = true
    /\ find_entry (te_id e)
         (snd (resolveShellTankCollisions (fun l => l) [(0%nat, mkPos 1 0)]
                 incoming_shell swapping_entries))
       = Some e'
    /\ is_destroyed (te_tank e') = true.
Proof.
  assert (Hnd : NoDup (List.map te_id swapping_entries)) by compute_done.
  destruct (X29_shell_tank_collisions (fun l => l)
              (fun l _ => reflexivity l) swapping_entries Hnd
              [(0%nat, mkPos 1 0)] incoming_shell)
    as (_ & _ & Hkill & _).
  apply Hkill.
  - apply elem_of_cons. by left.
  - exists swap_left. split; [apply elem_of_cons; by left | reflexivity].
Defined.

(** The two tanks that move onto the mined cell between them, for X30:
    the mine is destroyed with one of them and the other is left as it
    is. *)
Lemma X30_tank_mine_collisions_witness :
  objects (fst (resolveTankMineCollisions (fun l => l) {[mkPos 1 0]}
                  mined_cell meeting_entries)) !! 1%nat
  = Some (MineObj (destroy_mine (mkMine (mkPos 1 0) false)))
  /\ ((find_entry 0 (snd (resolveTankMineCollisions (fun l => l)
                            {[mkPos 1 0]} mined_cell meeting_entries))
       = Some (mark_killed swap_left)
       /\ find_entry 1 (snd (resolveTankMineCollisions (fun l => l)
                               {[mkPos 1 0]} mined_cell meeting_entries))
          = Some meeting_right)
      \/ (find_entry 0 (snd (resolveTankMineCollisions (fun l => l)
                               {[mkPos 1 0]} mined_cell meeting_entries))
          = Some swap_left
          /\ find_entry 1 (snd (resolveTankMineCollisions (fun l => l)
                                  {[mkPos 1 0]} mined_cell meeting_entries))
             = Some (mark_killed meeting_right))).
Proof.
  assert (Hnd : NoDup (List.map te_id meeting_entries)) by compute_done.
  destruct (X30_tank_mine_collisions (fun l => l)
              (fun l _ => reflexivity l) meeting_entries Hnd
              {[mkPos 1 0]} mined_cell)
    as (_ & _ & _ & _ & Htwo).
  apply (Htwo swap_left meeting_right 1%nat (mkMine (mkPos 1 0) false)).
  - apply elem_of_cons. by left.
  - apply elem_of_cons. right. apply elem_of_cons. by left.
  - discriminate.
  - reflexivity.
  - reflexivity.
  - reflexivity.
  - by apply elem_of_singleton.
  - reflexivity.
  - intros [| [| [| j]]] o Hj Ho; try done; cbn in Ho;
      injection Ho as <-; right; cbn; discriminate.
  - intros e3 He3 _ _.
    apply elem_of_cons in He3 as [-> | He3]; [by left |].
    apply list_elem_of_singleton in He3 as ->. by right.
Defined.

(** * Whole passes: wall health and the observation snapshot *)

(** ** Walls: one pass of [resolveShellWallCollisions] *)

Lemma getWallAt_Some {T : Type} (view : T -> option Tank) (gs : GameState T)
    pos wi wall :
  getWallAt view gs pos = Some (wi, wall)
  <-> objects gs !! wi = Some (WallObj wall)
      /\ wall_is_destroyed wall = false /\ wall_position wall = pos
      /\ forall j o', (j < wi)%nat -> objects gs !! j = Some o' ->
           obj_is_destroyed view o' = true \/ obj_position view o' <> pos.
Proof.
  unfold getWallAt, getObjectAt. split.
  - destruct (getObjectAt_from view 0 (objects gs) pos) as [[j o] |] eqn:Hg;
      [| done].
    destruct o as [| | w |]; try done. intros [= -> ->].
    apply getObjectAt_from_iff in Hg as (k & -> & Hrest). exact Hrest.
  - intros Hrest.
    assert (Hg : getObjectAt_from view 0 (objects gs) pos
                 = Some (wi, WallObj wall)).
    { apply getObjectAt_from_iff. exists wi. split; [done | exact Hrest]. }
    by rewrite Hg.
Qed.

Lemma shell_wall_hit_cases view wps (gs : GameState Z) i q :
  (shell_wall_hit view wps gs (i, q) = gs
   /\ (shell_live (objects gs) i = false \/ q ∉ wps
       \/ getWallAt view gs q = None))
  \/ exists wj wallj,
       shell_live (objects gs) i = true /\ q ∈ wps
       /\ getWallAt view gs q = Some (wj, wallj)
       /\ shell_wall_hit view wps gs (i, q)
          = set_objects
              (destroy_shell_at i
                 (alter (on_wall (fun w => fst (takeDamage w))) wj
                        (objects gs))) gs.
Proof.
  unfold shell_wall_hit.
  destruct (shell_live (objects gs) i) eqn:Hl; cbn [andb];
    [| left; split; [done | by left]].
  case_bool_decide as Hq; [| left; split; [done | right; by left]].
  destruct (getWallAt view gs q) as [[wj wallj] |] eqn:Hg;
    [| left; split; [done | right; by right]].
  pose proof Hg as Hg'. apply getWallAt_Some in Hg' as (_ & Hlive & _).
  rewrite Hlive. cbn [negb]. right. by exists wj, wallj.
Qed.

Lemma damaged_position w : wall_position (fst (takeDamage w)) = wall_position w.
Proof. unfold takeDamage. by destruct (_ <=? 0). Qed.

Lemma damaged_stays_destroyed w :
  wall_is_destroyed w = true -> wall_is_destroyed (fst (takeDamage w)) = true.
Proof. unfold takeDamage. by destruct (_ <=? 0). Qed.

Lemma lookup_alter_cases {A} (g : A -> A) k (l : list A) j o1 :
  alter g k l !! j = Some o1 ->
  exists o, l !! j = Some o /\ (o1 = o \/ o1 = g o).
Proof.
  destruct (decide (k = j)) as [-> | Hne].
  - rewrite list_lookup_alter_eq. destruct (l !! j) as [o |]; [| done].
    intros [= <-]. exists o. split; [done | by right].
  - rewrite list_lookup_alter_ne by done. intros Ho. exists o1.
    split; [done | by left].
Qed.

Lemma shell_wall_hit_lookup view wps (gs : GameState Z) sp j o1 :
  objects (shell_wall_hit view wps gs sp) !! j = Some o1 ->
  exists o,
    objects gs !! j = Some o
    /\ obj_position view o1 = obj_position view o
    /\ (obj_is_destroyed view o = true -> obj_is_destroyed view o1 = true).
Proof.
  destruct sp as [i q].
  destruct (shell_wall_hit_cases view wps gs i q)
    as [[-> _] | (wj & wallj & _ & _ & _ & ->)]; [by exists o1 |].
  cbn [objects set_objects]. unfold destroy_shell_at. intros Hl.
  apply lookup_alter_cases in Hl as (o2 & Ho2 & Hrel2).
  apply lookup_alter_cases in Ho2 as (o & Ho & Hrel).
  exists o. split; [done |].
  assert (Hw : obj_position view o2 = obj_position view o
               /\ (obj_is_destroyed view o = true ->
                   obj_is_destroyed view o2 = true)).
  { destruct Hrel as [-> | ->]; [done |].
    destruct o as [| | w |]; cbn; try done.
    split; [apply damaged_position | apply damaged_stays_destroyed]. }
  destruct Hw as [Hp Hd].
  destruct Hrel2 as [-> | ->]; [done |].
  destruct o2 as [| s | |]; cbn in *; try done.
Qed.

Lemma shell_wall_hit_other_shell view wps (gs : GameState Z) i q j :
  j <> i ->
  shell_live (objects (shell_wall_hit view wps gs (i, q))) j
  = shell_live (objects gs) j.
Proof.
  intros Hne.
  destruct (shell_wall_hit_cases view wps gs i q)
    as [[-> _] | (wj & wallj & _ & _ & _ & ->)]; [done |].
  cbn [objects set_objects]. rewrite shell_live_destroy_shell_at.
  destruct (decide (i = j)) as [-> | _]; [done |].
  unfold shell_live. by rewrite shell_at_alter_wall.
Qed.

Lemma shells_heading_other view wps (gs : GameState Z) i q rest p :
  i ∉ List.map fst rest ->
  shells_heading (objects (shell_wall_hit view wps gs (i, q))) rest p
  = shells_heading (objects gs) rest p.
Proof.
  intros Hi. unfold shells_heading. apply filter_ext_in. intros ip Hip.
  rewrite shell_wall_hit_other_shell; [done |].
  intros Heq. apply Hi. apply list_elem_of_In, in_map_iff. by exists ip.
Qed.

Section WallPass.
Variable view : Z -> option Tank.
Variable wps : gset Position.
Variable p : Position.
Variable wi : nat.
Hypothesis p_listed : p ∈ wps.

Lemma wall_pass (sip : list (nat * Position)) :
  forall (gs : GameState Z) (wall : Wall),
    walls_ok (objects gs) ->
    NoDup (List.map fst sip) ->
    objects gs !! wi = Some (WallObj wall) ->
    wall_position wall = p ->
    (forall j o, (j < wi)%nat -> objects gs !! j = Some o ->
                 obj_is_destroyed view o = true
                 \/ obj_position view o <> p) ->
    let k := Z.of_nat (length (shells_heading (objects gs) sip p)) in
    let gs' := resolveShellWallCollisions view sip wps gs in
    exists wall',
      objects gs' !! wi = Some (WallObj wall')
      /\ wall_position wall' = p
      /\ health wall' = Z.max 0 (health wall - k)
      /\ (k <= health wall ->
          forall ip, ip ∈ shells_heading (objects gs) sip p ->
                     shell_live (objects gs') (fst ip) = false).
Proof.
  induction sip as [| [i q] rest IH];
    intros gs wall Hok Hnd Hlk Hpos Hfirst; cbn zeta.
  - exists wall. cbn. split_and!; try done.
    + assert (Hw : wall_ok wall).
      { unfold walls_ok in Hok. rewrite Forall_forall in Hok.
        apply (Hok (WallObj wall)). by apply list_elem_of_lookup_2 in Hlk. }
      destruct Hw as [[_ [Hh | Hh]] | [_ Hh]]; lia.
    + intros _ ip Hip. by apply elem_of_nil in Hip.
  - cbn [List.map fst] in Hnd. apply NoDup_cons in Hnd as [Hi Hnd].
    unfold resolveShellWallCollisions. cbn [fold_left].
    fold (resolveShellWallCollisions view rest wps
            (shell_wall_hit view wps gs (i, q))).
    set (gs1 := shell_wall_hit view wps gs (i, q)).
    assert (Hw : wall_ok wall).
    { unfold walls_ok in Hok. rewrite Forall_forall in Hok.
      apply (Hok (WallObj wall)). by apply list_elem_of_lookup_2 in Hlk. }
    assert (Hok1 : walls_ok (objects gs1))
      by apply (shell_wall_hit_spec view wps gs i q Hok).
    assert (Hfirst1 : forall j o, (j < wi)%nat -> objects gs1 !! j = Some o ->
                        obj_is_destroyed view o = true
                        \/ obj_position view o <> p).
    { intros j o1 Hj Ho1.
      destruct (shell_wall_hit_lookup view wps gs (i, q) j o1 Ho1)
        as (o & Ho & Hp & Hd).
      destruct (Hfirst j o Hj Ho) as [Hdead | Hoff];
        [left; by apply Hd | right; by rewrite Hp]. }
    assert (Hrest : shells_heading (objects gs1) rest p
                    = shells_heading (objects gs) rest p)
      by (by apply shells_heading_other).
    assert (Hfades : fades (objects gs1)
                       (objects (resolveShellWallCollisions view rest wps
                                   gs1)))
      by apply fades_resolveShellWallCollisions.
    (* the head of the list counts exactly when its shell is live and
       heads for [p] *)
    assert (Hhead : shells_heading (objects gs) ((i, q) :: rest) p
                    = if shell_live (objects gs) i && pos_eqb q p
                      then (i, q) :: shells_heading (objects gs) rest p
                      else shells_heading (objects gs) rest p)
      by reflexivity.
    rewrite !Hhead. clear Hhead.
    destruct (shell_wall_hit_cases view wps gs i q)
      as [[Hsame Hwhy] | (wj & wallj & Hlive & Hq & Hg & Hhit)].
    + (* nothing is hit *)
      assert (Hlk1 : objects gs1 !! wi = Some (WallObj wall))
        by (subst gs1; by rewrite Hsame).
      destruct (IH gs1 wall Hok1 Hnd Hlk1 Hpos Hfirst1)
        as (wall' & Hl' & Hp' & Hh' & Hs'). rewrite Hrest in Hh', Hs'.
      exists wall'.
      destruct (shell_live (objects gs) i && pos_eqb q p) eqn:Hc.
      * (* counted, yet not hit: the wall is destroyed already *)
        apply andb_true_iff in Hc as [Hl Hqp]. apply pos_eqb_eq in Hqp.
        subst q.
        assert (Hdead : wall_is_destroyed wall = true).
        { destruct (wall_is_destroyed wall) eqn:Hd; [done |]. exfalso.
          destruct Hwhy as [Hwhy | [Hwhy | Hwhy]];
            [congruence | done |].
          assert (Hsome : getWallAt view gs p = Some (wi, wall))
            by (by apply getWallAt_Some).
          congruence. }
        assert (Hzero : health wall = 0).
        { destruct Hw as [[Hd _] | [_ Hh]]; [congruence | done]. }
        cbn [length]. split_and!; try done; [lia |].
        intros Hk. lia.
      * by split_and!.
    + (* the wall [wj] is hit *)
      pose proof Hg as Hg'.
      apply getWallAt_Some in Hg' as (Hlkj & Hlivej & Hposj & Hfirstj).
      assert (Hdead_i : shell_live (objects gs1) i = false).
      { subst gs1. rewrite Hhit. cbn [objects set_objects].
        rewrite shell_live_destroy_shell_at. by rewrite decide_True. }
      assert (Hdead_i' :
                shell_live (objects (resolveShellWallCollisions view rest
                                       wps gs1)) i = false)
        by (by apply (fades_dead _ _ _ Hfades)).
      destruct (decide (wj = wi)) as [-> | Hne].
      * (* it is the wall at [wi] *)
        assert (wallj = wall) as -> by congruence.
        assert (q = p) as -> by congruence.
        assert (Hlk1 : objects gs1 !! wi
                       = Some (WallObj (fst (takeDamage wall)))).
        { subst gs1. rewrite Hhit. cbn [objects set_objects].
          unfold destroy_shell_at.
          assert (Hiw : i <> wi).
          { intros ->. unfold shell_live, shell_at in Hlive.
            by rewrite Hlk in Hlive. }
          rewrite list_lookup_alter_ne by done.
          by rewrite list_lookup_alter_eq, Hlk. }
        destruct (takeDamage_ok wall Hw Hlivej) as (_ & Hh1 & _).
        destruct (IH gs1 (fst (takeDamage wall)) Hok1 Hnd Hlk1
                    ltac:(by rewrite damaged_position) Hfirst1)
          as (wall' & Hl' & Hp' & Hh' & Hs'). rewrite Hrest in Hh', Hs'.
        exists wall'. rewrite Hlive, pos_eqb_refl. cbn [andb length].
        split_and!; try done; [lia |].
        intros Hk ip Hip. apply elem_of_cons in Hip as [-> | Hip];
          [exact Hdead_i' |].
        apply Hs'; [lia | done].
      * (* it is another wall *)
        assert (Hlk1 : objects gs1 !! wi = Some (WallObj wall)).
        { subst gs1. rewrite Hhit. cbn [objects set_objects].
          unfold destroy_shell_at.
          destruct (decide (i = wi)) as [-> | Hiw].
          - rewrite list_lookup_alter_eq, list_lookup_alter_ne, Hlk by done.
            done.
          - by rewrite !list_lookup_alter_ne. }
        destruct (IH gs1 wall Hok1 Hnd Hlk1 Hpos Hfirst1)
          as (wall' & Hl' & Hp' & Hh' & Hs'). rewrite Hrest in Hh', Hs'.
        exists wall'. rewrite Hlive. cbn [andb].
        destruct (pos_eqb q p) eqn:Hqp.
        -- (* the wall at [wi] is destroyed: the shell hit the next one *)
           apply pos_eqb_eq in Hqp. subst q.
           assert (Hdead : wall_is_destroyed wall = true).
           { destruct (wall_is_destroyed wall) eqn:Hd; [done |]. exfalso.
             assert (Hsome : getWallAt view gs p = Some (wi, wall))
               by (by apply getWallAt_Some).
             congruence. }
           assert (Hzero : health wall = 0).
           { destruct Hw as [[Hd _] | [_ Hh]]; [congruence | done]. }
           cbn [length]. split_and!; try done; [lia |].
           intros Hk. lia.
        -- by split_and!.
Qed.

End WallPass.

Section WallHealth.
Context {Strat : Type} `{TankAlgorithm Strat}.
Variable umap_order : list Z -> list Z.
Variable fresh_data : TankStepData.
Variable max_after : Z.

(** C6.  A new wall has health 2 and is not destroyed.  Starting from a
    board whose walls are new (or, more generally, live with health 1 or 2
    or destroyed with health 0), in every state reached by whole steps and
    after every pass of [resolveShellWallCollisions] each wall has health
    between 0 and 2 and is destroyed exactly when its health is 0.  A
    shell whose intended position is a live wall's cell takes exactly 1
    from that wall's health and is itself destroyed, whether or not the
    wall dies; when no wall is hit nothing changes.  Over a whole pass of
    [resolveShellWallCollisions] on distinct shells, a wall that
    [getWallAt] finds on its cell loses exactly 1 for each live shell
    that heads for the cell, until its health is 0: after the pass its
    health is the greater of 0 and its health less the number of those
    shells, it is destroyed exactly if that is 0, and when the shells are
    no more than its health every one of them is destroyed. *)
Theorem C6_wall_health :
  (forall p, health (new_Wall p) = 2
             /\ wall_is_destroyed (new_Wall p) = false
             /\ wall_ok (new_Wall p))
  /\ (forall gm0 gm,
         walls_ok (objects (state gm0)) ->
         reachable umap_order fresh_data max_after gm0 gm ->
         forall w, WallObj w ∈ objects (state gm) ->
                   0 <= health w <= 2
                   /\ (wall_is_destroyed w = true <-> health w = 0))
  /\ (forall (view : Z -> option Tank) sip wps gs,
         walls_ok (objects gs) ->
         forall w,
           WallObj w
           ∈ objects (resolveShellWallCollisions view sip wps gs) ->
           0 <= health w <= 2
           /\ (wall_is_destroyed w = true <-> health w = 0))
  /\ (forall (view : Z -> option Tank) wps gs i pos,
         walls_ok (objects gs) ->
         let gs' := shell_wall_hit view wps gs (i, pos) in
         (forall wi wall,
             shell_live (objects gs) i = true -> pos ∈ wps ->
             getWallAt view gs pos = Some (wi, wall) ->
             exists wall',
               objects gs' !! wi = Some (WallObj wall')
               /\ wall_position wall' = wall_position wall
               /\ health wall' = health wall - 1
               /\ 0 <= health wall'
               /\ (wall_is_destroyed wall' = true <-> health wall' = 0)
               /\ shell_live (objects gs') i = false)
         /\ (shell_live (objects gs) i = false \/ pos ∉ wps
             \/ getWallAt view gs pos = None -> gs' = gs))
  /\ (forall (view : Z -> option Tank) sip wps gs p wi wall,
         walls_ok (objects gs) ->
         NoDup (List.map fst sip) ->
         p ∈ wps ->
         getWallAt view gs p = Some (wi, wall) ->
         let hits := shells_heading (objects gs) sip p in
         let gs' := resolveShellWallCollisions view sip wps gs in
         exists wall',
           objects gs' !! wi = Some (WallObj wall')
           /\ wall_position wall' = p
           /\ health wall'
              = Z.max 0 (health wall - Z.of_nat (length hits))
           /\ (wall_is_destroyed wall' = true <-> health wall' = 0)
           /\ (Z.of_nat (length hits) <= health wall ->
               forall ip, ip ∈ hits ->
                          shell_live (objects gs') (fst ip) = false)).
Proof.
  assert (Hread : forall objs w,
             walls_ok objs -> WallObj w ∈ objs ->
             0 <= health w <= 2
             /\ (wall_is_destroyed w = true <-> health w = 0)).
  { intros objs w Hok Hin. unfold walls_ok in Hok.
    rewrite Forall_forall in Hok. specialize (Hok _ Hin). cbn in Hok.
    destruct Hok as [[Hd [Hh | Hh]] | [Hd Hh]]; rewrite Hd, Hh;
      repeat split; intros; try lia; try discriminate; auto. }
  split_and!.
  - intros p. cbn. repeat split. left. cbn. auto.
  - intros gm0 gm Hok Hreach w. apply Hread.
    induction Hreach; auto using walls_ok_processStep.
  - intros view sip wps gs Hok w. apply Hread.
    apply walls_ok_resolveShellWallCollisions, Hok.
  - intros view wps gs i pos Hok gs'.
    apply (shell_wall_hit_spec view wps gs i pos Hok).
  - intros view sip wps gs p wi wall Hok Hnd Hp Hg hits gs'.
    apply getWallAt_Some in Hg as (Hlk & _ & Hpos & Hfirst).
    destruct (wall_pass view wps p wi Hp sip gs wall Hok Hnd Hlk Hpos Hfirst)
      as (wall' & Hl' & Hp' & Hh' & Hs').
    exists wall'. split_and!; try done.
    apply (Hread (objects gs')); [| by apply list_elem_of_lookup_2 in Hl'].
    apply walls_ok_resolveShellWallCollisions, Hok.
Qed.

End WallHealth.

(** Three shells that head for a new wall in one pass, for C6: the wall
    ends with health 0, not below, and is destroyed. *)
Lemma C6_wall_health_witness :
  exists wall',
    objects (resolveShellWallCollisions (fun _ => None)
               [(1%nat, mkPos 1 0); (2%nat, mkPos 1 0); (3%nat, mkPos 1 0)]
               {[mkPos 1 0]} wall_three_shells) !! 0%nat
    = Some (WallObj wall')
    /\ health wall' = 0
    /\ wall_is_destroyed wall' = true.
Proof.
  destruct (C6_wall_health (Strat := RotatingAlgorithm) (fun l => l)
              sample_data 40)
    as (_ & _ & _ & _ & Hpass).
  destruct (Hpass (fun _ => None)
              [(1%nat, mkPos 1 0); (2%nat, mkPos 1 0); (3%nat, mkPos 1 0)]
              {[mkPos 1 0]} wall_three_shells (mkPos 1 0) 0%nat
              (new_Wall (mkPos 1 0)))
    as (wall' & Hl & _ & Hh & Hd & _).
  - apply Forall_cons. split; [| by repeat constructor].
    left. cbn. auto.
  - compute_done.
  - by apply elem_of_singleton.
  - reflexivity.
  - assert (Hzero : health wall' = 0) by (rewrite Hh; reflexivity).
    exists wall'. split; [exact Hl |]. split; [exact Hzero |].
    apply Hd. exact Hzero.
Defined.

(** ** The observation snapshot: the whole of [executeImmediateActions] *)

Section DrawnFacts.
Variable view : Z -> option Tank.

Lemma draw_object_fold w h (m0 : list (list ascii)) q
    (objs : list (GameObject Z)) :
  rect w h m0 -> on_board w h q ->
  forall i,
    seen_at (fold_left (draw_object view) objs m0) q
    = match getObjectAt_from view i (rev objs) q with
      | Some (_, o) => obj_symbol view o
      | None => seen_at m0 q
      end.
Proof.
  intros Hr Hq. induction objs as [| o objs IH] using rev_ind; intros i.
  - done.
  - rewrite fold_left_app, rev_app_distr. cbn [rev app fold_left].
    cbn [getObjectAt_from].
    pose proof (rect_fold_draw_object view w h objs m0 Hr) as Hr'.
    set (m := fold_left (draw_object view) objs m0) in *.
    unfold draw_object.
    destruct (obj_is_destroyed view o) eqn:Hd; cbn [negb andb];
      [apply IH |].
    destruct (pos_eqb (obj_position view o) q) eqn:Hp.
    + apply pos_eqb_eq in Hp. rewrite Hp.
      rewrite (seen_set_same w h) by done.
      unfold render. by rewrite Hd.
    + apply pos_eqb_neq in Hp.
      rewrite (seen_set_other w h) by (try done; congruence).
      apply IH.
Qed.

Lemma draw_shell_fold w h q (objs : list (GameObject Z)) :
  forall m0 : list (list ascii),
    rect w h m0 -> on_board w h q ->
    seen_at (fold_left (draw_shell view) objs m0) q
    = if existsb (shell_on view q) objs then "*"%char else seen_at m0 q.
Proof.
  induction objs as [| o objs IH]; intros m0 Hr Hq; [done |].
  cbn [fold_left existsb].
  pose proof (rect_draw_shell view w h m0 o Hr) as Hr1.
  destruct (shell_on view q o) eqn:Hs; cbn [orb].
  - unfold shell_on in Hs. apply andb_true_iff in Hs as [Hs Hp].
    apply andb_true_iff in Hs as [Hsh Hl]. apply negb_true_iff in Hl.
    apply pos_eqb_eq in Hp.
    apply (fold_draw_shell_keeps_star view w h); [done | done |].
    unfold draw_shell. rewrite Hl, Hsh, Hp.
    rewrite (seen_set_same w h) by done.
    unfold render. rewrite Hl. by destruct o.
  - rewrite IH by done.
    assert (Hsame : seen_at (draw_shell view m0 o) q = seen_at m0 q).
    { unfold draw_shell. unfold shell_on in Hs.
      destruct (obj_is_destroyed view o); [done |].
      destruct (is_shell o); [| done]. cbn [negb andb] in Hs.
      apply pos_eqb_neq in Hs.
      apply (seen_set_other w h); [done | done | congruence]. }
    by rewrite Hsame.
Qed.

Lemma build_board_matrix_rect (gs : GameState Z) :
  rect (Z.to_nat (board_width gs)) (Z.to_nat (board_height gs))
       (build_board_matrix view gs).
Proof.
  unfold build_board_matrix. cbn zeta.
  generalize (objects gs) at 1. intros objs.
  pose proof (rect_fold_draw_object view _ _ (objects gs) _
                (rect_new (board_width gs) (board_height gs) " ")) as Hr.
  revert Hr. generalize (fold_left (draw_object view) (objects gs)
                           (matrix_new (board_width gs) (board_height gs) " ")).
  induction objs as [| o objs IH]; intros m Hr; [done |].
  cbn [fold_left]. apply IH. by apply rect_draw_shell.
Qed.

Lemma build_board_matrix_drawn (gs : GameState Z) q :
  on_board (Z.to_nat (board_width gs)) (Z.to_nat (board_height gs)) q ->
  seen_at (build_board_matrix view gs) q = drawn_at view gs q.
Proof.
  intros Hq. unfold build_board_matrix, drawn_at. cbn zeta.
  pose proof (rect_new (board_width gs) (board_height gs) " ") as Hr0.
  rewrite (draw_shell_fold _ _ q (objects gs) _
             (rect_fold_draw_object view _ _ _ _ Hr0) Hq).
  destruct (existsb (shell_on view q) (objects gs)); [done |].
  rewrite (draw_object_fold _ _ _ q (objects gs) Hr0 Hq 0%nat).
  unfold getObjectAt. cbn [objects set_objects].
  destruct (getObjectAt_from view 0 (rev (objects gs)) q) as [[j o] |];
    [done |].
  rewrite (seen_at_get _ _ _ q Hr0 Hq).
  destruct Hq as [Hx Hy]. apply matrix_get_new; lia.
Qed.

End DrawnFacts.

Section PassFacts.
Context {Strat : Type} `{TankAlgorithm Strat}.

Lemma execute_entry_info (p1 p2 : MyPlayer) (e : TankEntry)
    (m : list (list ascii)) (objs : list (GameObject Z))
    (algos : gmap Z Strat) :
  outcome (te_data e) = RETURNING_BATTLE_INFO ->
  execute_entry p1 p2 e (m, objs, algos)
  = (with_data (set_logged (logged (te_tank e) (te_id e) GetBattleInfo false))
               e,
     (matrix_set (matrix_set m (position (te_tank e)) "%")
                 (position (te_tank e))
                 (if is_destroyed (te_tank e) then " "%char
                  else tank_symbol (te_tank e)),
      objs,
      match algos !! te_id e with
      | Some algo =>
          <[te_id e :=
              updateTankWithBattleInfo
                (if player_id (te_tank e) =? 1 then p1 else p2) algo
                (matrix_set m (position (te_tank e)) "%")]> algos
      | None => algos
      end)).
Proof.
  intros Hout. unfold execute_entry. rewrite Hout.
  replace (bool_decide (RETURNING_BATTLE_INFO = SHOT_INITIATED))
    with false by reflexivity.
  replace (bool_decide (RETURNING_BATTLE_INFO = INVALID_ACTION))
    with false by reflexivity.
  replace (bool_decide (RETURNING_BATTLE_INFO = ROTATED))
    with false by reflexivity.
  replace (bool_decide (RETURNING_BATTLE_INFO = MOVE_PENDING))
    with false by reflexivity.
  replace (bool_decide (RETURNING_BATTLE_INFO = STATE_CHANGED))
    with false by reflexivity.
  replace (bool_decide (RETURNING_BATTLE_INFO = RETURNING_BATTLE_INFO))
    with true by reflexivity.
  by rewrite andb_false_r.
Qed.

Lemma execute_entry_matrix (p1 p2 : MyPlayer) (e : TankEntry)
    (st : list (list ascii) * list (GameObject Z) * gmap Z Strat) :
  outcome (te_data e) <> RETURNING_BATTLE_INFO ->
  fst (fst (snd (execute_entry p1 p2 e st))) = fst (fst st).
Proof.
  intros Hout. unfold execute_entry. destruct st as [[m objs] algos].
  repeat case_bool_decide; cbn [andb orb]; try done.
  by destruct (shoot (te_tank e)) as [t' [s |]].
Qed.

Lemma set_back (m : list (list ascii)) own c :
  matrix_set (matrix_set m own "%") own c = matrix_set m own c.
Proof.
  unfold matrix_set.
  destruct ((px own <? 0) || (py own <? 0)); [reflexivity |].
  apply list_eq. intros j.
  destruct (decide (j = Z.to_nat (px own))) as [-> | Hj].
  - rewrite !list_lookup_alter_eq.
    destruct (m !! Z.to_nat (px own)) as [col |]; cbn; [| reflexivity].
    by rewrite list_insert_insert_eq.
  - by rewrite !list_lookup_alter_ne.
Qed.

Lemma execute_entries_app (p1 p2 : MyPlayer) (l1 l2 : list TankEntry) :
  forall st : list (list ascii) * list (GameObject Z) * gmap Z Strat,
    execute_entries p1 p2 (l1 ++ l2) st
    = let '(r1, st1) := execute_entries p1 p2 l1 st in
      let '(r2, st2) := execute_entries p1 p2 l2 st1 in
      (r1 ++ r2, st2).
Proof.
  induction l1 as [| e l1 IH]; intros st.
  - cbn. by destruct (execute_entries p1 p2 l2 st).
  - cbn [app execute_entries].
    destruct (execute_entry p1 p2 e st) as [e' st0]. rewrite IH.
    destruct (execute_entries p1 p2 l1 st0) as [r1 st1].
    by destruct (execute_entries p1 p2 l2 st1) as [r2 st2].
Qed.

Section OnePass.
Variables p1 p2 : MyPlayer.
Variables w h : nat.
Variable M : list (list ascii).
Hypothesis M_rect : rect w h M.

Lemma pass_snapshots (es : list TankEntry) :
  forall (objs : list (GameObject Z)) (algos : gmap Z Strat),
    NoDup (List.map te_id es) ->
    (forall e, e ∈ es -> outcome (te_data e) = RETURNING_BATTLE_INFO ->
               is_destroyed (te_tank e) = false
               /\ on_board w h (position (te_tank e))
               /\ seen_at M (position (te_tank e)) = tank_symbol (te_tank e)) ->
    let r := execute_entries p1 p2 es (M, objs, algos) in
    fst (fst (snd r)) = M
    /\ forall e algo,
         e ∈ es -> outcome (te_data e) = RETURNING_BATTLE_INFO ->
         algos !! te_id e = Some algo ->
         snd (snd r) !! te_id e
         = Some (updateTankWithBattleInfo
                   (if player_id (te_tank e) =? 1 then p1 else p2) algo
                   (matrix_set M (position (te_tank e)) "%")).
Proof.
  induction es as [| e0 rest IH]; intros objs algos Hnd Hreq; cbn zeta.
  - split; [done |]. intros e algo He. by apply elem_of_nil in He.
  - cbn [List.map] in Hnd. apply NoDup_cons in Hnd as [Hid0 Hnd].
    cbn [execute_entries].
    destruct (execute_entry p1 p2 e0 (M, objs, algos))
      as [e0' [[m1 objs1] algos1]] eqn:Hstep.
    assert (Hm1 : m1 = M).
    { destruct (decide (outcome (te_data e0) = RETURNING_BATTLE_INFO))
        as [Hout | Hout].
      - rewrite (execute_entry_info _ _ _ _ _ _ Hout) in Hstep.
        injection Hstep as _ <- _ _.
        destruct (Hreq e0) as (Hlive & Hon & Hshown);
          [apply elem_of_cons; by left | done |].
        rewrite Hlive, set_back. by apply (matrix_set_id w h).
      - pose proof (execute_entry_matrix p1 p2 e0 (M, objs, algos) Hout)
          as Hk. by rewrite Hstep in Hk. }
    subst m1.
    assert (Hreq' : forall e, e ∈ rest ->
                      outcome (te_data e) = RETURNING_BATTLE_INFO ->
                      is_destroyed (te_tank e) = false
                      /\ on_board w h (position (te_tank e))
                      /\ seen_at M (position (te_tank e))
                         = tank_symbol (te_tank e)).
    { intros e He. apply Hreq. apply elem_of_cons. by right. }
    destruct (IH objs1 algos1 Hnd Hreq') as [IHm IHa].
    destruct (execute_entries p1 p2 rest (M, objs1, algos1))
      as [rest' [[m2 objs2] algos2]] eqn:Hrest.
    cbn [fst snd] in *. split; [exact IHm |].
    intros e algo He Hout Halgo.
    apply elem_of_cons in He as [-> | He].
    + (* the head: later entries have other ids *)
      pose proof (execute_entries_algos p1 p2 rest (M, objs1, algos1)
                    (te_id e0) Hnd) as Hlater.
      rewrite Hrest in Hlater. cbn [fst snd] in Hlater.
      destruct Hlater as [_ Hlater]. rewrite Hlater.
      * rewrite (execute_entry_info _ _ _ _ _ _ Hout) in Hstep.
        injection Hstep as _ _ _ <-. rewrite Halgo.
        apply lookup_insert_eq.
      * intros e' He' Hid'. exfalso. apply Hid0. rewrite <- Hid'.
        apply list_elem_of_In, in_map. by apply list_elem_of_In.
    + (* a later entry: the head has another id *)
      apply IHa; [done | done |].
      pose proof (execute_entry_algos p1 p2 e0 (M, objs, algos) (te_id e))
        as Hhead.
      rewrite Hstep in Hhead. cbn [fst snd] in Hhead.
      destruct Hhead as (_ & Hhead & _). rewrite Hhead; [done |].
      intros Heq. apply Hid0. rewrite <- Heq.
      apply list_elem_of_In, in_map. by apply list_elem_of_In.
Qed.

Lemma pass_handover (before after : list TankEntry) (e : TankEntry) :
  forall (objs : list (GameObject Z)) (algos : gmap Z Strat) (algo : Strat),
    NoDup (List.map te_id (before ++ e :: after)) ->
    outcome (te_data e) = RETURNING_BATTLE_INFO ->
    (forall e1, e1 ∈ before ->
                outcome (te_data e1) = RETURNING_BATTLE_INFO ->
                is_destroyed (te_tank e1) = false
                /\ on_board w h (position (te_tank e1))
                /\ seen_at M (position (te_tank e1))
                   = tank_symbol (te_tank e1)) ->
    algos !! te_id e = Some algo ->
    snd (snd (execute_entries p1 p2 (before ++ e :: after) (M, objs, algos)))
    !! te_id e
    = Some (updateTankWithBattleInfo
              (if player_id (te_tank e) =? 1 then p1 else p2) algo
              (matrix_set M (position (te_tank e)) "%")).
Proof.
  intros objs algos algo Hnd Hout Hbefore Halgo.
  rewrite map_app in Hnd. cbn [List.map] in Hnd.
  apply NoDup_app in Hnd as (Hnd1 & Hdisj & Hnd2).
  apply NoDup_cons in Hnd2 as [Hid Hnd2].
  rewrite execute_entries_app.
  destruct (pass_snapshots before objs algos Hnd1 Hbefore) as [Hm1 _].
  pose proof (execute_entries_algos p1 p2 before (M, objs, algos) (te_id e)
                Hnd1) as [_ Hkeep1].
  destruct (execute_entries p1 p2 before (M, objs, algos))
    as [r1 [[m1 objs1] algos1]].
  cbn [fst snd] in Hm1, Hkeep1. subst m1.
  assert (Halgo1 : algos1 !! te_id e = Some algo).
  { rewrite Hkeep1; [exact Halgo |].
    intros e1 He1 Hid1. exfalso. apply (Hdisj (te_id e)).
    - rewrite <- Hid1. apply list_elem_of_In, in_map.
      by apply list_elem_of_In.
    - apply elem_of_cons. by left. }
  cbn [execute_entries].
  rewrite (execute_entry_info p1 p2 e M objs1 algos1 Hout), Halgo1.
  match goal with
  | |- context [execute_entries p1 p2 after ?st] =>
      pose proof (execute_entries_algos p1 p2 after st (te_id e) Hnd2)
        as [_ Hkeep2];
      destruct (execute_entries p1 p2 after st)
        as [r2 [[m2 objs2] algos2]]
  end.
  cbn [fst snd] in Hkeep2 |- *. rewrite Hkeep2.
  - apply lookup_insert_eq.
  - intros e2 He2 Hid2. exfalso. apply Hid. rewrite <- Hid2.
    apply list_elem_of_In, in_map. by apply list_elem_of_In.
Qed.

End OnePass.

Lemma alone_shown (es : list TankEntry) (gs : GameState Z) (e : TankEntry) :
  NoDup (List.map te_id es) -> e ∈ es -> alone_on_cell es gs e ->
  drawn_at (tank_of es) gs (position (te_tank e)) = tank_symbol (te_tank e).
Proof.
  intros Hnd He (Hlive & Hon & Hin & Halone).
  assert (Hview : tank_of es (te_id e) = Some (te_tank e)).
  { unfold tank_of. by rewrite (find_entry_NoDup es e Hnd He). }
  unfold drawn_at.
  destruct (existsb (shell_on (tank_of es) (position (te_tank e)))
                    (objects gs)) eqn:Hs.
  { exfalso. apply existsb_exists in Hs as (o & Ho & Hon_o).
    unfold shell_on in Hon_o.
    apply andb_true_iff in Hon_o as [Hon_o Hp].
    apply andb_true_iff in Hon_o as [Hsh Hl].
    apply negb_true_iff in Hl. apply pos_eqb_eq in Hp.
    apply list_elem_of_In in Ho.
    rewrite (Halone o Ho Hl Hp) in Hsh. discriminate. }
  unfold getObjectAt. cbn [objects set_objects].
  destruct (getObjectAt_from (tank_of es) 0 (rev (objects gs))
              (position (te_tank e))) as [[j o] |] eqn:Hg.
  - apply getObjectAt_from_iff in Hg as (k & _ & Hk & Hl & Hp & _).
    apply list_elem_of_lookup_2, list_elem_of_In in Hk.
    apply in_rev, list_elem_of_In in Hk.
    rewrite (Halone o Hk Hl Hp). cbn. by rewrite Hview.
  - exfalso.
    pose proof (proj1 (getObjectAt_from_None _ _ _ _) Hg (TankObj (te_id e)))
      as Hno.
    destruct Hno as [Hd | Hp].
    + apply list_elem_of_In. rewrite <- in_rev. by apply list_elem_of_In.
    + cbn in Hd. rewrite Hview in Hd. congruence.
    + cbn in Hp. by rewrite Hview in Hp.
Qed.
(** C10.  The matrix built at the head of [executeImmediateActions] has
    the size of the board, and each of its cells reads ['*'] when a live
    shell is on the cell, whatever else is there; else the symbol of the
    last live object of [state->objects] on the cell; else a blank.  A
    unit whose outcome is [RETURNING_BATTLE_INFO] is shown the matrix the
    loop has reached with ['%'] on its own cell and every other cell as
    it is; afterwards the matrix carries the unit's own symbol on that
    cell, every other cell is untouched, [state->objects] is not changed,
    and the matrix is what it was before exactly if it showed the unit's
    symbol on that cell.  So, in a pass over entries with distinct ids,
    an asking unit that has a strategy is handed exactly the built matrix
    with ['%'] on its own cell, provided the board shows each unit that
    asked before it on that unit's cell (nothing is asked of the first):
    a live shell reads ['*'] in what it is handed, and a unit that asked
    before reads as its own symbol, not as ['%'].  When the board shows
    every asking unit on its cell the matrix is the built one again after
    the pass.  The board shows a unit on its cell whenever the unit is
    the only live object on it. *)
Theorem C10_snapshot (view : Z -> option Tank) (gs : GameState Z) :
  let bw := Z.to_nat (board_width gs) in
  let bh := Z.to_nat (board_height gs) in
  (rect bw bh (build_board_matrix view gs)
   /\ forall q, on_board bw bh q ->
                seen_at (build_board_matrix view gs) q = drawn_at view gs q)
  /\ (forall s,
         ShellObj s ∈ objects gs -> shell_is_destroyed s = false ->
         on_board bw bh (shell_position s) ->
         seen_at (build_board_matrix view gs) (shell_position s) = "*"%char)
  /\ (forall (w h : nat) (p1 p2 : MyPlayer) (e : TankEntry)
             (m : list (list ascii)) (objs : list (GameObject Z))
             (algos : gmap Z Strat) (algo : Strat),
         outcome (te_data e) = RETURNING_BATTLE_INFO ->
         is_destroyed (te_tank e) = false ->
         algos !! te_id e = Some algo ->
         rect w h m -> on_board w h (position (te_tank e)) ->
         let own := position (te_tank e) in
         let snapshot := matrix_set m own "%" in
         let r := execute_entry p1 p2 e (m, objs, algos) in
         let m' := fst (fst (snd r)) in
         seen_at snapshot own = "%"%char
         /\ (forall q, on_board w h q -> q <> own ->
               seen_at snapshot q = seen_at m q)
         /\ snd (snd r) !! te_id e
            = Some (updateTankWithBattleInfo
                      (if player_id (te_tank e) =? 1 then p1 else p2)
                      algo snapshot)
         /\ seen_at m' own = tank_symbol (te_tank e)
         /\ (forall q, on_board w h q -> q <> own ->
               seen_at m' q = seen_at m q)
         /\ (m' = m <-> seen_at m own = tank_symbol (te_tank e))
         /\ snd (fst (snd r)) = objs)
  /\ (forall (p1 p2 : MyPlayer) (before after : list TankEntry)
             (e : TankEntry) (algos : gmap Z Strat) (algo : Strat),
         let es := before ++ e :: after in
         NoDup (List.map te_id es) ->
         outcome (te_data e) = RETURNING_BATTLE_INFO ->
         (forall e1, e1 ∈ before ->
                     outcome (te_data e1) = RETURNING_BATTLE_INFO ->
                     is_destroyed (te_tank e1) = false
                     /\ on_board bw bh (position (te_tank e1))
                     /\ drawn_at (tank_of es) gs (position (te_tank e1))
                        = tank_symbol (te_tank e1)) ->
         algos !! te_id e = Some algo ->
         let own := position (te_tank e) in
         let snapshot :=
           matrix_set (build_board_matrix (tank_of es) gs) own "%" in
         snd (fst (executeImmediateActions p1 p2 gs algos es)) !! te_id e
         = Some (updateTankWithBattleInfo
                   (if player_id (te_tank e) =? 1 then p1 else p2)
                   algo snapshot)
         /\ (on_board bw bh own ->
             seen_at snapshot own = "%"%char
             /\ forall q, on_board bw bh q -> q <> own ->
                          seen_at snapshot q = drawn_at (tank_of es) gs q))
  /\ (forall (p1 p2 : MyPlayer) (es : list TankEntry) (algos : gmap Z Strat),
         NoDup (List.map te_id es) ->
         (forall e, e ∈ es -> outcome (te_data e) = RETURNING_BATTLE_INFO ->
                    is_destroyed (te_tank e) = false
                    /\ on_board bw bh (position (te_tank e))
                    /\ drawn_at (tank_of es) gs (position (te_tank e))
                       = tank_symbol (te_tank e)) ->
         fst (fst (snd (execute_entries p1 p2 es
                          (build_board_matrix (tank_of es) gs, objects gs,
                           algos))))
         = build_board_matrix (tank_of es) gs)
  /\ (forall (es : list TankEntry) (e : TankEntry),
         NoDup (List.map te_id es) -> e ∈ es -> alone_on_cell es gs e ->
         drawn_at (tank_of es) gs (position (te_tank e))
         = tank_symbol (te_tank e)).
Proof.
  intros bw bh.
  assert (Hrect : forall v, rect bw bh (build_board_matrix v gs))
    by (intros v; apply build_board_matrix_rect).
  split_and!.
  - apply Hrect.
  - intros q Hq. by apply build_board_matrix_drawn.
  - intros s Hin Hlive Hon. unfold build_board_matrix.
    eapply fold_draw_shell_star; eauto.
    apply rect_fold_draw_object, rect_new.
  - intros w h p1 p2 e m objs algos algo Hout Hlive Halgo Hr Hon
           own snapshot r m'.
    subst r m'. rewrite (execute_entry_info p1 p2 e m objs algos Hout).
    rewrite Halgo, Hlive. cbn [fst snd]. fold own. fold snapshot.
    assert (Hrs : rect w h snapshot) by (by apply rect_set).
    split_and!.
    + by apply (seen_set_same w h).
    + intros q Hq Hne. by apply (seen_set_other w h).
    + apply lookup_insert_eq.
    + by apply (seen_set_same w h).
    + intros q Hq Hne.
      rewrite (seen_set_other w h) by done. by apply (seen_set_other w h).
    + unfold snapshot. rewrite set_back. split.
      * intros Heq. rewrite <- Heq at 1. by apply (seen_set_same w h).
      * intros Hshown. by apply (matrix_set_id w h).
    + done.
  - intros p1 p2 before after e algos algo es Hnd Hout Hbefore Halgo
           own snapshot.
    set (M := build_board_matrix (tank_of es) gs) in *.
    assert (HM : rect bw bh M) by apply Hrect.
    split.
    + unfold executeImmediateActions. fold M.
      assert (Hbefore' : forall e1, e1 ∈ before ->
                outcome (te_data e1) = RETURNING_BATTLE_INFO ->
                is_destroyed (te_tank e1) = false
                /\ on_board bw bh (position (te_tank e1))
                /\ seen_at M (position (te_tank e1))
                   = tank_symbol (te_tank e1)).
      { intros e1 He1 Hout1.
        destruct (Hbefore e1 He1 Hout1) as (Hl & Hon & Hd).
        split_and!; try done. subst M.
        by rewrite build_board_matrix_drawn. }
      pose proof (pass_handover p1 p2 bw bh M HM before after e
                    (objects gs) algos algo Hnd Hout Hbefore' Halgo) as Hh.
      fold es in Hh.
      destruct (execute_entries p1 p2 es (M, objects gs, algos))
        as [es' [[m' objs'] algos']].
      exact Hh.
    + intros Hon. split; [by apply (seen_set_same bw bh) |].
      intros q Hq Hne. unfold snapshot.
      rewrite (seen_set_other bw bh) by done.
      by apply build_board_matrix_drawn.
  - intros p1 p2 es algos Hnd Hreq.
    set (M := build_board_matrix (tank_of es) gs).
    assert (Hreq' : forall e, e ∈ es ->
                      outcome (te_data e) = RETURNING_BATTLE_INFO ->
                      is_destroyed (te_tank e) = false
                      /\ on_board bw bh (position (te_tank e))
                      /\ seen_at M (position (te_tank e))
                         = tank_symbol (te_tank e)).
    { intros e He Hout. destruct (Hreq e He Hout) as (Hl & Hon & Hd).
      split_and!; try done. subst M.
      by rewrite build_board_matrix_drawn. }
    by destruct (pass_snapshots p1 p2 bw bh M (Hrect _) es (objects gs)
                   algos Hnd Hreq') as [Hm _].
  - intros es e Hnd He Halone. by apply alone_shown.
Qed.

End PassFacts.

(** The two units in the corners of [snapshot_board] ask for the battle
    info one after the other, for C10.  The first is the only live
    object on its cell; the strategy of the second is handed the built
    matrix with ['%'] on the second unit's cell, in which the first unit
    reads ['1'] and the cell of the shell over the mine reads ['*']. *)
Lemma C10_snapshot_witness :
  snd (fst (executeImmediateActions (mkPlayer 1 3 3) (mkPlayer 2 3 3)
              snapshot_board
              (<[0 := mkRotatingAlgorithm]> {[1 := mkRotatingAlgorithm]})
              asking_entries))
  !! 1
  = Some (updateTankWithBattleInfo (mkPlayer 2 3 3) mkRotatingAlgorithm
            (matrix_set
               (build_board_matrix (tank_of asking_entries) snapshot_board)
               (mkPos 2 0) "%"))
  /\ seen_at (matrix_set
                (build_board_matrix (tank_of asking_entries) snapshot_board)
                (mkPos 2 0) "%") (mkPos 2 0) = "%"%char
  /\ seen_at (matrix_set
                (build_board_matrix (tank_of asking_entries) snapshot_board)
                (mkPos 2 0) "%") (mkPos 0 0) = "1"%char
  /\ seen_at (matrix_set
                (build_board_matrix (tank_of asking_entries) snapshot_board)
                (mkPos 2 0) "%") (mkPos 1 2) = "*"%char.
Proof.
  assert (Hnd : NoDup (List.map te_id asking_entries)) by compute_done.
  assert (Hin : asking_entry ∈ asking_entries)
    by (apply elem_of_cons; by left).
  destruct (C10_snapshot (Strat := RotatingAlgorithm)
              (tank_of asking_entries) snapshot_board)
    as (_ & _ & _ & Hhand & _ & Halone).
  assert (Hshown : drawn_at (tank_of asking_entries) snapshot_board
                            (position (te_tank asking_entry))
                   = tank_symbol (te_tank asking_entry)).
  { apply Halone; [exact Hnd | exact Hin |].
    split_and!; [reflexivity | unfold on_board; cbn; lia | |].
    - apply elem_of_cons. by left.
    - intros o Ho Hl Hp.
      apply elem_of_cons in Ho as [-> | Ho]; [reflexivity |].
      apply elem_of_cons in Ho as [-> | Ho]; [discriminate |].
      apply elem_of_cons in Ho as [-> | Ho]; [discriminate |].
      apply list_elem_of_singleton in Ho as ->. discriminate. }
  destruct (Hhand (mkPlayer 1 3 3) (mkPlayer 2 3 3) [asking_entry] []
              asking_second
              (<[0 := mkRotatingAlgorithm]> {[1 := mkRotatingAlgorithm]})
              mkRotatingAlgorithm Hnd eq_refl) as [Halgo Hcells].
  - intros e1 He1 _. apply list_elem_of_singleton in He1 as ->.
    split_and!; [reflexivity | unfold on_board; cbn; lia | exact Hshown].
  - reflexivity.
  - destruct Hcells as [Hown Hother]; [unfold on_board; cbn; lia |].
    split_and!.
    + exact Halgo.
    + exact Hown.
    + transitivity (drawn_at (tank_of asking_entries) snapshot_board
                             (mkPos 0 0)); [| reflexivity].
      apply (Hother (mkPos 0 0)); [unfold on_board; cbn; lia | discriminate].
    + transitivity (drawn_at (tank_of asking_entries) snapshot_board
                             (mkPos 1 2)); [| reflexivity].
      apply (Hother (mkPos 1 2)); [unfold on_board; cbn; lia | discriminate].
Defined.
